(** * tt-build: the JSON normaliser [optimize_json] of [tt_build/cli.py]

    A shallow embedding of [optimize_json] and of the Python library
    functions it calls ([str.replace], [re.sub] on the one pattern used,
    [json.loads], [json.dumps]), followed by the properties of the
    normaliser.  The archive builder [create_archive] and [main], which
    call it, are embedded as functions from the answers of the operating
    system to the list of the calls they make on it.

    Python text is a sequence of code points: [list N].  The input of the
    model is the decoded content of the file; the [UnicodeDecodeError]
    path of the source (a line that is not UTF-8) is outside the model. *)

From Stdlib Require Import List NArith ZArith Bool Lia Ascii.
From Stdlib Require String.
From Stdlib Require DecimalFacts DecimalN.
Import ListNotations.
Import String.StringSyntax.
Delimit Scope string_scope with string.

Local Open Scope N_scope.

(* ================================================================== *)
(** * Text *)

Definition str := list N.

(** Code points the source names. *)
Definition c_quote : N := 34.      (* the double quote *)
Definition c_backslash : N := 92.
Definition c_slash : N := 47.
Definition c_lbracket : N := 91.
Definition c_rbracket : N := 93.
Definition c_lbrace : N := 123.
Definition c_rbrace : N := 125.
Definition c_comma : N := 44.
Definition c_colon : N := 58.
Definition c_semicolon : N := 59.
Definition c_space : N := 32.
Definition c_tab : N := 9.
Definition c_lf : N := 10.
Definition c_cr : N := 13.
Definition c_bom : N := 65279.     (* U+FEFF *)
Definition c_nbsp : N := 160.      (* U+00A0 *)

(** [txt s] is the text written [s], where an apostrophe in [s] stands for
    the double quote character (no literal of the source holds an
    apostrophe). *)
Fixpoint txt (s : String.string) : str :=
  match s with
  | String.EmptyString => []
  | String.String a r =>
      (if N.eqb (N_of_ascii a) 39 then c_quote else N_of_ascii a) :: txt r
  end.
Arguments txt s%_string.

Fixpoint str_eqb (a b : str) : bool :=
  match a, b with
  | [], [] => true
  | x :: a', y :: b' => N.eqb x y && str_eqb a' b'
  | _, _ => false
  end.

(** [prefix_of p s]: [s.startswith(p)]. *)
Fixpoint prefix_of (p s : str) : bool :=
  match p, s with
  | [], _ => true
  | x :: p', y :: s' => N.eqb x y && prefix_of p' s'
  | _ :: _, [] => false
  end.

(** [contains p s]: [p in s] for texts. *)
Fixpoint contains (p s : str) : bool :=
  prefix_of p s ||
  match s with
  | [] => false
  | _ :: s' => contains p s'
  end.

(** [replace_char old new s]: [s.replace(old, new)] for a one-character
    [old]. *)
Definition replace_char (old : N) (new : str) (s : str) : str :=
  flat_map (fun c => if N.eqb c old then new else [c]) s.

(** [f.readlines()]: the content cut after every line feed, which stays at
    the end of its line. *)
Fixpoint readlines_from (cur : str) (s : str) : list str :=
  match s with
  | [] => match cur with [] => [] | _ => [rev cur] end
  | c :: r =>
      if N.eqb c c_lf then rev (c :: cur) :: readlines_from [] r
      else readlines_from (c :: cur) r
  end.

Definition readlines (s : str) : list str := readlines_from [] s.

(* ================================================================== *)
(** * Stage 1: the comment scanner (lines 51-63) *)

(** The [for i, char in enumerate(line)] loop: [find_comment in_str i l]
    scans the rest [l] of the line, which starts at index [i], and returns
    the index at which the loop breaks, if it does.  In a string a
    backslash takes the [continue] branch: the iteration ends and the next
    character is read by the next iteration like any other. *)
Fixpoint find_comment (in_str : bool) (i : nat) (l : str) : option nat :=
  match l with
  | [] => None
  | char :: rest =>
      if in_str then
        if N.eqb char c_backslash then find_comment true (S i) rest
        else if N.eqb char c_quote then find_comment false (S i) rest
        else find_comment true (S i) rest
      else if N.eqb char c_quote then find_comment true (S i) rest
      else if N.eqb char c_slash
              && match rest with
                 | next :: _ => N.eqb next c_slash
                 | [] => false
                 end
      then Some i
      else find_comment false (S i) rest
  end.

Definition strip_comment (line : str) : str :=
  if contains (txt "//") line then
    match find_comment false 0 line with
    | Some i => firstn i line
    | None => line
    end
  else line.

(* ================================================================== *)
(** * Stage 2: the bare-value quoter (line 65)

    [re.sub(PATTERN, TEMPLATE, line)].  Writing ' for the double quote,
    PATTERN has three groups,
      1. ['] [[^']*] ['] [\s*] [:] [\s*]
      2. [[^'\[{\s]] [[^,}\]']*] [[a-zA-Z]] [[^,}\]'\s]*]
      3. [\s*] [[,}]]
    and TEMPLATE is group 1, a quote, group 2, a quote, group 3.  The
    pattern is a sequence of single characters of a class and greedy
    repetitions of a class. *)

(** [\s] on text: [str.isspace] of one character. *)
Definition is_space (c : N) : bool :=
  ((9 <=? c) && (c <=? 13)) || ((28 <=? c) && (c <=? 32))
  || (c =? 133) || (c =? 160) || (c =? 5760)
  || ((8192 <=? c) && (c <=? 8202))
  || (c =? 8232) || (c =? 8233) || (c =? 8239) || (c =? 8287)
  || (c =? 12288).

(** [[a-zA-Z]] *)
Definition is_alpha (c : N) : bool :=
  ((65 <=? c) && (c <=? 90)) || ((97 <=? c) && (c <=? 122)).

(** the double quote, and the class of everything else *)
Definition is_quote (c : N) : bool := c =? c_quote.
Definition not_quote (c : N) : bool := negb (c =? c_quote).
(** [:] *)
Definition is_colon (c : N) : bool := c =? c_colon.
(** none of comma, closing brace, closing bracket, double quote *)
Definition is_body (c : N) : bool :=
  negb ((c =? c_comma) || (c =? c_rbrace) || (c =? c_rbracket)
        || (c =? c_quote)).
(** none of double quote, opening bracket, opening brace, [\s] *)
Definition is_first (c : N) : bool :=
  negb ((c =? c_quote) || (c =? c_lbracket) || (c =? c_lbrace)
        || is_space c).
(** none of comma, closing brace, closing bracket, double quote, [\s] *)
Definition is_tail (c : N) : bool := is_body c && negb (is_space c).
(** [[,}]] *)
Definition is_term (c : N) : bool := (c =? c_comma) || (c =? c_rbrace).

Inductive atom : Type :=
| One (cls : N -> bool)      (* one character of the class *)
| Many (cls : N -> bool).    (* [cls*], greedy *)

(** Backtracking match of a sequence of atoms at the head of [s]; [k] is
    the rest of the pattern, called on the text left.  A greedy
    repetition takes as many characters as it can and gives them back one
    at a time while the rest fails, as [re] does. *)
Fixpoint match_atoms {R : Type} (p : list atom) (s : str)
    (k : str -> option R) {struct p} : option R :=
  match p with
  | [] => k s
  | One cls :: p' =>
      match s with
      | c :: s' => if cls c then match_atoms p' s' k else None
      | [] => None
      end
  | Many cls :: p' =>
      (fix many (s : str) : option R :=
         match s with
         | c :: s' =>
             if cls c then
               match many s' with
               | Some r => Some r
               | None => match_atoms p' s k
               end
             else match_atoms p' s k
         | [] => match_atoms p' [] k
         end) s
  end.

Definition group1 : list atom :=
  [One is_quote; Many not_quote; One is_quote; Many is_space;
   One is_colon; Many is_space].
Definition group2 : list atom :=
  [One is_first; Many is_body; One is_alpha; Many is_tail].
Definition group3 : list atom :=
  [Many is_space; One is_term].

(** The text of [s] up to its suffix [s']. *)
Definition consumed (s s' : str) : str :=
  firstn (length s - length s') s.

(** One match of the pattern at the head of [s]: the three groups and the
    text after the match. *)
Definition match_bare_value (s : str) : option (str * str * str * str) :=
  match_atoms group1 s (fun s1 =>
  match_atoms group2 s1 (fun s2 =>
  match_atoms group3 s2 (fun s3 =>
    Some (consumed s s1, consumed s1 s2, consumed s2 s3, s3)))).

(** The template: group 1, a quote, group 2, a quote, group 3. *)
Definition expand (g1 g2 g3 : str) : str :=
  g1 ++ [c_quote] ++ g2 ++ [c_quote] ++ g3.

(** [re.sub]: the leftmost match is replaced and the search goes on after
    it.  [skip] counts the characters of the last match still ahead; no
    match starts inside it. *)
Fixpoint sub_from (skip : nat) (s : str) : str :=
  match s with
  | [] => []
  | c :: s' =>
      match skip with
      | S n => sub_from n s'
      | O =>
          match match_bare_value s with
          | Some (g1, g2, g3, _) =>
              expand g1 g2 g3
              ++ sub_from (length g1 + length g2 + length g3 - 1) s'
          | None => c :: sub_from 0 s'
          end
      end
  end.

Definition quote_bare_values (line : str) : str := sub_from 0 line.

(* ================================================================== *)
(** * Per-line cleaning (lines 44-76) *)

Definition clean_line (line : str) : str :=
  let line := strip_comment line in
  let line := quote_bare_values line in
  let line := replace_char c_bom [] line in
  let line := replace_char c_semicolon [c_comma] line in
  let line := replace_char c_tab [c_space] line in
  let line := replace_char c_cr [] line in
  let line := replace_char c_lf [c_space] line in
  let line := replace_char c_space [c_space] line in
  let line := replace_char c_nbsp [] line in
  line.

(** [''.join(new_lines)] *)
Definition cleaned_text (f : str) : str :=
  concat (map clean_line (readlines f)).

(* ================================================================== *)
(** * Stage 3: the bracket truncation (lines 79-94) *)

(** The [for i in range(len(full_string))] loop; the result is the index
    at which it breaks. *)
Fixpoint find_balance (in_str : bool) (stack : Z) (i : nat) (l : str)
    : option nat :=
  match l with
  | [] => None
  | c :: rest =>
      if in_str then
        if c =? c_quote then find_balance false stack (S i) rest
        else find_balance true stack (S i) rest
      else if c =? c_quote then find_balance true stack (S i) rest
      else if c =? c_lbracket then
        find_balance false (stack + 1)%Z (S i) rest
      else if c =? c_rbracket then
        let stack := (stack - 1)%Z in
        if (stack =? 0)%Z then Some i
        else find_balance false stack (S i) rest
      else find_balance false stack (S i) rest
  end.

Definition truncate (full_string : str) : str :=
  match find_balance false 0%Z 0%nat full_string with
  | Some i => firstn (i + 1) full_string
  | None => full_string
  end.

(* ================================================================== *)
(** * JSON values

    [json.loads] returns [None], [bool], [int], [float], [str], [list] and
    [dict] values.  Python's [float] (its parsing of a literal and its
    [repr]) is a parameter of the model: nothing in [optimize_json]
    computes with a float. *)

Class PyFloat : Type := {
  pyfloat : Type;
  (** [float(text)] on the text of a number with a fraction or an exponent *)
  float_of_literal : str -> pyfloat;
  (** the values of the constants [NaN], [Infinity], [-Infinity] *)
  float_nan : pyfloat;
  float_inf : pyfloat;
  float_neg_inf : pyfloat;
  (** [json.encoder]'s [floatstr]: [float.__repr__], or the constant's name *)
  float_repr : pyfloat -> str
}.

(** The outcome of a scanner of the model: a value and the text left, a
    text the scanner refuses, or a model out of fuel. *)
Inductive parse (A : Type) : Type :=
| Parsed (a : A) (rest : str)
| Invalid                      (* the scanner raises *)
| Exhausted.                   (* the fuel of the model ran out *)
Arguments Parsed {A} a rest.
Arguments Invalid {A}.
Arguments Exhausted {A}.

Section Json.
Context {FM : PyFloat}.

Local Unset Elimination Schemes.
Inductive json : Type :=
| JNull
| JBool (b : bool)
| JInt (z : Z)
| JFloat (f : pyfloat)
| JStr (s : str)
| JArr (items : list json)
| JObj (members : list (str * json)).
Local Set Elimination Schemes.

(** A [dict] keeps its keys in insertion order, each key once. *)
Definition dict : Type := list (str * json).

Definition keys (d : dict) : list str := map fst d.

(** [k in ks] for a list of keys *)
Definition key_in (k : str) (ks : list str) : bool := existsb (str_eqb k) ks.

(** [d.get(k)] *)
Fixpoint dict_get (k : str) (d : dict) : option json :=
  match d with
  | [] => None
  | (k', v) :: r => if str_eqb k k' then Some v else dict_get k r
  end.

(** [del d[k]] *)
Definition dict_del (k : str) (d : dict) : dict :=
  filter (fun kv => negb (str_eqb k (fst kv))) d.

(** [d[k] = v]: a key already there keeps its place, a new one goes last. *)
Fixpoint dict_set (k : str) (v : json) (d : dict) : dict :=
  match d with
  | [] => [(k, v)]
  | (k', v') :: r =>
      if str_eqb k k' then (k', v) :: r else (k', v') :: dict_set k v r
  end.

(* ------------------------------------------------------------------ *)
(** ** [json.loads] *)

(** JSON whitespace: space, tab, line feed, carriage return *)
Definition is_ws (c : N) : bool :=
  (c =? 32) || (c =? 9) || (c =? 10) || (c =? 13).

Fixpoint skip_ws (s : str) : str :=
  match s with
  | c :: r => if is_ws c then skip_ws r else s
  | [] => []
  end.

Definition is_digit (c : N) : bool := (48 <=? c) && (c <=? 57).

Definition hex_val (c : N) : option N :=
  if is_digit c then Some (c - 48)
  else if (97 <=? c) && (c <=? 102) then Some (c - 87)
  else if (65 <=? c) && (c <=? 70) then Some (c - 55)
  else None.

Definition hex4 (a b c d : N) : option N :=
  match hex_val a, hex_val b, hex_val c, hex_val d with
  | Some x, Some y, Some z, Some w => Some (((x * 16 + y) * 16 + z) * 16 + w)
  | _, _, _, _ => None
  end.

Definition is_high_surrogate (c : N) : bool := (55296 <=? c) && (c <=? 56319).
Definition is_low_surrogate (c : N) : bool := (56320 <=? c) && (c <=? 57343).
Definition join_surrogates (hi lo : N) : N :=
  65536 + (hi - 55296) * 1024 + (lo - 56320).

(** The one-character escapes after a backslash. *)
Definition unescape (e : N) : option N :=
  if e =? 34 then Some 34            (* quote *)
  else if e =? 92 then Some 92       (* backslash *)
  else if e =? 47 then Some 47       (* / *)
  else if e =? 98 then Some 8        (* b *)
  else if e =? 102 then Some 12      (* f *)
  else if e =? 110 then Some 10      (* n *)
  else if e =? 114 then Some 13      (* r *)
  else if e =? 116 then Some 9       (* t *)
  else None.

Definition push (c : N) (r : option (str * str)) : option (str * str) :=
  match r with
  | Some (t, rest) => Some (c :: t, rest)
  | None => None
  end.

(** [scanstring] in strict mode, from the character after the opening
    quote: the string's content and the text after the closing quote. *)
Fixpoint scanstring (s : str) : option (str * str) :=
  match s with
  | [] => None
  | c :: r =>
      if c =? c_quote then Some ([], r)
      else if c =? c_backslash then
        match r with
        | [] => None
        | e :: r1 =>
            if e =? 117 then                       (* backslash u *)
              match r1 with
              | h1 :: h2 :: h3 :: h4 :: r2 =>
                  match r2 with
                  | [] => None
                  | _ :: _ =>
                      match hex4 h1 h2 h3 h4 with
                      | None => None
                      | Some cp =>
                          if is_high_surrogate cp then
                            match r2 with
                            | b :: u :: g1 :: g2 :: g3 :: g4 :: r3 =>
                                if (b =? c_backslash) && (u =? 117)
                                   && negb (Nat.eqb (length r3) 0)
                                then
                                  match hex4 g1 g2 g3 g4 with
                                  | None => None
                                  | Some lo =>
                                      if is_low_surrogate lo
                                      then push (join_surrogates cp lo)
                                                (scanstring r3)
                                      else push cp (scanstring r2)
                                  end
                                else push cp (scanstring r2)
                            | _ => push cp (scanstring r2)
                            end
                          else push cp (scanstring r2)
                      end
                  end
              | _ => None
              end
            else
              match unescape e with
              | Some c' => push c' (scanstring r1)
              | None => None
              end
        end
      else if c <=? 31 then None
      else push c (scanstring r)
  end.

Fixpoint span_digits (s : str) : str * str :=
  match s with
  | c :: r =>
      if is_digit c then let (ds, r') := span_digits r in (c :: ds, r')
      else ([], s)
  | [] => ([], [])
  end.

(** The number pattern at the head of a text, in three parts: an integer
    part [-?(0|[1-9]\d* )], then optionally a fraction [\.\d+], then
    optionally an exponent [[eE][-+]?\d+].  Each function returns the text
    of its part and the text left. *)
Definition match_integer (s : str) : option (str * str) :=
  let (sign, s1) :=
    match s with
    | c :: r => if c =? 45 then ([c], r) else ([], s)
    | [] => ([], s)
    end in
  match s1 with
  | c :: r =>
      if c =? 48 then Some (sign ++ [c], r)
      else if is_digit c then
        let (ds, r') := span_digits r in Some (sign ++ c :: ds, r')
      else None
  | [] => None
  end.

Definition match_fraction (s : str) : str * str :=
  match s with
  | dot :: d :: r =>
      if (dot =? 46) && is_digit d then
        let (ds, r') := span_digits r in (dot :: d :: ds, r')
      else ([], s)
  | _ => ([], s)
  end.

Definition match_exponent (s : str) : str * str :=
  match s with
  | e :: r =>
      if (e =? 101) || (e =? 69) then
        let (sign, r1) :=
          match r with
          | c :: r' => if (c =? 45) || (c =? 43) then ([c], r') else ([], r)
          | [] => ([], r)
          end in
        match span_digits r1 with
        | ([], _) => ([], s)
        | (ds, r2) => (e :: sign ++ ds, r2)
        end
      else ([], s)
  | [] => ([], s)
  end.

Fixpoint uint_of_digits (ds : str) : Decimal.uint :=
  match ds with
  | [] => Decimal.Nil
  | c :: r =>
      let u := uint_of_digits r in
      match N.to_nat (c - 48) with
      | 0%nat => Decimal.D0 u | 1%nat => Decimal.D1 u | 2%nat => Decimal.D2 u
      | 3%nat => Decimal.D3 u | 4%nat => Decimal.D4 u | 5%nat => Decimal.D5 u
      | 6%nat => Decimal.D6 u | 7%nat => Decimal.D7 u | 8%nat => Decimal.D8 u
      | _ => Decimal.D9 u
      end
  end.

(** [int(text)] on the text of an integer part *)
Definition int_of_literal (t : str) : Z :=
  match t with
  | c :: ds =>
      if c =? 45 then (- Z.of_N (N.of_uint (uint_of_digits ds)))%Z
      else Z.of_N (N.of_uint (uint_of_digits t))
  | [] => 0%Z
  end.

Definition match_number (s : str) : parse json :=
  match match_integer s with
  | None => Invalid
  | Some (int_part, r) =>
      let (frac, r1) := match_fraction r in
      let (exp, r2) := match_exponent r1 in
      match frac, exp with
      | [], [] => Parsed (JInt (int_of_literal int_part)) r2
      | _, _ => Parsed (JFloat (float_of_literal (int_part ++ frac ++ exp))) r2
      end
  end.

(** [scan_once], [_parse_array] and [_parse_object] of the scanner.  The
    loops take the text from the first element (key) on; [object_loop]
    carries the [dict] built so far. *)
Fixpoint scan_once (fuel : nat) (s : str) {struct fuel} : parse json :=
  match fuel with
  | O => Exhausted
  | S fuel' =>
      match s with
      | [] => Invalid
      | c :: r =>
          if c =? c_quote then
            match scanstring r with
            | Some (t, r') => Parsed (JStr t) r'
            | None => Invalid
            end
          else if c =? c_lbrace then
            match skip_ws r with
            | c' :: r' =>
                if c' =? c_rbrace then Parsed (JObj []) r'
                else
                  match object_loop fuel' [] (c' :: r') with
                  | Parsed d r'' => Parsed (JObj d) r''
                  | Invalid => Invalid
                  | Exhausted => Exhausted
                  end
            | [] => Invalid
            end
          else if c =? c_lbracket then
            match skip_ws r with
            | c' :: r' =>
                if c' =? c_rbracket then Parsed (JArr []) r'
                else
                  match array_loop fuel' (c' :: r') with
                  | Parsed vs r'' => Parsed (JArr vs) r''
                  | Invalid => Invalid
                  | Exhausted => Exhausted
                  end
            | [] => Invalid
            end
          else if prefix_of (txt "null") s then Parsed JNull (skipn 4 s)
          else if prefix_of (txt "true") s then Parsed (JBool true) (skipn 4 s)
          else if prefix_of (txt "false") s then
            Parsed (JBool false) (skipn 5 s)
          else if prefix_of (txt "NaN") s then
            Parsed (JFloat float_nan) (skipn 3 s)
          else if prefix_of (txt "Infinity") s then
            Parsed (JFloat float_inf) (skipn 8 s)
          else if prefix_of (txt "-Infinity") s then
            Parsed (JFloat float_neg_inf) (skipn 9 s)
          else match_number s
      end
  end
with array_loop (fuel : nat) (s : str) {struct fuel} : parse (list json) :=
  match fuel with
  | O => Exhausted
  | S fuel' =>
      match scan_once fuel' s with
      | Parsed v r =>
          match skip_ws r with
          | c :: r' =>
              if c =? c_rbracket then Parsed [v] r'
              else if c =? c_comma then
                match array_loop fuel' (skip_ws r') with
                | Parsed vs r'' => Parsed (v :: vs) r''
                | Invalid => Invalid
                | Exhausted => Exhausted
                end
              else Invalid
          | [] => Invalid
          end
      | Invalid => Invalid
      | Exhausted => Exhausted
      end
  end
with object_loop (fuel : nat) (d : dict) (s : str) {struct fuel}
    : parse dict :=
  match fuel with
  | O => Exhausted
  | S fuel' =>
      match s with
      | c :: r =>
          if c =? c_quote then
            match scanstring r with
            | Some (key, r1) =>
                match skip_ws r1 with
                | c1 :: r2 =>
                    if c1 =? c_colon then
                      match scan_once fuel' (skip_ws r2) with
                      | Parsed v r3 =>
                          let d := dict_set key v d in
                          match skip_ws r3 with
                          | c3 :: r4 =>
                              if c3 =? c_rbrace then Parsed d r4
                              else if c3 =? c_comma then
                                object_loop fuel' d (skip_ws r4)
                              else Invalid
                          | [] => Invalid
                          end
                      | Invalid => Invalid
                      | Exhausted => Exhausted
                      end
                    else Invalid
                | [] => Invalid
                end
            | None => Invalid
            end
          else Invalid
      | [] => Invalid
      end
  end.

(** [json.loads(s)] on text: [None] stands for [json.JSONDecodeError].
    The fuel is enough for every text ([loads_never_exhausted]).  The
    limits of the interpreter (the recursion depth, the number of digits
    [int] accepts) are not part of the model. *)
Definition loads (s : str) : option json :=
  if prefix_of [c_bom] s then None
  else
    match scan_once (2 * length s + 1) (skip_ws s) with
    | Parsed v r =>
        match skip_ws r with
        | [] => Some v
        | _ :: _ => None
        end
    | _ => None
    end.

(* ------------------------------------------------------------------ *)
(** ** [json.dumps(data, ensure_ascii=False)] *)

Definition hex_digit (n : N) : N := if n <? 10 then 48 + n else 87 + n.

(** The replacement of one character in [encode_basestring]. *)
Definition escape_char (c : N) : str :=
  if c =? 34 then [92; 34]
  else if c =? 92 then [92; 92]
  else if c =? 10 then [92; 110]
  else if c =? 13 then [92; 114]
  else if c =? 9 then [92; 116]
  else if c =? 8 then [92; 98]
  else if c =? 12 then [92; 102]
  else if c <? 32 then [92; 117; 48; 48; hex_digit (c / 16); hex_digit (c mod 16)]
  else [c].

Definition encode_basestring (s : str) : str :=
  [c_quote] ++ flat_map escape_char s ++ [c_quote].

Fixpoint digits_of_uint (u : Decimal.uint) : str :=
  match u with
  | Decimal.Nil => []
  | Decimal.D0 r => 48 :: digits_of_uint r
  | Decimal.D1 r => 49 :: digits_of_uint r
  | Decimal.D2 r => 50 :: digits_of_uint r
  | Decimal.D3 r => 51 :: digits_of_uint r
  | Decimal.D4 r => 52 :: digits_of_uint r
  | Decimal.D5 r => 53 :: digits_of_uint r
  | Decimal.D6 r => 54 :: digits_of_uint r
  | Decimal.D7 r => 55 :: digits_of_uint r
  | Decimal.D8 r => 56 :: digits_of_uint r
  | Decimal.D9 r => 57 :: digits_of_uint r
  end.

(** [int.__repr__] *)
Definition repr_int (z : Z) : str :=
  match z with
  | Zneg p => 45 :: digits_of_uint (N.to_uint (Npos p))
  | _ => digits_of_uint (N.to_uint (Z.to_N z))
  end.

(** [sep.join(l)] *)
Fixpoint join (sep : str) (l : list str) : str :=
  match l with
  | [] => []
  | [x] => x
  | x :: r => x ++ sep ++ join sep r
  end.

(** The item separator [', '] and the key separator [': '] are the
    defaults of [json.dumps]: the call passes no [separators]. *)
Definition item_separator : str := txt ", ".
Definition key_separator : str := txt ": ".

Fixpoint dumps (v : json) : str :=
  match v with
  | JNull => txt "null"
  | JBool true => txt "true"
  | JBool false => txt "false"
  | JInt z => repr_int z
  | JFloat f => float_repr f
  | JStr s => encode_basestring s
  | JArr l =>
      [c_lbracket] ++ join item_separator (map dumps l) ++ [c_rbracket]
  | JObj d =>
      [c_lbrace]
      ++ join item_separator
           (map (fun kv =>
                   encode_basestring (fst kv) ++ key_separator
                   ++ dumps (snd kv)) d)
      ++ [c_rbrace]
  end.

End Json.

(* ================================================================== *)
(** * The postprocessing loop (lines 99-120) and [optimize_json] *)

Section Program.
Context {FM : PyFloat}.

(** A piece of an f-string: literal text, or a value formatted in place. *)
Inductive piece : Type :=
| Text (s : str)
| Value (v : json).

(** The calls made on the module's [logger]. *)
Inductive log_record : Type :=
| LogDebug (msg : list piece)
| LogInfo (msg : list piece).

(** The exceptions [optimize_json] can end with. *)
Inductive exn : Type :=
| JSONDecodeError                 (* raised by [json.loads] *)
| TypeError                       (* [for] over a value that is not iterable *)
| AttributeError                  (* [.copy()] or [.keys()] on a non-dict *)
| Exception (msg : list piece).   (* line 107 *)

Inductive result (A : Type) : Type :=
| Return (a : A)
| Raise (e : exn).
Arguments Return {A} a.
Arguments Raise {A} e.

(** The message of line 108-109 for a plugin id. *)
Definition privileged_message (plugin_id : json) : list piece :=
  [Text (txt "Privileged tag detected in plugin ");
   Value plugin_id;
   Text (txt ". This tag is deprecated and no longer considered secure."
         ++ txt "Please replace it with 'require privileges': true.")].

(** [arr_obj.get('id', 'unknown id')] *)
Definition plugin_id_of (arr_obj : dict) : json :=
  match dict_get (txt "id") arr_obj with
  | Some v => v
  | None => JStr (txt "unknown id")
  end.

(** The body of the loop for one element of [data]: the records logged,
    and the element as the body leaves it or the exception raised.  Only a
    [dict] has both [copy] and [keys]. *)
Definition process_object (arr_obj : json) : list log_record * result json :=
  match arr_obj with
  | JObj o =>
      let obj_keys := keys o in
      let plugin_id := plugin_id_of o in
      let log0 := [LogDebug [Text (txt "analysing ID: "); Value plugin_id]] in
      if key_in (txt "privileged") obj_keys then
        (log0, Raise (Exception (privileged_message plugin_id)))
      else
        let (log1, o1) :=
          if key_in (txt "strict lua") obj_keys then
            ([LogInfo [Value plugin_id;
                       Text (txt ": removed strict lua attribute")]],
             dict_del (txt "strict lua") o)
          else ([], o) in
        let (log2, o2) :=
          if key_in (txt "script") obj_keys || key_in (txt "scripts") obj_keys
          then
            ([LogInfo [Value plugin_id; Text (txt ": muted Lua")]],
             dict_set (txt "mute lua") (JBool true) o1)
          else ([], o1) in
        (log0 ++ log1 ++ log2, Return (JObj o2))
  | _ => ([], Raise AttributeError)
  end.

(** [for arr_obj in data] over a list. *)
Fixpoint process_list (data : list json) : list log_record * result (list json) :=
  match data with
  | [] => ([], Return [])
  | arr_obj :: rest =>
      match process_object arr_obj with
      | (lg, Raise e) => (lg, Raise e)
      | (lg, Return done) =>
          match process_list rest with
          | (lg', Raise e) => (lg ++ lg', Raise e)
          | (lg', Return rest') => (lg ++ lg', Return (done :: rest'))
          end
      end
  end.

(** [for arr_obj in data] for whatever [json.loads] returned: a list is
    walked; a [dict] or a [str] is iterable too, its elements are texts,
    and an empty one is left as it is; the rest cannot be iterated. *)
Definition postprocess (data : json) : list log_record * result json :=
  match data with
  | JArr l =>
      match process_list l with
      | (lg, Return l') => (lg, Return (JArr l'))
      | (lg, Raise e) => (lg, Raise e)
      end
  | JObj [] => ([], Return data)
  | JObj (_ :: _) => ([], Raise AttributeError)
  | JStr [] => ([], Return data)
  | JStr (_ :: _) => ([], Raise AttributeError)
  | JNull | JBool _ | JInt _ | JFloat _ => ([], Raise TypeError)
  end.

(** The text handed to [json.loads] on line 97. *)
Definition truncated_text (f : str) : str := truncate (cleaned_text f).

(** [optimize_json(config, f)]: the records logged and the text returned
    or the exception raised.  [config] is not read by the function. *)
Definition optimize_json_log (f : str) : list log_record * result str :=
  match loads (truncated_text f) with
  | None => ([], Raise JSONDecodeError)
  | Some data =>
      match postprocess data with
      | (lg, Return data') => (lg, Return (dumps data'))
      | (lg, Raise e) => (lg, Raise e)
      end
  end.

Definition optimize_json (f : str) : result str := snd (optimize_json_log f).

End Program.

Arguments Return {FM A} a.
Arguments Raise {FM A} e.


(* ================================================================== *)
(** * The archive builder: [create_archive] (lines 124-211) and [main]
      (lines 216-273)

    The two functions act on the file system.  A run is modelled by the
    list of the [event]s it produces, in the order of the calls, and by
    its [outcome].  What the operating system and the Python runtime
    answer is a parameter ([Host]), and so is which of the calls fail;
    nothing is assumed of it. *)

(** [s.endswith(suffix)] *)
Definition endswith (s suffix : str) : bool :=
  prefix_of (rev suffix) (rev s).

(** [s.split(sep)] for a separator of one character: the text is cut at
    every separator, and two separators in a row give an empty part. *)
Fixpoint split_from (sep : N) (cur : str) (s : str) : list str :=
  match s with
  | [] => [rev cur]
  | c :: r =>
      if N.eqb c sep then rev cur :: split_from sep [] r
      else split_from sep (c :: cur) r
  end.

Definition str_split (sep : N) (s : str) : list str := split_from sep [] s.

(** [class OutputFormat(enum.Enum)] (lines 19-21): one member. *)
Inductive OutputFormat : Type := STORE.

Definition OutputFormat_value (format : OutputFormat) : str :=
  match format with
  | STORE => txt "store"
  end.

Definition OutputFormat_members : list OutputFormat := [STORE].

(** [OutputFormat(value)]: the member of that value; [None] stands for the
    [ValueError] raised when there is none. *)
Definition OutputFormat_of (value : str) : option OutputFormat :=
  find (fun format => str_eqb (OutputFormat_value format) value)
       OutputFormat_members.

Definition OutputFormat_eqb (a b : OutputFormat) : bool :=
  match a, b with
  | STORE, STORE => true
  end.

Definition SUPPORTED_OUTPUT_FORMATS : list str :=
  map OutputFormat_value OutputFormat_members.

Definition IGNORED_EXTENSIONS : list str := [txt ".py"; txt ".md"; txt ".sh"].

(** [class Config] (lines 28-39). *)
Record Config : Type := mkConfig {
  input_directory : str;
  output_directory : str;
  output_format : OutputFormat;
  exclude_ignored_items : bool;
  ignored_extensions : list str;
  ignored_directories : list str;
  strict_lua : bool;
  mute_lua : bool }.

(** [Config(input_directory=..., output_directory=..., output_format=...)]:
    the other fields take their defaults. *)
Definition default_Config (input_directory output_directory : str)
    (output_format : OutputFormat) : Config :=
  mkConfig input_directory output_directory output_format
           true IGNORED_EXTENSIONS [txt "Redundancy"] false true.

(** The command line as [parser.parse_args()] returns it. *)
Record Args : Type := mkArgs {
  args_input_directory : str;
  args_output_directory : str;
  args_output_format : str }.

(** The defaults of the three options (lines 220, 225, 230). *)
Definition default_Args : Args :=
  mkArgs (txt ".") (txt "output") (OutputFormat_value STORE).

Section Archive.
Context {FM : PyFloat}.

Inductive level : Type := DEBUG | INFO | ERROR.

(** The calls of a run that act on the world outside. *)
Inductive event : Type :=
| Log (lvl : level) (msg : str)       (* [logger.debug], [.info], [.error] *)
| Logged (r : log_record)             (* a record logged by [optimize_json] *)
| MkDTemp (dir : str)                 (* [tempfile.mkdtemp] returned [dir] *)
| MakeDirs (dir : str)                (* [os.makedirs(dir)] *)
| OpenRead (path : str)               (* [open(path)] for reading *)
| ReadFile (path : str)               (* [f.readlines()], [f.read()] *)
| OpenWrite (path : str)              (* [open(path, 'w')] *)
| WriteText (path : str) (text : str) (* [text] written to the open file,
                                         and the file closed *)
| ZipOpen (path : str)                (* [zipfile.ZipFile(path, 'w')] *)
| ZipWrite (filename arcname : str)   (* [zf.write(filename, arcname)] *)
| ZipClose (path : str)               (* [zf.close()] *)
| RmTree (dir : str).                 (* [shutil.rmtree(dir)] *)

(** The answers of the operating system and of the runtime during a run.
    [parse_args] is what [parser.parse_args()] does with the command
    line: it returns the options, or leaves the program with a status (on
    a command line it does not accept, and after printing the help);
    [path_exists tr p] is [os.path.exists(p)] asked after the events [tr];
    [walk top] lists the pairs of a directory and its files that
    [os.walk(top)] yields; [read_binary] and [read_text] give the content
    of a file, decoded, as read in mode [rb] and in mode [r];
    [is_utf8 p] tells whether every line of the file [p] decodes as
    UTF-8; [format_value v] is the text an f-string puts for [v];
    [call_fails tr e] tells whether the call [e], made after the events
    [tr], raises an exception instead of doing its work. *)
Class Host : Type := {
  parse_args : Args + Z;
  os_sep : N;
  path_join : str -> str -> str;
  path_dirname : str -> str;
  relpath : str -> str -> str;
  abspath : str -> str;
  walk : str -> list (str * list str);
  mkdtemp : str -> str;
  read_binary : str -> str;
  read_text : str -> str;
  is_utf8 : str -> bool;
  path_exists : list event -> str -> bool;
  format_value : json -> str;
  call_fails : list event -> event -> bool }.

Context {OS : Host}.

(** The exceptions a build can end with. *)
Inductive build_exn : Type :=
| KeyError (key : str)     (* [manifest[key]] on a missing key *)
| PathTypeError            (* [os.path.join] on a value that is no text *)
| UnicodeDecodeError       (* a line of a JSON file that is not UTF-8 *)
| CallFailed (e : event)   (* the exception, such as [OSError], that the
                              call [e] raised *)
| Uncaught (e : exn).      (* raised by [optimize_json] or [json.load] *)

Inductive outcome (A : Type) : Type :=
| Returned (a : A)
| Raised (e : build_exn)
| Exited (code : Z).       (* [sys.exit(code)] *)
Arguments Returned {A} a.
Arguments Raised {A} e.
Arguments Exited {A} code.

(** The variables of [create_archive] that its loops update. *)
Record build_state : Type := mkState {
  events : list event;
  files_to_include : list (str * str);
  files_to_remove_from_archive : list str;
  manifest : dict }.

Definition emit (e : event) (st : build_state) : build_state :=
  mkState (events st ++ [e]) (files_to_include st)
          (files_to_remove_from_archive st) (manifest st).

Definition emit_all (es : list event) (st : build_state) : build_state :=
  mkState (events st ++ es) (files_to_include st)
          (files_to_remove_from_archive st) (manifest st).

(** [files_to_include.append((src, dst))] *)
Definition include (src dst : str) (st : build_state) : build_state :=
  mkState (events st) (files_to_include st ++ [(src, dst)])
          (files_to_remove_from_archive st) (manifest st).

(** [files_to_remove_from_archive.append(path)] *)
Definition mark_for_removal (path : str) (st : build_state) : build_state :=
  mkState (events st) (files_to_include st)
          (files_to_remove_from_archive st ++ [path]) (manifest st).

(** [del manifest[key]] *)
Definition del_manifest (key : str) (st : build_state) : build_state :=
  mkState (events st) (files_to_include st)
          (files_to_remove_from_archive st) (dict_del key (manifest st)).

(** A call that can fail: it is recorded, and it raises when the host
    says so. *)
Definition call (e : event) (st : build_state)
    : build_state * option build_exn :=
  (emit e st,
   if call_fails (events st) e then Some (CallFailed e) else None).

(** One statement after another: the second runs in the state the first
    leaves, unless the first raised. *)
Definition and_then (first : build_state * option build_exn)
    (second : build_state -> build_state * option build_exn)
    : build_state * option build_exn :=
  match first with
  | (st, None) => second st
  | (st, Some e) => (st, Some e)
  end.

Notation "'do' st <- first ; second" :=
  (and_then first (fun st => second))
  (at level 10, st name, first at level 100, second at level 200).

(** Line 149: [any(filename.endswith(ext) for ext in ...)]. *)
Definition has_ignored_extension (config : Config) (filename : str) : bool :=
  existsb (fun ext => endswith filename ext) (ignored_extensions config).

(** Line 154. *)
Definition is_ignored_item (config : Config)
    (filename src_rel_file_path : str) : bool :=
  exclude_ignored_items config
  && (prefix_of (txt ".") filename || prefix_of (txt "_") filename
      || existsb (fun part =>
                    prefix_of (txt ".") part || prefix_of (txt "_") part)
                 (str_split os_sep src_rel_file_path)).

(** Line 159. *)
Definition in_ignored_directory (config : Config)
    (src_rel_file_path : str) : bool :=
  existsb (fun ignored_dir =>
             key_in ignored_dir (str_split os_sep src_rel_file_path))
          (ignored_directories config).

(** Lines 173-179: the thumbnail of the manifest. *)
Definition remove_thumbnail (config : Config) (st : build_state)
    : build_state * option build_exn :=
  if key_in (txt "thumbnail") (keys (manifest st)) then
    match dict_get (txt "thumbnail") (manifest st) with
    | Some (JStr thumbnail) =>
        let thumbnail_path := path_join (input_directory config) thumbnail in
        let st :=
          if path_exists (events st) thumbnail_path
          then mark_for_removal thumbnail_path st else st in
        let st := del_manifest (txt "thumbnail") st in
        (emit (Log INFO (txt "Removed thumbnail from plugin.manifest")) st,
         None)
    | Some _ => (st, Some PathTypeError)
    | None => (st, Some (KeyError (txt "thumbnail")))
    end
  else (st, None).

(** Lines 165-167: the directory of the file in the temporary
    directory. *)
Definition make_temp_dir (temp_file_dir : str) (st : build_state)
    : build_state * option build_exn :=
  if path_exists (events st) temp_file_dir then (st, None)
  else
    do st <- call (MakeDirs temp_file_dir) st;
    (emit (Log DEBUG (txt "Created missing temp directory: "
                      ++ temp_file_dir)) st, None).

(** Lines 172-183: the manifest file of a build in store mode. *)
Definition stage_manifest (config : Config)
    (src_abs_file_path src_rel_file_path temp_file_path : str)
    (st : build_state) : build_state * option build_exn :=
  let st := emit (Log INFO (txt "Optimizing plugin.manifest file: "
                            ++ src_abs_file_path)) st in
  do st <- remove_thumbnail config st;
  do st <- call (OpenWrite temp_file_path) st;
  do st <- call (WriteText temp_file_path (dumps (JObj (manifest st)))) st;
  (include temp_file_path src_rel_file_path st, None).

(** Lines 187-194: a JSON file.  [optimize_json] reads the lines of the
    file and decodes them (lines 44-49) before it does what its model
    describes. *)
Definition stage_json
    (src_abs_file_path src_rel_file_path temp_file_path : str)
    (st : build_state) : build_state * option build_exn :=
  let st := emit (Log INFO (txt "Optimizing JSON file: "
                            ++ src_abs_file_path)) st in
  do st <- call (OpenRead src_abs_file_path) st;
  do st <- call (OpenWrite temp_file_path) st;
  do st <- call (ReadFile src_abs_file_path) st;
  if negb (is_utf8 src_abs_file_path) then
    (emit (Log ERROR (txt "Failed decoding")) st, Some UnicodeDecodeError)
  else
    match optimize_json_log (read_binary src_abs_file_path) with
    | (lg, Return text) =>
        let st := emit_all (map Logged lg) st in
        do st <- call (WriteText temp_file_path text) st;
        (include temp_file_path src_rel_file_path st, None)
    | (lg, Raise e) => (emit_all (map Logged lg) st, Some (Uncaught e))
    end.

(** The body of the inner loop (lines 141-195) for one file: the state it
    leaves and the exception it raises, if any. *)
Definition process_file (config : Config) (tmp_build_directory : str)
    (dirname filename : str) (st : build_state)
    : build_state * option build_exn :=
  let src_abs_file_path := path_join dirname filename in
  let src_rel_file_path :=
    relpath (path_join dirname filename) (input_directory config) in
  let temp_file_path := path_join tmp_build_directory src_rel_file_path in
  if has_ignored_extension config filename then
    (emit (Log INFO (txt "Ignoring file with extension: "
                     ++ src_abs_file_path)) st, None)
  else if is_ignored_item config filename src_rel_file_path then
    (emit (Log INFO (txt "Ignoring file or directory starting with . or _: "
                     ++ src_abs_file_path)) st, None)
  else if in_ignored_directory config src_rel_file_path then
    (emit (Log INFO (txt "Ignoring file in ignored directory: "
                     ++ src_abs_file_path)) st, None)
  else
    do st <- make_temp_dir (path_dirname temp_file_path) st;
    if str_eqb src_rel_file_path (txt "plugin.manifest")
       && OutputFormat_eqb (output_format config) STORE
    then stage_manifest config src_abs_file_path src_rel_file_path
                        temp_file_path st
    else if endswith filename (txt ".json")
    then stage_json src_abs_file_path src_rel_file_path temp_file_path st
    else (include src_abs_file_path src_rel_file_path st, None).

(** [for filename in files] *)
Fixpoint for_files (config : Config) (tmp_build_directory dirname : str)
    (files : list str) (st : build_state) : build_state * option build_exn :=
  match files with
  | [] => (st, None)
  | filename :: rest =>
      match process_file config tmp_build_directory dirname filename st with
      | (st, None) => for_files config tmp_build_directory dirname rest st
      | (st, Some e) => (st, Some e)
      end
  end.

(** [for dirname, _, files in os.walk(...)] *)
Fixpoint for_walk (config : Config) (tmp_build_directory : str)
    (w : list (str * list str)) (st : build_state)
    : build_state * option build_exn :=
  match w with
  | [] => (st, None)
  | (dirname, files) :: rest =>
      match for_files config tmp_build_directory dirname files st with
      | (st, None) => for_walk config tmp_build_directory rest st
      | (st, Some e) => (st, Some e)
      end
  end.

(** The loop of lines 200-205 that fills the archive. *)
Fixpoint write_archive (files : list (str * str)) (st : build_state)
    : build_state * option build_exn :=
  match files with
  | [] => (st, None)
  | (src_path, dst_path) :: rest =>
      if key_in src_path (files_to_remove_from_archive st) then
        write_archive rest
          (emit (Log INFO (txt "Skipping file marked for removal: "
                           ++ src_path)) st)
      else
        do st <- call (ZipWrite src_path dst_path) st;
        write_archive rest
          (emit (Log INFO (txt "Added file to archive: " ++ dst_path)) st)
  end.

(** Lines 132-209, once the name of the archive is known. *)
Definition build (config : Config) (archive_name : str) (st : build_state)
    : build_state * option build_exn :=
  let tmp_build_directory := mkdtemp (txt "tt-build-") in
  do st <- call (MkDTemp tmp_build_directory) st;
  do st <- for_walk config tmp_build_directory
                    (walk (input_directory config)) st;
  let archive := path_join (output_directory config) archive_name in
  do st <- call (ZipOpen archive) st;
  do st <- write_archive (files_to_include st) st;
  do st <- call (ZipClose archive) st;
  do st <- call (RmTree tmp_build_directory) st;
  (st, None).

(** [create_archive(config, manifest)], called after the events [before]:
    the events of the run so far, the manifest as the call leaves it (the
    [dict] of the caller is updated in place), and the path returned or
    the exception raised. *)
Definition create_archive (config : Config) (manifest0 : dict)
    (before : list event) : list event * dict * outcome str :=
  match dict_get (txt "title") manifest0 with
  | None => (before, manifest0, Raised (KeyError (txt "title")))
  | Some title =>
      match dict_get (txt "version") manifest0 with
      | None => (before, manifest0, Raised (KeyError (txt "version")))
      | Some version =>
          let archive_name :=
            format_value title ++ txt " " ++ format_value version
            ++ txt ".zip" in
          match build config archive_name (mkState before [] [] manifest0)
          with
          | (st, Some e) => (events st, manifest st, Raised e)
          | (st, None) =>
              (events st, manifest st,
               Returned (path_join (output_directory config) archive_name))
          end
      end
  end.

(** Lines 236-273 of [main], for the options [args]. *)
Definition main_with (args : Args) : list event * outcome unit :=
  match OutputFormat_of (args_output_format args) with
  | None =>
      ([Log ERROR (txt "Unsupported output format: "
                   ++ args_output_format args
                   ++ txt ". Supported formats are: "
                   ++ join (txt ", ") SUPPORTED_OUTPUT_FORMATS)],
       Exited 1%Z)
  | Some output_format =>
      let plugin_dir := abspath (args_input_directory args) in
      if negb (path_exists [] plugin_dir) then
        ([Log ERROR (txt "Directory " ++ plugin_dir
                     ++ txt " does not exist.")],
         Exited 1%Z)
      else
        let manifest_path := path_join plugin_dir (txt "plugin.manifest") in
        if negb (path_exists [] manifest_path) then
          ([Log ERROR (txt "Manifest file " ++ manifest_path
                       ++ txt " does not exist.")],
           Exited 1%Z)
        else if call_fails [] (OpenRead manifest_path) then
          ([OpenRead manifest_path],
           Raised (CallFailed (OpenRead manifest_path)))
        else if call_fails [OpenRead manifest_path] (ReadFile manifest_path)
        then
          ([OpenRead manifest_path; ReadFile manifest_path],
           Raised (CallFailed (ReadFile manifest_path)))
        else
          let tr := [OpenRead manifest_path; ReadFile manifest_path] in
          match loads (read_text manifest_path) with
          | None => (tr, Raised (Uncaught JSONDecodeError))
          | Some (JObj manifest0) =>
              let output_dir := abspath (args_output_directory args) in
              let missing := negb (path_exists tr output_dir) in
              let before := tr in
              let tr :=
                if missing then tr ++ [MakeDirs output_dir] else tr in
              if missing && call_fails before (MakeDirs output_dir) then
                (tr, Raised (CallFailed (MakeDirs output_dir)))
              else
                let config :=
                  default_Config plugin_dir output_dir output_format in
                match dict_get (txt "title") manifest0 with
                | None => (tr, Raised (KeyError (txt "title")))
                | Some title =>
                    match dict_get (txt "version") manifest0 with
                    | None => (tr, Raised (KeyError (txt "version")))
                    | Some version =>
                        let tr :=
                          tr ++ [Log INFO (txt "Processing plugin: "
                                           ++ format_value title
                                           ++ txt " (version "
                                           ++ format_value version
                                           ++ txt ")")] in
                        match create_archive config manifest0 tr with
                        | (tr, _, Returned archive_path) =>
                            (tr ++ [Log INFO (txt "Archive created at: "
                                              ++ archive_path)],
                             Returned tt)
                        | (tr, _, Raised e) => (tr, Raised e)
                        | (tr, _, Exited code) => (tr, Exited code)
                        end
                    end
                end
          | Some _ =>
              (tr ++ [Log ERROR (txt "Manifest file " ++ manifest_path
                                 ++ txt " should be a JSON object.")],
               Exited 1%Z)
          end
  end.

(** [main()] (lines 216-273): the command line is parsed (line 235), and
    the program goes on with the options unless the parser has left it. *)
Definition main : list event * outcome unit :=
  match parse_args with
  | inr code => ([], Exited code)
  | inl args => main_with args
  end.

End Archive.

Arguments Returned {FM A} a.
Arguments Raised {FM A} e.
Arguments Exited {FM A} code.

(* ================================================================== *)
(** * The specification's words, for comparison with the code *)

(** ** The truncation point

    The state of the quote-only scan after a text: whether a string is
    open (every quote toggles it) and the bracket depth, counted outside
    strings. *)
Definition scan_step (st : bool * Z) (c : N) : bool * Z :=
  let (in_str, depth) := st in
  if c =? c_quote then (negb in_str, depth)
  else if in_str then st
  else if c =? c_lbracket then (false, (depth + 1)%Z)
  else if c =? c_rbracket then (false, (depth - 1)%Z)
  else st.

Definition scan_state (p : str) : bool * Z :=
  fold_left scan_step p (false, 0%Z).

(** Index [i] of [s] holds a closing bracket outside a string at which the
    depth returns to zero after having been positive. *)
Definition returns_to_zero (s : str) (i : nat) : Prop :=
  nth_error s i = Some c_rbracket
  /\ fst (scan_state (firstn i s)) = false
  /\ (0 < snd (scan_state (firstn i s)))%Z
  /\ snd (scan_state (firstn (S i) s)) = 0%Z.

(** ** The bare-value quoter *)

(** Every character of [s] is in the class. *)
Definition all (cls : N -> bool) (s : str) : Prop :=
  Forall (fun c => cls c = true) s.

(** A text matches a sequence of atoms. *)
Inductive matches : list atom -> str -> Prop :=
| matches_nil : matches [] []
| matches_one : forall cls c p m,
    cls c = true -> matches p m -> matches (One cls :: p) (c :: m)
| matches_many : forall cls a p m,
    all cls a -> matches p m -> matches (Many cls :: p) (a ++ m).

(** Group 1: a key in quotes and a colon, with optional white space on
    both sides of the colon. *)
Definition key_prefix (g : str) : Prop :=
  exists k w1 w2,
    g = [c_quote] ++ k ++ [c_quote] ++ w1 ++ [c_colon] ++ w2
    /\ all not_quote k /\ all is_space w1 /\ all is_space w2.

(** Group 2: a bare token.  It starts with none of quote, opening bracket,
    opening brace and white space; after its first character it holds
    none of comma, closing brace, closing bracket and quote; it has a
    letter after its first character, and no white space after its last
    letter. *)
Definition bare_token (g : str) : Prop :=
  exists c0 body a tail,
    g = c0 :: body ++ a :: tail
    /\ is_first c0 = true /\ all is_body body
    /\ is_alpha a = true /\ all is_tail tail.

(** Group 3: optional white space, then a comma or a closing brace. *)
Definition terminator (g : str) : Prop :=
  exists w c, g = w ++ [c] /\ all is_space w /\ is_term c = true.

(** A repetition of the class cannot go on at the head of [b]. *)
Definition stops (cls : N -> bool) (b : str) : Prop :=
  match b with
  | c :: _ => cls c = false
  | [] => True
  end.

(** ** Values as [json.loads] builds them *)

Section Values.
Context {FM : PyFloat}.

(** Induction on a value, with the hypothesis for every element of a list
    and every member of a [dict]. *)
Section Induction.
Variable P : json -> Prop.
Hypothesis P_null : P JNull.
Hypothesis P_bool : forall b, P (JBool b).
Hypothesis P_int : forall z, P (JInt z).
Hypothesis P_float : forall f, P (JFloat f).
Hypothesis P_str : forall s, P (JStr s).
Hypothesis P_arr : forall l, Forall P l -> P (JArr l).
Hypothesis P_obj : forall d, Forall (fun kv => P (snd kv)) d -> P (JObj d).

Fixpoint json_induction (v : json) : P v :=
  match v with
  | JNull => P_null
  | JBool b => P_bool b
  | JInt z => P_int z
  | JFloat f => P_float f
  | JStr s => P_str s
  | JArr l =>
      P_arr l
        ((fix elements (l : list json) : Forall P l :=
            match l with
            | [] => Forall_nil P
            | x :: r => Forall_cons x (json_induction x) (elements r)
            end) l)
  | JObj d =>
      P_obj d
        ((fix members (d : list (str * json))
            : Forall (fun kv => P (snd kv)) d :=
            match d with
            | [] => Forall_nil _
            | kv :: r =>
                Forall_cons kv (json_induction (snd kv)) (members r)
            end) d)
  end.
End Induction.

(** No [dict] of the value holds a key twice. *)
Local Unset Elimination Schemes.
Inductive wf_json : json -> Prop :=
| wf_null : wf_json JNull
| wf_bool : forall b, wf_json (JBool b)
| wf_int : forall z, wf_json (JInt z)
| wf_float : forall f, wf_json (JFloat f)
| wf_str : forall s, wf_json (JStr s)
| wf_arr : forall l, Forall wf_json l -> wf_json (JArr l)
| wf_obj : forall d,
    NoDup (keys d) -> Forall (fun kv => wf_json (snd kv)) d ->
    wf_json (JObj d).
Local Set Elimination Schemes.

Definition wf_dict (d : dict) : Prop :=
  NoDup (keys d) /\ Forall (fun kv => wf_json (snd kv)) d.

(** The text after a number does not go on as a number. *)
Definition delimited (rest : str) : Prop :=
  match rest with
  | [] => True
  | c :: _ =>
      is_digit c = false /\ c <> 46 /\ c <> 101 /\ c <> 69
  end.

(** What the model asks of Python's floats: the scanner reads back, as the
    same float, the text the encoder writes for a float. *)
Definition float_roundtrip : Prop :=
  forall (f : pyfloat) (rest : str),
    delimited rest ->
    scan_once 1 (float_repr f ++ rest) = Parsed (JFloat f) rest.

(** The scanner reads the encoding of [v] back as [v]. *)
Definition reads_back (v : json) : Prop :=
  forall rest,
    delimited rest ->
    exists fuel, scan_once fuel (dumps v ++ rest) = Parsed v rest.

(** The text [dumps] writes for one member of a [dict]. *)
Definition member (kv : str * json) : str :=
  encode_basestring (fst kv) ++ key_separator ++ dumps (snd kv).

(** The [dict] the scanner builds from the members [d], starting from
    [acc]. *)
Definition set_all (d acc : dict) : dict :=
  fold_left (fun a kv => dict_set (fst kv) (snd kv) a) d acc.

End Values.

(** ** The postprocessing rules *)

Section Rules.
Context {FM : PyFloat}.

(** An object holds the key [privileged]. *)
Definition has_privileged (o : dict) : bool :=
  key_in (txt "privileged") (keys o).

(** The three rules applied to an object with no [privileged] key:
    [strict lua] is removed, and [mute lua] is set when the object held
    [script] or [scripts]. *)
Definition processed (o : dict) : dict :=
  let o1 :=
    if key_in (txt "strict lua") (keys o)
    then dict_del (txt "strict lua") o else o in
  if key_in (txt "script") (keys o) || key_in (txt "scripts") (keys o)
  then dict_set (txt "mute lua") (JBool true) o1 else o1.

(** An object holds none of the legacy keys the rules look at. *)
Definition legacy_free (o : dict) : bool :=
  negb (key_in (txt "privileged") (keys o))
  && negb (key_in (txt "strict lua") (keys o))
  && negb (key_in (txt "script") (keys o))
  && negb (key_in (txt "scripts") (keys o)).

(** The keys of an object after the rules, in the words of the
    specification: the keys in decode order without [strict lua], and
    [mute lua] last when the rules bring it in. *)
Definition keys_after (o : dict) : list str :=
  filter (fun k => negb (str_eqb (txt "strict lua") k)) (keys o)
  ++ (if (key_in (txt "script") (keys o) || key_in (txt "scripts") (keys o))
         && negb (key_in (txt "mute lua") (keys o))
      then [txt "mute lua"] else []).

(** The decoded document is a list whose elements are all objects. *)
Definition is_object (v : json) : bool :=
  match v with
  | JObj _ => true
  | _ => false
  end.

Definition is_object_list (v : json) : bool :=
  match v with
  | JArr l => forallb is_object l
  | _ => false
  end.

(** The empty [dict] and the empty [str]: iterable, with no element. *)
Definition is_empty_iterable (v : json) : bool :=
  match v with
  | JObj [] | JStr [] => true
  | _ => false
  end.

End Rules.

(* ================================================================== *)
(** * Notions used to state further properties of the code *)

(** ** Lines *)

(** A string is open after the text [p]: [p] holds an odd number of double
    quotes. *)
Definition in_string (p : str) : bool :=
  fold_left (fun b c => if c =? c_quote then negb b else b) p false.

(** Index [i] of the line starts a comment: two slashes, outside a
    string. *)
Definition comment_at (line : str) (i : nat) : Prop :=
  nth_error line i = Some c_slash
  /\ nth_error line (S i) = Some c_slash
  /\ in_string (firstn i line) = false.

(** What becomes of one character other than the double quote in the
    replacements of lines 68-74. *)
Definition substitute (c : N) : str :=
  if (c =? c_bom) || (c =? c_cr) || (c =? c_nbsp) then []
  else if c =? c_semicolon then [c_comma]
  else if (c =? c_tab) || (c =? c_lf) then [c_space]
  else [c].

(** The characters no cleaned line holds. *)
Definition cleaned_away (c : N) : bool :=
  (c =? c_bom) || (c =? c_semicolon) || (c =? c_tab) || (c =? c_cr)
  || (c =? c_lf) || (c =? c_nbsp).

(** ** Strict JSON that the cleaning leaves as it is

    The conditions under which a text of strict JSON goes through the
    cleaning of the lines unharmed are conditions on the text: on what
    its strings hold and on what stands for the value of a member.  They
    are checked by one scan of the text, which follows the strings as
    the decoder does. *)

Inductive lex_state : Type :=
| LOut      (* outside a string *)
| LColon    (* after the colon of a member and white space *)
| LValue    (* in a number that follows such a colon, or after it *)
| LStart    (* in a string, which holds white space only so far *)
| LIn       (* in a string *)
| LEsc.     (* in a string, after a backslash *)

(** The characters of strict JSON outside strings, the quote and the
    colon apart: white space, the characters of numbers and of the
    constants, commas, brackets and braces. *)
Definition outside_char (c : N) : bool :=
  is_ws c || is_digit c || is_alpha c
  || (c =? 45) || (c =? 43) || (c =? 46)
  || (c =? c_comma) || (c =? c_lbracket) || (c =? c_rbracket)
  || (c =? c_lbrace) || (c =? c_rbrace).

(** The characters of a number. *)
Definition number_char (c : N) : bool :=
  is_digit c || (c =? 45) || (c =? 43) || (c =? 46) || (c =? 101)
  || (c =? 69).

(** The characters a string may hold: no control character, and none of
    the characters that the replacements of lines 68-74 change. *)
Definition inside_char (c : N) : bool := (32 <=? c) && negb (cleaned_away c).

(** One step of the scan; [None] when the text is not of the kind
    described.  A string does not start with a colon, white space
    apart; it holds no escaped double quote; the value of a member is a
    string, an array, an object or a number without exponent. *)
Definition plain_step (st : lex_state) (c : N) : option lex_state :=
  match st with
  | LOut =>
      if c =? c_quote then Some LStart
      else if c =? c_colon then Some LColon
      else if outside_char c then Some LOut
      else None
  | LColon =>
      if c =? c_quote then Some LStart
      else if is_ws c then Some LColon
      else if (c =? c_lbracket) || (c =? c_lbrace) then Some LOut
      else if is_digit c || (c =? 45) then Some LValue
      else None
  | LValue =>
      if is_ws c || is_digit c || (c =? 45) || (c =? 43) || (c =? 46)
      then Some LValue
      else if (c =? c_comma) || (c =? c_rbrace) || (c =? c_rbracket)
      then Some LOut
      else None
  | LStart =>
      if c =? c_quote then Some LOut
      else if c =? c_backslash then Some LEsc
      else if c =? c_colon then None
      else if inside_char c then Some (if is_space c then LStart else LIn)
      else None
  | LIn =>
      if c =? c_quote then Some LOut
      else if c =? c_backslash then Some LEsc
      else if inside_char c then Some LIn
      else None
  | LEsc =>
      if c =? c_quote then None
      else if inside_char c then Some LIn
      else None
  end.

Fixpoint plain_scan (st : lex_state) (s : str) : option lex_state :=
  match s with
  | [] => Some st
  | c :: r =>
      match plain_step st c with
      | Some st' => plain_scan st' r
      | None => None
      end
  end.

(** The text is of the kind described, and ends outside a string. *)
Definition plain (s : str) : bool :=
  match plain_scan LOut s with
  | Some LOut => true
  | _ => false
  end.

(** The scan is in a string. *)
Definition in_text (st : lex_state) : bool :=
  match st with
  | LStart | LIn | LEsc => true
  | _ => false
  end.

(** What [scanstring] does after the escape of a high surrogate, whose
    code is [cp], with the text [r2] that follows it: the escape of a low
    surrogate makes one character with it. *)
Definition after_high_surrogate (cp : N) (r2 : str) : option (str * str) :=
  match r2 with
  | b :: u :: g1 :: g2 :: g3 :: g4 :: r3 =>
      if (b =? c_backslash) && (u =? 117)
         && negb (Nat.eqb (length r3) 0)
      then
        match hex4 g1 g2 g3 g4 with
        | None => None
        | Some lo =>
            if is_low_surrogate lo
            then push (join_surrogates cp lo) (scanstring r3)
            else push cp (scanstring r2)
        end
      else push cp (scanstring r2)
  | _ => push cp (scanstring r2)
  end.

(** The truncation loop goes through the text [s] at depth [d] without
    stopping, and leaves the depth as it is. *)
Definition passes (d : Z) (s : str) : Prop :=
  forall (i : nat) (x : str),
    find_balance false d i (s ++ x)
    = find_balance false d (i + length s)%nat x.

(** The truncation loop goes through the text [s], which it enters at
    depth [d], down to its last character, which closes a bracket: there
    it stops if the depth is back to zero, and goes on one level up
    otherwise. *)
Definition closes (d : Z) (s : str) : Prop :=
  forall (i : nat) (x : str),
    find_balance false d i (s ++ x)
    = if (d - 1 =? 0)%Z then Some (i + length s - 1)%nat
      else find_balance false (d - 1) (i + length s)%nat x.

(** What the scanner read at the head of a text of the kind described,
    and the text the cleaning makes of it.  The scanner read the value
    [v] at the head of [t] and left [r], with the scan of the text in
    state [st] at the head of [t]: the text [c] of the value is cleaned
    into a text from which the scanner reads [v] again, whatever follows
    it; the truncation loop goes through that text, and stops at its end
    when it is an array that starts at depth zero. *)
Section Kept.
Context {FM : PyFloat}.

Definition value_kept (fuel : nat) (st : lex_state) (t : str) (v : json)
    (r : str) (fin : lex_state) : Prop :=
  exists (c : str) (st' : lex_state),
    t = c ++ r
    /\ (st' = LOut \/ st' = LValue)
    /\ plain_scan st' r = Some fin
    /\ (forall r', delimited r' ->
                   scan_once fuel (flat_map substitute c ++ r') = Parsed v r')
    /\ (forall d, (0 < d)%Z -> passes d (flat_map substitute c))
    /\ (forall l, v = JArr l ->
                  exists b, flat_map substitute c = c_lbracket :: b
                            /\ closes 1 b).

(** The same for the elements of an array, from the first one to the
    closing bracket, *)
Definition elements_kept (fuel : nat) (t : str) (vs : list json) (r : str)
    (fin : lex_state) : Prop :=
  exists c : str,
    t = c ++ r
    /\ plain_scan LOut r = Some fin
    /\ (forall r',
          array_loop fuel (flat_map substitute c ++ r') = Parsed vs r')
    /\ (forall d, (0 < d)%Z -> closes d (flat_map substitute c)).

(** and for the members of an object, from the first key to the closing
    brace. *)
Definition members_kept (fuel : nat) (d0 : dict) (t : str) (d' : dict)
    (r : str) (fin : lex_state) : Prop :=
  exists c : str,
    t = c ++ r
    /\ plain_scan LOut r = Some fin
    /\ (forall r',
          object_loop fuel d0 (flat_map substitute c ++ r') = Parsed d' r')
    /\ (forall d, (0 < d)%Z -> passes d (flat_map substitute c)).

End Kept.

(** ** The files of a build *)

Section Files.
Context {FM : PyFloat} {OS : Host}.

(** The files of a walk, each with its directory, in the order of the
    two loops. *)
Definition walked (w : list (str * list str)) : list (str * str) :=
  flat_map (fun entry => map (pair (fst entry)) (snd entry)) w.

(** [src_rel_file_path] for a file of the walk. *)
Definition rel_path (config : Config) (file : str * str) : str :=
  relpath (path_join (fst file) (snd file)) (input_directory config).

(** The file passes the three tests of lines 149, 154 and 159. *)
Definition kept (config : Config) (file : str * str) : bool :=
  negb (has_ignored_extension config (snd file))
  && negb (is_ignored_item config (snd file) (rel_path config file))
  && negb (in_ignored_directory config (rel_path config file)).

(** The file is taken for the manifest (line 171). *)
Definition is_manifest (config : Config) (file : str * str) : bool :=
  str_eqb (rel_path config file) (txt "plugin.manifest")
  && OutputFormat_eqb (output_format config) STORE.

(** The file is handed to [optimize_json] (line 186). *)
Definition is_optimized (config : Config) (file : str * str) : bool :=
  negb (is_manifest config file) && endswith (snd file) (txt ".json").

(** The pair appended to [files_to_include] for a kept file: a file
    written in the temporary directory for the manifest and for a JSON
    file, the file itself otherwise; in the archive it has its relative
    path. *)
Definition staged (config : Config) (tmp_build_directory : str)
    (file : str * str) : str * str :=
  if is_manifest config file || endswith (snd file) (txt ".json")
  then (path_join tmp_build_directory (rel_path config file),
        rel_path config file)
  else (path_join (fst file) (snd file), rel_path config file).

(** The members written to the archive, in order. *)
Fixpoint zip_writes (tr : list event) : list (str * str) :=
  match tr with
  | [] => []
  | ZipWrite filename arcname :: rest => (filename, arcname) :: zip_writes rest
  | _ :: rest => zip_writes rest
  end.

(** The event opens, fills or closes an archive, or removes a directory
    tree. *)
Definition archive_event (e : event) : bool :=
  match e with
  | ZipOpen _ | ZipWrite _ _ | ZipClose _ | RmTree _ => true
  | _ => false
  end.

(** The event changes the file system. *)
Definition changes_files (e : event) : bool :=
  match e with
  | Log _ _ | Logged _ | OpenRead _ | ReadFile _ => false
  | _ => true
  end.

(** The two loops of lines 139-140 as one loop over the files of the
    walk. *)
Fixpoint for_pairs (config : Config) (tmp_build_directory : str)
    (files : list (str * str)) (st : build_state)
    : build_state * option build_exn :=
  match files with
  | [] => (st, None)
  | file :: rest =>
      match process_file config tmp_build_directory (fst file) (snd file) st
      with
      | (st, None) => for_pairs config tmp_build_directory rest st
      | (st, Some e) => (st, Some e)
      end
  end.

(** The file is the manifest of a build in store mode and passes the
    three tests. *)
Definition kept_manifest (config : Config) (file : str * str) : bool :=
  kept config file && is_manifest config file.

(** What an event of the loop body run on [file] can be, for the manifest
    [m] that [create_archive] was given: a record logged, a directory
    made in the temporary directory, a file opened there, the opening
    and the reading of [file] itself when it is handed to
    [optimize_json], or the writing of the text that goes into the
    archive for [file]. *)
Definition file_event (config : Config) (tmp_build_directory : str)
    (m : dict) (file : str * str) (e : event) : Prop :=
  match e with
  | Log _ _ | Logged _ | MakeDirs _ | OpenWrite _ => True
  | OpenRead path | ReadFile path =>
      kept config file = true
      /\ is_optimized config file = true
      /\ path = path_join (fst file) (snd file)
  | WriteText path text =>
      kept config file = true
      /\ path = path_join tmp_build_directory (rel_path config file)
      /\ (if is_manifest config file
          then text = dumps (JObj (dict_del (txt "thumbnail") m))
          else endswith (snd file) (txt ".json") = true
               /\ optimize_json (read_binary (path_join (fst file) (snd file)))
                  = Return text)
  | MkDTemp _ | ZipOpen _ | ZipWrite _ _ | ZipClose _ | RmTree _ => False
  end.

(** The state [st'] comes from [st] by events of the loop body run on
    [file], and by nothing else. *)
Definition only_events (config : Config) (tmp_build_directory : str)
    (file : str * str) (st st' : build_state) : Prop :=
  (exists new,
      events st' = events st ++ new
      /\ Forall (file_event config tmp_build_directory (manifest st) file) new)
  /\ files_to_include st' = files_to_include st
  /\ manifest st' = manifest st
  /\ files_to_remove_from_archive st' = files_to_remove_from_archive st.

(** What one run of the loop body on [file] does to the state: it adds
    events of the loop body; when it raises nothing it appends the pair of
    the file, if the file is kept, and takes the thumbnail out of the
    manifest, if the file is the manifest; it marks at most the thumbnail
    for removal, and it does mark it when the file is the manifest and
    the thumbnail exists. *)
Definition loop_step (config : Config) (tmp_build_directory : str)
    (file : str * str) (st st' : build_state) (r : option build_exn)
    : Prop :=
  (exists new,
      events st' = events st ++ new
      /\ Forall (file_event config tmp_build_directory (manifest st) file) new)
  /\ (r = None ->
      files_to_include st'
      = files_to_include st
        ++ (if kept config file
            then [staged config tmp_build_directory file] else [])
      /\ manifest st'
         = if kept_manifest config file
           then dict_del (txt "thumbnail") (manifest st) else manifest st)
  /\ (files_to_remove_from_archive st' = files_to_remove_from_archive st
      \/ exists t,
           dict_get (txt "thumbnail") (manifest st) = Some (JStr t)
           /\ files_to_remove_from_archive st'
              = files_to_remove_from_archive st
                ++ [path_join (input_directory config) t])
  /\ (r = None -> kept_manifest config file = true ->
      forall t,
        dict_get (txt "thumbnail") (manifest st) = Some (JStr t) ->
        (forall tr,
            path_exists tr (path_join (input_directory config) t) = true) ->
        In (path_join (input_directory config) t)
           (files_to_remove_from_archive st')).

(** What an event can be once the loops are over, for the archive at
    [archive], the pairs [files] and the paths [removed]: a record logged,
    the opening or the closing of the archive, the writing of a pair that
    is not marked for removal, or the removal of the temporary
    directory. *)
Definition archive_phase_event (tmp_build_directory archive : str)
    (files : list (str * str)) (removed : list str) (e : event) : Prop :=
  match e with
  | Log _ _ => True
  | ZipOpen path | ZipClose path => path = archive
  | ZipWrite filename arcname =>
      In (filename, arcname) files /\ key_in filename removed = false
  | RmTree dir => dir = tmp_build_directory
  | _ => False
  end.

(** No call of the run fails. *)
Definition no_call_fails : Prop :=
  forall (tr : list event) (e : event), call_fails tr e = false.

(** ** The command line *)

(** [plugin_dir] and [manifest_path] of [main]. *)
Definition plugin_dir (args : Args) : str :=
  abspath (args_input_directory args).

Definition manifest_path (args : Args) : str :=
  path_join (plugin_dir args) (txt "plugin.manifest").

(** The [Config] that [main] builds. *)
Definition config_of (args : Args) : Config :=
  default_Config (plugin_dir args) (abspath (args_output_directory args))
                 STORE.

(** One of the four conditions on which [main] logs an error: the output
    format is not [store], the input directory does not exist, it holds
    no manifest file, or the manifest file is opened and read and holds
    a JSON value that is not an object. *)
Definition rejected (args : Args) : Prop :=
  args_output_format args <> txt "store"
  \/ path_exists [] (plugin_dir args) = false
  \/ path_exists [] (manifest_path args) = false
  \/ (call_fails [] (OpenRead (manifest_path args)) = false
      /\ call_fails [OpenRead (manifest_path args)]
                    (ReadFile (manifest_path args)) = false
      /\ exists v, loads (read_text (manifest_path args)) = Some v
                   /\ is_object v = false).

End Files.

(** A float model with one float: it makes a closed example of a run on a
    document that holds no float; such a run is the same in every model. *)
Definition one_float : PyFloat :=
  {| pyfloat := unit;
     float_of_literal := fun _ => tt;
     float_nan := tt;
     float_inf := tt;
     float_neg_inf := tt;
     float_repr := fun _ => txt "0.0" |}.

(* ================================================================== *)
(** * A small plugin directory, for examples

    A host with POSIX paths and a fixed tree: the plugin directory [/p]
    with a manifest, a JSON file, a thumbnail and some files that a build
    ignores, and the output directory [/out]. *)

Section Examples.
#[local] Existing Instance one_float.

(** [posixpath.join] of two paths. *)
Definition posix_join (a b : str) : str :=
  if prefix_of (txt "/") b then b
  else match rev a with
       | [] => b
       | c :: _ => if c =? c_slash then a ++ b else a ++ c_slash :: b
       end.

(** [posixpath.dirname]: the path up to its last slash, without the
    slashes at its end unless it holds nothing else.  The two functions
    below work on the reversed path. *)
Fixpoint drop_name (r : str) : str :=
  match r with
  | [] => []
  | c :: r' => if c =? c_slash then r else drop_name r'
  end.

Fixpoint strip_slashes (r : str) : str :=
  match r with
  | [] => []
  | c :: r' => if c =? c_slash then strip_slashes r' else r
  end.

Definition posix_dirname (p : str) : str :=
  let head := drop_name (rev p) in
  if forallb (N.eqb c_slash) head then rev head
  else rev (strip_slashes head).

(** [os.path.relpath] for a path below [start], both normalised (the
    examples use no other). *)
Definition relpath_below (path start : str) : str :=
  if prefix_of (start ++ txt "/") path
  then skipn (length start + 1) path
  else path.

(** The files of the tree and their content. *)
Definition demo_files : list (str * str) :=
  [(txt "/p/plugin.manifest",
    txt "{'title': 'Demo', 'version': '1.0', 'thumbnail': 'thumb.png'}");
   (txt "/p/a.json",
    txt "[{'id':'a','strict lua':1,'script':'a.lua'}] // done");
   (txt "/p/notes.md", txt "notes");
   (txt "/p/thumb.png", txt "png");
   (txt "/p/_draft.json", txt "[{'privileged':1}]");
   (txt "/p/img/x.png", txt "png");
   (txt "/p/Redundancy/old.json", txt "not json");
   (txt "/p/.git/config", txt "[core]")].

Definition demo_walk : list (str * list str) :=
  [(txt "/p",
    [txt "plugin.manifest"; txt "a.json"; txt "notes.md"; txt "thumb.png";
     txt "_draft.json"]);
   (txt "/p/img", [txt "x.png"]);
   (txt "/p/Redundancy", [txt "old.json"]);
   (txt "/p/.git", [txt "config"])].

Definition demo_read (path : str) : str :=
  match find (fun entry => str_eqb (fst entry) path) demo_files with
  | Some entry => snd entry
  | None => []
  end.

(** A path exists if it is a file or a directory of the tree, or a
    directory made earlier in the run. *)
Definition demo_exists (tr : list event) (path : str) : bool :=
  key_in path (txt "/p" :: txt "/out" :: map fst demo_walk
               ++ map fst demo_files)
  || existsb (fun e =>
                match e with
                | MkDTemp dir | MakeDirs dir => str_eqb dir path
                | _ => false
                end) tr.

Definition demo_args : Args := mkArgs (txt "/p") (txt "/out") (txt "store").

(** The host of the tree, where no call fails. *)
Definition demo_host : Host :=
  {| parse_args := inl demo_args;
     os_sep := c_slash;
     path_join := posix_join;
     path_dirname := posix_dirname;
     relpath := relpath_below;
     abspath := fun path => path;
     walk := fun top => if str_eqb top (txt "/p") then demo_walk else [];
     mkdtemp := fun prefix => txt "/tmp/" ++ prefix ++ txt "0";
     read_binary := demo_read;
     read_text := demo_read;
     is_utf8 := fun _ => true;
     path_exists := demo_exists;
     format_value := fun v => match v with
                              | JStr s => s
                              | _ => dumps v
                              end;
     call_fails := fun _ _ => false |}.

#[local] Existing Instance demo_host.

Definition demo_config : Config := config_of demo_args.

Definition demo_manifest : dict :=
  [(txt "title", JStr (txt "Demo"));
   (txt "version", JStr (txt "1.0"));
   (txt "thumbnail", JStr (txt "thumb.png"))].

(** The build of the tree, and its parts. *)
Definition demo_build : list event * dict * outcome str :=
  Eval vm_compute in create_archive demo_config demo_manifest [].

Definition demo_trace : list event := fst (fst demo_build).

Definition demo_manifest_after : dict := snd (fst demo_build).

Definition demo_archive : str :=
  match snd demo_build with
  | Returned archive => archive
  | _ => []
  end.

(** The run of [main] on the tree. *)
Definition demo_main : list event * outcome unit :=
  Eval vm_compute in main.

(** A manifest whose thumbnail is no text: the build stops on it. *)
Definition bad_manifest : dict :=
  [(txt "title", JStr (txt "Demo"));
   (txt "version", JStr (txt "1.0"));
   (txt "thumbnail", JInt 1)].

Definition bad_build : list event * dict * outcome str :=
  Eval vm_compute in create_archive demo_config bad_manifest [].

(** The same tree, where every file opened in mode [rb] holds a text
    that is no JSON. *)
Definition broken_host : Host :=
  {| parse_args := inl demo_args;
     os_sep := c_slash;
     path_join := posix_join;
     path_dirname := posix_dirname;
     relpath := relpath_below;
     abspath := fun path => path;
     walk := fun top => if str_eqb top (txt "/p") then demo_walk else [];
     mkdtemp := fun prefix => txt "/tmp/" ++ prefix ++ txt "0";
     read_binary := fun _ => txt "[{'id': 'a'";
     read_text := demo_read;
     is_utf8 := fun _ => true;
     path_exists := demo_exists;
     format_value := fun v => match v with
                              | JStr s => s
                              | _ => dumps v
                              end;
     call_fails := fun _ _ => false |}.

(** The same tree, where the archive takes one member and no more: the
    second [zf.write] fails. *)
Definition full_disk_host : Host :=
  {| parse_args := inl demo_args;
     os_sep := c_slash;
     path_join := posix_join;
     path_dirname := posix_dirname;
     relpath := relpath_below;
     abspath := fun path => path;
     walk := fun top => if str_eqb top (txt "/p") then demo_walk else [];
     mkdtemp := fun prefix => txt "/tmp/" ++ prefix ++ txt "0";
     read_binary := demo_read;
     read_text := demo_read;
     is_utf8 := fun _ => true;
     path_exists := demo_exists;
     format_value := fun v => match v with
                              | JStr s => s
                              | _ => dumps v
                              end;
     call_fails := fun tr e =>
                     match e with
                     | ZipWrite _ _ =>
                         existsb (fun e' => match e' with
                                            | ZipWrite _ _ => true
                                            | _ => false
                                            end) tr
                     | _ => false
                     end |}.

(** A command line that the parser does not accept. *)
Definition usage_host : Host :=
  {| parse_args := inr 2%Z;
     os_sep := c_slash;
     path_join := posix_join;
     path_dirname := posix_dirname;
     relpath := relpath_below;
     abspath := fun path => path;
     walk := fun top => if str_eqb top (txt "/p") then demo_walk else [];
     mkdtemp := fun prefix => txt "/tmp/" ++ prefix ++ txt "0";
     read_binary := demo_read;
     read_text := demo_read;
     is_utf8 := fun _ => true;
     path_exists := demo_exists;
     format_value := fun v => match v with
                              | JStr s => s
                              | _ => dumps v
                              end;
     call_fails := fun _ _ => false |}.

(** The build of the tree when the second member cannot be written. *)
Definition failed_build : list event * dict * outcome str :=
  Eval vm_compute in
    create_archive (OS := full_disk_host) demo_config demo_manifest [].

End Examples.

(* ================================================================== *)
(** * Properties *)

(** ** Text *)

Lemma str_eqb_eq : forall a b, str_eqb a b = true <-> a = b.
Proof.
  induction a as [|x a IH]; destruct b as [|y b]; simpl; split;
    try congruence; try reflexivity.
  - intros H. apply andb_true_iff in H. destruct H as [H1 H2].
    apply N.eqb_eq in H1. apply IH in H2. congruence.
  - intros H. injection H as -> ->. rewrite N.eqb_refl. simpl.
    now apply IH.
Qed.

Lemma str_eqb_refl : forall a, str_eqb a a = true.
Proof. intros a. now apply str_eqb_eq. Qed.

Lemma str_eqb_neq : forall a b, str_eqb a b = false <-> a <> b.
Proof.
  intros a b. split.
  - intros H E. apply str_eqb_eq in E. congruence.
  - intros H. destruct (str_eqb a b) eqn:E; [|reflexivity].
    apply str_eqb_eq in E. contradiction.
Qed.

Lemma str_eqb_sym : forall a b, str_eqb a b = str_eqb b a.
Proof.
  intros a b. destruct (str_eqb a b) eqn:E.
  - apply str_eqb_eq in E. subst. symmetry. apply str_eqb_refl.
  - symmetry. apply str_eqb_neq. apply str_eqb_neq in E. congruence.
Qed.

(* ------------------------------------------------------------------ *)
(** ** The comment scanner *)

(** In a string, the scanner goes past a backslash without a change of
    state and reads the character after it like any other. *)
Lemma find_comment_backslash : forall i rest,
  find_comment true i (c_backslash :: rest) = find_comment true (S i) rest.
Proof. intros. reflexivity. Qed.

(** C7, on the code: in a string, a quote that follows a backslash is not
    skipped.  It closes the string, and a [//] after it starts a comment:
    the line [{'a':'b\'//c'}] (with ' for the double quote), one JSON
    object whose string holds an escaped quote, is cut after the escaped
    quote. *)
Theorem escaped_quote_is_interpreted :
  (forall i rest,
      find_comment true i (c_backslash :: c_quote :: rest)
      = find_comment false (S (S i)) rest)
  /\ strip_comment (txt "{'a':'b\'//c'}") = txt "{'a':'b\'".
Proof.
  split.
  - intros. reflexivity.
  - vm_compute. reflexivity.
Qed.

(* ------------------------------------------------------------------ *)
(** ** The bracket truncation *)

Lemma scan_state_snoc : forall p c,
  scan_state (p ++ [c]) = scan_step (scan_state p) c.
Proof. intros. unfold scan_state. now rewrite fold_left_app. Qed.

Lemma firstn_length_app : forall (p l : str), firstn (length p) (p ++ l) = p.
Proof.
  intros. rewrite firstn_app, Nat.sub_diag, firstn_all. simpl.
  now rewrite app_nil_r.
Qed.

Lemma firstn_S_length_app : forall (p : str) c l,
  firstn (S (length p)) (p ++ c :: l) = p ++ [c].
Proof.
  intros. rewrite firstn_app.
  replace (S (length p) - length p)%nat with 1%nat by lia.
  rewrite firstn_all2 by lia. reflexivity.
Qed.

Lemma nth_error_length_app : forall (p : str) c l,
  nth_error (p ++ c :: l) (length p) = Some c.
Proof.
  intros. rewrite nth_error_app2 by lia. now rewrite Nat.sub_diag.
Qed.

(** What stops index [length p] from being a return to zero. *)
Lemma not_return_here : forall (p : str) c l,
  c <> c_rbracket \/ fst (scan_state p) = true
  \/ snd (scan_state (p ++ [c])) <> 0%Z ->
  ~ returns_to_zero (p ++ c :: l) (length p).
Proof.
  intros p c l H (Hn & Hs & _ & Hz).
  rewrite nth_error_length_app in Hn.
  rewrite firstn_length_app in Hs.
  rewrite firstn_S_length_app in Hz.
  destruct H as [H | [H | H]]; congruence.
Qed.

Lemma no_return_extend : forall (p : str) c l,
  (forall j, (j < length p)%nat -> ~ returns_to_zero (p ++ c :: l) j) ->
  ~ returns_to_zero (p ++ c :: l) (length p) ->
  forall j, (j < length (p ++ [c]))%nat ->
            ~ returns_to_zero ((p ++ [c]) ++ l) j.
Proof.
  intros p c l Hbefore Hhere j Hj.
  rewrite <- app_assoc. simpl.
  rewrite length_app in Hj. simpl in Hj.
  destruct (Nat.eq_dec j (length p)) as [-> | Hne]; [assumption|].
  apply Hbefore. lia.
Qed.

Lemma find_balance_spec : forall l p,
  (forall j, (j < length p)%nat -> ~ returns_to_zero (p ++ l) j) ->
  match find_balance (fst (scan_state p)) (snd (scan_state p)) (length p) l
  with
  | Some i =>
      returns_to_zero (p ++ l) i
      /\ forall j, (j < i)%nat -> ~ returns_to_zero (p ++ l) j
  | None => forall j, ~ returns_to_zero (p ++ l) j
  end.
Proof.
  induction l as [|c l IH]; intros p Hbefore.
  - simpl. intros j. destruct (Nat.lt_ge_cases j (length p)) as [Hlt | Hge].
    + now apply Hbefore.
    + intros (Hn & _). rewrite app_nil_r in Hn.
      apply nth_error_None in Hge. congruence.
  - assert (Hstep : scan_state (p ++ [c]) = scan_step (scan_state p) c)
      by apply scan_state_snoc.
    assert (Hlen : length (p ++ [c]) = S (length p))
      by (rewrite length_app; simpl; lia).
    specialize (IH (p ++ [c])).
    rewrite Hlen, Hstep in IH. rewrite <- app_assoc in IH. simpl in IH.
    pose proof (no_return_extend p c l Hbefore) as Hext.
    rewrite <- app_assoc in Hext. simpl in Hext. rewrite Hlen in Hext.
    pose proof (not_return_here p c l) as Hnot. rewrite Hstep in Hnot.
    unfold scan_step in IH, Hnot.
    destruct (scan_state p) as [in_str stack] eqn:Est.
    cbn [fst snd] in *. cbn [find_balance].
    destruct in_str.
    + destruct (c =? c_quote) eqn:Eq; cbn [fst snd negb] in *;
        apply IH; apply Hext; apply Hnot; auto.
    + destruct (c =? c_quote) eqn:Eq; cbn [fst snd negb] in *.
      { apply IH; apply Hext; apply Hnot. left. apply N.eqb_eq in Eq.
        rewrite Eq. discriminate. }
      destruct (c =? c_lbracket) eqn:El; cbn [fst snd] in *.
      { apply IH; apply Hext; apply Hnot. left. apply N.eqb_eq in El.
        rewrite El. discriminate. }
      destruct (c =? c_rbracket) eqn:Er; cbn [fst snd] in *.
      * destruct (stack - 1 =? 0)%Z eqn:Ez.
        -- apply Z.eqb_eq in Ez. apply N.eqb_eq in Er. subst c. split.
           ++ unfold returns_to_zero.
              rewrite nth_error_length_app, firstn_length_app,
                firstn_S_length_app, scan_state_snoc, Est.
              cbn. repeat split; auto. lia.
           ++ exact Hbefore.
        -- apply IH; apply Hext; apply Hnot. right. right.
           now apply Z.eqb_neq in Ez.
      * apply IH; apply Hext; apply Hnot. left. now apply N.eqb_neq in Er.
Qed.

Section TruncationClaim.
Context {FM : PyFloat}.

(** C4: the text is cut, inclusively, at the first closing bracket outside
    a string (quotes alone toggle the string state) at which the depth
    returns to zero after having been positive, and is left as it is when
    there is none.  The text [[{'a':1}] garbage after] (with ' for the
    double quote) is cut to [[{'a':1}]], which decodes, and the run on it
    succeeds. *)
Theorem truncate_at_first_return :
  (forall s : str,
      (exists i,
          returns_to_zero s i
          /\ (forall j, (j < i)%nat -> ~ returns_to_zero s j)
          /\ truncate s = firstn (S i) s)
      \/ ((forall i, ~ returns_to_zero s i) /\ truncate s = s))
  /\ truncate (txt "[{'a':1}] garbage after") = txt "[{'a':1}]"
  /\ loads (truncated_text (txt "[{'a':1}] garbage after"))
     = Some (JArr [JObj [(txt "a", JInt 1)]])
  /\ optimize_json (txt "[{'a':1}] garbage after")
     = Return (txt "[{'a': 1}]").
Proof.
  split; [|repeat split; vm_compute; reflexivity].
  intros s. pose proof (find_balance_spec s []) as H. simpl in H.
  unfold truncate.
  destruct (find_balance false 0 0 s) as [i|].
  - left. exists i. destruct H as [H1 H2]; [intros j Hj; lia|].
    split; [exact H1|]. split; [exact H2|]. now rewrite Nat.add_1_r.
  - right. split; [|reflexivity]. apply H. intros j Hj. lia.
Qed.

End TruncationClaim.

(* ------------------------------------------------------------------ *)
(** ** Dictionaries and the postprocessing loop *)

Section Postprocessing.
Context {FM : PyFloat}.

Lemma key_in_In : forall k ks, key_in k ks = true <-> In k ks.
Proof.
  intros k ks. unfold key_in. rewrite existsb_exists. split.
  - intros (x & Hx & E). apply str_eqb_eq in E. now subst.
  - intros H. exists k. split; [assumption | apply str_eqb_refl].
Qed.

Lemma dict_get_del : forall k k' (d : dict),
  dict_get k (dict_del k' d)
  = if str_eqb k' k then None else dict_get k d.
Proof.
  intros k k' d. induction d as [|[k0 v0] d IH]; simpl.
  - now destruct (str_eqb k' k).
  - destruct (str_eqb k' k0) eqn:E0; simpl.
    + rewrite IH. destruct (str_eqb k' k) eqn:E; [reflexivity|].
      apply str_eqb_eq in E0. subst k0.
      rewrite str_eqb_sym, E. reflexivity.
    + destruct (str_eqb k k0) eqn:E1.
      * apply str_eqb_eq in E1. subst k0. now rewrite E0.
      * exact IH.
Qed.

Lemma dict_get_set : forall k k' v (d : dict),
  dict_get k (dict_set k' v d)
  = if str_eqb k k' then Some v else dict_get k d.
Proof.
  intros k k' v d. induction d as [|[k0 v0] d IH]; simpl.
  - reflexivity.
  - destruct (str_eqb k' k0) eqn:E0; simpl.
    + apply str_eqb_eq in E0. subst k0.
      now destruct (str_eqb k k').
    + rewrite IH. destruct (str_eqb k k0) eqn:E1; [|reflexivity].
      apply str_eqb_eq in E1. subst k0.
      now rewrite str_eqb_sym, E0.
Qed.

Lemma dict_get_Some_key_in : forall k (d : dict) v,
  dict_get k d = Some v -> key_in k (keys d) = true.
Proof.
  intros k d v. unfold key_in, keys.
  induction d as [|[k0 v0] d IH]; cbn [dict_get map existsb fst];
    [discriminate|].
  destruct (str_eqb k k0); [reflexivity|]. exact IH.
Qed.

Lemma keys_del : forall k (d : dict),
  keys (dict_del k d) = filter (fun k' => negb (str_eqb k k')) (keys d).
Proof.
  intros k d. unfold keys, dict_del.
  induction d as [|[k0 v0] d IH]; simpl; [reflexivity|].
  destruct (str_eqb k k0); simpl; now rewrite IH.
Qed.

Lemma keys_set : forall k v (d : dict),
  keys (dict_set k v d) = if key_in k (keys d) then keys d else keys d ++ [k].
Proof.
  intros k v d. unfold keys, key_in.
  induction d as [|[k0 v0] d IH]; simpl; [reflexivity|].
  destruct (str_eqb k k0) eqn:E; simpl; [reflexivity|].
  rewrite IH. now destruct (existsb (str_eqb k) (map fst d)).
Qed.

Lemma process_object_processed : forall o : dict,
  key_in (txt "privileged") (keys o) = false ->
  exists lg, process_object (JObj o) = (lg, Return (JObj (processed o))).
Proof.
  intros o Hp. unfold process_object, processed. rewrite Hp.
  destruct (key_in (txt "strict lua") (keys o));
    destruct (key_in (txt "script") (keys o) || key_in (txt "scripts") (keys o));
    eexists; reflexivity.
Qed.

Lemma process_object_privileged : forall o : dict,
  key_in (txt "privileged") (keys o) = true ->
  process_object (JObj o)
  = ([LogDebug [Text (txt "analysing ID: "); Value (plugin_id_of o)]],
     Raise (Exception (privileged_message (plugin_id_of o)))).
Proof. intros o Hp. unfold process_object. now rewrite Hp. Qed.

Lemma process_list_clean : forall objs : list dict,
  forallb (fun o => negb (has_privileged o)) objs = true ->
  exists lg, process_list (map JObj objs)
             = (lg, Return (map JObj (map processed objs))).
Proof.
  induction objs as [|o objs IH]; intros H.
  - eexists; reflexivity.
  - cbn [forallb] in H. apply andb_true_iff in H. destruct H as [Ho Hr].
    apply negb_true_iff in Ho.
    destruct (process_object_processed o Ho) as [lg E].
    destruct (IH Hr) as [lg' E'].
    cbn [map process_list]. rewrite E, E'. eexists; reflexivity.
Qed.

Lemma process_list_privileged : forall (before : list dict) o after,
  forallb (fun o => negb (has_privileged o)) before = true ->
  has_privileged o = true ->
  process_list (map JObj (before ++ o :: after))
  = (fst (process_list (map JObj before))
     ++ [LogDebug [Text (txt "analysing ID: "); Value (plugin_id_of o)]],
     Raise (Exception (privileged_message (plugin_id_of o)))).
Proof.
  induction before as [|b before IH]; intros o after Hb Ho.
  - cbn [app map process_list]. now rewrite (process_object_privileged o Ho).
  - cbn [forallb] in Hb. apply andb_true_iff in Hb. destruct Hb as [Hb Hr].
    apply negb_true_iff in Hb.
    destruct (process_object_processed b Hb) as [lg E].
    destruct (process_list_clean before Hr) as [lg' E'].
    specialize (IH o after Hr Ho).
    cbn [app map process_list]. rewrite E, IH, E'. cbn [fst].
    now rewrite app_assoc.
Qed.

(** The first element that satisfies a test splits the list. *)
Lemma first_such : forall (A : Type) (p : A -> bool) (l : list A),
  existsb p l = true ->
  exists before x after,
    l = before ++ x :: after
    /\ forallb (fun y => negb (p y)) before = true
    /\ p x = true.
Proof.
  intros A p. induction l as [|a l IH]; simpl; [discriminate|].
  intros H. destruct (p a) eqn:Ea.
  - exists [], a, l. auto.
  - simpl in H. destruct (IH H) as (before & x & after & -> & Hb & Hx).
    exists (a :: before), x, after. simpl. rewrite Ea, Hb. auto.
Qed.

(** C1: when an object of the decoded list holds the key [privileged], the
    run ends with the exception of line 107 and returns no text.  The
    message of the exception is the text [Privileged tag detected in
    plugin], then the diagnostic identifier of the first such object (the
    value of its [id] key, else the text [unknown id]), then the advice to
    replace the tag: the identifier occurs in the message.  The records
    logged are those of the objects before that object and its own
    [analysing ID] record, which names the same identifier, whatever
    follows it in the list. *)
Theorem privileged_aborts_run : forall (f : str) (objs : list dict),
  loads (truncated_text f) = Some (JArr (map JObj objs)) ->
  existsb has_privileged objs = true ->
  exists before o after plugin_id message,
    objs = before ++ o :: after
    /\ forallb (fun b => negb (has_privileged b)) before = true
    /\ has_privileged o = true
    /\ plugin_id
       = match dict_get (txt "id") o with
         | Some v => v
         | None => JStr (txt "unknown id")
         end
    /\ message
       = [Text (txt "Privileged tag detected in plugin ");
          Value plugin_id;
          Text (txt ". This tag is deprecated and no longer considered secure.Please replace it with 'require privileges': true.")]
    /\ In (Value plugin_id) message
    /\ optimize_json_log f
       = (fst (process_list (map JObj before))
          ++ [LogDebug [Text (txt "analysing ID: "); Value plugin_id]],
          Raise (Exception message))
    /\ optimize_json f = Raise (Exception message)
    /\ privileged_message (plugin_id_of o) = message.
Proof.
  intros f objs Hl Hp.
  destruct (first_such _ _ _ Hp) as (before & o & after & -> & Hb & Ho).
  exists before, o, after, (plugin_id_of o),
         (privileged_message (plugin_id_of o)).
  assert (E : optimize_json_log f
       = (fst (process_list (map JObj before))
          ++ [LogDebug [Text (txt "analysing ID: "); Value (plugin_id_of o)]],
          Raise (Exception (privileged_message (plugin_id_of o))))).
  { unfold optimize_json_log. rewrite Hl. unfold postprocess.
    now rewrite (process_list_privileged before o after Hb Ho). }
  split; [reflexivity|]. split; [exact Hb|]. split; [exact Ho|].
  split; [reflexivity|]. split; [reflexivity|].
  split; [right; left; reflexivity|]. split; [exact E|].
  split; [|reflexivity]. unfold optimize_json. now rewrite E.
Qed.

(** C2: for an object with no [privileged] key, the loop body returns an
    object in which [strict lua] is absent, [mute lua] is [True] when the
    object held [script] or [scripts] and is as before otherwise, and
    every other key has the value it had. *)
Theorem process_object_effect : forall o : dict,
  has_privileged o = false ->
  exists lg o',
    process_object (JObj o) = (lg, Return (JObj o'))
    /\ dict_get (txt "strict lua") o' = None
    /\ dict_get (txt "mute lua") o'
       = (if key_in (txt "script") (keys o) || key_in (txt "scripts") (keys o)
          then Some (JBool true)
          else dict_get (txt "mute lua") o)
    /\ forall k, k <> txt "strict lua" -> k <> txt "mute lua" ->
                 dict_get k o' = dict_get k o.
Proof.
  intros o Hp. destruct (process_object_processed o Hp) as [lg E].
  exists lg, (processed o). split; [exact E|].
  assert (Hdel : forall k,
             dict_get k (if key_in (txt "strict lua") (keys o)
                         then dict_del (txt "strict lua") o else o)
             = if str_eqb (txt "strict lua") k then None else dict_get k o).
  { intros k. destruct (key_in (txt "strict lua") (keys o)) eqn:Ek.
    - apply dict_get_del.
    - destruct (str_eqb (txt "strict lua") k) eqn:E1; [|reflexivity].
      apply str_eqb_eq in E1. subst k.
      destruct (dict_get (txt "strict lua") o) eqn:Eg; [|reflexivity].
      exfalso. apply dict_get_Some_key_in in Eg. congruence. }
  unfold processed.
  destruct (key_in (txt "script") (keys o) || key_in (txt "scripts") (keys o)).
  - repeat split.
    + rewrite dict_get_set, Hdel. reflexivity.
    + rewrite dict_get_set. reflexivity.
    + intros k H1 H2. rewrite dict_get_set, Hdel.
      apply str_eqb_neq in H2. rewrite H2.
      assert (H1' : str_eqb (txt "strict lua") k = false)
        by (apply str_eqb_neq; congruence).
      now rewrite H1'.
  - repeat split.
    + rewrite Hdel. reflexivity.
    + rewrite Hdel. reflexivity.
    + intros k H1 H2. rewrite Hdel.
      assert (H1' : str_eqb (txt "strict lua") k = false)
        by (apply str_eqb_neq; congruence).
      now rewrite H1'.
Qed.

End Postprocessing.

(* ------------------------------------------------------------------ *)
(** ** The bare-value quoter *)

Lemma match_many_nil : forall (R : Type) cls p (k : str -> option R),
  match_atoms (Many cls :: p) [] k = match_atoms p [] k.
Proof. reflexivity. Qed.

Lemma match_many_cons : forall (R : Type) cls p c s (k : str -> option R),
  match_atoms (Many cls :: p) (c :: s) k
  = if cls c then
      match match_atoms (Many cls :: p) s k with
      | Some r => Some r
      | None => match_atoms p (c :: s) k
      end
    else match_atoms p (c :: s) k.
Proof. reflexivity. Qed.

Lemma match_one_cons : forall (R : Type) cls p c s (k : str -> option R),
  match_atoms (One cls :: p) (c :: s) k
  = if cls c then match_atoms p s k else None.
Proof. reflexivity. Qed.

(** A successful match consumed a text that matches the atoms, and the
    continuation accepted what is left. *)
Lemma match_atoms_sound : forall (R : Type) p s (k : str -> option R) r,
  match_atoms p s k = Some r ->
  exists m s', s = m ++ s' /\ matches p m /\ k s' = Some r.
Proof.
  intros R p. induction p as [|[cls|cls] p IH]; intros s k r H.
  - exists [], s. repeat split; [constructor | exact H].
  - destruct s as [|c s]; [discriminate|].
    rewrite match_one_cons in H. destruct (cls c) eqn:Ec; [|discriminate].
    destruct (IH _ _ _ H) as (m & s' & -> & Hm & Hk).
    exists (c :: m), s'. repeat split; [now constructor | exact Hk].
  - assert (Hp : forall s, match_atoms p s k = Some r ->
                 exists m s', s = m ++ s' /\ matches (Many cls :: p) m
                              /\ k s' = Some r).
    { intros s0 H0. destruct (IH _ _ _ H0) as (m & s' & -> & Hm & Hk).
      exists m, s'. repeat split; [|exact Hk].
      change m with ([] ++ m). constructor; [constructor | exact Hm]. }
    induction s as [|c s IHs].
    + rewrite match_many_nil in H. now apply Hp.
    + rewrite match_many_cons in H. destruct (cls c) eqn:Ec; [|now apply Hp].
      destruct (match_atoms (Many cls :: p) s k) as [r'|] eqn:Es;
        [|now apply Hp].
      injection H as ->.
      destruct (IHs eq_refl) as (m & s' & -> & Hm & Hk).
      exists (c :: m), s'. repeat split; [|exact Hk].
      inversion Hm as [| |cls' a p' m' Ha Hm' E1 E2]; subst.
      change (c :: a ++ m') with ((c :: a) ++ m').
      constructor; [|exact Hm']. constructor; assumption.
Qed.

Lemma consumed_app : forall m s' : str, consumed (m ++ s') s' = m.
Proof.
  intros. unfold consumed. rewrite length_app.
  replace (length m + length s' - length s')%nat with (length m) by lia.
  apply firstn_length_app.
Qed.

Lemma matches_group1 : forall g, matches group1 g -> key_prefix g.
Proof.
  intros g H. unfold group1 in H.
  inversion H as [|cls q p1 m1 Hq H1|]; subst; clear H.
  inversion H1 as [| |cls k p2 m2 Hk H2]; subst; clear H1.
  inversion H2 as [|cls q2 p3 m3 Hq2 H3|]; subst; clear H2.
  inversion H3 as [| |cls w1 p4 m4 Hw1 H4]; subst; clear H3.
  inversion H4 as [|cls c p5 m5 Hc H5|]; subst; clear H4.
  inversion H5 as [| |cls w2 p6 m6 Hw2 H6]; subst; clear H5.
  inversion H6; subst; clear H6.
  apply N.eqb_eq in Hq, Hq2, Hc. subst.
  exists k, w1, w2. rewrite app_nil_r. repeat split; assumption.
Qed.

Lemma matches_group2 : forall g, matches group2 g -> bare_token g.
Proof.
  intros g H. unfold group2 in H.
  inversion H as [|cls c0 p1 m1 Hc0 H1|]; subst; clear H.
  inversion H1 as [| |cls body p2 m2 Hb H2]; subst; clear H1.
  inversion H2 as [|cls a p3 m3 Ha H3|]; subst; clear H2.
  inversion H3 as [| |cls tail p4 m4 Ht H4]; subst; clear H3.
  inversion H4; subst; clear H4.
  exists c0, body, a, tail. rewrite app_nil_r. repeat split; assumption.
Qed.

Lemma matches_group3 : forall g, matches group3 g -> terminator g.
Proof.
  intros g H. unfold group3 in H.
  inversion H as [| |cls w p1 m1 Hw H1]; subst; clear H.
  inversion H1 as [|cls c p2 m2 Hc H2|]; subst; clear H1.
  inversion H2; subst; clear H2.
  exists w, c. repeat split; assumption.
Qed.

(** What a match of the pattern is. *)
Lemma match_bare_value_sound : forall s g1 g2 g3 rest,
  match_bare_value s = Some (g1, g2, g3, rest) ->
  s = g1 ++ g2 ++ g3 ++ rest
  /\ key_prefix g1 /\ bare_token g2 /\ terminator g3.
Proof.
  intros s g1 g2 g3 rest H. unfold match_bare_value in H.
  apply match_atoms_sound in H. destruct H as (m1 & s1 & -> & M1 & H).
  apply match_atoms_sound in H. destruct H as (m2 & s2 & -> & M2 & H).
  apply match_atoms_sound in H. destruct H as (m3 & s3 & -> & M3 & H).
  rewrite !consumed_app in H. injection H as <- <- <- <-.
  split; [reflexivity|].
  split; [now apply matches_group1|].
  split; [now apply matches_group2 | now apply matches_group3].
Qed.

Lemma sub_from_skip : forall a rest : str,
  sub_from (length a) (a ++ rest) = sub_from 0 rest.
Proof. induction a as [|x a IH]; intros rest; [reflexivity | apply IH]. Qed.

(** [re.sub] in its usual form: a character at which no match starts is
    copied, and a match is replaced and the search resumes after it. *)
Lemma quote_bare_values_keep : forall c s,
  match_bare_value (c :: s) = None ->
  quote_bare_values (c :: s) = c :: quote_bare_values s.
Proof. intros c s H. unfold quote_bare_values. cbn [sub_from]. now rewrite H. Qed.

Lemma quote_bare_values_wrap : forall s g1 g2 g3 rest,
  match_bare_value s = Some (g1, g2, g3, rest) ->
  quote_bare_values s = expand g1 g2 g3 ++ quote_bare_values rest.
Proof.
  intros s g1 g2 g3 rest H.
  destruct (match_bare_value_sound _ _ _ _ _ H) as (E & (k & w1 & w2 & Eg & _) & _).
  unfold quote_bare_values. subst s. 
  destruct g1 as [|q g1']; [discriminate|].
  cbn [app sub_from] in *. rewrite H. f_equal.
  replace (length (q :: g1') + length g2 + length g3 - 1)%nat
    with (length (g1' ++ g2 ++ g3))
    by (rewrite !length_app; simpl; lia).
  rewrite <- (sub_from_skip (g1' ++ g2 ++ g3) rest).
  now rewrite <- !app_assoc.
Qed.

(** A repetition that takes all it can and whose rest then matches. *)
Lemma match_many_greedy :
  forall (R : Type) cls p a b (k : str -> option R) r,
    all cls a -> stops cls b ->
    match_atoms p b k = Some r ->
    match_atoms (Many cls :: p) (a ++ b) k = Some r.
Proof.
  intros R cls p a b k r Ha Hb Hk. induction Ha as [|x a Hx Ha IH].
  - destruct b as [|c b]; [exact Hk|].
    cbn [app]. rewrite match_many_cons. simpl in Hb. now rewrite Hb.
  - cbn [app]. rewrite match_many_cons, Hx, IH. reflexivity.
Qed.

(** A repetition followed by one character of a second class: the match
    gives characters back down to the last one that is in the second
    class. *)
Lemma match_many_backtrack :
  forall (R : Type) cls cls2 p u a z b (k : str -> option R) r,
    all cls u -> cls a = true -> all cls z ->
    (forall x, In x z -> cls2 x = false) ->
    stops cls b -> stops cls2 b ->
    match_atoms (One cls2 :: p) (a :: z ++ b) k = Some r ->
    match_atoms (Many cls :: One cls2 :: p) (u ++ a :: z ++ b) k = Some r.
Proof.
  intros R cls cls2 p u a z b k r Hu Ha Hz Hz2 Hb Hb2 Hk.
  assert (Hnone : match_atoms (Many cls :: One cls2 :: p) (z ++ b) k = None).
  { clear Hk. induction Hz as [|x z Hx Hz IH].
    - destruct b as [|c b]; [reflexivity|].
      cbn [app]. rewrite match_many_cons. simpl in Hb, Hb2.
      rewrite Hb, match_one_cons, Hb2. reflexivity.
    - cbn [app]. rewrite match_many_cons, Hx, IH.
      + rewrite match_one_cons, (Hz2 x); [reflexivity | now left].
      + intros y Hy. apply Hz2. now right. }
  induction Hu as [|x u Hx Hu IH].
  - cbn [app]. rewrite match_many_cons, Ha, Hnone. exact Hk.
  - cbn [app]. rewrite match_many_cons, Hx, IH. reflexivity.
Qed.

(** Facts about the classes of the pattern. *)
Ltac class_prop H :=
  unfold is_space, is_alpha, is_body, is_first, is_tail, is_term, is_quote,
    not_quote, is_colon, c_quote, c_comma, c_rbrace, c_rbracket, c_lbrace,
    c_lbracket, c_colon in H;
  repeat rewrite ?negb_true_iff, ?negb_false_iff, ?orb_true_iff,
    ?orb_false_iff, ?andb_true_iff, ?andb_false_iff, ?N.leb_le, ?N.leb_gt,
    ?N.eqb_eq, ?N.eqb_neq in H.

Ltac class_false :=
  let H := fresh "H" in
  apply not_true_iff_false; intros H; class_prop H;
  repeat match goal with H' : _ = true |- _ => class_prop H' end;
  lia.

Lemma first_not_space : forall c, is_first c = true -> is_space c = false.
Proof.
  intros c H. unfold is_first in H. apply negb_true_iff in H.
  repeat (apply orb_false_iff in H; destruct H as [H ?]). assumption.
Qed.

Lemma space_not_alpha : forall c, is_space c = true -> is_alpha c = false.
Proof. intros c H. class_false. Qed.

Lemma space_is_body : forall c, is_space c = true -> is_body c = true.
Proof.
  intros c H. destruct (is_body c) eqn:E; [reflexivity|].
  class_prop E. class_prop H. lia.
Qed.

Lemma space_not_tail : forall c, is_space c = true -> is_tail c = false.
Proof. intros c H. unfold is_tail. rewrite H. apply andb_false_r. Qed.

Lemma tail_is_body : forall c, is_tail c = true -> is_body c = true.
Proof. intros c H. unfold is_tail in H. now apply andb_true_iff in H. Qed.

Lemma term_not_body : forall c, is_term c = true -> is_body c = false.
Proof. intros c H. class_false. Qed.

Lemma term_not_alpha : forall c, is_term c = true -> is_alpha c = false.
Proof. intros c H. class_false. Qed.

Lemma term_not_space : forall c, is_term c = true -> is_space c = false.
Proof. intros c H. class_false. Qed.

Lemma term_not_tail : forall c, is_term c = true -> is_tail c = false.
Proof.
  intros c H. unfold is_tail. now rewrite (term_not_body c H).
Qed.

(** The last letter of a text that has one. *)
Lemma last_alpha : forall t : str,
  existsb is_alpha t = true ->
  exists u a v,
    t = u ++ a :: v /\ is_alpha a = true /\ existsb is_alpha v = false.
Proof.
  induction t as [|x t IH]; [discriminate|]. intros H.
  destruct (existsb is_alpha t) eqn:Et.
  - destruct (IH eq_refl) as (u & a & v & -> & Ha & Hv).
    exists (x :: u), a, v. auto.
  - cbn [existsb] in H. rewrite Et, orb_false_r in H.
    exists [], x, t. auto.
Qed.

Lemma all_app : forall cls (a b : str), all cls (a ++ b) <-> all cls a /\ all cls b.
Proof. intros. unfold all. apply Forall_app. Qed.

Lemma consumed_eq : forall s m s' : str, s = m ++ s' -> consumed s s' = m.
Proof. intros s m s' ->. apply consumed_app. Qed.

(** A key, a colon, a token with a letter after its first character and a
    comma or closing brace make a match, whose second group is the
    token. *)
Lemma match_key_value : forall k w1 w2 c0 t w3 c post,
  all not_quote k -> all is_space w1 -> all is_space w2 ->
  is_first c0 = true -> all is_tail t -> existsb is_alpha t = true ->
  all is_space w3 -> is_term c = true ->
  match_bare_value
    (c_quote :: k ++ c_quote :: w1 ++ c_colon :: w2
       ++ c0 :: t ++ w3 ++ c :: post)
  = Some (c_quote :: k ++ c_quote :: w1 ++ c_colon :: w2,
          c0 :: t, w3 ++ [c], post).
Proof.
  intros k w1 w2 c0 t w3 c post Hk Hw1 Hw2 Hc0 Ht Hal Hw3 Hc.
  destruct (last_alpha t Hal) as (u & a & v & Et & Ha & Hv).
  assert (Htu : all is_tail u /\ all is_tail (a :: v))
    by (apply all_app; now rewrite <- Et).
  destruct Htu as [Hu Hav].
  assert (Hvt : all is_tail v) by (now inversion Hav).
  unfold match_bare_value, group1.
  rewrite match_one_cons. change (is_quote c_quote) with true. cbv iota.
  apply match_many_greedy; [exact Hk | reflexivity |].
  rewrite match_one_cons. change (is_quote c_quote) with true. cbv iota.
  apply match_many_greedy; [exact Hw1 | reflexivity |].
  rewrite match_one_cons. change (is_colon c_colon) with true. cbv iota.
  apply match_many_greedy;
    [exact Hw2 | simpl; now apply first_not_space |].
  cbn [match_atoms]. unfold group2.
  rewrite match_one_cons, Hc0.
  rewrite Et at 1.
  replace ((u ++ a :: v) ++ w3 ++ c :: post)
    with (u ++ a :: (v ++ w3) ++ c :: post)
    by (now rewrite <- !app_assoc).
  apply match_many_backtrack.
  - eapply Forall_impl; [|exact Hu]. apply tail_is_body.
  - apply tail_is_body. now inversion Hav.
  - apply all_app. split.
    + eapply Forall_impl; [|exact Hvt]. apply tail_is_body.
    + eapply Forall_impl; [|exact Hw3]. apply space_is_body.
  - intros x Hx. apply in_app_or in Hx. destruct Hx as [Hx | Hx].
    + destruct (is_alpha x) eqn:Ex; [|reflexivity].
      assert (existsb is_alpha v = true)
        by (apply existsb_exists; now exists x).
      congruence.
    + apply space_not_alpha. unfold all in Hw3.
      rewrite Forall_forall in Hw3. now apply Hw3.
  - simpl. now apply term_not_body.
  - simpl. now apply term_not_alpha.
  - rewrite match_one_cons, Ha.
    replace ((v ++ w3) ++ c :: post) with (v ++ w3 ++ c :: post)
      by (now rewrite <- app_assoc).
    apply match_many_greedy; [exact Hvt | |].
    + destruct w3 as [|x w3]; simpl.
      * now apply term_not_tail.
      * apply space_not_tail. now inversion Hw3.
    + cbn [match_atoms]. unfold group3.
      apply match_many_greedy;
        [exact Hw3 | simpl; now apply term_not_space |].
      rewrite match_one_cons, Hc. cbn [match_atoms].
      rewrite (consumed_eq _ (w3 ++ [c]) post)
        by (now rewrite <- app_assoc).
      rewrite (consumed_eq _ (c0 :: t) (w3 ++ c :: post)) by reflexivity.
      rewrite (consumed_eq _ (c_quote :: k ++ c_quote :: w1 ++ c_colon :: w2)
                 (c0 :: t ++ w3 ++ c :: post)); [reflexivity|].
      cbn [app]. f_equal. rewrite <- app_assoc. cbn [app]. f_equal. f_equal.
      now rewrite <- app_assoc.
Qed.

(** The same for a token in its general form: characters that are none of
    comma, closing brace, closing bracket and quote, then the last letter
    of the token, then characters that are no white space either. *)
Lemma match_key_token : forall k w1 w2 c0 u a v w3 c post,
  all not_quote k -> all is_space w1 -> all is_space w2 ->
  is_first c0 = true -> all is_body u -> is_alpha a = true ->
  all is_tail v -> existsb is_alpha v = false ->
  all is_space w3 -> is_term c = true ->
  match_bare_value
    (c_quote :: k ++ c_quote :: w1 ++ c_colon :: w2
       ++ c0 :: (u ++ a :: v) ++ w3 ++ c :: post)
  = Some (c_quote :: k ++ c_quote :: w1 ++ c_colon :: w2,
          c0 :: u ++ a :: v, w3 ++ [c], post).
Proof.
  intros k w1 w2 c0 u a v w3 c post Hk Hw1 Hw2 Hc0 Hu Ha Hvt Hv Hw3 Hc.
  unfold match_bare_value, group1.
  rewrite match_one_cons. change (is_quote c_quote) with true. cbv iota.
  apply match_many_greedy; [exact Hk | reflexivity |].
  rewrite match_one_cons. change (is_quote c_quote) with true. cbv iota.
  apply match_many_greedy; [exact Hw1 | reflexivity |].
  rewrite match_one_cons. change (is_colon c_colon) with true. cbv iota.
  apply match_many_greedy;
    [exact Hw2 | simpl; now apply first_not_space |].
  cbn [match_atoms]. unfold group2.
  rewrite match_one_cons, Hc0.
  replace ((u ++ a :: v) ++ w3 ++ c :: post)
    with (u ++ a :: (v ++ w3) ++ c :: post)
    by (now rewrite <- !app_assoc).
  apply match_many_backtrack.
  - exact Hu.
  - destruct (is_body a) eqn:E; [reflexivity|]. class_prop E. class_prop Ha.
    lia.
  - apply all_app. split.
    + eapply Forall_impl; [|exact Hvt]. apply tail_is_body.
    + eapply Forall_impl; [|exact Hw3]. apply space_is_body.
  - intros x Hx. apply in_app_or in Hx. destruct Hx as [Hx | Hx].
    + destruct (is_alpha x) eqn:Ex; [|reflexivity].
      assert (existsb is_alpha v = true)
        by (apply existsb_exists; now exists x).
      congruence.
    + apply space_not_alpha. unfold all in Hw3.
      rewrite Forall_forall in Hw3. now apply Hw3.
  - simpl. now apply term_not_body.
  - simpl. now apply term_not_alpha.
  - rewrite match_one_cons, Ha.
    replace ((v ++ w3) ++ c :: post) with (v ++ w3 ++ c :: post)
      by (now rewrite <- app_assoc).
    apply match_many_greedy; [exact Hvt | |].
    + destruct w3 as [|x w3]; simpl.
      * now apply term_not_tail.
      * apply space_not_tail. now inversion Hw3.
    + cbn [match_atoms]. unfold group3.
      apply match_many_greedy;
        [exact Hw3 | simpl; now apply term_not_space |].
      rewrite match_one_cons, Hc. cbn [match_atoms].
      rewrite (consumed_eq _ (w3 ++ [c]) post)
        by (now rewrite <- app_assoc).
      rewrite (consumed_eq _ (c0 :: u ++ a :: v) (w3 ++ c :: post))
        by (cbn [app]; now rewrite <- app_assoc).
      erewrite (consumed_eq _ (c_quote :: k ++ c_quote :: w1 ++ c_colon :: w2));
        [reflexivity|].
      cbn [app]. f_equal. rewrite <- app_assoc. cbn [app]. f_equal. f_equal.
      rewrite <- app_assoc. cbn [app]. reflexivity.
Qed.

(** The pattern matches at the head of every text that starts with a key
    and a colon, a bare token and a terminator, and its groups are these
    three. *)
Lemma match_bare_value_complete : forall g1 g2 g3 rest,
  key_prefix g1 -> bare_token g2 -> terminator g3 ->
  match_bare_value (g1 ++ g2 ++ g3 ++ rest) = Some (g1, g2, g3, rest).
Proof.
  intros g1 g2 g3 rest (k & w1 & w2 & -> & Hk & Hw1 & Hw2)
         (c0 & body & a & tail & -> & Hc0 & Hbody & Ha & Htail)
         (w3 & c & -> & Hw3 & Hc).
  assert (Hal : existsb is_alpha (a :: tail) = true)
    by (cbn [existsb]; now rewrite Ha).
  destruct (last_alpha _ Hal) as (u & a' & v & Et & Ha' & Hv).
  assert (Hsplit : all is_body u /\ all is_tail v).
  { destruct u as [|x u'].
    - injection Et as _ <-. split; [constructor | exact Htail].
    - injection Et as <- Et. subst tail. apply all_app in Htail.
      destruct Htail as [Hu' Hav]. split.
      + constructor.
        * destruct (is_body a) eqn:E; [reflexivity|].
          class_prop E. class_prop Ha. lia.
        * eapply Forall_impl; [|exact Hu']. apply tail_is_body.
      + now inversion Hav. }
  destruct Hsplit as [Hu Hvt].
  assert (Hbu : all is_body (body ++ u)) by (apply all_app; now split).
  pose proof (match_key_token k w1 w2 c0 (body ++ u) a' v w3 c rest
                Hk Hw1 Hw2 Hc0 Hbu Ha' Hvt Hv Hw3 Hc) as H.
  replace (body ++ a :: tail) with ((body ++ u) ++ a' :: v)
    by (rewrite Et; now rewrite <- app_assoc).
  replace (([c_quote] ++ k ++ [c_quote] ++ w1 ++ [c_colon] ++ w2)
           ++ (c0 :: (body ++ u) ++ a' :: v) ++ (w3 ++ [c]) ++ rest)
    with (c_quote :: k ++ c_quote :: w1 ++ c_colon :: w2
          ++ c0 :: ((body ++ u) ++ a' :: v) ++ w3 ++ c :: rest).
  - rewrite H. reflexivity.
  - repeat (progress (cbn [app]; rewrite <- ?app_assoc)). reflexivity.
Qed.

Lemma quote_bare_values_prefix : forall pre s,
  all not_quote pre ->
  quote_bare_values (pre ++ s) = pre ++ quote_bare_values s.
Proof.
  intros pre s H. induction H as [|x pre Hx Hp IH]; [reflexivity|].
  cbn [app]. rewrite quote_bare_values_keep, IH; [reflexivity|].
  unfold match_bare_value, group1. rewrite match_one_cons.
  unfold not_quote in Hx. apply negb_true_iff in Hx.
  unfold is_quote. now rewrite Hx.
Qed.

Lemma bare_token_has_letter : forall g, bare_token g -> existsb is_alpha g = true.
Proof.
  intros g (c0 & body & a & tail & -> & _ & _ & Ha & _).
  apply existsb_exists. exists a. split; [|exact Ha].
  right. apply in_or_app. right. now left.
Qed.

(** C6, as the code has it: the quoter scans the line from left to right;
    where the pattern matches it puts the token of the match in quotes and
    goes on after the match, and elsewhere it copies one character.  The
    pattern matches at a position exactly when the text there starts with
    a double quote, a key with no double quote in it, a double quote,
    white space or none, a colon, white space or none, a token, white
    space or none, and a comma or a closing brace (a closing bracket ends
    no match).  The first character of the token is none of double quote,
    opening bracket, opening brace and white space; the characters after
    the first are none of comma, closing brace, closing bracket and double
    quote; one of them is a letter, and no white space follows the last
    letter.  The groups of the match are the key with its colon and white
    space, the token, and the terminator with its white space, all of
    which stay.  No match starts in a text without a double quote.  With '
    for the double quote: ['type': wall,] becomes ['type': 'wall',],
    ['n': 1a,] becomes ['n': '1a',], ['count': 5,] stays, and a token may
    start with a comma: ['k': ,c,] becomes ['k': ',c',]. *)
Theorem bare_value_quoter :
  quote_bare_values [] = []
  /\ (forall c s,
        match_bare_value (c :: s) = None ->
        quote_bare_values (c :: s) = c :: quote_bare_values s)
  /\ (forall s g1 g2 g3 rest,
        match_bare_value s = Some (g1, g2, g3, rest) ->
        s = g1 ++ g2 ++ g3 ++ rest
        /\ key_prefix g1 /\ bare_token g2 /\ terminator g3
        /\ existsb is_alpha g2 = true
        /\ quote_bare_values s
           = g1 ++ [c_quote] ++ g2 ++ [c_quote] ++ g3
             ++ quote_bare_values rest)
  /\ (forall g1 g2 g3 rest,
        key_prefix g1 -> bare_token g2 -> terminator g3 ->
        match_bare_value (g1 ++ g2 ++ g3 ++ rest) = Some (g1, g2, g3, rest)
        /\ quote_bare_values (g1 ++ g2 ++ g3 ++ rest)
           = g1 ++ [c_quote] ++ g2 ++ [c_quote] ++ g3
             ++ quote_bare_values rest)
  /\ (forall pre s,
        all not_quote pre ->
        quote_bare_values (pre ++ s) = pre ++ quote_bare_values s)
  /\ (forall pre k w1 w2 c0 t w3 c post,
        all not_quote pre -> all not_quote k ->
        all is_space w1 -> all is_space w2 ->
        is_first c0 = true -> all is_tail t -> existsb is_alpha t = true ->
        all is_space w3 -> is_term c = true ->
        quote_bare_values
          (pre ++ c_quote :: k ++ c_quote :: w1 ++ c_colon :: w2
             ++ c0 :: t ++ w3 ++ c :: post)
        = pre ++ c_quote :: k ++ c_quote :: w1 ++ c_colon :: w2
            ++ c_quote :: c0 :: t ++ c_quote :: w3 ++ c
            :: quote_bare_values post)
  /\ quote_bare_values (txt "'type': wall,") = txt "'type': 'wall',"
  /\ quote_bare_values (txt "'n': 1a,") = txt "'n': '1a',"
  /\ quote_bare_values (txt "'count': 5,") = txt "'count': 5,"
  /\ quote_bare_values (txt "'k': ,c,") = txt "'k': ',c',"
  /\ quote_bare_values (txt "'k': ]ee  }") = txt "'k': ']ee'  }"
  /\ quote_bare_values (txt "'k': a b,") = txt "'k': 'a b',".
Proof.
  split; [reflexivity|].
  split; [exact quote_bare_values_keep|].
  split.
  { intros s g1 g2 g3 rest H.
    destruct (match_bare_value_sound _ _ _ _ _ H) as (E & H1 & H2 & H3).
    repeat (split; [assumption|]).
    split; [now apply bare_token_has_letter|].
    rewrite (quote_bare_values_wrap _ _ _ _ _ H). unfold expand.
    now rewrite <- !app_assoc. }
  split.
  { intros g1 g2 g3 rest H1 H2 H3.
    pose proof (match_bare_value_complete g1 g2 g3 rest H1 H2 H3) as H.
    split; [exact H|].
    rewrite (quote_bare_values_wrap _ _ _ _ _ H). unfold expand.
    now rewrite <- !app_assoc. }
  split; [exact quote_bare_values_prefix|].
  split.
  { intros pre k w1 w2 c0 t w3 c post Hpre Hk Hw1 Hw2 Hc0 Ht Hal Hw3 Hc.
    rewrite quote_bare_values_prefix by assumption. f_equal.
    rewrite (quote_bare_values_wrap _ _ _ _ _
               (match_key_value k w1 w2 c0 t w3 c post
                  Hk Hw1 Hw2 Hc0 Ht Hal Hw3 Hc)).
    unfold expand. repeat (rewrite <- ?app_assoc; cbn [app]; f_equal). }
  repeat split; vm_compute; reflexivity.
Qed.

(** C6 as the specification states it fails on the code: a token ended by
    a closing bracket is not quoted, and the white space after the colon
    stays, in the quoter and in the cleaned line.  Nor is every token that
    follows a key and a colon quoted: a match starts at a double quote
    only, the scan resumes after a match, and so the text from the second
    double quote of ['x': ab, ': wall,], which has the shape of a match
    with the token [wall], is left as it is; and a token of one letter is
    not quoted. *)
Lemma bare_value_quoter_counterexample :
  quote_bare_values (txt "'type': wall]") = txt "'type': wall]"
  /\ quote_bare_values (txt "'type': wall,") <> txt "'type':'wall',"
  /\ clean_line (txt "'type': wall,") = txt "'type': 'wall',"
  /\ clean_line (txt "'count': 5,") = txt "'count': 5,"
  /\ quote_bare_values (txt "'x': ab, ': wall,") = txt "'x': 'ab', ': wall,"
  /\ match_bare_value (txt "': ab, ': wall,")
     = Some (txt "': ab, ': ", txt "wall", txt ",", [])
  /\ quote_bare_values (txt "'b': y,") = txt "'b': y,".
Proof.
  repeat split; try (vm_compute; reflexivity).
  vm_compute. discriminate.
Qed.

(* ------------------------------------------------------------------ *)
(** ** [json.loads]: the fuel of the model is enough *)

Ltac break_match_hyp H :=
  match type of H with
  | context [match ?x with _ => _ end] =>
      let E := fresh "E" in destruct x eqn:E
  | context [if ?x then _ else _] =>
      let E := fresh "E" in destruct x eqn:E
  end.

Lemma skip_ws_length : forall s, (length (skip_ws s) <= length s)%nat.
Proof.
  induction s as [|c s IH]; simpl; [lia|].
  destruct (is_ws c); simpl; lia.
Qed.

Lemma push_Some : forall c r t rest,
  push c r = Some (t, rest) ->
  exists t', r = Some (t', rest) /\ t = c :: t'.
Proof.
  intros c [[t' rest']|] t rest H; simpl in H; [|discriminate].
  injection H as <- <-. eauto.
Qed.

Lemma scanstring_shorter_aux : forall n s t r,
  (length s <= n)%nat ->
  scanstring s = Some (t, r) -> (length r < length s)%nat.
Proof.
  induction n as [|n IH]; intros s t r Hn H.
  - destruct s; [discriminate | simpl in Hn; lia].
  - destruct s as [|c s]; [discriminate|].
    cbn [scanstring] in H. simpl in Hn.
    repeat (break_match_hyp H; try discriminate; subst; simpl in Hn);
      try (injection H as <- <-; simpl; lia);
      apply push_Some in H; destruct H as (t' & H & _);
      apply IH in H; simpl in *; lia.
Qed.

Lemma scanstring_shorter : forall s t r,
  scanstring s = Some (t, r) -> (length r < length s)%nat.
Proof. intros s t r. now apply (scanstring_shorter_aux (length s)). Qed.

Section Loads.
Context {FM : PyFloat}.

Lemma span_digits_length : forall s ds r,
  span_digits s = (ds, r) -> length s = (length ds + length r)%nat.
Proof.
  induction s as [|c s IH]; intros ds r H; simpl in H.
  - injection H as <- <-. reflexivity.
  - destruct (is_digit c).
    + destruct (span_digits s) as [ds' r'] eqn:E. injection H as <- <-.
      simpl. now rewrite (IH _ _ eq_refl).
    + injection H as <- <-. reflexivity.
Qed.

Lemma match_integer_shorter : forall s t r,
  match_integer s = Some (t, r) -> (length r < length s)%nat.
Proof.
  intros s t r H. unfold match_integer in H.
  destruct s as [|c s]; [discriminate|].
  destruct (c =? 45).
  - destruct s as [|c' s]; [discriminate|].
    destruct (c' =? 48); [injection H as <- <-; simpl; lia|].
    destruct (is_digit c'); [|discriminate].
    destruct (span_digits s) as [ds r'] eqn:E. injection H as <- <-.
    apply span_digits_length in E. simpl. lia.
  - destruct (c =? 48); [injection H as <- <-; simpl; lia|].
    destruct (is_digit c); [|discriminate].
    destruct (span_digits s) as [ds r'] eqn:E. injection H as <- <-.
    apply span_digits_length in E. simpl. lia.
Qed.

Lemma match_fraction_shorter : forall s t r,
  match_fraction s = (t, r) -> (length r <= length s)%nat.
Proof.
  intros s t r H. unfold match_fraction in H.
  repeat (break_match_hyp H; try discriminate; subst);
    try (injection H as <- <-);
    repeat match goal with
           | E : span_digits _ = _ |- _ => apply span_digits_length in E
           end; simpl in *; try lia.
Qed.

Lemma match_exponent_shorter : forall s t r,
  match_exponent s = (t, r) -> (length r <= length s)%nat.
Proof.
  intros s t r H. unfold match_exponent in H.
  destruct s as [|e s]; [injection H as <- <-; lia|].
  destruct ((e =? 101) || (e =? 69)); [|injection H as <- <-; lia].
  assert (Hs : forall sign r1,
             (length r1 <= length s)%nat ->
             match span_digits r1 with
             | ([], _) => ([], e :: s)
             | (ds, r2) => (e :: sign ++ ds, r2)
             end = (t, r) -> (length r <= length (e :: s))%nat).
  { intros sign r1 L H1. destruct (span_digits r1) as [ds r2] eqn:E.
    apply span_digits_length in E.
    destruct ds; injection H1 as <- <-; simpl in *; lia. }
  destruct s as [|c s']; [now apply (Hs [] [])|].
  destruct ((c =? 45) || (c =? 43)).
  - apply (Hs [c] s'); [simpl; lia | exact H].
  - apply (Hs [] (c :: s')); [lia | exact H].
Qed.

Lemma match_number_shorter : forall s v r,
  match_number s = Parsed v r -> (length r < length s)%nat.
Proof.
  intros s v r H. unfold match_number in H.
  destruct (match_integer s) as [[t r0]|] eqn:Ei; [|discriminate].
  destruct (match_fraction r0) as [fr r1] eqn:Ef.
  destruct (match_exponent r1) as [ex r2] eqn:Ee.
  apply match_integer_shorter in Ei. apply match_fraction_shorter in Ef.
  apply match_exponent_shorter in Ee.
  assert (r = r2) by (destruct fr, ex; now injection H). subst. lia.
Qed.

Ltac length_facts :=
  repeat match goal with
         | E : skip_ws ?l = _ |- _ =>
             let L := fresh "L" in
             pose proof (skip_ws_length l) as L; rewrite E in L; clear E
         | E : scanstring _ = Some _ |- _ => apply scanstring_shorter in E
         | E : match_number _ = Parsed _ _ |- _ =>
             apply match_number_shorter in E
         | H : context [length (skip_ws ?l)] |- _ =>
             lazymatch goal with
             | _ : (length (skip_ws l) <= length l)%nat |- _ => fail
             | _ => pose proof (skip_ws_length l)
             end
         | |- context [length (skip_ws ?l)] =>
             lazymatch goal with
             | _ : (length (skip_ws l) <= length l)%nat |- _ => fail
             | _ => pose proof (skip_ws_length l)
             end
         end.

(** A value, a list of elements and a list of members are never empty
    text. *)
Lemma scan_shorter : forall fuel,
  (forall s v r, scan_once fuel s = Parsed v r -> (length r < length s)%nat)
  /\ (forall s vs r,
         array_loop fuel s = Parsed vs r -> (length r < length s)%nat)
  /\ (forall d s d' r,
         object_loop fuel d s = Parsed d' r -> (length r < length s)%nat).
Proof.
  induction fuel as [|fuel (IH1 & IH2 & IH3)];
    [repeat split; intros; discriminate|].
  repeat split.
  - intros s v r H. cbn [scan_once] in H.
    repeat (break_match_hyp H; try discriminate; subst);
      try (injection H as <- <-);
      repeat match goal with
             | E : array_loop fuel _ = Parsed _ _ |- _ => apply IH2 in E
             | E : object_loop fuel _ _ = Parsed _ _ |- _ => apply IH3 in E
             end;
      length_facts; simpl length in *; try lia;
      repeat match goal with
             | |- context [match ?l with [] => _ | _ :: _ => _ end] =>
                 destruct l; simpl length; try lia
             end.
  - intros s vs r H. cbn [array_loop] in H.
    repeat (break_match_hyp H; try discriminate; subst);
      try (injection H as <- <-);
      repeat match goal with
             | E : scan_once fuel _ = Parsed _ _ |- _ => apply IH1 in E
             | E : array_loop fuel _ = Parsed _ _ |- _ => apply IH2 in E
             end;
      length_facts; simpl in *; try lia.
  - intros d s d' r H. cbn [object_loop] in H.
    repeat (break_match_hyp H; try discriminate; subst);
      try (injection H as <- <-);
      repeat match goal with
             | E : scan_once fuel _ = Parsed _ _ |- _ => apply IH1 in E
             end;
      try (apply IH3 in H);
      length_facts; simpl in *; try lia.
Qed.

Lemma scan_fuel_enough : forall fuel,
  (forall s, (2 * length s + 1 <= fuel)%nat -> scan_once fuel s <> Exhausted)
  /\ (forall s,
         (2 * length s + 2 <= fuel)%nat -> array_loop fuel s <> Exhausted)
  /\ (forall d s,
         (2 * length s + 2 <= fuel)%nat -> object_loop fuel d s <> Exhausted).
Proof.
  induction fuel as [|fuel (IH1 & IH2 & IH3)];
    [repeat split; intros; simpl in *; lia|].
  destruct (scan_shorter fuel) as (S1 & S2 & S3).
  repeat split.
  - intros s Hf H. cbn [scan_once] in H.
    repeat (break_match_hyp H; try discriminate; subst);
      try (apply match_number_shorter in H);
      match goal with
      | E : array_loop _ _ = Exhausted |- _ => exfalso; revert E; apply IH2
      | E : object_loop _ _ _ = Exhausted |- _ =>
          exfalso; revert E; apply IH3
      | E : match_number ?s = Exhausted |- _ =>
          unfold match_number in E;
          repeat (break_match_hyp E; try discriminate)
      end;
      length_facts; simpl length in *; lia.
  - intros s Hf H. cbn [array_loop] in H.
    repeat (break_match_hyp H; try discriminate; subst);
      match goal with
      | E : array_loop _ _ = Exhausted |- _ => exfalso; revert E; apply IH2
      | E : scan_once _ _ = Exhausted |- _ => exfalso; revert E; apply IH1
      end;
      repeat match goal with
             | E : scan_once _ _ = Parsed _ _ |- _ => apply S1 in E
             end;
      length_facts; simpl length in *; lia.
  - intros d s Hf H. cbn [object_loop] in H.
    repeat (break_match_hyp H; try discriminate; subst);
      match goal with
      | E : object_loop _ _ _ = Exhausted |- _ =>
          exfalso; revert E; apply IH3
      | E : scan_once _ _ = Exhausted |- _ => exfalso; revert E; apply IH1
      end;
      repeat match goal with
             | E : scan_once _ _ = Parsed _ _ |- _ => apply S1 in E
             end;
      length_facts; simpl length in *; lia.
Qed.

Lemma scan_fuel_mono : forall fuel,
  (forall s fuel',
      (fuel <= fuel')%nat -> scan_once fuel s <> Exhausted ->
      scan_once fuel' s = scan_once fuel s)
  /\ (forall s fuel',
         (fuel <= fuel')%nat -> array_loop fuel s <> Exhausted ->
         array_loop fuel' s = array_loop fuel s)
  /\ (forall d s fuel',
         (fuel <= fuel')%nat -> object_loop fuel d s <> Exhausted ->
         object_loop fuel' d s = object_loop fuel d s).
Proof.
  induction fuel as [|fuel (IH1 & IH2 & IH3)];
    [repeat split; intros; exfalso; auto|].
  repeat split.
  - intros s [|f'] Hle Hne; [lia|]. cbn [scan_once] in *.
    repeat match goal with
           | |- ?x = ?x => reflexivity
           | |- context [array_loop f' ?a] =>
               rewrite (IH2 a f')
                 by first [lia | let Ex := fresh in
                                 intro Ex; rewrite Ex in Hne; now apply Hne]
           | |- context [object_loop f' ?d ?a] =>
               rewrite (IH3 d a f')
                 by first [lia | let Ex := fresh in
                                 intro Ex; rewrite Ex in Hne; now apply Hne]
           | |- context [match ?x with _ => _ end] => destruct x eqn:?
           | |- context [if ?x then _ else _] => destruct x eqn:?
           end.
  - intros s [|f'] Hle Hne; [lia|]. cbn [array_loop] in *.
    repeat match goal with
           | |- ?x = ?x => reflexivity
           | |- context [scan_once f' ?a] =>
               rewrite (IH1 a f')
                 by first [lia | let Ex := fresh in
                                 intro Ex; rewrite Ex in Hne; now apply Hne]
           | |- context [array_loop f' ?a] =>
               rewrite (IH2 a f')
                 by first [lia | let Ex := fresh in
                                 intro Ex; rewrite Ex in Hne; now apply Hne]
           | |- context [match ?x with _ => _ end] => destruct x eqn:?
           | |- context [if ?x then _ else _] => destruct x eqn:?
           end.
  - intros d s [|f'] Hle Hne; [lia|]. cbn [object_loop] in *.
    repeat match goal with
           | |- ?x = ?x => reflexivity
           | |- context [scan_once f' ?a] =>
               rewrite (IH1 a f')
                 by first [lia | let Ex := fresh in
                                 intro Ex; rewrite Ex in Hne; now apply Hne]
           | |- context [object_loop f' ?d ?a] =>
               rewrite (IH3 d a f')
                 by first [lia | let Ex := fresh in
                                 intro Ex; rewrite Ex in Hne; now apply Hne]
           | |- context [match ?x with _ => _ end] => destruct x eqn:?
           | |- context [if ?x then _ else _] => destruct x eqn:?
           end.
Qed.

End Loads.

(* ------------------------------------------------------------------ *)
(** ** [json.loads] reads back what [json.dumps] wrote *)

Lemma hex_val_hex_digit : forall n, n < 16 -> hex_val (hex_digit n) = Some n.
Proof.
  intros n H. unfold hex_digit, hex_val, is_digit.
  destruct (N.ltb_spec n 10) as [L | L].
  - replace ((48 <=? 48 + n) && (48 + n <=? 57)) with true.
    + f_equal. lia.
    + symmetry. apply andb_true_iff. split; apply N.leb_le; lia.
  - replace ((48 <=? 87 + n) && (87 + n <=? 57)) with false.
    + replace ((97 <=? 87 + n) && (87 + n <=? 102)) with true.
      * f_equal. lia.
      * symmetry. apply andb_true_iff. split; apply N.leb_le; lia.
    + symmetry. apply andb_false_iff. right. apply N.leb_gt. lia.
Qed.

Lemma hex4_control : forall c,
  c < 32 -> hex4 48 48 (hex_digit (c / 16)) (hex_digit (c mod 16)) = Some c.
Proof.
  intros c H. unfold hex4.
  pose proof (N.Div0.div_lt_upper_bound c 16 2) as Hd.
  pose proof (N.mod_lt c 16) as Hm.
  rewrite !hex_val_hex_digit by lia.
  change (hex_val 48) with (Some 0). cbv iota. f_equal.
  pose proof (N.div_mod c 16). lia.
Qed.

(** The scanner on the escape of one character. *)
Lemma scanstring_escape : forall c x tl,
  scanstring (escape_char c ++ x :: tl) = push c (scanstring (x :: tl)).
Proof.
  intros c x tl. unfold escape_char.
  destruct (c =? 34) eqn:E34; [apply N.eqb_eq in E34; now subst|].
  destruct (c =? 92) eqn:E92; [apply N.eqb_eq in E92; now subst|].
  destruct (c =? 10) eqn:E10; [apply N.eqb_eq in E10; now subst|].
  destruct (c =? 13) eqn:E13; [apply N.eqb_eq in E13; now subst|].
  destruct (c =? 9) eqn:E9; [apply N.eqb_eq in E9; now subst|].
  destruct (c =? 8) eqn:E8; [apply N.eqb_eq in E8; now subst|].
  destruct (c =? 12) eqn:E12; [apply N.eqb_eq in E12; now subst|].
  destruct (c <? 32) eqn:E32.
  - apply N.ltb_lt in E32.
    cbn [app scanstring].
    change (92 =? c_quote) with false. change (92 =? c_backslash) with true.
    change (117 =? 117) with true. cbv iota.
    rewrite (hex4_control c E32).
    replace (is_high_surrogate c) with false; [reflexivity|].
    symmetry. unfold is_high_surrogate. apply andb_false_iff. left.
    apply N.leb_gt. lia.
  - cbn [app scanstring]. unfold c_quote, c_backslash.
    rewrite E34, E92.
    replace (c <=? 31) with false; [reflexivity|].
    symmetry. apply N.leb_gt. apply N.ltb_ge in E32. lia.
Qed.

Lemma scanstring_encode : forall s rest,
  scanstring (flat_map escape_char s ++ c_quote :: rest) = Some (s, rest).
Proof.
  induction s as [|c s IH]; intros rest.
  - reflexivity.
  - cbn [flat_map]. rewrite <- app_assoc.
    destruct (flat_map escape_char s ++ c_quote :: rest) as [|x tl] eqn:E.
    + destruct (flat_map escape_char s); discriminate.
    + rewrite scanstring_escape, <- E, IH. reflexivity.
Qed.

Lemma uint_of_digits_of_uint : forall u, uint_of_digits (digits_of_uint u) = u.
Proof. induction u; simpl; congruence. Qed.

Lemma digits_of_uint_digits : forall u,
  Forall (fun c => is_digit c = true) (digits_of_uint u).
Proof. induction u; simpl; constructor; auto. Qed.

Lemma span_digits_app : forall ds rest,
  Forall (fun c => is_digit c = true) ds ->
  stops is_digit rest ->
  span_digits (ds ++ rest) = (ds, rest).
Proof.
  intros ds rest H Hr. induction H as [|c ds Hc H IH]; cbn [app span_digits].
  - destruct rest as [|x rest]; [reflexivity|]. cbn [stops] in Hr.
    cbn [span_digits]. now rewrite Hr.
  - now rewrite Hc, IH.
Qed.

(** The decimal digits of a positive number start with a digit that is
    not zero. *)
Lemma pos_to_uint_head : forall p,
  exists c ds,
    digits_of_uint (Pos.to_uint p) = c :: ds
    /\ is_digit c = true /\ (c =? 48) = false
    /\ Forall (fun c => is_digit c = true) ds.
Proof.
  intros p.
  assert (Hn : Decimal.unorm (Pos.to_uint p) = Pos.to_uint p).
  { change (Pos.to_uint p) with (N.to_uint (Npos p)).
    rewrite <- DecimalN.Unsigned.to_of. now rewrite DecimalN.Unsigned.of_to. }
  pose proof (DecimalPos.Unsigned.to_uint_nonzero p) as Hz.
  pose proof (DecimalFacts.nzhead_nonzero (Pos.to_uint p)) as Hh.
  pose proof (digits_of_uint_digits (Pos.to_uint p)) as Hd.
  unfold Decimal.unorm in Hn.
  destruct (Decimal.nzhead (Pos.to_uint p)) eqn:E;
    try (exfalso; apply Hz; now rewrite <- Hn);
    try (exfalso; now apply (Hh u));
    rewrite <- Hn in *; simpl in *; inversion Hd; subst;
    eexists; eexists; repeat split; eauto.
Qed.

Lemma delimited_stops : forall rest, delimited rest -> stops is_digit rest.
Proof. intros [|c rest] H; simpl in *; tauto. Qed.

Lemma match_fraction_none : forall rest,
  delimited rest -> match_fraction rest = ([], rest).
Proof.
  intros [|c [|d rest]] H; try reflexivity. simpl in H.
  unfold match_fraction. destruct H as (_ & H & _).
  apply N.eqb_neq in H. now rewrite H.
Qed.

Lemma match_exponent_none : forall rest,
  delimited rest -> match_exponent rest = ([], rest).
Proof.
  intros [|c rest] H; try reflexivity. simpl in H.
  unfold match_exponent. destruct H as (_ & _ & H1 & H2).
  apply N.eqb_neq in H1, H2. now rewrite H1, H2.
Qed.

Section Numbers.
Context {FM : PyFloat}.

Lemma match_number_int : forall z rest,
  delimited rest ->
  match_number (repr_int z ++ rest) = Parsed (JInt z) rest.
Proof.
  intros z rest Hr.
  pose proof (delimited_stops rest Hr) as Hs.
  unfold match_number.
  assert (Hi : match_integer (repr_int z ++ rest) = Some (repr_int z, rest)).
  { destruct z as [|p|p]; unfold repr_int.
    - reflexivity.
    - change (N.to_uint (Z.to_N (Z.pos p))) with (Pos.to_uint p).
      destruct (pos_to_uint_head p) as (c & ds & -> & Hc & Hc0 & Hds).
      unfold match_integer. cbn [app].
      replace (c =? 45) with false
        by (symmetry; apply N.eqb_neq; unfold is_digit in Hc;
            apply andb_true_iff in Hc; destruct Hc as [H1 H2];
            apply N.leb_le in H1, H2; lia).
      rewrite Hc0, Hc, (span_digits_app ds rest Hds Hs). reflexivity.
    - change (N.to_uint (N.pos p)) with (Pos.to_uint p).
      destruct (pos_to_uint_head p) as (c & ds & -> & Hc & Hc0 & Hds).
      unfold match_integer. cbn [app].
      change (45 =? 45) with true. cbv iota.
      rewrite Hc0, Hc, (span_digits_app ds rest Hds Hs). reflexivity. }
  rewrite Hi, (match_fraction_none rest Hr), (match_exponent_none rest Hr).
  f_equal. f_equal.
  destruct z as [|p|p]; unfold repr_int.
  - reflexivity.
  - change (N.to_uint (Z.to_N (Z.pos p))) with (N.to_uint (Npos p)).
    destruct (pos_to_uint_head p) as (c & ds & E & Hc & Hc0 & Hds).
    change (N.to_uint (N.pos p)) with (Pos.to_uint p). 
    unfold int_of_literal. rewrite E.
    replace (c =? 45) with false
      by (symmetry; apply N.eqb_neq; unfold is_digit in Hc;
          apply andb_true_iff in Hc; destruct Hc as [H1 H2];
          apply N.leb_le in H1, H2; lia).
    rewrite <- E, uint_of_digits_of_uint.
    change (Pos.to_uint p) with (N.to_uint (Npos p)).
    now rewrite DecimalN.Unsigned.of_to.
  - unfold int_of_literal. change (45 =? 45) with true. cbv iota.
    rewrite uint_of_digits_of_uint, DecimalN.Unsigned.of_to. reflexivity.
Qed.

Lemma prefix_of_head : forall p c s,
  match p with
  | [] => False
  | x :: _ => x <> c
  end ->
  prefix_of p (c :: s) = false.
Proof.
  intros [|x p] c s H; [contradiction|]. cbn [prefix_of].
  apply N.eqb_neq in H. now rewrite H.
Qed.

(** A text that starts like a number is scanned as a number. *)
Lemma scan_once_digit : forall fuel c s,
  is_digit c = true ->
  scan_once (S fuel) (c :: s) = match_number (c :: s).
Proof.
  intros fuel c s Hc. unfold is_digit in Hc.
  apply andb_true_iff in Hc. destruct Hc as [H1 H2].
  apply N.leb_le in H1, H2.
  cbn [scan_once]. unfold c_quote, c_lbrace, c_lbracket.
  repeat match goal with
         | |- context [c =? ?k] =>
             replace (c =? k) with false by (symmetry; apply N.eqb_neq; lia)
         end.
  rewrite !prefix_of_head by (cbn; lia). reflexivity.
Qed.

Lemma scan_once_minus_digit : forall fuel c s,
  is_digit c = true ->
  scan_once (S fuel) (45 :: c :: s) = match_number (45 :: c :: s).
Proof.
  intros fuel c s Hc. unfold is_digit in Hc.
  apply andb_true_iff in Hc. destruct Hc as [H1 H2].
  apply N.leb_le in H1, H2.
  cbn [scan_once]. 
  change (45 =? c_quote) with false. change (45 =? c_lbrace) with false.
  change (45 =? c_lbracket) with false. cbv iota.
  change (prefix_of (txt "null") (45 :: c :: s)) with false.
  change (prefix_of (txt "true") (45 :: c :: s)) with false.
  change (prefix_of (txt "false") (45 :: c :: s)) with false.
  change (prefix_of (txt "NaN") (45 :: c :: s)) with false.
  change (prefix_of (txt "Infinity") (45 :: c :: s)) with false.
  cbv iota.
  replace (prefix_of (txt "-Infinity") (45 :: c :: s)) with false;
    [reflexivity|].
  symmetry. change (prefix_of (txt "-Infinity") (45 :: c :: s))
    with ((73 =? c) && prefix_of (txt "nfinity") s).
  replace (73 =? c) with false by (symmetry; apply N.eqb_neq; lia).
  reflexivity.
Qed.

Lemma scan_once_int : forall fuel z rest,
  delimited rest ->
  scan_once (S fuel) (repr_int z ++ rest) = Parsed (JInt z) rest.
Proof.
  intros fuel z rest Hr. rewrite <- (match_number_int z rest Hr).
  destruct z as [|p|p]; unfold repr_int.
  - now apply scan_once_digit.
  - change (N.to_uint (Z.to_N (Z.pos p))) with (Pos.to_uint p).
    destruct (pos_to_uint_head p) as (c & ds & -> & Hc & _).
    now apply scan_once_digit.
  - change (N.to_uint (N.pos p)) with (Pos.to_uint p).
    destruct (pos_to_uint_head p) as (c & ds & -> & Hc & _).
    now apply scan_once_minus_digit.
Qed.

End Numbers.

Section RoundTrip.
Context {FM : PyFloat}.

Lemma scan_once_mono : forall fuel fuel' s v r,
  scan_once fuel s = Parsed v r -> (fuel <= fuel')%nat ->
  scan_once fuel' s = Parsed v r.
Proof.
  intros fuel fuel' s v r H Hle.
  destruct (scan_fuel_mono fuel) as (M & _ & _).
  rewrite (M s fuel' Hle); [exact H | rewrite H; discriminate].
Qed.

Lemma array_loop_mono : forall fuel fuel' s vs r,
  array_loop fuel s = Parsed vs r -> (fuel <= fuel')%nat ->
  array_loop fuel' s = Parsed vs r.
Proof.
  intros fuel fuel' s vs r H Hle.
  destruct (scan_fuel_mono fuel) as (_ & M & _).
  rewrite (M s fuel' Hle); [exact H | rewrite H; discriminate].
Qed.

Lemma object_loop_mono : forall fuel fuel' d s d' r,
  object_loop fuel d s = Parsed d' r -> (fuel <= fuel')%nat ->
  object_loop fuel' d s = Parsed d' r.
Proof.
  intros fuel fuel' d s d' r H Hle.
  destruct (scan_fuel_mono fuel) as (_ & _ & M).
  rewrite (M d s fuel' Hle); [exact H | rewrite H; discriminate].
Qed.

(** The fuel [loads] gives is as good as any. *)
Lemma scan_once_fuel : forall fuel s v r,
  scan_once fuel s = Parsed v r ->
  forall fuel', (2 * length s + 1 <= fuel')%nat ->
                scan_once fuel' s = Parsed v r.
Proof.
  intros fuel s v r H fuel' Hle.
  destruct (Nat.le_ge_cases fuel fuel') as [L | L].
  - now apply (scan_once_mono fuel).
  - destruct (scan_fuel_enough fuel') as (E & _ & _).
    destruct (scan_fuel_mono fuel') as (M & _ & _).
    rewrite <- (M s fuel L (E s Hle)). exact H.
Qed.

(** [loads] never runs out of fuel. *)
Lemma loads_never_exhausted : forall s,
  scan_once (2 * length s + 1) (skip_ws s) <> Exhausted.
Proof.
  intros s. destruct (scan_fuel_enough (2 * length s + 1)) as (E & _ & _).
  apply E. pose proof (skip_ws_length s). lia.
Qed.

(** A value starts with a character that is neither white space, nor a
    closing bracket or brace, nor the byte order mark. *)
Lemma scan_once_head : forall fuel s v r,
  scan_once fuel s = Parsed v r ->
  exists c s',
    s = c :: s' /\ is_ws c = false
    /\ c <> c_rbracket /\ c <> c_rbrace /\ c <> c_bom.
Proof.
  intros [|fuel] [|c s'] v r H; try discriminate.
  exists c, s'. split; [reflexivity|].
  assert (Hbad : forall k,
             In k [32; 9; 10; 13; c_rbracket; c_rbrace; c_bom] -> c <> k).
  { intros k Hk ->. simpl in Hk.
    repeat (destruct Hk as [<- | Hk]; [simpl in H; discriminate|]).
    contradiction. }
  split.
  - unfold is_ws. repeat rewrite orb_false_iff.
    repeat split; apply N.eqb_neq; apply Hbad; simpl; auto.
  - repeat split; apply Hbad; simpl; auto 10.
Qed.

Lemma skip_ws_head : forall c s, is_ws c = false -> skip_ws (c :: s) = c :: s.
Proof. intros c s H. cbn [skip_ws]. now rewrite H. Qed.

Lemma scan_once_skip_ws : forall fuel s v r,
  scan_once fuel s = Parsed v r -> skip_ws s = s.
Proof.
  intros fuel s v r H.
  destruct (scan_once_head _ _ _ _ H) as (c & s' & -> & Hc & _).
  now apply skip_ws_head.
Qed.

Lemma array_loop_skip_ws : forall fuel s vs r,
  array_loop fuel s = Parsed vs r -> skip_ws s = s.
Proof.
  intros [|fuel] s vs r H; [discriminate|]. cbn [array_loop] in H.
  destruct (scan_once fuel s) as [v r'| |] eqn:E; try discriminate.
  now apply (scan_once_skip_ws fuel s v r').
Qed.

Lemma delimited_comma : forall s, delimited (c_comma :: s).
Proof. intros s. simpl. repeat split; discriminate. Qed.

Lemma delimited_rbracket : forall s, delimited (c_rbracket :: s).
Proof. intros s. simpl. repeat split; discriminate. Qed.

Lemma delimited_rbrace : forall s, delimited (c_rbrace :: s).
Proof. intros s. simpl. repeat split; discriminate. Qed.

Lemma array_loop_reads_back : forall l,
  l <> [] -> Forall reads_back l ->
  forall rest,
  exists fuel,
    array_loop fuel (join item_separator (map dumps l) ++ c_rbracket :: rest)
    = Parsed l rest.
Proof.
  induction l as [|v l IH]; intros Hne Hl rest; [contradiction|].
  inversion Hl as [|? ? Hv Hl']; subst.
  destruct l as [|v2 l].
  - cbn [map join].
    destruct (Hv (c_rbracket :: rest) (delimited_rbracket rest)) as [f Hf].
    exists (S f). cbn [array_loop]. rewrite Hf.
    change (skip_ws (c_rbracket :: rest)) with (c_rbracket :: rest).
    cbv iota. now rewrite N.eqb_refl.
  - destruct (IH ltac:(discriminate) Hl' rest) as [f2 Hf2].
    remember (join item_separator (map dumps (v2 :: l)) ++ c_rbracket :: rest)
      as X eqn:EX.
    assert (E : join item_separator (map dumps (v :: v2 :: l))
                ++ c_rbracket :: rest
                = dumps v ++ c_comma :: c_space :: X).
    { subst X. change (map dumps (v :: v2 :: l))
        with (dumps v :: map dumps (v2 :: l)).
      change (join item_separator (dumps v :: map dumps (v2 :: l)))
        with (dumps v ++ item_separator
                ++ join item_separator (map dumps (v2 :: l))).
      now rewrite <- !app_assoc. }
    rewrite E.
    destruct (Hv (c_comma :: c_space :: X) (delimited_comma _)) as [f1 Hf1].
    exists (S (Nat.max f1 f2)). cbn [array_loop].
    rewrite (scan_once_mono f1 _ _ _ _ Hf1) by lia.
    change (skip_ws (c_comma :: c_space :: X)) with (c_comma :: c_space :: X).
    cbv iota. change (c_comma =? c_rbracket) with false.
    change (c_comma =? c_comma) with true. cbv iota.
    change (skip_ws (c_space :: X)) with (skip_ws X).
    rewrite (array_loop_skip_ws _ _ _ _ Hf2).
    rewrite (array_loop_mono f2 _ _ _ _ Hf2) by lia. reflexivity.
Qed.

Lemma dumps_obj : forall d,
  dumps (JObj d)
  = [c_lbrace] ++ join item_separator (map member d) ++ [c_rbrace].
Proof. reflexivity. Qed.

Lemma members_head : forall kv d rest,
  exists tl,
    join item_separator (map member (kv :: d)) ++ rest = c_quote :: tl.
Proof.
  intros kv d rest. destruct d; cbn [map join]; unfold member at 1;
    unfold encode_basestring; cbn [app]; eexists; reflexivity.
Qed.

Lemma dict_set_fresh : forall k v (d : dict),
  ~ In k (keys d) -> dict_set k v d = d ++ [(k, v)].
Proof.
  intros k v d H. induction d as [|[k0 v0] d IH]; [reflexivity|].
  cbn [dict_set app]. unfold keys in H. cbn [map fst] in H.
  destruct (str_eqb k k0) eqn:E.
  - apply str_eqb_eq in E. subst. exfalso. apply H. now left.
  - f_equal. apply IH. intros Hin. apply H. now right.
Qed.

Lemma set_all_nodup : forall d acc,
  NoDup (keys (acc ++ d)) -> set_all d acc = acc ++ d.
Proof.
  induction d as [|[k v] d IH]; intros acc H.
  - cbn. now rewrite app_nil_r.
  - cbn [set_all fold_left fst snd]. fold (set_all d (dict_set k v acc)).
    assert (Hk : ~ In k (keys acc)).
    { unfold keys in *. rewrite map_app in H. cbn [map fst] in H.
      apply NoDup_remove_2 in H. intros Hin. apply H.
      apply in_or_app. now left. }
    rewrite (dict_set_fresh k v acc Hk), IH.
    + now rewrite <- app_assoc.
    + now rewrite <- app_assoc.
Qed.

Lemma object_loop_reads_back : forall d,
  d <> [] -> Forall (fun kv => reads_back (snd kv)) d ->
  forall acc rest,
  exists fuel,
    object_loop fuel acc
      (join item_separator (map member d) ++ c_rbrace :: rest)
    = Parsed (set_all d acc) rest.
Proof.
  induction d as [|[k v] d IH]; intros Hne Hd acc rest; [contradiction|].
  inversion Hd as [|? ? Hv Hd']; subst. cbn [snd] in Hv.
  assert (Hstep : forall R fv,
             scan_once fv (dumps v ++ R) = Parsed v R ->
             forall f,
               (fv <= f)%nat ->
               object_loop (S f) acc
                 (encode_basestring k ++ key_separator ++ dumps v ++ R)
               = match skip_ws R with
                 | c3 :: r4 =>
                     if c3 =? c_rbrace then Parsed (dict_set k v acc) r4
                     else if c3 =? c_comma then
                       object_loop f (dict_set k v acc) (skip_ws r4)
                     else Invalid
                 | [] => Invalid
                 end).
  { intros R fv Hfv f Hle. unfold encode_basestring.
    change key_separator with [c_colon; c_space].
    rewrite <- !app_assoc. cbn [app object_loop].
    rewrite N.eqb_refl, scanstring_encode.
    change (skip_ws (c_colon :: c_space :: dumps v ++ R))
      with (c_colon :: c_space :: dumps v ++ R).
    cbv iota. change (c_colon =? c_colon) with true. cbv iota.
    change (skip_ws (c_space :: dumps v ++ R)) with (skip_ws (dumps v ++ R)).
    rewrite (scan_once_skip_ws _ _ _ _ Hfv).
    rewrite (scan_once_mono fv f _ _ _ Hfv Hle). reflexivity. }
  destruct d as [|kv2 d].
  - destruct (Hv (c_rbrace :: rest) (delimited_rbrace rest)) as [fv Hfv].
    exists (S fv). cbn [map join]. unfold member. cbn [fst snd].
    rewrite <- !app_assoc.
    rewrite (Hstep _ fv Hfv fv (Nat.le_refl _)).
    change (skip_ws (c_rbrace :: rest)) with (c_rbrace :: rest).
    cbv iota. now rewrite N.eqb_refl.
  - destruct (IH ltac:(discriminate) Hd' (dict_set k v acc) rest)
      as [f2 Hf2].
    remember (join item_separator (map member (kv2 :: d)) ++ c_rbrace :: rest)
      as X eqn:EX.
    assert (E : join item_separator (map member ((k, v) :: kv2 :: d))
                ++ c_rbrace :: rest
                = encode_basestring k ++ key_separator ++ dumps v
                  ++ c_comma :: c_space :: X).
    { subst X. change (map member ((k, v) :: kv2 :: d))
        with (member (k, v) :: map member (kv2 :: d)).
      change (join item_separator (member (k, v) :: map member (kv2 :: d)))
        with (member (k, v) ++ item_separator
                ++ join item_separator (map member (kv2 :: d))).
      unfold member at 1. cbn [fst snd]. now rewrite <- !app_assoc. }
    rewrite E.
    destruct (Hv (c_comma :: c_space :: X) (delimited_comma _)) as [fv Hfv].
    exists (S (Nat.max fv f2)).
    rewrite (Hstep _ fv Hfv) by lia.
    change (skip_ws (c_comma :: c_space :: X)) with (c_comma :: c_space :: X).
    cbv iota. change (c_comma =? c_rbrace) with false.
    change (c_comma =? c_comma) with true. cbv iota.
    change (skip_ws (c_space :: X)) with (skip_ws X).
    assert (HX : skip_ws X = X).
    { destruct (members_head kv2 d (c_rbrace :: rest)) as [tl Etl].
      rewrite EX, Etl. reflexivity. }
    rewrite HX. rewrite (object_loop_mono f2 _ _ _ _ _ Hf2) by lia.
    reflexivity.
Qed.

Lemma array_loop_head : forall fuel s vs r,
  array_loop fuel s = Parsed vs r ->
  exists c s', s = c :: s' /\ is_ws c = false /\ c <> c_rbracket.
Proof.
  intros [|fuel] s vs r H; [discriminate|]. cbn [array_loop] in H.
  destruct (scan_once fuel s) as [v r'| |] eqn:E; try discriminate.
  destruct (scan_once_head _ _ _ _ E) as (c & s' & -> & Hc & Hb & _).
  eauto.
Qed.

(** [json.loads] reads the text of [json.dumps] back as the value that
    was written, for a value whose dicts hold no key twice. *)
Lemma dumps_reads_back :
  float_roundtrip -> forall v, wf_json v -> reads_back v.
Proof.
  intros HF.
  apply (json_induction (fun v => wf_json v -> reads_back v)).
  - intros _ rest _. exists 1%nat. reflexivity.
  - intros [|] _ rest _; exists 1%nat; reflexivity.
  - intros z _ rest Hr. exists 1%nat. now apply scan_once_int.
  - intros f _ rest Hr. exists 1%nat. now apply HF.
  - intros s _ rest _. exists 1%nat. cbn [dumps]. unfold encode_basestring.
    rewrite <- !app_assoc. cbn [app scan_once].
    now rewrite N.eqb_refl, scanstring_encode.
  - intros l IH Hwf rest _. inversion Hwf as [| | | | |l' Hl|]; subst.
    assert (Hrb : Forall reads_back l).
    { rewrite Forall_forall in *. intros x Hx. apply IH; auto. }
    destruct l as [|v l]; [exists 1%nat; reflexivity|].
    destruct (array_loop_reads_back (v :: l) ltac:(discriminate) Hrb rest)
      as [f Hf].
    exists (S f). cbn [dumps]. rewrite <- !app_assoc. cbn [app scan_once].
    change (c_lbracket =? c_quote) with false.
    change (c_lbracket =? c_lbrace) with false.
    change (c_lbracket =? c_lbracket) with true. cbv iota.
    rewrite (array_loop_skip_ws _ _ _ _ Hf).
    destruct (array_loop_head _ _ _ _ Hf) as (c & s' & E & _ & Hc).
    rewrite E in *. apply N.eqb_neq in Hc. now rewrite Hc, Hf.
  - intros d IH Hwf rest _. inversion Hwf as [| | | | | |d' Hnd Hd]; subst.
    assert (Hrb : Forall (fun kv => reads_back (snd kv)) d).
    { rewrite Forall_forall in *. intros x Hx. apply IH; auto. }
    destruct d as [|kv d]; [exists 1%nat; reflexivity|].
    destruct (object_loop_reads_back (kv :: d) ltac:(discriminate) Hrb [] rest)
      as [f Hf].
    exists (S f). rewrite dumps_obj. rewrite <- !app_assoc.
    cbn [app scan_once].
    change (c_lbrace =? c_quote) with false.
    change (c_lbrace =? c_lbrace) with true. cbv iota.
    destruct (members_head kv d (c_rbrace :: rest)) as [tl Etl].
    rewrite Etl in *.
    change (skip_ws (c_quote :: tl)) with (c_quote :: tl). cbv iota.
    change (c_quote =? c_rbrace) with false. cbv iota.
    rewrite Hf. f_equal. f_equal. now apply (set_all_nodup (kv :: d) []).
Qed.

Lemma loads_dumps :
  float_roundtrip -> forall v, wf_json v -> loads (dumps v) = Some v.
Proof.
  intros HF v Hwf.
  destruct (dumps_reads_back HF v Hwf [] I) as [f Hf].
  rewrite app_nil_r in Hf.
  destruct (scan_once_head _ _ _ _ Hf) as (c & s' & E & Hws & _ & _ & Hbom).
  unfold loads. rewrite E in *.
  cbn [prefix_of]. apply N.eqb_neq in Hbom.
  rewrite N.eqb_sym, Hbom. cbn [andb].
  rewrite (skip_ws_head c s' Hws).
  rewrite (scan_once_fuel f _ _ _ Hf) by lia. reflexivity.
Qed.

End RoundTrip.

(* ------------------------------------------------------------------ *)
(** ** [json.loads] builds dicts with no key twice *)

Section WellFormed.
Context {FM : PyFloat}.

Lemma NoDup_snoc : forall (A : Type) (l : list A) x,
  NoDup l -> ~ In x l -> NoDup (l ++ [x]).
Proof.
  intros A l x H Hx. induction H as [|y l Hy H IH]; simpl.
  - constructor; [intros [] | constructor].
  - constructor.
    + intros Hin. apply in_app_or in Hin. destruct Hin as [Hin | [-> | []]].
      * contradiction.
      * apply Hx. now left.
    + apply IH. intros Hin. apply Hx. now right.
Qed.

Lemma dict_set_values : forall (P : json -> Prop) k v (d : dict),
  Forall (fun kv => P (snd kv)) d -> P v ->
  Forall (fun kv => P (snd kv)) (dict_set k v d).
Proof.
  intros P k v d H Hv. induction H as [|[k0 v0] d H0 H IH]; cbn [dict_set].
  - constructor; [exact Hv | constructor].
  - destruct (str_eqb k k0); constructor; auto.
Qed.

Lemma dict_set_wf : forall k v (d : dict),
  wf_dict d -> wf_json v -> wf_dict (dict_set k v d).
Proof.
  intros k v d [Hn Hv] Hw. split.
  - rewrite keys_set. destruct (key_in k (keys d)) eqn:E; [exact Hn|].
    apply NoDup_snoc; [exact Hn|]. intros Hin.
    apply key_in_In in Hin. congruence.
  - now apply dict_set_values.
Qed.

Lemma dict_del_wf : forall k (d : dict), wf_dict d -> wf_dict (dict_del k d).
Proof.
  intros k d [Hn Hv]. split.
  - rewrite keys_del. now apply NoDup_filter.
  - unfold dict_del. rewrite Forall_forall in *. intros x Hx.
    apply filter_In in Hx. now apply Hv.
Qed.

Lemma match_number_wf : forall s v r,
  match_number s = Parsed v r -> wf_json v.
Proof.
  intros s v r H. unfold match_number in H.
  destruct (match_integer s) as [[t r0]|]; [|discriminate].
  destruct (match_fraction r0) as [fr r1].
  destruct (match_exponent r1) as [ex r2].
  destruct fr, ex; injection H as <- _; constructor.
Qed.

Lemma scan_wf : forall fuel,
  (forall s v r, scan_once fuel s = Parsed v r -> wf_json v)
  /\ (forall s vs r, array_loop fuel s = Parsed vs r -> Forall wf_json vs)
  /\ (forall d s d' r,
         wf_dict d -> object_loop fuel d s = Parsed d' r -> wf_dict d').
Proof.
  induction fuel as [|fuel (IH1 & IH2 & IH3)];
    [split; [|split]; intros; discriminate|].
  split; [|split].
  - intros s v r H. cbn [scan_once] in H.
    repeat (break_match_hyp H; try discriminate; subst);
      try (injection H as <- <-); try (now constructor);
      try (now apply match_number_wf in H);
      try (constructor; now constructor);
      try match goal with
          | E : object_loop _ _ _ = Parsed _ _ |- _ =>
              apply IH3 in E;
              [destruct E; now constructor | split; constructor]
          | E : array_loop _ _ = Parsed _ _ |- _ =>
              apply IH2 in E; now constructor
          end.
  - intros s vs r H. cbn [array_loop] in H.
    repeat (break_match_hyp H; try discriminate; subst);
      try (injection H as <- <-);
      repeat match goal with
             | E : scan_once _ _ = Parsed _ _ |- _ => apply IH1 in E
             | E : array_loop _ _ = Parsed _ _ |- _ => apply IH2 in E
             end;
      repeat constructor; auto.
  - intros d s d' r Hd H. cbn [object_loop] in H.
    repeat (break_match_hyp H; try discriminate; subst);
      repeat match goal with
             | E : scan_once _ _ = Parsed _ _ |- _ => apply IH1 in E
             end.
    + injection H as <- <-. now apply dict_set_wf.
    + apply IH3 in H; [exact H|]. now apply dict_set_wf.
Qed.

Lemma loads_wf : forall s v, loads s = Some v -> wf_json v.
Proof.
  intros s v H. unfold loads in H.
  destruct (prefix_of [c_bom] s); [discriminate|].
  destruct (scan_once (2 * length s + 1) (skip_ws s)) as [v' r| |] eqn:E;
    try discriminate.
  destruct (skip_ws r); [|discriminate]. injection H as <-.
  destruct (scan_wf (2 * length s + 1)) as (W & _ & _). now apply (W _ _ _ E).
Qed.

Lemma processed_wf : forall o : dict, wf_dict o -> wf_dict (processed o).
Proof.
  intros o H. unfold processed.
  assert (H1 : wf_dict (if key_in (txt "strict lua") (keys o)
                        then dict_del (txt "strict lua") o else o))
    by (destruct (key_in (txt "strict lua") (keys o));
        [now apply dict_del_wf | exact H]).
  destruct (key_in (txt "script") (keys o) || key_in (txt "scripts") (keys o));
    [apply dict_set_wf; [exact H1 | constructor] | exact H1].
Qed.

Lemma object_list_wf : forall objs : list dict,
  wf_json (JArr (map JObj objs)) <-> Forall wf_dict objs.
Proof.
  intros objs. split.
  - intros H. inversion H as [| | | | |l Hl|]; subst.
    rewrite Forall_forall in *. intros o Ho.
    assert (Hw : wf_json (JObj o)) by (apply Hl; now apply in_map).
    inversion Hw; subst. now split.
  - intros H. constructor. rewrite Forall_forall in *. intros x Hx.
    apply in_map_iff in Hx. destruct Hx as (o & <- & Ho).
    destruct (H o Ho). now constructor.
Qed.

End WellFormed.

(* ------------------------------------------------------------------ *)
(** ** The whole run *)

Section Run.
Context {FM : PyFloat}.

Lemma optimize_json_decoded : forall f data,
  loads (truncated_text f) = Some data ->
  optimize_json_log f
  = match postprocess data with
    | (lg, Return data') => (lg, Return (dumps data'))
    | (lg, Raise e) => (lg, Raise e)
    end.
Proof. intros f data H. unfold optimize_json_log. now rewrite H. Qed.

Lemma existsb_false_forallb : forall (A : Type) (p : A -> bool) l,
  existsb p l = false -> forallb (fun x => negb (p x)) l = true.
Proof.
  intros A p l H. induction l as [|x l IH]; [reflexivity|].
  simpl in *. apply orb_false_iff in H. destruct H as [H1 H2].
  now rewrite H1, IH.
Qed.

(** A run that returns a text on a decoded list of objects met no
    [privileged] key and returns the encoding of the processed objects. *)
Lemma optimize_json_objects : forall f objs out,
  loads (truncated_text f) = Some (JArr (map JObj objs)) ->
  optimize_json f = Return out ->
  forallb (fun o => negb (has_privileged o)) objs = true
  /\ out = dumps (JArr (map JObj (map processed objs))).
Proof.
  intros f objs out Hl Hr. unfold optimize_json in Hr.
  rewrite (optimize_json_decoded f _ Hl) in Hr. unfold postprocess in Hr.
  destruct (existsb has_privileged objs) eqn:E.
  - destruct (first_such _ _ _ E) as (before & o & after & -> & Hb & Ho).
    rewrite (process_list_privileged before o after Hb Ho) in Hr.
    discriminate.
  - apply existsb_false_forallb in E. split; [exact E|].
    destruct (process_list_clean objs E) as [lg Hp]. rewrite Hp in Hr.
    cbn [snd] in Hr. now injection Hr as <-.
Qed.

Lemma filter_not_in : forall k ks,
  key_in k ks = false -> filter (fun k' => negb (str_eqb k k')) ks = ks.
Proof.
  intros k ks H. unfold key_in in H. induction ks as [|k0 ks IH];
    [reflexivity|].
  cbn [existsb] in H. apply orb_false_iff in H. destruct H as [H1 H2].
  cbn [filter]. rewrite H1. cbn [negb]. now rewrite IH.
Qed.

Lemma key_in_filter : forall k k0 ks,
  str_eqb k0 k = false ->
  key_in k (filter (fun k' => negb (str_eqb k0 k')) ks) = key_in k ks.
Proof.
  intros k k0 ks H. unfold key_in. induction ks as [|k1 ks IH];
    [reflexivity|].
  cbn [filter existsb]. destruct (str_eqb k0 k1) eqn:E; cbn [negb].
  - rewrite IH. apply str_eqb_eq in E. subst k1.
    rewrite str_eqb_sym, H. reflexivity.
  - cbn [existsb]. now rewrite IH.
Qed.

Lemma keys_processed : forall o : dict, keys (processed o) = keys_after o.
Proof.
  intros o. unfold processed, keys_after.
  set (K := filter (fun k => negb (str_eqb (txt "strict lua") k)) (keys o)).
  assert (H1 : keys (if key_in (txt "strict lua") (keys o)
                     then dict_del (txt "strict lua") o else o) = K).
  { destruct (key_in (txt "strict lua") (keys o)) eqn:E.
    - apply keys_del.
    - symmetry. now apply filter_not_in. }
  destruct (key_in (txt "script") (keys o) || key_in (txt "scripts") (keys o)).
  - rewrite keys_set, H1. unfold K.
    rewrite key_in_filter by reflexivity.
    destruct (key_in (txt "mute lua") (keys o)); cbn [andb negb].
    + now rewrite app_nil_r.
    + reflexivity.
  - rewrite H1. cbn [andb]. now rewrite app_nil_r.
Qed.

(** C3: a run that returns a text on [N] decoded objects returns the
    encoding of [N] objects, the [i]-th of which is the [i]-th decoded
    object after the rules; the keys of each are its keys in decode order,
    without [strict lua], with [mute lua] last when the rules bring it in;
    and decoding the text gives these objects back in that order (where
    Python reads back the floats it writes). *)
Theorem output_keeps_count_and_order :
  forall (f : str) (objs : list dict) (out : str),
    loads (truncated_text f) = Some (JArr (map JObj objs)) ->
    optimize_json f = Return out ->
    exists objs' : list dict,
      out = dumps (JArr (map JObj objs'))
      /\ length objs' = length objs
      /\ (forall i o,
            nth_error objs i = Some o ->
            exists o',
              nth_error objs' i = Some o'
              /\ snd (process_object (JObj o)) = Return (JObj o')
              /\ keys o' = keys_after o)
      /\ (float_roundtrip -> loads out = Some (JArr (map JObj objs'))).
Proof.
  intros f objs out Hl Hr.
  destruct (optimize_json_objects f objs out Hl Hr) as [Hnp ->].
  exists (map processed objs).
  split; [reflexivity|]. split; [apply length_map|]. split.
  - intros i o Hi. exists (processed o). split.
    + now rewrite nth_error_map, Hi.
    + split; [|apply keys_processed].
      rewrite forallb_forall in Hnp.
      assert (Hp : has_privileged o = false).
      { apply negb_true_iff. apply Hnp. eapply nth_error_In; eauto. }
      destruct (process_object_processed o Hp) as [lg E].
      now rewrite E.
  - intros HF. apply (loads_dumps HF). apply object_list_wf.
    pose proof (loads_wf _ _ Hl) as Hw. apply object_list_wf in Hw.
    rewrite Forall_forall in *. intros x Hx.
    apply in_map_iff in Hx. destruct Hx as (o & <- & Ho).
    apply processed_wf. now apply Hw.
Qed.

(** C5, as the code has it: when the depth never returns to zero, the
    text is not cut and is decoded whole.  The run raises the decoding
    error when the whole text is not JSON, and otherwise goes on with
    the value decoded, as for any document. *)
Theorem unbalanced_text_is_decoded_whole : forall f : str,
  (forall i, ~ returns_to_zero (cleaned_text f) i) ->
  truncated_text f = cleaned_text f
  /\ (loads (cleaned_text f) = None ->
      optimize_json_log f = ([], Raise JSONDecodeError))
  /\ (forall data,
        loads (cleaned_text f) = Some data ->
        optimize_json_log f
        = match postprocess data with
          | (lg, Return data') => (lg, Return (dumps data'))
          | (lg, Raise e) => (lg, Raise e)
          end).
Proof.
  intros f Hnever.
  assert (E : truncated_text f = cleaned_text f).
  { unfold truncated_text, truncate.
    pose proof (find_balance_spec (cleaned_text f) []) as H.
    cbn [app length scan_state fold_left fst snd] in H.
    destruct (find_balance false 0 0 (cleaned_text f)) as [i|];
      [|reflexivity].
    destruct H as [H _]; [intros j Hj; inversion Hj|].
    exfalso. now apply (Hnever i). }
  split; [exact E|]. split.
  - intros H. unfold optimize_json_log. now rewrite E, H.
  - intros data H. apply optimize_json_decoded. now rewrite E.
Qed.

Lemma find_balance_never : forall s,
  find_balance false 0 0 s = None -> forall i, ~ returns_to_zero s i.
Proof.
  intros s H. pose proof (find_balance_spec s []) as Hs.
  cbn [app length scan_state fold_left fst snd] in Hs. rewrite H in Hs.
  apply Hs. intros j Hj. inversion Hj.
Qed.

(** C8, as the code has it: the text returned for a list of objects is
    the encoding in the default layout of [json.dumps]: a comma and a
    space between the elements of the list and between the members of an
    object, a colon and a space between a key and its value.  A character
    of a string is written as it is, non-ASCII ones included, unless it
    is the double quote, the backslash or a control character. *)
Theorem output_layout : forall (f : str) (objs : list dict) (out : str),
  loads (truncated_text f) = Some (JArr (map JObj objs)) ->
  optimize_json f = Return out ->
  out
  = [c_lbracket]
    ++ join (txt ", ")
         (map (fun o : dict =>
                 [c_lbrace]
                 ++ join (txt ", ")
                      (map (fun kv =>
                              encode_basestring (fst kv) ++ txt ": "
                              ++ dumps (snd kv)) o)
                 ++ [c_rbrace])
              (map processed objs))
    ++ [c_rbracket]
  /\ (forall s,
        Forall (fun c => 32 <= c /\ c <> c_quote /\ c <> c_backslash) s ->
        encode_basestring s = [c_quote] ++ s ++ [c_quote]).
Proof.
  intros f objs out Hl Hr.
  destruct (optimize_json_objects f objs out Hl Hr) as [_ ->]. split.
  - cbn [dumps]. rewrite map_map. reflexivity.
  - intros s Hs. unfold encode_basestring. f_equal. f_equal.
    induction Hs as [|c s (H1 & H2 & H3) Hs IH]; [reflexivity|].
    cbn [flat_map]. rewrite IH. unfold escape_char.
    unfold c_quote, c_backslash in *.
    repeat match goal with
           | |- context [c =? ?k] =>
               replace (c =? k) with false
                 by (symmetry; apply N.eqb_neq; lia)
           end.
    replace (c <? 32) with false by (symmetry; apply N.ltb_ge; lia).
    reflexivity.
Qed.

(** When the input is strict JSON for a list of objects free of the
    legacy keys, and cleaning and truncation leave the value it decodes
    to unchanged, the run returns a text that decodes to the same value
    as the input: same keys, values and order. *)
Lemma decoded_value_kept :
  float_roundtrip ->
  forall (f : str) (objs : list dict),
    loads f = Some (JArr (map JObj objs)) ->
    loads (truncated_text f) = loads f ->
    forallb legacy_free objs = true ->
    exists out, optimize_json f = Return out /\ loads out = loads f.
Proof.
  intros HF f objs Hin Hclean Hfree.
  rewrite Hin in Hclean.
  assert (Hnp : forallb (fun o => negb (has_privileged o)) objs = true).
  { rewrite forallb_forall in *. intros o Ho. specialize (Hfree o Ho).
    unfold legacy_free in Hfree. unfold has_privileged.
    repeat (apply andb_true_iff in Hfree; destruct Hfree as [Hfree ?]).
    exact Hfree. }
  assert (Hid : map processed objs = objs).
  { rewrite forallb_forall in Hfree. clear -Hfree.
    induction objs as [|o objs IH]; [reflexivity|].
    cbn [map]. rewrite IH by (intros x Hx; apply Hfree; now right).
    f_equal. specialize (Hfree o (or_introl eq_refl)).
    unfold legacy_free in Hfree.
    repeat (apply andb_true_iff in Hfree; destruct Hfree as [Hfree ?]).
    unfold processed.
    repeat match goal with
           | H : negb _ = true |- _ => apply negb_true_iff in H; rewrite H
           end.
    reflexivity. }
  destruct (process_list_clean objs Hnp) as [lg Hp].
  exists (dumps (JArr (map JObj objs))). split.
  - unfold optimize_json. rewrite (optimize_json_decoded f _ Hclean).
    unfold postprocess. rewrite Hp, Hid. reflexivity.
  - rewrite Hin. apply (loads_dumps HF). now apply (loads_wf f).
Qed.

Lemma process_list_objects : forall l lg l',
  process_list l = (lg, Return l') -> forallb is_object l = true.
Proof.
  induction l as [|x l IH]; intros lg l' H; [reflexivity|].
  cbn [process_list] in H.
  destruct (process_object x) as [lg1 [x'|e]] eqn:Ex; [|discriminate].
  destruct (process_list l) as [lg2 [l2|e]] eqn:El; [|discriminate].
  cbn [forallb]. rewrite (IH _ _ eq_refl), andb_true_r.
  destruct x; try (cbn in Ex; discriminate). reflexivity.
Qed.

Lemma process_object_raise : forall x lg e,
  process_object x = (lg, Raise e) ->
  e = AttributeError \/ e = TypeError \/ exists m, e = Exception m.
Proof.
  intros x lg e H.
  destruct x as [| | | | | |o];
    try (cbn [process_object] in H; injection H as _ <-; now left).
  destruct (has_privileged o) eqn:Ep.
  - rewrite (process_object_privileged o Ep) in H. injection H as _ <-.
    right. right. eauto.
  - destruct (process_object_processed o Ep) as [lg' E].
    rewrite E in H. discriminate.
Qed.

(** C10, as the code has it: when the decoded value is not a list of
    objects, the run raises and returns no text, unless the value is the
    empty [dict] or the empty [str], which have nothing to iterate over
    and are encoded back. *)
Theorem non_object_list_raises : forall (f : str) (v : json),
  loads (truncated_text f) = Some v ->
  is_object_list v = false ->
  is_empty_iterable v = false ->
  exists e, optimize_json f = Raise e
            /\ (e = AttributeError \/ e = TypeError
                \/ exists m, e = Exception m).
Proof.
  intros f v Hl Hno Hne. unfold optimize_json.
  rewrite (optimize_json_decoded f v Hl).
  destruct v as [| | | |s|l|d]; cbn [postprocess];
    try (exists TypeError; split; [reflexivity | auto]).
  - destruct s; [discriminate|].
    exists AttributeError. split; [reflexivity | auto].
  - cbn [is_object_list] in Hno.
    destruct (process_list l) as [lg [l'|e]] eqn:E.
    + apply process_list_objects in E. congruence.
    + exists e. split; [reflexivity|].
      clear -E. revert lg e E. induction l as [|x l IH]; intros lg e E;
        [discriminate|].
      cbn [process_list] in E.
      destruct (process_object x) as [lg1 [x'|e1]] eqn:Ex.
      * destruct (process_list l) as [lg2 [l2|e2]] eqn:El; [discriminate|].
        injection E as _ <-. now apply (IH lg2).
      * injection E as _ <-. now apply (process_object_raise x lg1).
  - destruct d; [discriminate|].
    exists AttributeError. split; [reflexivity | auto].
Qed.

End Run.

(* ================================================================== *)
(** * Further properties of [optimize_json] *)

(** ** Lines are cleaned one by one *)

Lemma readlines_from_line : forall (a : str) cur b,
  ~ In c_lf a ->
  readlines_from cur (a ++ c_lf :: b)
  = (rev cur ++ a ++ [c_lf]) :: readlines_from [] b.
Proof.
  induction a as [|x a IH]; intros cur b Hn.
  - cbn [app readlines_from]. rewrite N.eqb_refl. reflexivity.
  - cbn [app readlines_from].
    assert (Hx : N.eqb x c_lf = false).
    { apply N.eqb_neq. intros ->. apply Hn. now left. }
    rewrite Hx, IH by (intros H; apply Hn; now right).
    cbn [rev]. now rewrite <- app_assoc.
Qed.

Lemma readlines_from_last : forall (a : str) cur,
  ~ In c_lf a -> rev cur ++ a <> [] ->
  readlines_from cur a = [rev cur ++ a].
Proof.
  induction a as [|x a IH]; intros cur Hn Hne.
  - rewrite app_nil_r in *. cbn [readlines_from].
    destruct cur; [now elim Hne | reflexivity].
  - cbn [readlines_from].
    assert (Hx : N.eqb x c_lf = false).
    { apply N.eqb_neq. intros ->. apply Hn. now left. }
    rewrite Hx, IH.
    + cbn [rev]. now rewrite <- app_assoc.
    + intros H; apply Hn; now right.
    + cbn [rev]. rewrite <- app_assoc. now destruct (rev cur).
Qed.

(** X1 (lines 44-76): the file is cleaned line by line, and nothing of a
    line is carried to the next.  For a first line [a] (without line
    feed) followed by the rest [b], the cleaned text is the cleaned first
    line, with its line feed, followed by the cleaned text of [b]; a last
    line without line feed is cleaned as it is. *)
Theorem cleaned_text_line_by_line : forall a b : str,
  ~ In c_lf a ->
  cleaned_text (a ++ c_lf :: b) = clean_line (a ++ [c_lf]) ++ cleaned_text b
  /\ (a <> [] -> cleaned_text a = clean_line a).
Proof.
  intros a b Hn. unfold cleaned_text, readlines. split.
  - rewrite readlines_from_line by exact Hn. reflexivity.
  - intros Hne. rewrite readlines_from_last by assumption.
    cbn [rev app map concat]. now rewrite app_nil_r.
Qed.

(* ------------------------------------------------------------------ *)
(** ** The comment scanner *)

Lemma in_string_snoc : forall p c,
  in_string (p ++ [c])
  = if c =? c_quote then negb (in_string p) else in_string p.
Proof. intros p c. unfold in_string. now rewrite fold_left_app. Qed.

Lemma in_string_scan_state : forall p, in_string p = fst (scan_state p).
Proof.
  intros p. unfold in_string, scan_state.
  generalize false as b. generalize 0%Z as z.
  induction p as [|c p IH]; intros z b; [reflexivity|].
  cbn [fold_left]. unfold scan_step at 2.
  destruct (c =? c_quote); [apply IH|].
  destruct b; [apply IH|].
  destruct (c =? c_lbracket); [apply IH|].
  destruct (c =? c_rbracket); apply IH.
Qed.

Lemma comment_not_here : forall (p : str) c l,
  in_string p = true \/ c <> c_slash
  \/ (forall l', l <> c_slash :: l') ->
  ~ comment_at (p ++ c :: l) (length p).
Proof.
  intros p c l H (Hn & Hn' & Hs).
  rewrite firstn_length_app in Hs.
  rewrite nth_error_length_app in Hn.
  destruct H as [H | [H | H]]; [congruence | congruence |].
  replace (p ++ c :: l) with ((p ++ [c]) ++ l) in Hn'
    by (rewrite <- app_assoc; reflexivity).
  replace (S (length p)) with (length (p ++ [c])) in Hn'
    by (rewrite length_app; simpl; lia).
  destruct l as [|x l].
  - rewrite app_nil_r in Hn'.
    assert (nth_error (p ++ [c]) (length (p ++ [c])) = None)
      by (apply nth_error_None; lia).
    congruence.
  - rewrite nth_error_length_app in Hn'. injection Hn' as ->.
    now apply (H l).
Qed.

Lemma no_comment_extend : forall (p : str) c l,
  (forall j, (j < length p)%nat -> ~ comment_at (p ++ c :: l) j) ->
  ~ comment_at (p ++ c :: l) (length p) ->
  forall j, (j < length (p ++ [c]))%nat -> ~ comment_at ((p ++ [c]) ++ l) j.
Proof.
  intros p c l Hbefore Hhere j Hj.
  rewrite <- app_assoc. simpl.
  rewrite length_app in Hj. simpl in Hj.
  destruct (Nat.eq_dec j (length p)) as [-> | Hne]; [assumption|].
  apply Hbefore. lia.
Qed.

Lemma find_comment_spec : forall l p,
  (forall j, (j < length p)%nat -> ~ comment_at (p ++ l) j) ->
  match find_comment (in_string p) (length p) l with
  | Some i =>
      comment_at (p ++ l) i
      /\ forall j, (j < i)%nat -> ~ comment_at (p ++ l) j
  | None => forall j, ~ comment_at (p ++ l) j
  end.
Proof.
  induction l as [|c l IH]; intros p Hbefore.
  - simpl. intros j. destruct (Nat.lt_ge_cases j (length p)) as [Hlt | Hge].
    + now apply Hbefore.
    + intros (Hn & _). rewrite app_nil_r in Hn.
      apply nth_error_None in Hge. congruence.
  - assert (Hlen : length (p ++ [c]) = S (length p))
      by (rewrite length_app; simpl; lia).
    specialize (IH (p ++ [c])).
    rewrite Hlen, in_string_snoc in IH.
    rewrite <- app_assoc in IH. simpl in IH.
    pose proof (no_comment_extend p c l Hbefore) as Hext.
    rewrite <- app_assoc in Hext. simpl in Hext. rewrite Hlen in Hext.
    pose proof (comment_not_here p c l) as Hnot.
    cbn [find_comment].
    destruct (in_string p) eqn:Es.
    + assert (Hgo : forall j, (j < S (length p))%nat ->
                              ~ comment_at (p ++ c :: l) j)
        by (apply Hext, Hnot; now left).
      destruct (N.eqb c c_backslash) eqn:Eb.
      * apply N.eqb_eq in Eb. subst c.
        change (c_backslash =? c_quote) with false in IH. now apply IH.
      * destruct (N.eqb c c_quote) eqn:Eq; now apply IH.
    + destruct (N.eqb c c_quote) eqn:Eq.
      * apply IH, Hext, Hnot. right. left. apply N.eqb_eq in Eq.
        rewrite Eq. discriminate.
      * destruct (N.eqb c c_slash) eqn:E1; cbn [andb].
        -- destruct l as [|next l'].
           ++ apply IH, Hext, Hnot. right. right. intros l'. discriminate.
           ++ destruct (N.eqb next c_slash) eqn:E2.
              ** apply N.eqb_eq in E1, E2. subst c next. split.
                 --- unfold comment_at.
                     rewrite nth_error_length_app, firstn_length_app.
                     split; [reflexivity|]. split; [|exact Es].
                     replace (p ++ c_slash :: c_slash :: l')
                       with ((p ++ [c_slash]) ++ c_slash :: l')
                       by (rewrite <- app_assoc; reflexivity).
                     rewrite <- Hlen. apply nth_error_length_app.
                 --- exact Hbefore.
              ** apply IH, Hext, Hnot. right. right. intros l'' E.
                 injection E as -> _. now rewrite N.eqb_refl in E2.
        -- apply IH, Hext, Hnot. right. left. now apply N.eqb_neq in E1.
Qed.

Lemma comment_at_contains : forall (line : str) i,
  nth_error line i = Some c_slash ->
  nth_error line (S i) = Some c_slash ->
  contains (txt "//") line = true.
Proof.
  induction line as [|c line IH]; intros i H1 H2.
  - destruct i; discriminate.
  - destruct i as [|i].
    + cbn in H1, H2. injection H1 as ->.
      destruct line as [|d line]; [discriminate|].
      cbn in H2. injection H2 as ->. reflexivity.
    + cbn [contains]. rewrite (IH i); [apply orb_true_r | exact H1 | exact H2].
Qed.

(** X2 (lines 51-63): the line is cut at the first pair of slashes that
    has an even number of double quotes before it, and is left whole when
    there is no such pair; a backslash plays no part.  The scanner's
    notion of being inside a string is the one of the bracket scan of
    lines 79-94. *)
Theorem strip_comment_at_first_comment :
  (forall line : str,
      (exists i,
          comment_at line i
          /\ (forall j, (j < i)%nat -> ~ comment_at line j)
          /\ strip_comment line = firstn i line)
      \/ ((forall i, ~ comment_at line i) /\ strip_comment line = line))
  /\ (forall p : str, in_string p = fst (scan_state p)).
Proof.
  split; [|exact in_string_scan_state].
  intros line. pose proof (find_comment_spec line []) as H.
  cbn [app length] in H. change (in_string []) with false in H.
  unfold strip_comment.
  destruct (find_comment false 0 line) as [i|].
  - left. exists i. destruct H as [H1 H2]; [intros j Hj; lia|].
    split; [exact H1|]. split; [exact H2|].
    destruct H1 as (Ha & Hb & _).
    now rewrite (comment_at_contains line i Ha Hb).
  - right. split; [apply H; intros j Hj; lia|].
    now destruct (contains (txt "//") line).
Qed.

(* ------------------------------------------------------------------ *)
(** ** The bracket truncation *)

Lemma find_balance_firstn : forall l in_str stack i j,
  find_balance in_str stack i l = Some j ->
  (i <= j)%nat
  /\ find_balance in_str stack i (firstn (S (j - i)) l) = Some j.
Proof.
  induction l as [|c l IH]; intros in_str stack i j H; [discriminate|].
  assert (Hrec : forall b z,
             find_balance b z (S i) l = Some j ->
             (i <= j)%nat
             /\ find_balance b z (S i) (firstn (j - i) l) = Some j).
  { intros b z Hf. destruct (IH _ _ _ _ Hf) as [Hle Hf'].
    split; [lia|]. now replace (j - i)%nat with (S (j - S i)) by lia. }
  cbn [find_balance firstn] in *.
  destruct in_str.
  - destruct (c =? c_quote); now apply Hrec.
  - destruct (c =? c_quote); [now apply Hrec|].
    destruct (c =? c_lbracket); [now apply Hrec|].
    destruct (c =? c_rbracket); [|now apply Hrec].
    destruct (stack - 1 =? 0)%Z; [|now apply Hrec].
    injection H as <-. split; [lia | reflexivity].
Qed.

(** X3 (lines 79-94): the truncated text is a prefix of the text, and
    truncating it again changes nothing. *)
Theorem truncate_idempotent : forall s : str,
  truncate (truncate s) = truncate s
  /\ exists rest, s = truncate s ++ rest.
Proof.
  intros s. unfold truncate at 2 3 4.
  destruct (find_balance false 0 0 s) as [i|] eqn:E.
  - split.
    + destruct (find_balance_firstn _ _ _ _ _ E) as [_ H].
      rewrite Nat.sub_0_r in H. unfold truncate.
      replace (i + 1)%nat with (S i) by lia. rewrite H.
      replace (i + 1)%nat with (S i) by lia.
      rewrite firstn_firstn. now rewrite Nat.min_id.
    + exists (skipn (i + 1) s). symmetry. apply firstn_skipn.
  - split.
    + unfold truncate. now rewrite E.
    + exists []. now rewrite app_nil_r.
Qed.

(* ------------------------------------------------------------------ *)
(** ** The quoter and the replacements *)

Lemma filter_not_quote_expand : forall g1 g2 g3 : str,
  filter not_quote (expand g1 g2 g3) = filter not_quote (g1 ++ g2 ++ g3).
Proof.
  intros g1 g2 g3. unfold expand.
  rewrite !filter_app. cbn [filter].
  change (not_quote c_quote) with false. cbv iota.
  reflexivity.
Qed.

Lemma sub_from_filter : forall (s : str) skip,
  filter not_quote (sub_from skip s) = filter not_quote (skipn skip s).
Proof.
  induction s as [|c s IH]; intros skip.
  - now destruct skip.
  - cbn [sub_from]. destruct skip as [|n]; [|apply IH].
    cbn [skipn].
    destruct (match_bare_value (c :: s)) as [[[[g1 g2] g3] rest]|] eqn:E.
    + destruct (match_bare_value_sound _ _ _ _ _ E)
        as (Hs & (k & w1 & w2 & Hg1 & _) & _ & _).
      rewrite filter_app, filter_not_quote_expand, IH.
      rewrite <- filter_app. f_equal.
      assert (Hlen : (length g1 + length g2 + length g3
                      = S (length g1 + length g2 + length g3 - 1))%nat).
      { rewrite Hg1. rewrite !length_app. simpl. lia. }
      assert (Hcons : c :: s = (g1 ++ g2 ++ g3) ++ rest)
        by (rewrite Hs; now rewrite <- !app_assoc).
      assert (Hskip : skipn (length (g1 ++ g2 ++ g3)) (c :: s) = rest).
      { rewrite Hcons. rewrite skipn_app, skipn_all, Nat.sub_diag.
        reflexivity. }
      rewrite !length_app, Nat.add_assoc, Hlen in Hskip.
      cbn [skipn] in Hskip. rewrite Hskip.
      rewrite <- app_assoc. rewrite <- app_assoc. symmetry. exact Hs.
    + cbn [filter]. rewrite IH. reflexivity.
Qed.

(** X4 (line 65): the quoter only inserts double quotes.  With the double
    quotes left out, the line after the quoter is the line before it: no
    other character is added, removed or moved. *)
Theorem quoter_only_inserts_quotes : forall line : str,
  filter not_quote (quote_bare_values line) = filter not_quote line
  /\ (length line <= length (quote_bare_values line))%nat.
Proof.
  intros line. unfold quote_bare_values.
  assert (H : filter not_quote (sub_from 0 line) = filter not_quote line)
    by apply sub_from_filter.
  split; [exact H|].
  assert (Hgen : forall (s : str) skip,
             (length (skipn skip s) <= length (sub_from skip s))%nat).
  { clear. induction s as [|c s IH]; intros skip.
    - destruct skip; simpl; lia.
    - cbn [sub_from]. destruct skip as [|n]; [|apply IH].
      cbn [skipn].
      destruct (match_bare_value (c :: s)) as [[[[g1 g2] g3] rest]|] eqn:E.
      + destruct (match_bare_value_sound _ _ _ _ _ E)
          as (Hs & (k & w1 & w2 & Hg1 & _) & _ & _).
        specialize (IH (length g1 + length g2 + length g3 - 1)%nat).
        rewrite length_app. unfold expand. rewrite !length_app.
        cbn [length].
        assert (Hl : length (c :: s)
                     = (length g1 + length g2 + length g3 + length rest)%nat)
          by (rewrite Hs; rewrite !length_app; lia).
        rewrite length_skipn in IH. cbn [length] in Hl |- *.
        assert (0 < length g1)%nat
          by (rewrite Hg1; rewrite !length_app; simpl; lia).
        lia.
      + cbn [length]. specialize (IH 0%nat). cbn [skipn] in IH. lia. }
  apply (Hgen line 0%nat).
Qed.

Lemma replace_char_one : forall old new c,
  replace_char old new [c] = if c =? old then new else [c].
Proof.
  intros old new c. unfold replace_char. cbn [flat_map].
  now rewrite app_nil_r.
Qed.

Lemma replace_char_app : forall old new (a b : str),
  replace_char old new (a ++ b)
  = replace_char old new a ++ replace_char old new b.
Proof. intros. unfold replace_char. apply flat_map_app. Qed.

Lemma replacements_one : forall c,
  replace_char c_nbsp []
    (replace_char c_space [c_space]
      (replace_char c_lf [c_space]
        (replace_char c_cr []
          (replace_char c_tab [c_space]
            (replace_char c_semicolon [c_comma]
              (replace_char c_bom [] [c]))))))
  = substitute c.
Proof.
  intros c. unfold substitute. rewrite replace_char_one.
  destruct (c =? c_bom) eqn:E1;
    [apply N.eqb_eq in E1; subst c; reflexivity|].
  rewrite replace_char_one.
  destruct (c =? c_semicolon) eqn:E2;
    [apply N.eqb_eq in E2; subst c; reflexivity|].
  rewrite replace_char_one.
  destruct (c =? c_tab) eqn:E3;
    [apply N.eqb_eq in E3; subst c; reflexivity|].
  rewrite replace_char_one.
  destruct (c =? c_cr) eqn:E4;
    [apply N.eqb_eq in E4; subst c; reflexivity|].
  rewrite replace_char_one.
  destruct (c =? c_lf) eqn:E5;
    [apply N.eqb_eq in E5; subst c; reflexivity|].
  rewrite replace_char_one.
  destruct (c =? c_space) eqn:E6;
    [apply N.eqb_eq in E6; subst c; reflexivity|].
  rewrite replace_char_one.
  destruct (c =? c_nbsp) eqn:E7; reflexivity.
Qed.

Lemma replacements_substitute : forall s : str,
  replace_char c_nbsp []
    (replace_char c_space [c_space]
      (replace_char c_lf [c_space]
        (replace_char c_cr []
          (replace_char c_tab [c_space]
            (replace_char c_semicolon [c_comma]
              (replace_char c_bom [] s))))))
  = flat_map substitute s.
Proof.
  induction s as [|c s IH]; [reflexivity|].
  change (c :: s) with ([c] ++ s).
  rewrite !replace_char_app, IH, replacements_one.
  reflexivity.
Qed.

Lemma substitute_clean : forall c,
  Forall (fun x => cleaned_away x = false) (substitute c).
Proof.
  intros c. unfold substitute.
  destruct (c =? c_bom) eqn:E1; [constructor|].
  destruct (c =? c_cr) eqn:E2; [constructor|].
  destruct (c =? c_nbsp) eqn:E3; [constructor|]. cbn [orb].
  destruct (c =? c_semicolon) eqn:E4; [repeat constructor|].
  destruct (c =? c_tab) eqn:E5; [repeat constructor|].
  destruct (c =? c_lf) eqn:E6; [repeat constructor|]. cbn [orb].
  constructor; [|constructor].
  unfold cleaned_away. now rewrite E1, E2, E3, E4, E5, E6.
Qed.

Lemma substitute_not_quote : forall c,
  filter not_quote (substitute c)
  = if c =? c_quote then [] else substitute c.
Proof.
  intros c. destruct (c =? c_quote) eqn:Eq.
  - apply N.eqb_eq in Eq. subst c. reflexivity.
  - unfold substitute.
    destruct ((c =? c_bom) || (c =? c_cr) || (c =? c_nbsp)); [reflexivity|].
    destruct (c =? c_semicolon); [reflexivity|].
    destruct ((c =? c_tab) || (c =? c_lf)); [reflexivity|].
    cbn [filter]. unfold not_quote. now rewrite Eq.
Qed.

Lemma filter_substitute : forall s : str,
  filter not_quote (flat_map substitute s)
  = flat_map substitute (filter not_quote s).
Proof.
  induction s as [|c s IH]; [reflexivity|].
  cbn [flat_map filter]. rewrite filter_app, IH, substitute_not_quote.
  unfold not_quote at 2. destruct (c =? c_quote); reflexivity.
Qed.

(** X5 (lines 68-74): the seven replacements amount to one substitution
    applied to every character: the byte order mark, the carriage return
    and the no-break space go away, a semicolon becomes a comma, a tab
    and a line feed become a space, and every other character, the plain
    space among them, stays.  So no cleaned text holds one of the six
    characters replaced, and, double quotes apart, a cleaned line is the
    line without its comment after the substitution. *)
Theorem cleaning_is_a_substitution :
  (forall line : str,
      clean_line line
      = flat_map substitute (quote_bare_values (strip_comment line)))
  /\ (forall f : str, Forall (fun c => cleaned_away c = false) (cleaned_text f))
  /\ (forall line : str,
        filter not_quote (clean_line line)
        = flat_map substitute (filter not_quote (strip_comment line))).
Proof.
  assert (H : forall line : str,
             clean_line line
             = flat_map substitute (quote_bare_values (strip_comment line))).
  { intros line. unfold clean_line. apply replacements_substitute. }
  split; [exact H|]. split.
  - intros f. unfold cleaned_text. apply Forall_concat.
    apply Forall_map. apply Forall_forall. intros line _.
    rewrite H. apply Forall_flat_map. apply Forall_forall.
    intros c _. apply substitute_clean.
  - intros line. rewrite H, filter_substitute. f_equal.
    unfold quote_bare_values. apply sub_from_filter.
Qed.

(* ------------------------------------------------------------------ *)
(** ** The rules and the text returned *)

Section Output.
Context {FM : PyFloat}.

Lemma dict_set_idem : forall k v (d : dict),
  dict_set k v (dict_set k v d) = dict_set k v d.
Proof.
  intros k v d. induction d as [|[k' v'] r IH].
  - cbn [dict_set]. now rewrite str_eqb_refl.
  - cbn [dict_set]. destruct (str_eqb k k') eqn:E;
      cbn [dict_set]; rewrite E; [reflexivity | now rewrite IH].
Qed.

Lemma key_in_app : forall k a b,
  key_in k (a ++ b) = key_in k a || key_in k b.
Proof. intros. unfold key_in. apply existsb_app. Qed.

Lemma key_in_filter_self : forall k ks,
  key_in k (filter (fun k' => negb (str_eqb k k')) ks) = false.
Proof.
  intros k ks. induction ks as [|x ks IH]; [reflexivity|].
  cbn [filter]. destruct (str_eqb k x) eqn:E; cbn [negb]; [exact IH|].
  unfold key_in in *. cbn [existsb]. now rewrite E, IH.
Qed.

Lemma key_in_processed : forall k (o : dict),
  k <> txt "mute lua" ->
  key_in k (keys (processed o))
  = if str_eqb (txt "strict lua") k then false else key_in k (keys o).
Proof.
  intros k o Hm. rewrite keys_processed. unfold keys_after.
  rewrite key_in_app.
  assert (Hlast : forall b : bool,
             key_in k (if b then [txt "mute lua"] else []) = false).
  { intros [|]; [|reflexivity]. unfold key_in. cbn [existsb].
    apply str_eqb_neq in Hm. now rewrite Hm. }
  rewrite Hlast, orb_false_r.
  destruct (str_eqb (txt "strict lua") k) eqn:E.
  - apply str_eqb_eq in E. subst k. apply key_in_filter_self.
  - now apply key_in_filter.
Qed.

Lemma processed_idem : forall o : dict, processed (processed o) = processed o.
Proof.
  intros o. unfold processed at 1.
  rewrite !key_in_processed by discriminate.
  change (str_eqb (txt "strict lua") (txt "strict lua")) with true.
  change (str_eqb (txt "strict lua") (txt "script")) with false.
  change (str_eqb (txt "strict lua") (txt "scripts")) with false.
  cbv iota.
  destruct (key_in (txt "script") (keys o) || key_in (txt "scripts") (keys o))
    eqn:E; [|reflexivity].
  unfold processed. rewrite E. apply dict_set_idem.
Qed.

(** X6 (lines 99-120): an object the loop body has left is not changed
    when the body is run on it again: it is accepted, and it comes out as
    it went in. *)
Theorem processed_object_is_stable : forall (arr_obj : json) lg out,
  process_object arr_obj = (lg, Return out) ->
  exists lg', process_object out = (lg', Return out).
Proof.
  intros arr_obj lg out H.
  destruct arr_obj as [| | | | |l|o]; try discriminate.
  destruct (key_in (txt "privileged") (keys o)) eqn:Hp.
  - rewrite (process_object_privileged o Hp) in H. discriminate.
  - destruct (process_object_processed o Hp) as [lg0 E].
    rewrite E in H. injection H as _ <-.
    assert (Hp' : key_in (txt "privileged") (keys (processed o)) = false).
    { rewrite key_in_processed by discriminate.
      now change (str_eqb (txt "strict lua") (txt "privileged")) with false. }
    destruct (process_object_processed (processed o) Hp') as [lg' E'].
    exists lg'. now rewrite E', processed_idem.
Qed.

Lemma object_list_objs : forall l : list json,
  forallb is_object l = true -> exists objs : list dict, l = map JObj objs.
Proof.
  induction l as [|x l IH]; intros H.
  - now exists [].
  - cbn [forallb] in H. apply andb_true_iff in H. destruct H as [Hx Hl].
    destruct (IH Hl) as [objs ->].
    destruct x as [| | | | | |o]; try discriminate.
    now exists (o :: objs).
Qed.

(** X7 (lines 97-122): whenever [optimize_json] returns a text, the text
    is the encoding of a value in which no [dict] holds a key twice, and
    it decodes to that value (where Python reads back the floats it
    writes).  If the value is a list, its elements are objects that hold
    neither [privileged] nor [strict lua], and [mute lua] is [True] in
    every one that holds [script] or [scripts]; otherwise it is the empty
    object or the empty text. *)
Theorem output_invariants : forall (f : str) (out : str),
  optimize_json f = Return out ->
  exists v : json,
    out = dumps v
    /\ wf_json v
    /\ (float_roundtrip -> loads out = Some v)
    /\ match v with
       | JArr l =>
           Forall (fun x =>
                     exists o : dict,
                       x = JObj o
                       /\ key_in (txt "privileged") (keys o) = false
                       /\ key_in (txt "strict lua") (keys o) = false
                       /\ (key_in (txt "script") (keys o)
                           || key_in (txt "scripts") (keys o) = true ->
                           dict_get (txt "mute lua") o = Some (JBool true)))
                  l
       | _ => is_empty_iterable v = true
       end.
Proof.
  intros f out H.
  assert (Hval : forall v, wf_json v -> out = dumps v ->
                           float_roundtrip -> loads out = Some v).
  { intros v Hw -> HF. now apply loads_dumps. }
  pose proof H as H0. unfold optimize_json, optimize_json_log in H.
  destruct (loads (truncated_text f)) as [data|] eqn:El; [|discriminate].
  pose proof (loads_wf _ _ El) as Hw.
  unfold postprocess in H.
  destruct data as [| | | |s|l|d]; try discriminate.
  - destruct s; [|discriminate]. cbn [snd] in H. injection H as <-.
    exists (JStr []). repeat split; auto.
  - destruct (process_list l) as [lg [l'|e]] eqn:Ep; [|discriminate].
    destruct (object_list_objs l (process_list_objects _ _ _ Ep))
      as [objs ->].
    destruct (optimize_json_objects f objs out El H0) as [Hnp ->].
    assert (Hwf : wf_json (JArr (map JObj (map processed objs)))).
    { apply object_list_wf. apply object_list_wf in Hw.
      rewrite Forall_forall in *. intros x Hx.
      apply in_map_iff in Hx. destruct Hx as (o & <- & Ho).
      apply processed_wf. now apply Hw. }
    exists (JArr (map JObj (map processed objs))).
    split; [reflexivity|]. split; [exact Hwf|]. split; [now apply Hval|].
    apply Forall_forall. intros x Hx.
    apply in_map_iff in Hx. destruct Hx as (o' & <- & Ho').
    apply in_map_iff in Ho'. destruct Ho' as (o & <- & Ho).
    exists (processed o). split; [reflexivity|].
    rewrite forallb_forall in Hnp. specialize (Hnp o Ho).
    apply negb_true_iff in Hnp. unfold has_privileged in Hnp.
    rewrite !key_in_processed by discriminate.
    change (str_eqb (txt "strict lua") (txt "privileged")) with false.
    change (str_eqb (txt "strict lua") (txt "strict lua")) with true.
    change (str_eqb (txt "strict lua") (txt "script")) with false.
    change (str_eqb (txt "strict lua") (txt "scripts")) with false.
    cbv iota. split; [exact Hnp|]. split; [reflexivity|].
    intros Hs. unfold processed. rewrite Hs.
    rewrite dict_get_set. now rewrite str_eqb_refl.
  - destruct d; [|discriminate]. cbn [snd] in H. injection H as <-.
    exists (JObj []). repeat split; auto.
Qed.

End Output.

(* ================================================================== *)
(** * Strict JSON that the cleaning leaves as it is *)

(** ** The scan of a text *)

Ltac open_classes :=
  unfold plain_step, outside_char, inside_char, cleaned_away, substitute,
    number_char, is_first, is_tail, is_body, is_term, is_ws, is_digit,
    is_alpha, is_space,
    is_quote, not_quote, is_colon, in_text,
    c_quote, c_backslash, c_slash, c_comma, c_colon, c_semicolon, c_space,
    c_tab, c_lf, c_cr, c_bom, c_nbsp, c_lbracket, c_rbracket, c_lbrace,
    c_rbrace in *.

Ltac to_prop :=
  repeat match goal with
         | H : _ |- _ =>
             progress rewrite ?orb_true_iff, ?andb_true_iff, ?negb_true_iff,
               ?orb_false_iff, ?andb_false_iff, ?negb_false_iff,
               ?N.eqb_eq, ?N.eqb_neq, ?N.leb_le, ?N.leb_gt in H
         | |- _ =>
             progress rewrite ?orb_true_iff, ?andb_true_iff, ?negb_true_iff,
               ?orb_false_iff, ?andb_false_iff, ?negb_false_iff,
               ?N.eqb_eq, ?N.eqb_neq, ?N.leb_le, ?N.leb_gt
         end.

(** Case analysis on every test of a character in sight; what is left is
    arithmetic. *)
Ltac char_cases :=
  open_classes;
  repeat match goal with
         | H : context [if ?b then _ else _] |- _ =>
             let E := fresh "E" in destruct b eqn:E
         | |- context [if ?b then _ else _] =>
             let E := fresh "E" in destruct b eqn:E
         end;
  try discriminate;
  repeat match goal with
         | H : Some _ = Some _ |- _ => injection H as H
         end;
  subst; try reflexivity;
  to_prop;
  try solve [exfalso; lia | lia | congruence | intuition (try lia; try congruence)].

Lemma plain_scan_app : forall a b st,
  plain_scan st (a ++ b)
  = match plain_scan st a with
    | Some st' => plain_scan st' b
    | None => None
    end.
Proof.
  induction a as [|c a IH]; intros b st; [reflexivity|].
  cbn [app plain_scan]. destruct (plain_step st c); [apply IH | reflexivity].
Qed.

Lemma plain_scan_cons : forall c r st fin,
  plain_scan st (c :: r) = Some fin ->
  exists st', plain_step st c = Some st' /\ plain_scan st' r = Some fin.
Proof.
  intros c r st fin H. cbn [plain_scan] in H.
  destruct (plain_step st c) as [st'|]; [|discriminate]. now exists st'.
Qed.

Lemma step_quote : forall st st',
  plain_step st c_quote = Some st' ->
  (in_text st = false /\ st' = LStart) \/ (in_text st = true /\ st' = LOut).
Proof.
  intros st st' H. destruct st; cbn in H; try discriminate;
    injection H as <-; auto.
Qed.

Lemma step_other : forall st c st',
  plain_step st c = Some st' -> (c =? c_quote) = false ->
  in_text st' = in_text st.
Proof.
  intros st c st' H Hq. destruct st; cbn [plain_step] in H; rewrite ?Hq in H;
    repeat match type of H with
           | context [if ?b then _ else _] => destruct b
           end;
    try discriminate; injection H as <-; reflexivity.
Qed.

(** The scan goes through a text without double quote and then a double
    quote: from inside a string it ends outside, and from outside a
    string it ends at the start of one. *)
Lemma scan_to_quote : forall k st rest fin,
  all not_quote k ->
  plain_scan st (k ++ c_quote :: rest) = Some fin ->
  plain_scan (if in_text st then LOut else LStart) rest = Some fin.
Proof.
  induction k as [|c k IH]; intros st rest fin Hk H.
  - cbn [app] in H. apply plain_scan_cons in H.
    destruct H as (st' & Hs & H).
    destruct (step_quote _ _ Hs) as [[-> ->] | [-> ->]]; exact H.
  - cbn [app] in H. apply plain_scan_cons in H.
    destruct H as (st' & Hs & H). inversion Hk as [|? ? Hc Hk']; subst.
    unfold not_quote in Hc. apply negb_true_iff in Hc.
    rewrite <- (step_other _ _ _ Hs Hc). now apply IH.
Qed.

(** White space of the pattern, where the scan is outside a string. *)
Lemma scan_spaces_out : forall w st rest fin,
  all is_space w -> (st = LOut \/ st = LColon) ->
  plain_scan st (w ++ rest) = Some fin ->
  plain_scan st rest = Some fin.
Proof.
  induction w as [|c w IH]; intros st rest fin Hw Hst H; [exact H|].
  cbn [app] in H. apply plain_scan_cons in H. destruct H as (st' & Hs & H).
  inversion Hw as [|? ? Hc Hw']; subst.
  assert (st' = st).
  { destruct Hst as [-> | ->]; cbn [plain_step] in Hs; char_cases. }
  subst st'. now apply (IH st).
Qed.

(** A token of the pattern that follows a colon has no letter. *)
Lemma scan_body_value : forall body a rest fin,
  all is_body body -> is_alpha a = true ->
  plain_scan LValue (body ++ a :: rest) = Some fin -> False.
Proof.
  induction body as [|c body IH]; intros a rest fin Hb Ha H.
  - cbn [app] in H. apply plain_scan_cons in H. destruct H as (st' & Hs & _).
    cbn [plain_step] in Hs. char_cases.
  - cbn [app] in H. apply plain_scan_cons in H. destruct H as (st' & Hs & H).
    inversion Hb as [|? ? Hc Hb']; subst.
    assert (st' = LValue) by (cbn [plain_step] in Hs; char_cases).
    subst st'. eapply IH; eassumption.
Qed.

(** A string does not start with white space and a colon. *)
Lemma scan_spaces_start : forall w rest fin,
  all is_space w ->
  plain_scan LStart (w ++ c_colon :: rest) = Some fin -> False.
Proof.
  induction w as [|c w IH]; intros rest fin Hw H.
  - cbn [app] in H. apply plain_scan_cons in H. destruct H as (st' & Hs & _).
    cbn in Hs. discriminate.
  - cbn [app] in H. apply plain_scan_cons in H. destruct H as (st' & Hs & H).
    inversion Hw as [|? ? Hc Hw']; subst.
    assert (st' = LStart) by (cbn [plain_step] in Hs; char_cases).
    subst st'. eapply IH; eassumption.
Qed.

(** ** The three stages on such a text *)

(** The pattern of the quoter matches nowhere. *)
Lemma no_match_plain : forall c l st fin,
  plain_scan st (c :: l) = Some fin -> match_bare_value (c :: l) = None.
Proof.
  intros c l st fin H.
  destruct (match_bare_value (c :: l)) as [[[[g1 g2] g3] rest]|] eqn:E;
    [exfalso | reflexivity].
  destruct (match_bare_value_sound _ _ _ _ _ E)
    as (Es & (k & w1 & w2 & -> & Hk & Hw1 & Hw2)
        & (c0 & body & a & tail & -> & Hc0 & Hb & Ha & Ht) & _).
  repeat (progress (cbn [app] in Es; rewrite <- ?app_assoc in Es)).
  injection Es as -> ->.
  apply plain_scan_cons in H. destruct H as (st1 & Hs & H).
  apply scan_to_quote in H; [|exact Hk].
  destruct (step_quote _ _ Hs) as [[_ ->] | [_ ->]]; cbn [in_text] in H.
  - apply scan_spaces_out in H; [|exact Hw1 | now left].
    apply plain_scan_cons in H. destruct H as (st2 & Hs2 & H).
    cbn in Hs2. injection Hs2 as <-.
    apply scan_spaces_out in H; [|exact Hw2 | now right].
    apply plain_scan_cons in H. destruct H as (st3 & Hs3 & H).
    assert (st3 = LValue) by (cbn [plain_step] in Hs3; char_cases).
    subst st3. exact (scan_body_value body a _ fin Hb Ha H).
  - exact (scan_spaces_start w1 _ fin Hw1 H).
Qed.

Lemma sub_from_plain : forall l st fin,
  plain_scan st l = Some fin -> sub_from 0 l = l.
Proof.
  induction l as [|c l IH]; intros st fin H; [reflexivity|].
  cbn [sub_from]. rewrite (no_match_plain _ _ _ _ H).
  apply plain_scan_cons in H. destruct H as (st' & _ & H).
  f_equal. now apply (IH st' fin).
Qed.

(** The comment scanner finds no comment. *)
Lemma find_comment_plain : forall l st fin i,
  plain_scan st l = Some fin -> find_comment (in_text st) i l = None.
Proof.
  induction l as [|c l IH]; intros st fin i H; [reflexivity|].
  apply plain_scan_cons in H. destruct H as (st' & Hs & H).
  cbn [find_comment].
  destruct (N.eqb c c_quote) eqn:Eq.
  - apply N.eqb_eq in Eq. subst c.
    destruct (step_quote _ _ Hs) as [[E ->] | [E ->]]; rewrite E.
    + apply (IH LStart fin _ H).
    + replace (N.eqb c_quote c_backslash) with false by reflexivity.
      apply (IH LOut fin _ H).
  - pose proof (step_other _ _ _ Hs Eq) as Ei.
    destruct (in_text st) eqn:Et.
    + rewrite <- Ei.
      destruct (N.eqb c c_backslash); apply (IH st' fin _ H).
    + assert (Hslash : N.eqb c c_slash = false).
      { destruct st; try discriminate; cbn [plain_step] in Hs; char_cases. }
      rewrite Hslash. cbn [andb]. rewrite <- Ei. apply (IH st' fin _ H).
Qed.

Lemma clean_line_plain : forall line st fin,
  in_text st = false ->
  plain_scan st line = Some fin ->
  clean_line line = flat_map substitute line.
Proof.
  intros line st fin Hst H.
  assert (Hc : strip_comment line = line).
  { unfold strip_comment. destruct (contains (txt "//") line); [|reflexivity].
    pose proof (find_comment_plain line st fin 0%nat H) as Hf.
    rewrite Hst in Hf. now rewrite Hf. }
  unfold clean_line. cbv zeta. rewrite Hc. unfold quote_bare_values.
  rewrite (sub_from_plain _ _ _ H). apply replacements_substitute.
Qed.

(** A line feed is outside the strings. *)
Lemma scan_line_feed : forall a b st fin,
  in_text st = false -> ~ In c_lf a ->
  plain_scan st (a ++ c_lf :: b) = Some fin ->
  exists st', in_text st' = false
              /\ plain_scan st (a ++ [c_lf]) = Some st'
              /\ plain_scan st' b = Some fin.
Proof.
  intros a b st fin Hst Hn H.
  replace (a ++ c_lf :: b) with ((a ++ [c_lf]) ++ b) in H
    by (now rewrite <- app_assoc).
  rewrite plain_scan_app in H.
  destruct (plain_scan st (a ++ [c_lf])) as [st'|] eqn:E; [|discriminate].
  exists st'. split; [|now split].
  rewrite plain_scan_app in E.
  destruct (plain_scan st a) as [st1|]; [|discriminate].
  apply plain_scan_cons in E. destruct E as (st2 & Hs & E).
  injection E as <-.
  destruct st1; cbn [plain_step] in Hs; char_cases.
Qed.

Lemma split_line : forall s : str,
  ~ In c_lf s \/ exists a b, s = a ++ c_lf :: b /\ ~ In c_lf a.
Proof.
  induction s as [|c s IH]; [left; intros []|].
  destruct (N.eqb c c_lf) eqn:E.
  - apply N.eqb_eq in E. subst c. right. exists [], s. split; [reflexivity|].
    intros [].
  - apply N.eqb_neq in E. destruct IH as [Hn | (a & b & -> & Hn)].
    + left. intros [H | H]; [now elim E | now elim Hn].
    + right. exists (c :: a), b. split; [reflexivity|].
      intros [H | H]; [now elim E | now elim Hn].
Qed.

Lemma cleaned_text_cons_line : forall a b : str,
  ~ In c_lf a ->
  cleaned_text (a ++ c_lf :: b) = clean_line (a ++ [c_lf]) ++ cleaned_text b.
Proof.
  intros a b Hn. unfold cleaned_text, readlines.
  rewrite readlines_from_line by exact Hn. reflexivity.
Qed.

Lemma cleaned_text_last_line : forall a : str,
  ~ In c_lf a -> cleaned_text a = clean_line a.
Proof.
  intros a Hn. destruct a as [|c a]; [reflexivity|].
  unfold cleaned_text, readlines.
  rewrite readlines_from_last by (try assumption; discriminate).
  cbn [rev app map concat]. now rewrite app_nil_r.
Qed.

(** The cleaning of the lines is the substitution of lines 68-74 on the
    whole text. *)
Lemma cleaned_text_plain : forall n f st fin,
  (length f <= n)%nat ->
  in_text st = false ->
  plain_scan st f = Some fin ->
  cleaned_text f = flat_map substitute f.
Proof.
  induction n as [|n IH]; intros f st fin Hn Hst H.
  - destruct f; [reflexivity | simpl in Hn; lia].
  - destruct (split_line f) as [Hl | (a & b & -> & Hl)].
    + rewrite cleaned_text_last_line by exact Hl.
      now apply (clean_line_plain f st fin).
    + destruct (scan_line_feed _ _ _ _ Hst Hl H) as (st' & Hst' & Ha & Hb).
      rewrite cleaned_text_cons_line by exact Hl.
      rewrite (clean_line_plain _ st st' Hst Ha).
      rewrite (IH b st' fin); [|rewrite length_app in Hn; simpl in Hn; lia
                               |exact Hst' | exact Hb].
      replace (a ++ c_lf :: b) with ((a ++ [c_lf]) ++ b)
        by (now rewrite <- app_assoc).
      rewrite !flat_map_app. reflexivity.
Qed.

(** ** White space between the tokens *)

Lemma skip_ws_split : forall s,
  exists w, s = w ++ skip_ws s /\ Forall (fun c => is_ws c = true) w.
Proof.
  induction s as [|c s (w & E & Hw)]; [exists []; now split|].
  cbn [skip_ws]. destruct (is_ws c) eqn:Ec.
  - exists (c :: w). split; [cbn [app]; now f_equal | now constructor].
  - exists []. now split.
Qed.

Lemma skip_ws_blank : forall w y,
  Forall (fun c => is_ws c = true) w -> skip_ws (w ++ y) = skip_ws y.
Proof.
  induction 1 as [|c w Hc _ IH]; [reflexivity|].
  cbn [app skip_ws]. now rewrite Hc.
Qed.

Lemma substitute_blank : forall w,
  Forall (fun c => is_ws c = true) w ->
  Forall (fun c => is_ws c = true) (flat_map substitute w).
Proof.
  induction 1 as [|c w Hc _ IH]; [constructor|].
  cbn [flat_map]. apply Forall_app. split; [|exact IH].
  assert (Hs : substitute c = [c_space] \/ substitute c = [])
    by (clear IH; char_cases).
  destruct Hs as [-> | ->]; repeat constructor.
Qed.

Lemma plain_scan_blank : forall w y st,
  Forall (fun c => is_ws c = true) w -> in_text st = false ->
  plain_scan st (w ++ y) = plain_scan st y.
Proof.
  intros w y st Hw. revert st. induction Hw as [|c w Hc _ IH]; intros st Hst;
    [reflexivity|].
  cbn [app plain_scan].
  assert (Hs : plain_step st c = Some st)
    by (destruct st; try discriminate; cbn [plain_step]; clear IH;
        char_cases).
  rewrite Hs. now apply IH.
Qed.

Lemma delimited_blank : forall w c y,
  Forall (fun c => is_ws c = true) w ->
  (c = c_comma \/ c = c_rbracket \/ c = c_rbrace) ->
  delimited (w ++ c :: y).
Proof.
  intros [|x w] c y Hw Hc; cbn [app delimited].
  - destruct Hc as [-> | [-> | ->]]; repeat split; discriminate.
  - inversion Hw as [|? ? Hx _]; subst. clear Hw.
    repeat split; char_cases.
Qed.

(** ** The truncation loop on the tokens *)

Lemma passes_nil : forall d, passes d [].
Proof. intros d i x. cbn [app length]. now rewrite Nat.add_0_r. Qed.

Lemma passes_app : forall d a b,
  passes d a -> passes d b -> passes d (a ++ b).
Proof.
  intros d a b Ha Hb i x. rewrite <- app_assoc, Ha, Hb, length_app.
  now rewrite Nat.add_assoc.
Qed.

Lemma closes_app : forall d a b,
  passes d a -> closes d b -> closes d (a ++ b).
Proof.
  intros d a b Ha Hb i x. rewrite <- app_assoc, Ha, Hb, length_app.
  rewrite Nat.add_assoc. reflexivity.
Qed.

Lemma passes_char : forall d c,
  (c =? c_quote) = false -> (c =? c_lbracket) = false ->
  (c =? c_rbracket) = false -> passes d [c].
Proof.
  intros d c H1 H2 H3 i x. cbn [app find_balance length].
  rewrite H1, H2, H3. f_equal. lia.
Qed.

Lemma passes_chars : forall d s,
  Forall (fun c => (c =? c_quote) = false /\ (c =? c_lbracket) = false
                   /\ (c =? c_rbracket) = false) s ->
  passes d s.
Proof.
  intros d s H. induction H as [|c s (H1 & H2 & H3) _ IH];
    [apply passes_nil|].
  change (c :: s) with ([c] ++ s). apply passes_app; [|exact IH].
  now apply passes_char.
Qed.

Lemma passes_blank : forall d w,
  Forall (fun c => is_ws c = true) w -> passes d w.
Proof.
  intros d w H. apply passes_chars. eapply Forall_impl; [|exact H].
  intros c Hc. repeat split; char_cases.
Qed.

Lemma find_balance_in_string : forall raw d i x,
  all not_quote raw ->
  find_balance true d i (raw ++ c_quote :: x)
  = find_balance false d (i + length raw + 1)%nat x.
Proof.
  induction raw as [|c raw IH]; intros d i x H.
  - cbn [app find_balance length]. rewrite N.eqb_refl. f_equal. lia.
  - inversion H as [|? ? Hc H']; subst. unfold not_quote in Hc.
    apply negb_true_iff in Hc. cbn [app find_balance length].
    rewrite Hc, IH by exact H'. f_equal. lia.
Qed.

Lemma passes_string : forall d raw,
  all not_quote raw -> passes d (c_quote :: raw ++ [c_quote]).
Proof.
  intros d raw H i x. cbn [app find_balance].
  rewrite N.eqb_refl. rewrite <- app_assoc. cbn [app].
  rewrite find_balance_in_string by exact H. f_equal.
  cbn [length]. rewrite length_app. cbn [length]. lia.
Qed.

Lemma closes_rbracket : forall d, closes d [c_rbracket].
Proof.
  intros d i x. cbn [app find_balance length].
  replace (c_rbracket =? c_quote) with false by reflexivity.
  replace (c_rbracket =? c_lbracket) with false by reflexivity.
  rewrite N.eqb_refl. cbv zeta.
  destruct (d - 1 =? 0)%Z; f_equal; lia.
Qed.

(** An array, from its opening bracket to its closing one, at a depth
    above zero and at depth zero. *)
Lemma passes_array : forall d b,
  (0 < d)%Z -> closes (d + 1) b -> passes d (c_lbracket :: b).
Proof.
  intros d b Hd Hb i x. cbn [app find_balance length].
  replace (c_lbracket =? c_quote) with false by reflexivity.
  rewrite N.eqb_refl, Hb.
  replace (d + 1 - 1 =? 0)%Z with false by (symmetry; apply Z.eqb_neq; lia).
  replace (d + 1 - 1)%Z with d by lia. f_equal. lia.
Qed.

Lemma stops_array : forall b i x,
  closes 1 b ->
  find_balance false 0 i ((c_lbracket :: b) ++ x)
  = Some (i + length (c_lbracket :: b) - 1)%nat.
Proof.
  intros b i x Hb. cbn [app find_balance length].
  replace (c_lbracket =? c_quote) with false by reflexivity.
  rewrite N.eqb_refl. change (0 + 1)%Z with 1%Z. rewrite Hb.
  cbn. f_equal. lia.
Qed.

(** ** The characters that the substitution keeps *)

Lemma substitute_kept : forall c,
  cleaned_away c = false -> substitute c = [c].
Proof. intros c H. char_cases. Qed.

Lemma substitute_all_kept : forall s,
  Forall (fun c => cleaned_away c = false) s -> flat_map substitute s = s.
Proof.
  induction 1 as [|c s Hc _ IH]; [reflexivity|].
  cbn [flat_map]. now rewrite IH, (substitute_kept c Hc).
Qed.

(** What a string holds is kept. *)
Lemma content_kept : forall raw st rest fin,
  in_text st = true -> all not_quote raw ->
  plain_scan st (raw ++ c_quote :: rest) = Some fin ->
  Forall (fun c => cleaned_away c = false) raw.
Proof.
  induction raw as [|c raw IH]; intros st rest fin Hst Hr H; [constructor|].
  cbn [app] in H. apply plain_scan_cons in H. destruct H as (st' & Hs & H).
  inversion Hr as [|? ? Hc Hr']; subst.
  unfold not_quote in Hc. apply negb_true_iff in Hc.
  constructor.
  - clear IH H. destruct st; try discriminate; cbn [plain_step] in Hs;
      char_cases.
  - apply (IH st' rest fin); [|exact Hr' | exact H].
    now rewrite (step_other _ _ _ Hs Hc).
Qed.

(** ** Numbers *)

Lemma span_digits_split : forall t ds r,
  span_digits t = (ds, r) ->
  t = ds ++ r /\ Forall (fun c => is_digit c = true) ds.
Proof.
  induction t as [|c t IH]; intros ds r H; cbn [span_digits] in H.
  - injection H as <- <-. now split.
  - destruct (is_digit c) eqn:Ec.
    + destruct (span_digits t) as [ds' r'] eqn:E. injection H as <- <-.
      destruct (IH _ _ eq_refl) as [-> Hd]. split; [reflexivity|].
      now constructor.
    + injection H as <- <-. now split.
Qed.

Lemma digits_number_chars : forall ds,
  Forall (fun c => is_digit c = true) ds ->
  Forall (fun c => number_char c = true) ds.
Proof.
  intros ds H. eapply Forall_impl; [|exact H].
  intros c Hc. unfold number_char. now rewrite Hc.
Qed.

Lemma digit_number_char : forall c,
  is_digit c = true -> number_char c = true.
Proof. intros c Hc. unfold number_char. now rewrite Hc. Qed.

(** The integer part, and what it is when another text follows it. *)
Lemma match_integer_rest : forall t p r,
  match_integer t = Some (p, r) ->
  t = p ++ r
  /\ Forall (fun c => number_char c = true) p
  /\ (exists c p',
        p = c :: p'
        /\ (is_digit c = true
            \/ (c = 45 /\ exists d p'', p' = d :: p'' /\ is_digit d = true)))
  /\ (forall r', stops is_digit r' -> match_integer (p ++ r') = Some (p, r')).
Proof.
  intros t p r H. unfold match_integer in H.
  assert (Hun : forall sign s1,
             Forall (fun c => number_char c = true) sign ->
             match s1 with
             | c :: r0 =>
                 if c =? 48 then Some (sign ++ [c], r0)
                 else if is_digit c then
                   let (ds, r') := span_digits r0 in Some (sign ++ c :: ds, r')
                 else None
             | [] => None
             end = Some (p, r) ->
             exists c ds,
               p = sign ++ c :: ds /\ s1 = c :: ds ++ r
               /\ is_digit c = true
               /\ Forall (fun c => is_digit c = true) ds
               /\ (forall r', stops is_digit r' ->
                              match c :: ds ++ r' with
                              | c :: r0 =>
                                  if c =? 48 then Some (sign ++ [c], r0)
                                  else if is_digit c then
                                    let (ds, r') := span_digits r0 in
                                    Some (sign ++ c :: ds, r')
                                  else None
                              | [] => None
                              end = Some (p, r'))).
  { intros sign s1 Hsign H1. destruct s1 as [|c r0]; [discriminate|].
    destruct (c =? 48) eqn:E0.
    - injection H1 as <- <-. exists c, [].
      apply N.eqb_eq in E0. subst c.
      repeat split; try reflexivity; try constructor.
    - destruct (is_digit c) eqn:Ed; [|discriminate].
      destruct (span_digits r0) as [ds r'] eqn:Es. injection H1 as <- <-.
      destruct (span_digits_split _ _ _ Es) as [-> Hds].
      exists c, ds. repeat split; try reflexivity; try assumption.
      intros x Hx. rewrite E0, Ed, (span_digits_app ds x Hds Hx).
      reflexivity. }
  destruct t as [|c t]; [discriminate|].
  destruct (c =? 45) eqn:Em.
  - apply N.eqb_eq in Em. subst c.
    destruct (Hun [45] t) as (d & ds & -> & -> & Hd & Hds & Hr);
      [repeat constructor | exact H|].
    split; [reflexivity|]. split.
    { constructor; [reflexivity|]. constructor;
        [now apply digit_number_char | now apply digits_number_chars]. }
    split.
    { exists 45, (d :: ds). split; [reflexivity|]. right.
      split; [reflexivity|]. now exists d, ds. }
    intros r' Hr'. unfold match_integer. cbn [app]. cbn [N.eqb Pos.eqb].
    apply (Hr r' Hr').
  - destruct (Hun [] (c :: t)) as (d & ds & -> & E & Hd & Hds & Hr);
      [constructor | exact H|].
    injection E as -> ->.
    split; [reflexivity|]. split.
    { constructor; [now apply digit_number_char
                   | now apply digits_number_chars]. }
    split; [exists d, ds; split; [reflexivity | now left]|].
    intros r' Hr'. unfold match_integer. cbn [app]. rewrite Em.
    apply (Hr r' Hr').
Qed.

Lemma match_fraction_rest : forall t p r,
  match_fraction t = (p, r) ->
  (p = [] /\ r = t)
  \/ (exists p',
        p = 46 :: p' /\ t = p ++ r
        /\ Forall (fun c => number_char c = true) p
        /\ (forall r', stops is_digit r' ->
                       match_fraction (p ++ r') = (p, r'))).
Proof.
  intros t p r H. unfold match_fraction in H.
  destruct t as [|dot [|d t]]; try (injection H as <- <-; now left).
  destruct ((dot =? 46) && is_digit d) eqn:E;
    [|injection H as <- <-; now left].
  apply andb_true_iff in E. destruct E as [E1 E2].
  apply N.eqb_eq in E1. subst dot.
  destruct (span_digits t) as [ds r'] eqn:Es. injection H as <- <-.
  destruct (span_digits_split _ _ _ Es) as [-> Hds].
  right. exists (d :: ds). split; [reflexivity|]. split; [reflexivity|].
  split.
  { constructor; [reflexivity|]. constructor;
      [now apply digit_number_char | now apply digits_number_chars]. }
  intros x Hx. unfold match_fraction. cbn [app]. rewrite E2.
  cbn [N.eqb Pos.eqb andb]. rewrite (span_digits_app ds x Hds Hx).
  reflexivity.
Qed.

Lemma match_exponent_rest : forall t p r,
  match_exponent t = (p, r) ->
  (p = [] /\ r = t)
  \/ (exists e p',
        p = e :: p' /\ (e = 101 \/ e = 69) /\ t = p ++ r
        /\ Forall (fun c => number_char c = true) p
        /\ (forall r', stops is_digit r' ->
                       match_exponent (p ++ r') = (p, r'))).
Proof.
  intros t p r H. unfold match_exponent in H.
  destruct t as [|e t]; [injection H as <- <-; now left|].
  destruct ((e =? 101) || (e =? 69)) eqn:Ee;
    [|injection H as <- <-; now left].
  assert (He : e = 101 \/ e = 69).
  { apply orb_true_iff in Ee. destruct Ee as [E | E]; apply N.eqb_eq in E;
      auto. }
  assert (Hen : number_char e = true)
    by (destruct He as [-> | ->]; reflexivity).
  destruct t as [|c t']; [injection H as <- <-; now left|].
  destruct ((c =? 45) || (c =? 43)) eqn:Ec.
  - destruct (span_digits t') as [ds r2] eqn:Es.
    destruct (span_digits_split _ _ _ Es) as [-> Hds].
    destruct ds as [|d ds]; [injection H as <- <-; now left|].
    injection H as <- <-. right. exists e, ([c] ++ d :: ds).
    split; [reflexivity|]. split; [exact He|]. split; [reflexivity|].
    split.
    { constructor; [exact Hen|]. constructor;
        [clear Es; char_cases | now apply digits_number_chars]. }
    intros x Hx. unfold match_exponent. cbn [app]. rewrite Ee, Ec.
    change (d :: ds ++ x) with ((d :: ds) ++ x).
    rewrite (span_digits_app (d :: ds) x Hds Hx). reflexivity.
  - destruct (span_digits (c :: t')) as [ds r2] eqn:Es.
    destruct (span_digits_split _ _ _ Es) as [E Hds].
    destruct ds as [|d ds]; [injection H as <- <-; now left|].
    injection H as <- <-. cbn [app] in E. injection E as -> ->.
    right. exists e, (d :: ds).
    split; [reflexivity|]. split; [exact He|]. split; [reflexivity|].
    split; [constructor; [exact Hen | now apply digits_number_chars]|].
    intros x Hx. unfold match_exponent. cbn [app]. rewrite Ee, Ec.
    change (d :: ds ++ x) with ((d :: ds) ++ x).
    rewrite (span_digits_app (d :: ds) x Hds Hx). reflexivity.
Qed.

(** A number, and what it is when a text follows that does not go on
    as a number. *)
Lemma match_number_rest : forall {FM : PyFloat} t v r,
  match_number t = Parsed v r ->
  exists lit,
    t = lit ++ r
    /\ Forall (fun c => number_char c = true) lit
    /\ (exists c p',
          lit = c :: p'
          /\ (is_digit c = true
              \/ (c = 45
                  /\ exists d p'', p' = d :: p'' /\ is_digit d = true)))
    /\ (forall r', delimited r' -> match_number (lit ++ r') = Parsed v r').
Proof.
  intros FM t v r H. unfold match_number in H.
  destruct (match_integer t) as [[p0 r0]|] eqn:Ei; [|discriminate].
  destruct (match_fraction r0) as [fr r1] eqn:Ef.
  destruct (match_exponent r1) as [ex r2] eqn:Ee.
  destruct (match_integer_rest _ _ _ Ei) as (-> & Hp0 & Hhead & Hi).
  assert (Hfr : r0 = fr ++ r1
                /\ Forall (fun c => number_char c = true) fr
                /\ forall x, stops is_digit x -> stops (fun c => c =? 46) x ->
                             match_fraction (fr ++ x) = (fr, x)).
  { destruct (match_fraction_rest _ _ _ Ef) as [[-> ->] | (p' & -> & E & Hn & Hr)].
    - split; [reflexivity|]. split; [constructor|].
      intros x _ Hx. cbn [app]. unfold match_fraction.
      destruct x as [|dot [|d x]]; try reflexivity.
      cbn [stops] in Hx. now rewrite Hx.
    - split; [exact E|]. split; [exact Hn|]. intros x Hx _. now apply Hr. }
  destruct Hfr as (-> & Hfr & Hf).
  assert (Hex : r1 = ex ++ r2
                /\ Forall (fun c => number_char c = true) ex
                /\ (ex = [] \/ exists e p', ex = e :: p' /\ (e = 101 \/ e = 69))
                /\ forall x, delimited x ->
                             match_exponent (ex ++ x) = (ex, x)).
  { destruct (match_exponent_rest _ _ _ Ee)
      as [[-> ->] | (e & p' & -> & He & E & Hn & Hr)].
    - split; [reflexivity|]. split; [constructor|]. split; [now left|].
      intros x Hx. now apply match_exponent_none.
    - split; [exact E|]. split; [exact Hn|].
      split; [right; now exists e, p'|].
      intros x Hx. apply Hr. now apply delimited_stops. }
  destruct Hex as (-> & Hex & Hexh & He).
  assert (Hv : r = r2
               /\ forall x,
                    match fr, ex with
                    | [], [] => Parsed (JInt (int_of_literal p0)) x
                    | _, _ =>
                        Parsed (JFloat (float_of_literal (p0 ++ fr ++ ex))) x
                    end = Parsed v x).
  { destruct fr, ex; injection H as <- <-; split; reflexivity. }
  destruct Hv as [-> Hv].
  exists (p0 ++ fr ++ ex). split; [now rewrite <- !app_assoc|].
  split; [repeat (apply Forall_app; split); assumption|].
  split.
  { destruct Hhead as (c & p' & -> & Hc). exists c, (p' ++ fr ++ ex).
    split; [reflexivity|].
    destruct Hc as [Hc | (-> & d & p'' & -> & Hd)]; [now left|].
    right. split; [reflexivity|]. now exists d, (p'' ++ fr ++ ex). }
  intros x Hx. unfold match_number.
  assert (Hse : stops is_digit (ex ++ x) /\ stops (fun c => c =? 46) (ex ++ x)).
  { destruct Hexh as [-> | (e & p' & -> & [-> | ->])]; cbn [app stops].
    - split; [now apply delimited_stops|].
      destruct x as [|c x]; [exact I|]. cbn [delimited stops] in *.
      apply N.eqb_neq. tauto.
    - now split.
    - now split. }
  destruct Hse as [Hse1 Hse2].
  assert (Hsf : stops is_digit (fr ++ ex ++ x)).
  { destruct (match_fraction_rest _ _ _ Ef) as [[-> _] | (p' & -> & _)];
      [exact Hse1 | reflexivity]. }
  rewrite <- !app_assoc. rewrite (Hi _ Hsf), (Hf _ Hse1 Hse2), (He _ Hx).
  apply Hv.
Qed.

(** The scan of a number. *)
Lemma number_scan : forall lit st r fin,
  Forall (fun c => number_char c = true) lit ->
  (st = LOut \/ st = LValue) ->
  plain_scan st (lit ++ r) = Some fin ->
  exists st', (st' = LOut \/ st' = LValue) /\ plain_scan st' r = Some fin.
Proof.
  induction lit as [|c lit IH]; intros st r fin Hl Hst H;
    [now exists st|].
  cbn [app] in H. apply plain_scan_cons in H. destruct H as (st1 & Hs & H).
  inversion Hl as [|? ? Hc Hl']; subst.
  apply (IH st1 r fin Hl'); [|exact H].
  clear IH H. destruct Hst as [-> | ->]; cbn [plain_step] in Hs; char_cases.
Qed.

Lemma number_chars_kept : forall lit,
  Forall (fun c => number_char c = true) lit ->
  flat_map substitute lit = lit /\ forall d, passes d lit.
Proof.
  intros lit H. split.
  - apply substitute_all_kept. eapply Forall_impl; [|exact H].
    intros c Hc. char_cases.
  - intros d. apply passes_chars. eapply Forall_impl; [|exact H].
    intros c Hc. repeat split; char_cases.
Qed.

(** ** Strings *)

Lemma scanstring_unicode : forall h1 h2 h3 h4 z zs,
  scanstring (92 :: 117 :: h1 :: h2 :: h3 :: h4 :: z :: zs)
  = match hex4 h1 h2 h3 h4 with
    | None => None
    | Some cp =>
        if is_high_surrogate cp then after_high_surrogate cp (z :: zs)
        else push cp (scanstring (z :: zs))
    end.
Proof. reflexivity. Qed.

Lemma hex_val_quote : hex_val c_quote = None.
Proof. reflexivity. Qed.

Lemma hex4_Some : forall a b c d v,
  hex4 a b c d = Some v ->
  (exists x, hex_val a = Some x) /\ (exists x, hex_val b = Some x)
  /\ (exists x, hex_val c = Some x) /\ (exists x, hex_val d = Some x).
Proof.
  intros a b c d v H. unfold hex4 in H.
  destruct (hex_val a), (hex_val b), (hex_val c), (hex_val d);
    try discriminate; eauto 10.
Qed.

Lemma hex_val_step : forall h x,
  hex_val h = Some x -> plain_step LIn h = Some LIn.
Proof. intros h x H. unfold hex_val in H. cbn [plain_step]. char_cases. Qed.

Lemma app_cons_length : forall (a : str) c x,
  Nat.eqb (length (a ++ c :: x)) 0 = false.
Proof. intros a c x. rewrite length_app. cbn [length]. apply Nat.eqb_neq. lia. Qed.


Lemma first_quote : forall t : str,
  In c_quote t ->
  exists raw x, t = raw ++ c_quote :: x /\ all not_quote raw.
Proof.
  induction t as [|c t IH]; intros H; [destruct H|].
  destruct (c =? c_quote) eqn:E.
  - apply N.eqb_eq in E. subst c. exists [], t. split; [reflexivity|].
    constructor.
  - destruct H as [H | H]; [apply N.eqb_neq in E; now elim E|].
    destruct (IH H) as (raw & x & -> & Hr). exists (c :: raw), x.
    split; [reflexivity|]. constructor; [|exact Hr].
    unfold not_quote. now rewrite E.
Qed.

Lemma scanstring_has_quote : forall n t s r,
  (length t <= n)%nat -> scanstring t = Some (s, r) -> In c_quote t.
Proof.
  induction n as [|n IH]; intros t s r Hn H.
  - destruct t; [discriminate | simpl in Hn; lia].
  - destruct t as [|c t]; [discriminate|].
    cbn [scanstring] in H. simpl in Hn.
    repeat (break_match_hyp H; try discriminate; subst; simpl in Hn);
      try (left; apply N.eqb_eq; assumption);
      apply push_Some in H; destruct H as (t' & H & _);
      apply IH in H; simpl in *; try lia; tauto.
Qed.

(** A double quote where a hexadecimal digit is awaited. *)
Ltac hex4_none :=
  unfold hex4; rewrite hex_val_quote;
  repeat match goal with
         | |- context [match hex_val ?a with _ => _ end] =>
             destruct (hex_val a)
         end;
  reflexivity.

(** After a high surrogate, when the string ends before a whole escape
    could follow. *)
Ltac tail_short :=
  let y := fresh "y" in
  intros y; unfold after_high_surrogate; cbn [app];
  destruct y as [|? [|? [|? [|? [|? [|? y]]]]]]; try reflexivity;
  match goal with
  | |- (if ?b then _ else _) = _ =>
      let Ec := fresh "Ec" in
      let Ec1 := fresh "Ec1" in
      let Ec2 := fresh "Ec2" in
      let Ec3 := fresh "Ec3" in
      destruct b eqn:Ec; [|reflexivity];
      apply andb_true_iff in Ec; destruct Ec as [Ec Ec3];
      apply andb_true_iff in Ec; destruct Ec as [Ec1 Ec2];
      first [discriminate Ec1 | discriminate Ec2
            | apply N.eqb_eq in Ec1; apply N.eqb_eq in Ec2]
  end;
  subst; unfold c_backslash;
  match goal with
  | |- match hex4 ?a ?b ?c ?d with _ => _ end = _ =>
      let Eh := fresh "Eh" in
      assert (Eh : hex4 a b c d = None) by hex4_none;
      rewrite Eh
  end;
  match goal with
  | |- None = push _ (scanstring (92 :: 117 :: _ :: _ :: _ :: _ :: ?r3)) =>
      destruct r3; [discriminate|]
  end;
  rewrite scanstring_unicode;
  match goal with
  | |- context [hex4 ?a ?b ?c ?d] =>
      let Eh := fresh "Eh" in
      assert (Eh : hex4 a b c d = None) by hex4_none;
      rewrite Eh
  end;
  reflexivity.

Lemma surrogate_tail : forall cp raw2 x s r,
  all not_quote raw2 ->
  after_high_surrogate cp (raw2 ++ c_quote :: x) = Some (s, r) ->
  (exists g1 g2 g3 g4 raw3 lo,
      raw2 = 92 :: 117 :: g1 :: g2 :: g3 :: g4 :: raw3
      /\ hex4 g1 g2 g3 g4 = Some lo
      /\ push (join_surrogates cp lo) (scanstring (raw3 ++ c_quote :: x))
         = Some (s, r)
      /\ forall y,
           after_high_surrogate cp (raw2 ++ c_quote :: y)
           = push (join_surrogates cp lo) (scanstring (raw3 ++ c_quote :: y)))
  \/ (push cp (scanstring (raw2 ++ c_quote :: x)) = Some (s, r)
      /\ forall y,
           after_high_surrogate cp (raw2 ++ c_quote :: y)
           = push cp (scanstring (raw2 ++ c_quote :: y))).
Proof.
  intros cp raw2 x s r Hq H.
  assert (Hshort : (forall y,
                       after_high_surrogate cp (raw2 ++ c_quote :: y)
                       = push cp (scanstring (raw2 ++ c_quote :: y))) ->
                   push cp (scanstring (raw2 ++ c_quote :: x)) = Some (s, r)
                   /\ forall y,
                        after_high_surrogate cp (raw2 ++ c_quote :: y)
                        = push cp (scanstring (raw2 ++ c_quote :: y))).
  { intros Hy. split; [now rewrite <- Hy | exact Hy]. }
  destruct raw2 as [|a1 [|a2 [|a3 [|a4 [|a5 [|a6 raw3]]]]]].
  - right. apply Hshort. clear. tail_short.
  - right. apply Hshort. clear. tail_short.
  - right. apply Hshort. clear. tail_short.
  - right. apply Hshort. clear. tail_short.
  - right. apply Hshort. clear. tail_short.
  - right. apply Hshort. clear. tail_short.
  - clear Hshort. unfold after_high_surrogate in H. cbn [app] in H.
    rewrite app_cons_length in H. cbn [negb] in H.
    rewrite andb_true_r in H.
    assert (Hy : forall y,
               after_high_surrogate cp
                 ((a1 :: a2 :: a3 :: a4 :: a5 :: a6 :: raw3) ++ c_quote :: y)
               = if (a1 =? c_backslash) && (a2 =? 117)
                 then match hex4 a3 a4 a5 a6 with
                      | None => None
                      | Some lo =>
                          if is_low_surrogate lo
                          then push (join_surrogates cp lo)
                                    (scanstring (raw3 ++ c_quote :: y))
                          else push cp
                                 (scanstring
                                    ((a1 :: a2 :: a3 :: a4 :: a5 :: a6 :: raw3)
                                     ++ c_quote :: y))
                      end
                 else push cp
                        (scanstring
                           ((a1 :: a2 :: a3 :: a4 :: a5 :: a6 :: raw3)
                            ++ c_quote :: y))).
    { intros y. unfold after_high_surrogate. cbn [app].
      rewrite app_cons_length. cbn [negb]. now rewrite andb_true_r. }
    destruct ((a1 =? c_backslash) && (a2 =? 117)) eqn:Ec.
    + destruct (hex4 a3 a4 a5 a6) as [lo|] eqn:Eh; [|discriminate].
      apply andb_true_iff in Ec. destruct Ec as [E1 E2].
      apply N.eqb_eq in E1, E2. subst a1 a2.
      destruct (is_low_surrogate lo) eqn:El.
      * left. exists a3, a4, a5, a6, raw3, lo.
        split; [reflexivity|]. split; [exact Eh|]. split; [exact H|].
        intros y. rewrite Hy. reflexivity.
      * right. split; [exact H|]. intros y. rewrite Hy. reflexivity.
    + right. split; [exact H|]. intros y. rewrite Hy. reflexivity.
Qed.

(** The equations of [scanstring]. *)
Lemma scanstring_quote : forall x, scanstring (c_quote :: x) = Some ([], x).
Proof. reflexivity. Qed.

Lemma scanstring_char : forall c t,
  (c =? c_quote) = false -> (c =? c_backslash) = false ->
  scanstring (c :: t) = if c <=? 31 then None else push c (scanstring t).
Proof. intros c t H1 H2. cbn [scanstring]. now rewrite H1, H2. Qed.

Lemma scanstring_simple_escape : forall e t,
  (e =? 117) = false ->
  scanstring (c_backslash :: e :: t)
  = match unescape e with
    | Some c' => push c' (scanstring t)
    | None => None
    end.
Proof. intros e t H. cbn [scanstring]. now rewrite H. Qed.

Lemma scanstring_unicode_tail : forall h1 h2 h3 h4 t,
  t <> [] ->
  scanstring (c_backslash :: 117 :: h1 :: h2 :: h3 :: h4 :: t)
  = match hex4 h1 h2 h3 h4 with
    | None => None
    | Some cp =>
        if is_high_surrogate cp then after_high_surrogate cp t
        else push cp (scanstring t)
    end.
Proof. intros h1 h2 h3 h4 [|z zs] H; [now elim H | reflexivity]. Qed.

Lemma app_cons_not_nil : forall (a : str) c x, a ++ c :: x <> [].
Proof. intros [|b a] c x; discriminate. Qed.

(** An escape [u] that the string ends before its four digits. *)
Lemma scanstring_unicode_short : forall short x,
  (length short < 4)%nat ->
  scanstring (c_backslash :: 117 :: short ++ c_quote :: x) = None.
Proof.
  intros short x Hs.
  destruct short as [|h1 [|h2 [|h3 [|h4 short]]]];
    [| | | |simpl in Hs; lia]; cbn [app];
    destruct x as [|x1 [|x2 [|x3 [|x4 x]]]]; try reflexivity;
    change (c_backslash :: 117 :: ?a :: ?b :: ?c :: ?d :: ?t)
      with (92 :: 117 :: a :: b :: c :: d :: t);
    rewrite ?scanstring_unicode;
    try match goal with
        | |- context [hex4 ?a ?b ?c ?d] =>
            let Eh := fresh "Eh" in
            assert (Eh : hex4 a b c d = None) by hex4_none;
            rewrite Eh
        end;
    reflexivity.
Qed.

(** A string without escaped double quote: [scanstring] ends it at its
    first double quote, and reads it in the same way whatever follows
    it. *)
Lemma scanstring_rest : forall n raw x s r st fin,
  (length raw <= n)%nat ->
  all not_quote raw ->
  (st = LStart \/ st = LIn) ->
  plain_scan st (raw ++ c_quote :: x) = Some fin ->
  scanstring (raw ++ c_quote :: x) = Some (s, r) ->
  r = x /\ forall y, scanstring (raw ++ c_quote :: y) = Some (s, y).
Proof.
  induction n as [|n IH]; intros raw x s r st fin Hn Hq Hst Hp H.
  - destruct raw; [|simpl in Hn; lia]. cbn [app] in *.
    rewrite scanstring_quote in H. injection H as <- <-.
    split; [reflexivity|]. intros y. apply scanstring_quote.
  - destruct raw as [|c raw1].
    { cbn [app] in *. rewrite scanstring_quote in H. injection H as <- <-.
      split; [reflexivity|]. intros y. apply scanstring_quote. }
    inversion Hq as [|? ? Hc Hq1]; subst.
    unfold not_quote in Hc. apply negb_true_iff in Hc.
    cbn [app] in Hp, H. simpl in Hn.
    apply plain_scan_cons in Hp. destruct Hp as (st1 & Hs & Hp).
    destruct (c =? c_backslash) eqn:Eb.
    + apply N.eqb_eq in Eb. subst c.
      assert (st1 = LEsc)
        by (destruct Hst as [-> | ->]; cbn in Hs; congruence).
      subst st1. clear Hs.
      destruct raw1 as [|e raw2].
      { cbn [app] in Hp. cbn in Hp. discriminate. }
      inversion Hq1 as [|? ? He Hq2]; subst.
      unfold not_quote in He. apply negb_true_iff in He.
      cbn [app] in Hp, H. simpl in Hn.
      apply plain_scan_cons in Hp. destruct Hp as (st2 & Hs2 & Hp).
      assert (st2 = LIn) by (cbn [plain_step] in Hs2; clear IH; char_cases).
      subst st2. clear Hs2.
      destruct (e =? 117) eqn:Eu.
      * apply N.eqb_eq in Eu. subst e.
        destruct (Nat.ltb (length raw2) 4) eqn:El.
        { apply Nat.ltb_lt in El.
          rewrite scanstring_unicode_short in H by exact El. discriminate. }
        apply Nat.ltb_ge in El.
        destruct raw2 as [|h1 [|h2 [|h3 [|h4 raw3]]]];
          try (simpl in El; lia).
        clear El. cbn [app] in Hp, H. simpl in Hn.
        rewrite scanstring_unicode_tail in H by apply app_cons_not_nil.
        destruct (hex4 h1 h2 h3 h4) as [cp|] eqn:Eh; [|discriminate].
        destruct (hex4_Some _ _ _ _ _ Eh)
          as ((v1 & E1) & (v2 & E2) & (v3 & E3) & (v4 & E4)).
        do 4 (apply plain_scan_cons in Hp;
              let sx := fresh "sx" in
              let Hsx := fresh "Hsx" in
              destruct Hp as (sx & Hsx & Hp);
              erewrite hex_val_step in Hsx by eassumption;
              injection Hsx as <-).
        assert (Hq3 : all not_quote raw3).
        { inversion Hq2 as [|? ? _ Hqa]; subst.
          inversion Hqa as [|? ? _ Hqb]; subst.
          inversion Hqb as [|? ? _ Hqc]; subst.
          now inversion Hqc. }
        assert (Hsingle : forall s0,
                   push cp (scanstring (raw3 ++ c_quote :: x)) = Some (s0, r) ->
                   r = x
                   /\ forall y,
                        push cp (scanstring (raw3 ++ c_quote :: y))
                        = Some (s0, y)).
        { intros s0 Hpush. apply push_Some in Hpush.
          destruct Hpush as (s' & Hscan & ->).
          destruct (IH raw3 x s' r LIn fin) as [-> Hy];
            [lia | exact Hq3 | now right | exact Hp | exact Hscan|].
          split; [reflexivity|]. intros y. now rewrite Hy. }
        destruct (is_high_surrogate cp) eqn:Ehigh.
        -- destruct (surrogate_tail cp raw3 x s r Hq3 H)
             as [(g1 & g2 & g3 & g4 & raw4 & lo & -> & Eg & Hpush & Hy)
                | (Hpush & Hy)].
           ++ apply push_Some in Hpush.
              destruct Hpush as (s' & Hscan & ->).
              destruct (hex4_Some _ _ _ _ _ Eg)
                as ((w1 & G1) & (w2 & G2) & (w3 & G3) & (w4 & G4)).
              cbn [app] in Hp. simpl in Hn.
              apply plain_scan_cons in Hp. destruct Hp as (sa & Hsa & Hp).
              cbn in Hsa. injection Hsa as <-.
              apply plain_scan_cons in Hp. destruct Hp as (sb & Hsb & Hp).
              cbn in Hsb. injection Hsb as <-.
              do 4 (apply plain_scan_cons in Hp;
                    let sx := fresh "sx" in
                    let Hsx := fresh "Hsx" in
                    destruct Hp as (sx & Hsx & Hp);
                    erewrite hex_val_step in Hsx by eassumption;
                    injection Hsx as <-).
              assert (Hq4 : all not_quote raw4).
              { inversion Hq3 as [|? ? _ Hqa]; subst.
                inversion Hqa as [|? ? _ Hqb]; subst.
                inversion Hqb as [|? ? _ Hqc]; subst.
                inversion Hqc as [|? ? _ Hqd]; subst.
                inversion Hqd as [|? ? _ Hqe]; subst.
                now inversion Hqe. }
              destruct (IH raw4 x s' r LIn fin) as [-> Hy4];
                [lia | exact Hq4 | now right | exact Hp | exact Hscan|].
              split; [reflexivity|]. intros y. cbn [app].
              rewrite scanstring_unicode_tail by discriminate.
              rewrite Eh, Ehigh.
              specialize (Hy y). cbn [app] in Hy.
              rewrite Hy, Hy4. reflexivity.
           ++ destruct (Hsingle s Hpush) as [-> Hy']. split; [reflexivity|].
              intros y. cbn [app].
              rewrite scanstring_unicode_tail by apply app_cons_not_nil.
              rewrite Eh, Ehigh, Hy. apply Hy'.
        -- destruct (Hsingle s H) as [-> Hy']. split; [reflexivity|].
           intros y. cbn [app].
           rewrite scanstring_unicode_tail by apply app_cons_not_nil.
           rewrite Eh, Ehigh. apply Hy'.
      * rewrite scanstring_simple_escape in H by exact Eu.
        destruct (unescape e) as [c'|] eqn:Ee; [|discriminate].
        apply push_Some in H. destruct H as (s' & Hscan & ->).
        destruct (IH raw2 x s' r LIn fin) as [-> Hy];
          [lia | exact Hq2 | now right | exact Hp | exact Hscan|].
        split; [reflexivity|]. intros y. cbn [app].
        rewrite scanstring_simple_escape by exact Eu. now rewrite Ee, Hy.
    + rewrite scanstring_char in H by assumption.
      destruct (c <=? 31) eqn:E31; [discriminate|].
      apply push_Some in H. destruct H as (s' & Hscan & ->).
      assert (Hst1 : st1 = LStart \/ st1 = LIn).
      { clear IH Hscan Hp.
        destruct Hst as [-> | ->]; cbn [plain_step] in Hs; char_cases. }
      destruct (IH raw1 x s' r st1 fin) as [-> Hy];
        [lia | exact Hq1 | exact Hst1 | exact Hp | exact Hscan|].
      split; [reflexivity|]. intros y. cbn [app].
      rewrite scanstring_char by assumption. now rewrite E31, Hy.
Qed.

(** A string of a text of the kind described: the text it is made of,
    which the cleaning keeps, and the scan after it. *)
Lemma string_value : forall t s r st fin,
  (st = LStart \/ st = LIn) ->
  plain_scan st t = Some fin ->
  scanstring t = Some (s, r) ->
  exists raw,
    t = raw ++ c_quote :: r
    /\ all not_quote raw
    /\ plain_scan LOut r = Some fin
    /\ flat_map substitute raw = raw
    /\ forall y, scanstring (raw ++ c_quote :: y) = Some (s, y).
Proof.
  intros t s r st fin Hst Hp H.
  pose proof (scanstring_has_quote (length t) t s r (Nat.le_refl _) H) as Hin.
  destruct (first_quote t Hin) as (raw & x & -> & Hq).
  destruct (scanstring_rest (length raw) raw x s r st fin
              (Nat.le_refl _) Hq Hst Hp H) as [-> Hy].
  assert (Hin_text : in_text st = true) by (destruct Hst as [-> | ->]; reflexivity).
  exists raw. repeat split.
  - exact Hq.
  - pose proof (scan_to_quote raw st x fin Hq Hp) as Hs.
    now rewrite Hin_text in Hs.
  - apply substitute_all_kept. exact (content_kept raw st x fin Hin_text Hq Hp).
  - exact Hy.
Qed.

Lemma prefix_of_app : forall p t,
  prefix_of p t = true -> t = p ++ skipn (length p) t.
Proof.
  induction p as [|x p IH]; intros t H; [reflexivity|].
  destruct t as [|y t]; [discriminate|]. cbn [prefix_of] in H.
  apply andb_true_iff in H. destruct H as [E H]. apply N.eqb_eq in E.
  subst y. cbn [length skipn app]. f_equal. now apply IH.
Qed.

Lemma sub_cons_kept : forall c l,
  cleaned_away c = false ->
  flat_map substitute (c :: l) = c :: flat_map substitute l.
Proof.
  intros c l H. cbn [flat_map]. now rewrite (substitute_kept c H).
Qed.

Lemma blank_cons_inv : forall (s w : str) c y,
  s = w ++ skip_ws s -> skip_ws s = c :: y -> s = w ++ c :: y.
Proof. intros s w c y H E. now rewrite E in H. Qed.

Lemma skip_ws_cons : forall s c y,
  skip_ws s = c :: y ->
  exists w,
    s = w ++ c :: y /\ Forall (fun c => is_ws c = true) w /\ is_ws c = false.
Proof.
  intros s c y E. destruct (skip_ws_split s) as (w & Hs & Hw).
  exists w. split; [now rewrite E in Hs|]. split; [exact Hw|].
  clear Hs Hw. induction s as [|a s IH]; [discriminate|].
  cbn [skip_ws] in E. destruct (is_ws a) eqn:Ea; [now apply IH|].
  now injection E as <- _.
Qed.

Lemma skip_ws_nil : forall s,
  skip_ws s = [] -> Forall (fun c => is_ws c = true) s.
Proof.
  intros s E. destruct (skip_ws_split s) as (w & Hs & Hw).
  rewrite E, app_nil_r in Hs. now subst.
Qed.

Lemma skip_ws_blank_head : forall w c y,
  Forall (fun c => is_ws c = true) w -> is_ws c = false ->
  skip_ws (w ++ c :: y) = c :: y.
Proof.
  intros w c y Hw Hc. rewrite skip_ws_blank by exact Hw.
  now apply skip_ws_head.
Qed.

Section KeptValues.
Context {FM : PyFloat}.

Lemma scan_once_quote : forall fuel r,
  scan_once (S fuel) (c_quote :: r)
  = match scanstring r with
    | Some (t, r') => Parsed (JStr t) r'
    | None => Invalid
    end.
Proof. reflexivity. Qed.

Lemma scan_once_lbrace : forall fuel r,
  scan_once (S fuel) (c_lbrace :: r)
  = match skip_ws r with
    | c' :: r' =>
        if c' =? c_rbrace then Parsed (JObj []) r'
        else
          match object_loop fuel [] (c' :: r') with
          | Parsed d r'' => Parsed (JObj d) r''
          | Invalid => Invalid
          | Exhausted => Exhausted
          end
    | [] => Invalid
    end.
Proof. reflexivity. Qed.

Lemma scan_once_lbracket : forall fuel r,
  scan_once (S fuel) (c_lbracket :: r)
  = match skip_ws r with
    | c' :: r' =>
        if c' =? c_rbracket then Parsed (JArr []) r'
        else
          match array_loop fuel (c' :: r') with
          | Parsed vs r'' => Parsed (JArr vs) r''
          | Invalid => Invalid
          | Exhausted => Exhausted
          end
    | [] => Invalid
    end.
Proof. reflexivity. Qed.

Lemma object_loop_head : forall fuel d s d' r,
  object_loop fuel d s = Parsed d' r -> exists s', s = c_quote :: s'.
Proof.
  intros [|fuel] d [|c s] d' r H; try discriminate.
  cbn [object_loop] in H. destruct (c =? c_quote) eqn:E; [|discriminate].
  apply N.eqb_eq in E. subst c. now exists s.
Qed.

Lemma match_number_not_array : forall t l r,
  match_number t = Parsed (JArr l) r -> False.
Proof.
  intros t l r H. unfold match_number in H.
  destruct (match_integer t) as [[p r0]|]; [|discriminate].
  destruct (match_fraction r0) as [fr r1].
  destruct (match_exponent r1) as [ex r2].
  destruct fr, ex; discriminate.
Qed.

(** A constant of the scanner: it is the value of no member, the
    cleaning keeps it, and its letters are no brackets. *)
Lemma literal_kept : forall fuel p st t v fin,
  prefix_of p t = true ->
  (st = LOut \/ st = LColon) ->
  plain_scan st t = Some fin ->
  plain_scan LOut p = Some LOut ->
  plain_scan LColon p = None ->
  flat_map substitute p = p ->
  Forall (fun c => (c =? c_quote) = false /\ (c =? c_lbracket) = false
                   /\ (c =? c_rbracket) = false) p ->
  (forall r', scan_once (S fuel) (p ++ r') = Parsed v r') ->
  (forall l, v <> JArr l) ->
  value_kept (S fuel) st t v (skipn (length p) t) fin.
Proof.
  intros fuel p st t v fin Hpre Hst Hp Hout Hcolon Hsub Hchars Hrun Hv.
  apply prefix_of_app in Hpre.
  exists p, LOut. rewrite Hsub. repeat split.
  - exact Hpre.
  - now left.
  - rewrite Hpre, plain_scan_app in Hp.
    destruct Hst as [-> | ->]; [now rewrite Hout in Hp|].
    rewrite Hcolon in Hp. discriminate.
  - intros r' _. apply Hrun.
  - intros d _. now apply passes_chars.
  - intros l E. now elim (Hv l).
Qed.

(** A number. *)
Lemma number_kept : forall fuel st t v r fin,
  (st = LOut \/ st = LColon) ->
  plain_scan st t = Some fin ->
  match_number t = Parsed v r ->
  value_kept (S fuel) st t v r fin.
Proof.
  intros fuel st t v r fin Hst Hp H.
  destruct (match_number_rest t v r H)
    as (lit & -> & Hlit & (c1 & p' & -> & Hhead) & Hrun).
  pose proof (number_chars_kept _ Hlit) as [Hsub Hpass].
  inversion Hlit as [|? ? Hc1 Hp']; subst.
  cbn [app] in Hp. apply plain_scan_cons in Hp.
  destruct Hp as (st1 & Hs1 & Hp).
  assert (Hst1 : st1 = LOut \/ st1 = LValue).
  { clear Hp Hrun Hsub Hpass H.
    destruct Hst as [-> | ->]; cbn [plain_step] in Hs1.
    - left. destruct Hhead as [Hd | (-> & _)]; char_cases.
    - right. destruct Hhead as [Hd | (-> & _)]; char_cases. }
  destruct (number_scan p' st1 r fin Hp' Hst1 Hp) as (st' & Hst' & Hr).
  exists (c1 :: p'), st'. rewrite Hsub. repeat split.
  - exact Hst'.
  - exact Hr.
  - intros r' Hd. rewrite <- (Hrun r' Hd). cbn [app].
    destruct Hhead as [Hd1 | (-> & d1 & p'' & -> & Hd1)].
    + now apply scan_once_digit.
    + cbn [app]. now apply scan_once_minus_digit.
  - intros d _. apply Hpass.
  - intros l ->. now apply match_number_not_array in H.
Qed.

Lemma sub_blank_head : forall w c y,
  Forall (fun c => is_ws c = true) w -> is_ws c = false ->
  skip_ws (flat_map substitute w ++ c :: y) = c :: y.
Proof.
  intros w c y Hw Hc. apply skip_ws_blank_head; [|exact Hc].
  now apply substitute_blank.
Qed.

Lemma sub_blank_skip : forall w y,
  Forall (fun c => is_ws c = true) w ->
  skip_ws (flat_map substitute w ++ y) = skip_ws y.
Proof. intros w y Hw. apply skip_ws_blank. now apply substitute_blank. Qed.

Lemma sub_blank_passes : forall d w,
  Forall (fun c => is_ws c = true) w -> passes d (flat_map substitute w).
Proof. intros d w Hw. apply passes_blank. now apply substitute_blank. Qed.

Lemma sub_blank_delimited : forall w c y,
  Forall (fun c => is_ws c = true) w ->
  (c = c_comma \/ c = c_rbracket \/ c = c_rbrace) ->
  delimited (flat_map substitute w ++ c :: y).
Proof. intros w c y Hw Hc. apply delimited_blank; [|exact Hc].
  now apply substitute_blank. Qed.

Lemma object_loop_quote : forall fuel d r,
  object_loop (S fuel) d (c_quote :: r)
  = match scanstring r with
    | Some (key, r1) =>
        match skip_ws r1 with
        | c1 :: r2 =>
            if c1 =? c_colon then
              match scan_once fuel (skip_ws r2) with
              | Parsed v r3 =>
                  match skip_ws r3 with
                  | c3 :: r4 =>
                      if c3 =? c_rbrace then Parsed (dict_set key v d) r4
                      else if c3 =? c_comma then
                        object_loop fuel (dict_set key v d) (skip_ws r4)
                      else Invalid
                  | [] => Invalid
                  end
              | Invalid => Invalid
              | Exhausted => Exhausted
              end
            else Invalid
        | [] => Invalid
        end
    | None => Invalid
    end.
Proof. reflexivity. Qed.

Lemma sub_string : forall raw,
  flat_map substitute raw = raw ->
  flat_map substitute (c_quote :: raw ++ [c_quote])
  = c_quote :: raw ++ [c_quote].
Proof.
  intros raw H. rewrite sub_cons_kept by reflexivity.
  now rewrite flat_map_app, H.
Qed.

Ltac list_norm :=
  repeat first [rewrite <- app_assoc | progress cbn [app]].

Section Step.
Variable fuel : nat.
Hypothesis IH1 : forall st t v r fin,
  (st = LOut \/ st = LColon) ->
  scan_once fuel t = Parsed v r -> plain_scan st t = Some fin ->
  value_kept fuel st t v r fin.
Hypothesis IH2 : forall t vs r fin,
  array_loop fuel t = Parsed vs r -> plain_scan LOut t = Some fin ->
  elements_kept fuel t vs r fin.
Hypothesis IH3 : forall d0 t d' r fin,
  object_loop fuel d0 t = Parsed d' r -> plain_scan LOut t = Some fin ->
  members_kept fuel d0 t d' r fin.

Lemma value_step : forall st t v r fin,
  (st = LOut \/ st = LColon) ->
  scan_once (S fuel) t = Parsed v r -> plain_scan st t = Some fin ->
  value_kept (S fuel) st t v r fin.
Proof.
  intros st t v r fin Hst H Hp.
  destruct t as [|c r0]; [discriminate|].
  destruct (c =? c_quote) eqn:Eq.
  { (* a string *)
    apply N.eqb_eq in Eq. subst c. rewrite scan_once_quote in H.
    destruct (scanstring r0) as [[s r']|] eqn:Es; [|discriminate].
    injection H as <- <-.
    assert (Hs : plain_scan LStart r0 = Some fin).
    { apply plain_scan_cons in Hp. destruct Hp as (st1 & Hs1 & Hp).
      destruct Hst as [-> | ->]; cbn in Hs1; injection Hs1 as <-; exact Hp. }
    destruct (string_value r0 s r' LStart fin (or_introl eq_refl) Hs Es)
      as (raw & -> & Hq & Hr & Hk & Hy).
    exists (c_quote :: raw ++ [c_quote]), LOut.
    assert (Hsub : flat_map substitute (c_quote :: raw ++ [c_quote])
                   = c_quote :: raw ++ [c_quote]).
    { rewrite sub_cons_kept by reflexivity. now rewrite flat_map_app, Hk. }
    rewrite Hsub. repeat split.
    - cbn [app]. now rewrite <- app_assoc.
    - now left.
    - exact Hr.
    - intros r1 _. cbn [app]. rewrite scan_once_quote, <- app_assoc.
      cbn [app]. now rewrite Hy.
    - intros d _. now apply passes_string.
    - intros l E. discriminate E. }
  destruct (c =? c_lbrace) eqn:Eb.
  { (* an object *)
    apply N.eqb_eq in Eb. subst c. rewrite scan_once_lbrace in H.
    destruct (skip_ws r0) as [|c' r'] eqn:Ew; [discriminate|].
    destruct (skip_ws_cons _ _ _ Ew) as (w & -> & Hw & Hc'). clear Ew.
    assert (Hs : plain_scan LOut (c' :: r') = Some fin).
    { apply plain_scan_cons in Hp. destruct Hp as (st1 & Hs1 & Hp).
      rewrite plain_scan_blank in Hp; [|exact Hw|].
      - destruct Hst as [-> | ->]; cbn in Hs1; injection Hs1 as <-; exact Hp.
      - destruct Hst as [-> | ->]; cbn in Hs1; injection Hs1 as <-;
          reflexivity. }
    destruct (c' =? c_rbrace) eqn:Ec.
    - apply N.eqb_eq in Ec. subst c'. injection H as <- <-.
      exists (c_lbrace :: w ++ [c_rbrace]), LOut.
      assert (Hsub : flat_map substitute (c_lbrace :: w ++ [c_rbrace])
                     = c_lbrace :: flat_map substitute w ++ [c_rbrace]).
      { rewrite sub_cons_kept by reflexivity. now rewrite flat_map_app. }
      rewrite Hsub. repeat split.
      + cbn [app]. now rewrite <- app_assoc.
      + now left.
      + apply plain_scan_cons in Hs. destruct Hs as (st1 & Hs1 & Hs).
        cbn in Hs1. now injection Hs1 as <-.
      + intros r1 _. cbn [app]. rewrite scan_once_lbrace, <- app_assoc.
        cbn [app]. rewrite sub_blank_head by (exact Hw || reflexivity).
        now rewrite N.eqb_refl.
      + intros d _. apply (passes_app d [c_lbrace]).
        * now apply passes_char.
        * apply passes_app; [now apply sub_blank_passes|].
          now apply passes_char.
      + intros l E. discriminate E.
    - destruct (object_loop fuel [] (c' :: r')) as [ms r''| |] eqn:Eo;
        try discriminate.
      injection H as <- <-.
      destruct (IH3 [] (c' :: r') ms r'' fin Eo Hs)
        as (co & Ht & Hr & Hrun & Hpass).
      exists (c_lbrace :: w ++ co), LOut.
      assert (Hsub : flat_map substitute (c_lbrace :: w ++ co)
                     = c_lbrace :: flat_map substitute w
                                   ++ flat_map substitute co).
      { rewrite sub_cons_kept by reflexivity. now rewrite flat_map_app. }
      rewrite Hsub. repeat split.
      + cbn [app]. now rewrite <- app_assoc, <- Ht.
      + now left.
      + exact Hr.
      + intros r1 _. cbn [app]. rewrite scan_once_lbrace, <- app_assoc.
        rewrite sub_blank_skip by exact Hw.
        specialize (Hrun r1).
        destruct (object_loop_head _ _ _ _ _ Hrun) as (s' & E).
        rewrite E in *. rewrite skip_ws_head by reflexivity.
        change (c_quote =? c_rbrace) with false. cbv iota.
        now rewrite Hrun.
      + intros d Hd. apply (passes_app d [c_lbrace]).
        * now apply passes_char.
        * apply passes_app; [now apply sub_blank_passes|]. now apply Hpass.
      + intros l E. discriminate E. }
  destruct (c =? c_lbracket) eqn:Ea.
  { (* an array *)
    apply N.eqb_eq in Ea. subst c. rewrite scan_once_lbracket in H.
    destruct (skip_ws r0) as [|c' r'] eqn:Ew; [discriminate|].
    destruct (skip_ws_cons _ _ _ Ew) as (w & -> & Hw & Hc'). clear Ew.
    assert (Hs : plain_scan LOut (c' :: r') = Some fin).
    { apply plain_scan_cons in Hp. destruct Hp as (st1 & Hs1 & Hp).
      rewrite plain_scan_blank in Hp; [|exact Hw|].
      - destruct Hst as [-> | ->]; cbn in Hs1; injection Hs1 as <-; exact Hp.
      - destruct Hst as [-> | ->]; cbn in Hs1; injection Hs1 as <-;
          reflexivity. }
    destruct (c' =? c_rbracket) eqn:Ec.
    - apply N.eqb_eq in Ec. subst c'. injection H as <- <-.
      exists (c_lbracket :: w ++ [c_rbracket]), LOut.
      assert (Hsub : flat_map substitute (c_lbracket :: w ++ [c_rbracket])
                     = c_lbracket :: flat_map substitute w ++ [c_rbracket]).
      { rewrite sub_cons_kept by reflexivity. now rewrite flat_map_app. }
      assert (Hclose : forall d, closes d (flat_map substitute w
                                           ++ [c_rbracket])).
      { intros d. apply closes_app; [now apply sub_blank_passes|].
        apply closes_rbracket. }
      rewrite Hsub. repeat split.
      + cbn [app]. now rewrite <- app_assoc.
      + now left.
      + apply plain_scan_cons in Hs. destruct Hs as (st1 & Hs1 & Hs).
        cbn in Hs1. now injection Hs1 as <-.
      + intros r1 _. cbn [app]. rewrite scan_once_lbracket, <- app_assoc.
        cbn [app]. rewrite sub_blank_head by (exact Hw || reflexivity).
        now rewrite N.eqb_refl.
      + intros d Hd. now apply passes_array.
      + intros l _. eexists. split; [reflexivity|]. apply Hclose.
    - destruct (array_loop fuel (c' :: r')) as [vs r''| |] eqn:Eo;
        try discriminate.
      injection H as <- <-.
      destruct (IH2 (c' :: r') vs r'' fin Eo Hs)
        as (ca & Ht & Hr & Hrun & Hcl).
      exists (c_lbracket :: w ++ ca), LOut.
      assert (Hsub : flat_map substitute (c_lbracket :: w ++ ca)
                     = c_lbracket :: flat_map substitute w
                                     ++ flat_map substitute ca).
      { rewrite sub_cons_kept by reflexivity. now rewrite flat_map_app. }
      assert (Hclose : forall d, (0 < d)%Z ->
                                 closes d (flat_map substitute w
                                           ++ flat_map substitute ca)).
      { intros d Hd. apply closes_app; [now apply sub_blank_passes|].
        now apply Hcl. }
      rewrite Hsub. repeat split.
      + cbn [app]. now rewrite <- app_assoc, <- Ht.
      + now left.
      + exact Hr.
      + intros r1 _. cbn [app]. rewrite scan_once_lbracket, <- app_assoc.
        rewrite sub_blank_skip by exact Hw.
        specialize (Hrun r1).
        destruct (array_loop_head _ _ _ _ Hrun) as (c1 & s' & E & Hc1 & Hb).
        rewrite E in *. rewrite skip_ws_head by exact Hc1.
        apply N.eqb_neq in Hb. rewrite Hb. now rewrite Hrun.
      + intros d Hd. apply passes_array; [exact Hd|]. apply Hclose. lia.
      + intros l _. eexists. split; [reflexivity|]. apply Hclose. lia. }
  cbn [scan_once] in H. rewrite Eq, Eb, Ea in H.
  destruct (prefix_of (txt "null") (c :: r0)) eqn:E1.
  { injection H as <- <-.
    apply (literal_kept fuel (txt "null")); try assumption;
      try reflexivity; try discriminate.
    repeat constructor. }
  destruct (prefix_of (txt "true") (c :: r0)) eqn:E2.
  { injection H as <- <-.
    apply (literal_kept fuel (txt "true")); try assumption;
      try reflexivity; try discriminate.
    repeat constructor. }
  destruct (prefix_of (txt "false") (c :: r0)) eqn:E3.
  { injection H as <- <-.
    apply (literal_kept fuel (txt "false")); try assumption;
      try reflexivity; try discriminate.
    repeat constructor. }
  destruct (prefix_of (txt "NaN") (c :: r0)) eqn:E4.
  { injection H as <- <-.
    apply (literal_kept fuel (txt "NaN")); try assumption;
      try reflexivity; try discriminate.
    repeat constructor. }
  destruct (prefix_of (txt "Infinity") (c :: r0)) eqn:E5.
  { injection H as <- <-.
    apply (literal_kept fuel (txt "Infinity")); try assumption;
      try reflexivity; try discriminate.
    repeat constructor. }
  destruct (prefix_of (txt "-Infinity") (c :: r0)) eqn:E6.
  { injection H as <- <-.
    apply (literal_kept fuel (txt "-Infinity")); try assumption;
      try reflexivity; try discriminate.
    repeat constructor. }
  now apply number_kept.
Qed.

Lemma elements_step : forall t vs r fin,
  array_loop (S fuel) t = Parsed vs r -> plain_scan LOut t = Some fin ->
  elements_kept (S fuel) t vs r fin.
Proof.
  intros t vs r fin H Hp. cbn [array_loop] in H.
  destruct (scan_once fuel t) as [v r1| |] eqn:Ev; try discriminate.
  destruct (IH1 LOut t v r1 fin (or_introl eq_refl) Ev Hp)
    as (cv & st' & Ht & Hst' & Hr1 & Hrun & Hpass & _).
  destruct (skip_ws r1) as [|c r2] eqn:Ew; [discriminate|].
  destruct (skip_ws_cons _ _ _ Ew) as (w & -> & Hw & Hc). clear Ew.
  rewrite plain_scan_blank in Hr1;
    [|exact Hw|destruct Hst' as [-> | ->]; reflexivity].
  apply plain_scan_cons in Hr1. destruct Hr1 as (st1 & Hs1 & Hr2).
  destruct (c =? c_rbracket) eqn:Ec.
  - apply N.eqb_eq in Ec. subst c. injection H as <- <-.
    assert (st1 = LOut)
      by (destruct Hst' as [-> | ->]; cbn in Hs1; congruence).
    subst st1.
    exists (cv ++ w ++ [c_rbracket]). rewrite !flat_map_app.
    change (flat_map substitute [c_rbracket]) with [c_rbracket].
    repeat split.
    + rewrite Ht. now list_norm.
    + exact Hr2.
    + intros r'. list_norm. cbn [array_loop].
      rewrite Hrun by (apply sub_blank_delimited; auto).
      rewrite sub_blank_head by (exact Hw || reflexivity).
      now rewrite N.eqb_refl.
    + intros d Hd. apply closes_app; [now apply Hpass|].
      apply closes_app; [now apply sub_blank_passes|]. apply closes_rbracket.
  - destruct (c =? c_comma) eqn:Ecomma; [|discriminate].
    apply N.eqb_eq in Ecomma. subst c.
    assert (st1 = LOut)
      by (destruct Hst' as [-> | ->]; cbn in Hs1; congruence).
    subst st1.
    destruct (array_loop fuel (skip_ws r2)) as [vs' r3| |] eqn:Ea;
      try discriminate.
    injection H as <- <-.
    destruct (skip_ws_split r2) as (w2 & Hr2eq & Hw2).
    assert (Hs2 : plain_scan LOut (skip_ws r2) = Some fin).
    { rewrite Hr2eq in Hr2. now rewrite plain_scan_blank in Hr2. }
    destruct (IH2 (skip_ws r2) vs' r3 fin Ea Hs2)
      as (ca & Ht2 & Hr3 & Hrun2 & Hcl).
    rewrite Ht2 in Hr2eq.
    exists (cv ++ w ++ [c_comma] ++ w2 ++ ca). rewrite !flat_map_app.
    change (flat_map substitute [c_comma]) with [c_comma].
    repeat split.
    + rewrite Ht, Hr2eq. now list_norm.
    + exact Hr3.
    + intros r'. list_norm. cbn [array_loop].
      rewrite Hrun by (apply sub_blank_delimited; auto).
      rewrite sub_blank_head by (exact Hw || reflexivity).
      change (c_comma =? c_rbracket) with false.
      change (c_comma =? c_comma) with true. cbv iota.
      rewrite sub_blank_skip by exact Hw2.
      rewrite (array_loop_skip_ws _ _ _ _ (Hrun2 r')).
      now rewrite Hrun2.
    + intros d Hd. apply closes_app; [now apply Hpass|].
      apply closes_app; [now apply sub_blank_passes|].
      apply closes_app; [now apply passes_char|].
      apply closes_app; [now apply sub_blank_passes|]. now apply Hcl.
Qed.

Lemma members_step : forall d0 t d' r fin,
  object_loop (S fuel) d0 t = Parsed d' r -> plain_scan LOut t = Some fin ->
  members_kept (S fuel) d0 t d' r fin.
Proof.
  intros d0 t d' r fin H Hp.
  destruct (object_loop_head _ _ _ _ _ H) as (r0 & ->).
  rewrite object_loop_quote in H.
  destruct (scanstring r0) as [[key r1]|] eqn:Es; [|discriminate].
  apply plain_scan_cons in Hp. destruct Hp as (st0 & Hs0 & Hp).
  cbn in Hs0. injection Hs0 as <-.
  destruct (string_value r0 key r1 LStart fin (or_introl eq_refl) Hp Es)
    as (raw & -> & Hq & Hr1 & Hk & Hy).
  clear Hp Es.
  destruct (skip_ws r1) as [|c1 r2] eqn:Ew1; [discriminate|].
  destruct (skip_ws_cons _ _ _ Ew1) as (w1 & -> & Hw1 & Hc1). clear Ew1.
  destruct (c1 =? c_colon) eqn:Ecolon; [|discriminate].
  apply N.eqb_eq in Ecolon. subst c1.
  rewrite plain_scan_blank in Hr1 by (exact Hw1 || reflexivity).
  apply plain_scan_cons in Hr1. destruct Hr1 as (st1 & Hs1 & Hr2).
  cbn in Hs1. injection Hs1 as <-.
  destruct (scan_once fuel (skip_ws r2)) as [v r3| |] eqn:Ev;
    try discriminate.
  destruct (skip_ws_split r2) as (w2 & Hr2eq & Hw2).
  assert (Hs2 : plain_scan LColon (skip_ws r2) = Some fin).
  { rewrite Hr2eq in Hr2. now rewrite plain_scan_blank in Hr2. }
  destruct (IH1 LColon (skip_ws r2) v r3 fin (or_intror eq_refl) Ev Hs2)
    as (cv & st' & Ht & Hst' & Hr3 & Hrun & Hpass & _).
  rewrite Ht in Hr2eq. clear Hs2 Hr2.
  destruct (skip_ws r3) as [|c3 r4] eqn:Ew3; [discriminate|].
  destruct (skip_ws_cons _ _ _ Ew3) as (w3 & -> & Hw3 & Hc3). clear Ew3.
  rewrite plain_scan_blank in Hr3;
    [|exact Hw3|destruct Hst' as [-> | ->]; reflexivity].
  apply plain_scan_cons in Hr3. destruct Hr3 as (st3 & Hs3 & Hr4).
  assert (Hstring : forall d, passes d (c_quote :: raw ++ [c_quote]))
    by (intros d; now apply passes_string).
  destruct (c3 =? c_rbrace) eqn:Ec.
  - apply N.eqb_eq in Ec. subst c3. injection H as <- <-.
    assert (st3 = LOut)
      by (destruct Hst' as [-> | ->]; cbn in Hs3; congruence).
    subst st3.
    exists ((c_quote :: raw ++ [c_quote]) ++ w1 ++ [c_colon] ++ w2 ++ cv
            ++ w3 ++ [c_rbrace]).
    rewrite !flat_map_app, (sub_string raw Hk).
    change (flat_map substitute [c_colon]) with [c_colon].
    change (flat_map substitute [c_rbrace]) with [c_rbrace].
    repeat split.
    + rewrite Hr2eq. now list_norm.
    + exact Hr4.
    + intros r'. list_norm. rewrite object_loop_quote, Hy.
      rewrite sub_blank_head by (exact Hw1 || reflexivity).
      change (c_colon =? c_colon) with true. cbv iota.
      rewrite sub_blank_skip by exact Hw2.
      assert (Hd : delimited (flat_map substitute w3 ++ c_rbrace :: r'))
        by (apply sub_blank_delimited; auto).
      rewrite (scan_once_skip_ws _ _ _ _ (Hrun _ Hd)).
      rewrite (Hrun _ Hd).
      rewrite sub_blank_head by (exact Hw3 || reflexivity).
      now rewrite N.eqb_refl.
    + intros d Hd.
      apply passes_app; [apply Hstring|].
      apply passes_app; [now apply sub_blank_passes|].
      apply passes_app; [now apply passes_char|].
      apply passes_app; [now apply sub_blank_passes|].
      apply passes_app; [now apply Hpass|].
      apply passes_app; [now apply sub_blank_passes|].
      now apply passes_char.
  - destruct (c3 =? c_comma) eqn:Ecomma; [|discriminate].
    apply N.eqb_eq in Ecomma. subst c3.
    assert (st3 = LOut)
      by (destruct Hst' as [-> | ->]; cbn in Hs3; congruence).
    subst st3.
    destruct (skip_ws_split r4) as (w4 & Hr4eq & Hw4).
    assert (Hs4 : plain_scan LOut (skip_ws r4) = Some fin).
    { rewrite Hr4eq in Hr4. now rewrite plain_scan_blank in Hr4. }
    destruct (IH3 (dict_set key v d0) (skip_ws r4) d' r fin H Hs4)
      as (cm & Ht4 & Hr5 & Hrun4 & Hpass4).
    rewrite Ht4 in Hr4eq.
    exists ((c_quote :: raw ++ [c_quote]) ++ w1 ++ [c_colon] ++ w2 ++ cv
            ++ w3 ++ [c_comma] ++ w4 ++ cm).
    rewrite !flat_map_app, (sub_string raw Hk).
    change (flat_map substitute [c_colon]) with [c_colon].
    change (flat_map substitute [c_comma]) with [c_comma].
    repeat split.
    + rewrite Hr2eq, Hr4eq. now list_norm.
    + exact Hr5.
    + intros r'. list_norm. rewrite object_loop_quote, Hy.
      rewrite sub_blank_head by (exact Hw1 || reflexivity).
      change (c_colon =? c_colon) with true. cbv iota.
      rewrite sub_blank_skip by exact Hw2.
      match goal with
      | |- context [scan_once fuel (skip_ws (_ ++ ?X))] =>
          assert (Hd : delimited X) by (apply sub_blank_delimited; auto);
          rewrite (scan_once_skip_ws _ _ _ _ (Hrun X Hd));
          rewrite (Hrun X Hd)
      end.
      rewrite sub_blank_head by (exact Hw3 || reflexivity).
      change (c_comma =? c_rbrace) with false.
      change (c_comma =? c_comma) with true. cbv iota.
      rewrite sub_blank_skip by exact Hw4.
      destruct (object_loop_head _ _ _ _ _ (Hrun4 r')) as (s' & E).
      rewrite E, skip_ws_head by reflexivity. rewrite <- E.
      apply Hrun4.
    + intros d Hd.
      apply passes_app; [apply Hstring|].
      apply passes_app; [now apply sub_blank_passes|].
      apply passes_app; [now apply passes_char|].
      apply passes_app; [now apply sub_blank_passes|].
      apply passes_app; [now apply Hpass|].
      apply passes_app; [now apply sub_blank_passes|].
      apply passes_app; [now apply passes_char|].
      apply passes_app; [now apply sub_blank_passes|].
      now apply Hpass4.
Qed.

End Step.

(** The scanner on a text of the kind described. *)
Lemma kept_all : forall fuel,
  (forall st t v r fin,
      (st = LOut \/ st = LColon) ->
      scan_once fuel t = Parsed v r -> plain_scan st t = Some fin ->
      value_kept fuel st t v r fin)
  /\ (forall t vs r fin,
         array_loop fuel t = Parsed vs r -> plain_scan LOut t = Some fin ->
         elements_kept fuel t vs r fin)
  /\ (forall d0 t d' r fin,
         object_loop fuel d0 t = Parsed d' r -> plain_scan LOut t = Some fin ->
         members_kept fuel d0 t d' r fin).
Proof.
  induction fuel as [|fuel (IH1 & IH2 & IH3)].
  - repeat split; intros; discriminate.
  - split; [|split].
    + now apply value_step.
    + now apply elements_step.
    + now apply members_step.
Qed.

(** The cleaning of the lines and the truncation keep what a text of the
    kind described decodes to, when that is an array. *)
Lemma truncation_kept : forall f l,
  loads f = Some (JArr l) -> plain f = true ->
  loads (truncated_text f) = Some (JArr l).
Proof.
  intros f l H Hp. unfold loads in H.
  destruct (prefix_of [c_bom] f) eqn:Eb; [discriminate|].
  destruct (scan_once (2 * length f + 1) (skip_ws f)) as [v r| |] eqn:Ev;
    try discriminate.
  destruct (skip_ws r) eqn:Er; [|discriminate]. injection H as ->.
  unfold plain in Hp.
  destruct (plain_scan LOut f) as [[]|] eqn:Ep; try discriminate.
  destruct (skip_ws_split f) as (w0 & Hf & Hw0).
  assert (Hs : plain_scan LOut (skip_ws f) = Some LOut).
  { rewrite Hf in Ep. now rewrite plain_scan_blank in Ep. }
  destruct (kept_all (2 * length f + 1)) as (K & _ & _).
  destruct (K LOut _ _ _ _ (or_introl eq_refl) Ev Hs)
    as (c & st' & Ht & _ & _ & Hrun & _ & Harr).
  destruct (Harr l eq_refl) as (b & Hb & Hcl).
  assert (Hsubf : flat_map substitute f
                  = flat_map substitute w0 ++ flat_map substitute c
                    ++ flat_map substitute r).
  { rewrite Hf at 1. rewrite Ht. now rewrite !flat_map_app. }
  unfold truncated_text.
  rewrite (cleaned_text_plain (length f) f LOut LOut (le_n _) eq_refl Ep).
  rewrite Hsubf. unfold truncate.
  assert (Hfb : find_balance false 0 0
                  (flat_map substitute w0 ++ flat_map substitute c
                   ++ flat_map substitute r)
                = Some (length (flat_map substitute w0
                                ++ flat_map substitute c) - 1)%nat).
  { rewrite (sub_blank_passes 0 w0 Hw0 0%nat). rewrite Hb.
    rewrite (stops_array b _ _ Hcl). f_equal. rewrite length_app. lia. }
  rewrite Hfb.
  replace (length (flat_map substitute w0 ++ flat_map substitute c) - 1 + 1)%nat
    with (length (flat_map substitute w0 ++ flat_map substitute c))
    by (rewrite length_app, Hb; simpl; lia).
  rewrite app_assoc, firstn_app, firstn_all, Nat.sub_diag.
  cbn [firstn]. rewrite app_nil_r.
  assert (Hbom : prefix_of [c_bom]
                   (flat_map substitute w0 ++ flat_map substitute c) = false).
  { pose proof (substitute_blank w0 Hw0) as Hbl.
    destruct (flat_map substitute w0) as [|a w'].
    - rewrite Hb. reflexivity.
    - inversion Hbl; subst. cbn [app prefix_of].
      destruct (c_bom =? a) eqn:E; [|reflexivity].
      apply N.eqb_eq in E. subst a. discriminate. }
  unfold loads. rewrite Hbom. rewrite sub_blank_skip by exact Hw0.
  specialize (Hrun [] I). rewrite app_nil_r in Hrun.
  rewrite (scan_once_skip_ws _ _ _ _ Hrun).
  rewrite (scan_once_fuel _ _ _ _ Hrun)
    by (rewrite length_app; lia).
  reflexivity.
Qed.


End KeptValues.
(* ================================================================== *)
(** * Properties of [create_archive] and [main] *)

Section Build.
Context {FM : PyFloat} {OS : Host}.

Lemma dict_del_absent : forall k (d : dict),
  key_in k (keys d) = false -> dict_del k d = d.
Proof.
  intros k d. induction d as [|[k' v] r IH]; intros H; [reflexivity|].
  unfold key_in, keys in H. cbn [map existsb fst] in H.
  apply orb_false_iff in H. destruct H as [H1 H2].
  unfold dict_del. cbn [filter fst]. rewrite H1. cbn [negb].
  f_equal. now apply IH.
Qed.

Lemma dict_del_idem : forall k (d : dict),
  dict_del k (dict_del k d) = dict_del k d.
Proof.
  intros k d. unfold dict_del. induction d as [|kv r IH]; [reflexivity|].
  cbn [filter]. destruct (negb (str_eqb k (fst kv))) eqn:E; [|exact IH].
  cbn [filter]. now rewrite E, IH.
Qed.

Lemma file_event_del : forall config tmp m file e,
  file_event config tmp (dict_del (txt "thumbnail") m) file e
  <-> file_event config tmp m file e.
Proof.
  intros config tmp m file e. unfold file_event.
  destruct e; try tauto. now rewrite dict_del_idem.
Qed.

(** The two ways a sequence of two statements ends. *)
Lemma and_then_inv : forall first second st' r,
  and_then first second = (st', r) ->
  (exists st1, first = (st1, None) /\ second st1 = (st', r))
  \/ (exists e, first = (st', Some e) /\ r = Some e).
Proof.
  intros [st1 [e|]] second st' r H; cbn [and_then] in H.
  - injection H as <- <-. right. now exists e.
  - left. now exists st1.
Qed.

Lemma call_inv : forall e st st' r,
  call e st = (st', r) ->
  st' = emit e st
  /\ ((r = None /\ call_fails (events st) e = false)
      \/ (r = Some (CallFailed e) /\ call_fails (events st) e = true)).
Proof.
  intros e st st' r H. unfold call in H.
  destruct (call_fails (events st) e); injection H as <- <-; auto.
Qed.

(** The thumbnail block (lines 173-179). *)
Lemma remove_thumbnail_step : forall config st st' r,
  remove_thumbnail config st = (st', r) ->
  (exists new, events st' = events st ++ new
               /\ Forall (fun e => exists lvl msg, e = Log lvl msg) new)
  /\ files_to_include st' = files_to_include st
  /\ (r = None ->
      manifest st' = dict_del (txt "thumbnail") (manifest st))
  /\ (files_to_remove_from_archive st' = files_to_remove_from_archive st
      \/ exists t,
           dict_get (txt "thumbnail") (manifest st) = Some (JStr t)
           /\ files_to_remove_from_archive st'
              = files_to_remove_from_archive st
                ++ [path_join (input_directory config) t])
  /\ (r = None ->
      forall t,
        dict_get (txt "thumbnail") (manifest st) = Some (JStr t) ->
        path_exists (events st) (path_join (input_directory config) t) = true ->
        In (path_join (input_directory config) t)
           (files_to_remove_from_archive st')).
Proof.
  intros config st st' r H. unfold remove_thumbnail in H.
  destruct (key_in (txt "thumbnail") (keys (manifest st))) eqn:Ek.
  - destruct (dict_get (txt "thumbnail") (manifest st)) as [v|] eqn:Eg.
    + destruct v as [| | | |t| |];
        try (injection H as <- <-;
             (split; [exists []; split; [now rewrite app_nil_r | constructor]|]);
             (split; [reflexivity|]);
             (split; [discriminate|]);
             (split; [now left | discriminate])).
      destruct (path_exists (events st) (path_join (input_directory config) t))
        eqn:Ex; injection H as <- <-; cbn.
      * split; [eexists; split; [reflexivity|]; repeat constructor; eauto|].
        split; [reflexivity|]. split; [reflexivity|].
        split; [right; exists t; now split|].
        intros _ t' Ht' _. injection Ht' as <-.
        apply in_or_app. right. now left.
      * split; [eexists; split; [reflexivity|]; repeat constructor; eauto|].
        split; [reflexivity|]. split; [reflexivity|].
        split; [now left|].
        intros _ t' Ht' Hx. injection Ht' as <-. congruence.
    + injection H as <- <-.
      split; [exists []; split; [now rewrite app_nil_r | constructor]|].
      split; [reflexivity|]. split; [discriminate|].
      split; [now left | discriminate].
  - injection H as <- <-.
    split; [exists []; split; [now rewrite app_nil_r | constructor]|].
    split; [reflexivity|].
    split; [intros _; symmetry; now apply dict_del_absent|].
    split; [now left|].
    intros _ t Ht _. apply dict_get_Some_key_in in Ht. congruence.
Qed.

Ltac st_simpl :=
  cbn [events files_to_include files_to_remove_from_archive manifest
       emit emit_all include mark_for_removal del_manifest].

Ltac st_simpl_all :=
  cbn [events files_to_include files_to_remove_from_archive manifest
       emit emit_all include mark_for_removal del_manifest] in *.

Lemma logs_are_file_events : forall config tmp m file (new : list event),
  Forall (fun e => exists lvl msg, e = Log lvl msg) new ->
  Forall (file_event config tmp m file) new.
Proof.
  intros config tmp m file new H. eapply Forall_impl; [|exact H].
  intros e (lvl & msg & ->). exact I.
Qed.

Lemma logged_are_file_events : forall config tmp m file lg,
  Forall (file_event config tmp m file) (map Logged lg).
Proof.
  intros config tmp m file lg. apply Forall_map, Forall_forall.
  intros r _. exact I.
Qed.

(** Steps that add events only. *)
Lemma only_events_refl : forall config tmp file st,
  only_events config tmp file st st.
Proof.
  intros. split; [exists []; split; [now rewrite app_nil_r | constructor]|].
  now repeat split.
Qed.

Lemma only_events_trans : forall config tmp file st1 st2 st3,
  only_events config tmp file st1 st2 ->
  only_events config tmp file st2 st3 ->
  only_events config tmp file st1 st3.
Proof.
  intros config tmp file st1 st2 st3
         ((n1 & E1 & F1) & Hf1 & Hm1 & Hr1) ((n2 & E2 & F2) & Hf2 & Hm2 & Hr2).
  split.
  - exists (n1 ++ n2). split; [now rewrite E2, E1, app_assoc|].
    apply Forall_app. split; [exact F1|]. now rewrite <- Hm1.
  - split; [congruence|]. split; congruence.
Qed.

Lemma only_events_emit_all : forall config tmp file st es,
  Forall (file_event config tmp (manifest st) file) es ->
  only_events config tmp file st (emit_all es st).
Proof.
  intros config tmp file st es H. split; [now exists es|]. now repeat split.
Qed.

Lemma only_events_emit : forall config tmp file st e,
  file_event config tmp (manifest st) file e ->
  only_events config tmp file st (emit e st).
Proof.
  intros config tmp file st e H. split.
  - exists [e]. split; [reflexivity|]. now constructor.
  - now repeat split.
Qed.

Lemma only_events_call : forall config tmp file st e st' r,
  file_event config tmp (manifest st) file e ->
  call e st = (st', r) ->
  only_events config tmp file st st'.
Proof.
  intros config tmp file st e st' r H Hc.
  destruct (call_inv _ _ _ _ Hc) as [-> _]. now apply only_events_emit.
Qed.

(** A run of the loop body that starts with such steps. *)
Lemma only_events_then : forall config tmp file st st1 st' r,
  only_events config tmp file st st1 ->
  loop_step config tmp file st1 st' r ->
  loop_step config tmp file st st' r.
Proof.
  intros config tmp file st st1 st' r ((n1 & E1 & F1) & Hf1 & Hm1 & Hr1)
         ((n2 & E2 & F2) & Hnone & Hrem & Hin).
  rewrite Hm1 in *. rewrite Hf1, Hr1 in *.
  split; [|split; [exact Hnone | split; [exact Hrem | exact Hin]]].
  exists (n1 ++ n2). split; [now rewrite E2, E1, app_assoc|].
  apply Forall_app. now split.
Qed.

(** A run of the loop body that raises after such steps. *)
Lemma only_events_raise : forall config tmp file st st' e,
  only_events config tmp file st st' ->
  loop_step config tmp file st st' (Some e).
Proof.
  intros config tmp file st st' e (Hev & Hf & Hm & Hr).
  split; [exact Hev|]. split; [discriminate|].
  split; [now left | discriminate].
Qed.

(** A run of the loop body that appends the pair of a file that is not
    the manifest after such steps. *)
Lemma only_events_include : forall config tmp file st st',
  only_events config tmp file st st' ->
  kept config file = true ->
  is_manifest config file = false ->
  loop_step config tmp file st
    (include (fst (staged config tmp file)) (snd (staged config tmp file)) st')
    None.
Proof.
  intros config tmp file st st' (Hev & Hf & Hm & Hr) Hk Hman.
  split; [exact Hev|]. st_simpl. unfold kept_manifest.
  rewrite Hk, Hman. cbn [andb].
  split; [intros _; split; [|exact Hm]|].
  - rewrite Hf. now destruct (staged config tmp file).
  - split; [now left | discriminate].
Qed.

(** Lines 165-167. *)
Lemma make_temp_dir_step : forall config tmp file dir st st' r,
  make_temp_dir dir st = (st', r) ->
  only_events config tmp file st st'.
Proof.
  intros config tmp file dir st st' r H. unfold make_temp_dir in H.
  destruct (path_exists (events st) dir).
  - injection H as <- _. apply only_events_refl.
  - apply and_then_inv in H.
    destruct H as [(st1 & Hc & H) | (e & Hc & _)].
    + injection H as <- _.
      eapply only_events_trans;
        [eapply only_events_call; [|exact Hc]; exact I|].
      now apply only_events_emit.
    + eapply only_events_call; [|exact Hc]. exact I.
Qed.

(** Lines 172-183. *)
Lemma stage_manifest_step : forall config tmp dirname filename st st' r,
  kept config (dirname, filename) = true ->
  is_manifest config (dirname, filename) = true ->
  stage_manifest config (path_join dirname filename)
    (rel_path config (dirname, filename))
    (path_join tmp (rel_path config (dirname, filename))) st = (st', r) ->
  loop_step config tmp (dirname, filename) st st' r.
Proof.
  intros config tmp dirname filename st st' r Hk Hman H.
  set (file := (dirname, filename)) in *.
  assert (Hst : staged config tmp file
                = (path_join tmp (rel_path config file), rel_path config file)).
  { unfold staged. now rewrite Hman. }
  unfold stage_manifest in H. cbv zeta in H.
  unfold loop_step, kept_manifest. rewrite Hk, Hman, Hst. cbn [andb].
  apply and_then_inv in H.
  destruct H as [(st2 & Er & H) | (e & Er & ->)];
    apply remove_thumbnail_step in Er;
    destruct Er as ((new2 & Hev2 & Hlog2) & Hf2 & Hm2 & Hr2 & Hin2);
    st_simpl_all.
  2:{ split.
      { rewrite Hev2, <- app_assoc. eexists. split; [reflexivity|].
        constructor; [exact I|]. now apply logs_are_file_events. }
      split; [discriminate|]. split; [exact Hr2 | discriminate]. }
  specialize (Hm2 eq_refl). specialize (Hin2 eq_refl).
  apply and_then_inv in H.
  destruct H as [(st3 & Ec & H) | (e & Ec & ->)];
    destruct (call_inv _ _ _ _ Ec) as [E3 _].
  2:{ subst st'. st_simpl. split.
      { rewrite Hev2, <- !app_assoc. eexists. split; [reflexivity|].
        constructor; [exact I|].
        apply Forall_app. split; [now apply logs_are_file_events|].
        constructor; [exact I | constructor]. }
      split; [discriminate|]. split; [exact Hr2 | discriminate]. }
  subst st3. st_simpl_all.
  assert (Hw : file_event config tmp (manifest st) file
                 (WriteText (path_join tmp (rel_path config file))
                            (dumps (JObj (manifest st2))))).
  { cbn [file_event]. split; [exact Hk|]. split; [reflexivity|].
    now rewrite Hman, Hm2. }
  apply and_then_inv in H.
  destruct H as [(st4 & Ec4 & H) | (e & Ec4 & ->)];
    destruct (call_inv _ _ _ _ Ec4) as [E4 _]; st_simpl_all.
  2:{ subst st'. st_simpl. split.
      { rewrite Hev2, <- !app_assoc. eexists. split; [reflexivity|].
        constructor; [exact I|].
        apply Forall_app. split; [now apply logs_are_file_events|].
        constructor; [exact I|]. constructor; [exact Hw | constructor]. }
      split; [discriminate|]. split; [exact Hr2 | discriminate]. }
  subst st4. injection H as <- <-. st_simpl. split.
  { rewrite Hev2, <- !app_assoc. eexists. split; [reflexivity|].
    constructor; [exact I|].
    apply Forall_app. split; [now apply logs_are_file_events|].
    constructor; [exact I|]. constructor; [exact Hw | constructor]. }
  split; [intros _; split; [now rewrite Hf2 | exact Hm2]|].
  split; [exact Hr2|].
  intros _ _ t Ht Hx. apply (Hin2 t Ht). apply Hx.
Qed.

(** Lines 187-194. *)
Lemma stage_json_step : forall config tmp dirname filename st st' r,
  kept config (dirname, filename) = true ->
  is_manifest config (dirname, filename) = false ->
  endswith filename (txt ".json") = true ->
  stage_json (path_join dirname filename)
    (rel_path config (dirname, filename))
    (path_join tmp (rel_path config (dirname, filename))) st = (st', r) ->
  loop_step config tmp (dirname, filename) st st' r.
Proof.
  intros config tmp dirname filename st st' r Hk Hman Ej H.
  set (file := (dirname, filename)) in *.
  assert (Hst : staged config tmp file
                = (path_join tmp (rel_path config file), rel_path config file)).
  { unfold staged. change (snd file) with filename.
    now rewrite Ej, orb_true_r. }
  assert (Hopt : is_optimized config file = true).
  { unfold is_optimized. change (snd file) with filename.
    now rewrite Hman, Ej. }
  assert (Hread : forall m e,
             e = OpenRead (path_join dirname filename)
             \/ e = ReadFile (path_join dirname filename) ->
             file_event config tmp m file e).
  { intros m e [-> | ->]; cbn [file_event]; now repeat split. }
  unfold stage_json in H. cbv zeta in H.
  set (st0 := emit _ st) in H.
  assert (H0 : only_events config tmp file st st0)
    by (now apply only_events_emit).
  clearbody st0.
  apply and_then_inv in H.
  destruct H as [(st1 & Ec1 & H) | (e & Ec1 & ->)];
    assert (H1 := only_events_call config tmp file _ _ _ _
                    (Hread _ _ (or_introl eq_refl)) Ec1);
    assert (H01 := only_events_trans _ _ _ _ _ _ H0 H1);
    [|now apply only_events_raise].
  clear H0 H1 Ec1.
  apply and_then_inv in H.
  destruct H as [(st2 & Ec2 & H) | (e & Ec2 & ->)];
    assert (H2 := only_events_call config tmp file _ (OpenWrite _) _ _ I Ec2);
    assert (H02 := only_events_trans _ _ _ _ _ _ H01 H2);
    [|now apply only_events_raise].
  clear H01 H2 Ec2.
  apply and_then_inv in H.
  destruct H as [(st3 & Ec3 & H) | (e & Ec3 & ->)];
    assert (H3 := only_events_call config tmp file _ _ _ _
                    (Hread _ _ (or_intror eq_refl)) Ec3);
    assert (H03 := only_events_trans _ _ _ _ _ _ H02 H3);
    [|now apply only_events_raise].
  clear H02 H3 Ec3.
  destruct (is_utf8 (path_join dirname filename)); cbn [negb] in H.
  2:{ injection H as <- <-. apply only_events_raise.
      eapply only_events_trans; [exact H03|].
      now apply only_events_emit. }
  destruct (optimize_json_log (read_binary (path_join dirname filename)))
    as [lg [text|e]] eqn:Eo.
  2:{ injection H as <- <-. apply only_events_raise.
      eapply only_events_trans; [exact H03|].
      apply only_events_emit_all, logged_are_file_events. }
  set (st4 := emit_all _ st3) in H.
  assert (H04 : only_events config tmp file st st4).
  { eapply only_events_trans; [exact H03|].
    apply only_events_emit_all, logged_are_file_events. }
  clearbody st4.
  assert (Hw : forall m,
             file_event config tmp m file
               (WriteText (path_join tmp (rel_path config file)) text)).
  { intros m. cbn [file_event]. split; [exact Hk|]. split; [reflexivity|].
    rewrite Hman. split; [exact Ej|].
    change (optimize_json (read_binary (path_join dirname filename))
            = Return text).
    unfold optimize_json. now rewrite Eo. }
  apply and_then_inv in H.
  destruct H as [(st5 & Ec5 & H) | (e & Ec5 & ->)];
    assert (H5 := only_events_call config tmp file _ _ _ _ (Hw _) Ec5);
    assert (H05 := only_events_trans _ _ _ _ _ _ H04 H5);
    [|now apply only_events_raise].
  injection H as <- <-.
  pose proof (only_events_include config tmp file st st5 H05 Hk Hman) as Hi.
  now rewrite Hst in Hi.
Qed.

Lemma process_file_step : forall config tmp dirname filename st st' r,
  process_file config tmp dirname filename st = (st', r) ->
  loop_step config tmp (dirname, filename) st st' r.
Proof.
  intros config tmp dirname filename st st' r H.
  unfold process_file in H. cbv zeta in H.
  set (file := (dirname, filename)).
  change (relpath (path_join dirname filename) (input_directory config))
    with (rel_path config file) in H.
  assert (Hignored :
            kept config file = false ->
            forall msg,
              (emit (Log INFO msg) st, @None build_exn) = (st', r) ->
              loop_step config tmp file st st' r).
  { intros Hk msg E. injection E as <- <-. unfold loop_step, kept_manifest.
    rewrite Hk. st_simpl. cbn [andb].
    split; [eexists; split; [reflexivity|]; repeat constructor|].
    split; [intros _; split; [now rewrite app_nil_r | reflexivity]|].
    split; [now left | discriminate]. }
  destruct (has_ignored_extension config filename) eqn:E1.
  { eapply Hignored; [|exact H]. unfold kept, file. cbn [snd].
    now rewrite E1. }
  destruct (is_ignored_item config filename (rel_path config file)) eqn:E2.
  { eapply Hignored; [|exact H]. unfold kept. change (snd file) with filename.
    rewrite E2. now rewrite andb_false_r. }
  destruct (in_ignored_directory config (rel_path config file)) eqn:E3.
  { eapply Hignored; [|exact H]. unfold kept.
    rewrite E3. now rewrite andb_false_r. }
  clear Hignored.
  assert (Hk : kept config file = true).
  { unfold kept. change (snd file) with filename. now rewrite E1, E2, E3. }
  apply and_then_inv in H.
  destruct H as [(st1 & Ed & H) | (e & Ed & ->)];
    apply (make_temp_dir_step config tmp file) in Ed;
    [|now apply only_events_raise].
  eapply only_events_then; [exact Ed|].
  destruct (str_eqb (rel_path config file) (txt "plugin.manifest")
            && OutputFormat_eqb (output_format config) STORE) eqn:Em.
  - now apply stage_manifest_step.
  - destruct (endswith filename (txt ".json")) eqn:Ej.
    + now apply stage_json_step.
    + injection H as <- <-.
      assert (Hst : staged config tmp file
                    = (path_join dirname filename, rel_path config file)).
      { unfold staged. change (snd file) with filename.
        replace (is_manifest config file) with false by (symmetry; exact Em).
        now rewrite Ej. }
      pose proof (only_events_include config tmp file st1 st1
                    (only_events_refl _ _ _ _) Hk Em) as Hi.
      now rewrite Hst in Hi.
Qed.

Lemma for_pairs_app : forall config tmp a b st,
  for_pairs config tmp (a ++ b) st
  = match for_pairs config tmp a st with
    | (st1, None) => for_pairs config tmp b st1
    | (st1, Some e) => (st1, Some e)
    end.
Proof.
  intros config tmp a b. induction a as [|file a IH]; intros st.
  - reflexivity.
  - cbn [app for_pairs].
    destruct (process_file config tmp (fst file) (snd file) st)
      as [st1 [e|]]; [reflexivity | apply IH].
Qed.

Lemma for_files_pairs : forall config tmp dirname files st,
  for_files config tmp dirname files st
  = for_pairs config tmp (map (pair dirname) files) st.
Proof.
  intros config tmp dirname files.
  induction files as [|filename files IH]; intros st; [reflexivity|].
  cbn [for_files map for_pairs fst snd].
  destruct (process_file config tmp dirname filename st) as [st1 [e|]];
    [reflexivity | apply IH].
Qed.

Lemma for_walk_pairs : forall config tmp w st,
  for_walk config tmp w st = for_pairs config tmp (walked w) st.
Proof.
  intros config tmp w. induction w as [|[dirname files] w IH]; intros st.
  - reflexivity.
  - cbn [for_walk]. unfold walked. cbn [flat_map fst snd].
    rewrite for_pairs_app, <- for_files_pairs.
    destruct (for_files config tmp dirname files st) as [st1 [e|]];
      [reflexivity | apply IH].
Qed.

(** The state after the loops, from the state before them. *)
Lemma for_pairs_spec : forall config tmp l st st' r,
  for_pairs config tmp l st = (st', r) ->
  (exists new,
      events st' = events st ++ new
      /\ Forall (fun e => exists file,
                   In file l
                   /\ file_event config tmp (manifest st) file e) new)
  /\ (r = None ->
      files_to_include st'
      = files_to_include st
        ++ map (staged config tmp) (filter (kept config) l)
      /\ manifest st'
         = if existsb (kept_manifest config) l
           then dict_del (txt "thumbnail") (manifest st) else manifest st)
  /\ (forall p,
        In p (files_to_remove_from_archive st') ->
        In p (files_to_remove_from_archive st)
        \/ exists t,
             dict_get (txt "thumbnail") (manifest st) = Some (JStr t)
             /\ p = path_join (input_directory config) t)
  /\ (forall p,
        In p (files_to_remove_from_archive st) ->
        In p (files_to_remove_from_archive st'))
  /\ (r = None -> existsb (kept_manifest config) l = true ->
      forall t,
        dict_get (txt "thumbnail") (manifest st) = Some (JStr t) ->
        (forall tr,
            path_exists tr (path_join (input_directory config) t) = true) ->
        In (path_join (input_directory config) t)
           (files_to_remove_from_archive st')).
Proof.
  intros config tmp l. induction l as [|[dirname filename] l IH];
    intros st st' r H.
  - injection H as <- <-.
    split; [exists []; split; [now rewrite app_nil_r | constructor]|].
    split; [intros _; split; [now rewrite app_nil_r | reflexivity]|].
    split; [now left|]. split; [auto | discriminate].
  - cbn [for_pairs fst snd] in H.
    destruct (process_file config tmp dirname filename st)
      as [st1 [e|]] eqn:Ep;
      apply process_file_step in Ep; unfold loop_step in Ep;
      destruct Ep as ((new & Hev & Hok) & Hnone & Hrem & Hin).
    + injection H as <- <-.
      split.
      { exists new. split; [exact Hev|].
        eapply Forall_impl; [|exact Hok].
        intros e0 He0. exists (dirname, filename). split; [now left | exact He0]. }
      split; [discriminate|].
      split.
      { intros p Hp. destruct Hrem as [E | (t & Ht & E)]; rewrite E in Hp;
          [now left|].
        apply in_app_or in Hp. destruct Hp as [Hp | [<- | []]];
          [now left | right; now exists t]. }
      split; [|discriminate].
      intros p Hp. destruct Hrem as [E | (t & Ht & E)]; rewrite E;
        [exact Hp|].
      apply in_or_app. now left.
    + destruct (Hnone eq_refl) as [Hfiles Hman]. clear Hnone.
      specialize (Hin eq_refl).
      destruct (IH _ _ _ H)
        as ((new' & Hev' & Hok') & Hnone' & Hrem' & Hmono' & Hin').
      assert (Hmono : forall p,
                 In p (files_to_remove_from_archive st) ->
                 In p (files_to_remove_from_archive st1)).
      { intros p Hp. destruct Hrem as [E | (t & Ht & E)]; rewrite E;
          [exact Hp|].
        apply in_or_app. now left. }
      split.
      { exists (new ++ new'). split; [now rewrite Hev', Hev, app_assoc|].
        apply Forall_app. split.
        - eapply Forall_impl; [|exact Hok].
          intros e0 He0. exists (dirname, filename).
          split; [now left | exact He0].
        - eapply Forall_impl; [|exact Hok'].
          intros e0 (file & Hfile & He0). exists file.
          split; [now right|]. rewrite Hman in He0.
          destruct (kept_manifest config (dirname, filename));
            [exact (proj1 (file_event_del _ _ _ _ _) He0) | exact He0]. }
      split.
      { intros ->. destruct (Hnone' eq_refl) as [Hfiles' Hman'].
        split.
        - rewrite Hfiles', Hfiles, <- app_assoc. f_equal.
          cbn [filter]. now destruct (kept config (dirname, filename)).
        - rewrite Hman', Hman. cbn [existsb].
          destruct (kept_manifest config (dirname, filename)); cbn [orb].
          + destruct (existsb (kept_manifest config) l);
              [apply dict_del_idem | reflexivity].
          + reflexivity. }
      split.
      { intros p Hp. destruct (Hrem' p Hp) as [Hp1 | (t & Ht & ->)].
        - destruct Hrem as [E | (t & Ht & E)]; rewrite E in Hp1;
            [now left|].
          apply in_app_or in Hp1. destruct Hp1 as [Hp1 | [<- | []]];
            [now left | right; now exists t].
        - rewrite Hman in Ht.
          destruct (kept_manifest config (dirname, filename)).
          + rewrite dict_get_del, str_eqb_refl in Ht. discriminate.
          + right. now exists t. }
      split; [intros p Hp; now apply Hmono', Hmono|].
      intros -> Hex t Ht Hx. cbn [existsb] in Hex.
      destruct (kept_manifest config (dirname, filename)) eqn:Ekm.
      * apply Hmono'. now apply (Hin eq_refl t).
      * cbn [orb] in Hex. rewrite Hman in Hin'.
        now apply (Hin' eq_refl Hex t).
Qed.

(** The loop of lines 200-205: it leaves the variables of the loops as
    they are, and its events are records logged and the writing of pairs
    that are not marked for removal; when no call fails these are all
    such pairs, in order; a call that fails is the last event. *)
Lemma write_archive_spec : forall tmp archive files st st' r,
  write_archive files st = (st', r) ->
  files_to_include st' = files_to_include st
  /\ manifest st' = manifest st
  /\ files_to_remove_from_archive st' = files_to_remove_from_archive st
  /\ exists new,
       events st' = events st ++ new
       /\ Forall (archive_phase_event tmp archive files
                    (files_to_remove_from_archive st)) new
       /\ Forall (fun e => forall d, e <> RmTree d) new
       /\ match r with
          | None =>
              zip_writes new
              = filter (fun member =>
                          negb (key_in (fst member)
                                       (files_to_remove_from_archive st)))
                       files
          | Some e =>
              exists src dst pre,
                e = CallFailed (ZipWrite src dst)
                /\ new = pre ++ [ZipWrite src dst]
          end.
Proof.
  intros tmp archive files.
  induction files as [|[src dst] files IH]; intros st st' r H.
  - injection H as <- <-. repeat (split; [reflexivity|]).
    exists []. split; [now rewrite app_nil_r|].
    split; [constructor|]. split; [constructor | reflexivity].
  - cbn [write_archive] in H.
    assert (Hmono : forall removed new,
               Forall (archive_phase_event tmp archive files removed) new ->
               Forall (archive_phase_event tmp archive ((src, dst) :: files)
                         removed) new).
    { intros removed new Hn. eapply Forall_impl; [|exact Hn].
      intros e He. destruct e; try exact He.
      destruct He as [He1 He2]. split; [now right | exact He2]. }
    destruct (key_in src (files_to_remove_from_archive st)) eqn:Ek.
    + apply IH in H. st_simpl_all.
      destruct H as (Hf & Hm & Hr & new & Hev & Hok & Hno & Hres).
      repeat (split; [assumption|]).
      eexists. split; [rewrite Hev, <- app_assoc; reflexivity|].
      split; [constructor; [exact I | now apply Hmono]|].
      split; [constructor; [discriminate | exact Hno]|].
      destruct r as [e|].
      * destruct Hres as (s & d & pre & -> & ->).
        exists s, d, (Log INFO (txt "Skipping file marked for removal: "
                                ++ src) :: pre). now split.
      * cbn [app zip_writes filter fst]. now rewrite Ek.
    + apply and_then_inv in H.
      destruct H as [(st1 & Ec & H) | (e & Ec & ->)];
        destruct (call_inv _ _ _ _ Ec) as [E1 Hc].
      * subst st1. apply IH in H. st_simpl_all.
        destruct H as (Hf & Hm & Hr & new & Hev & Hok & Hno & Hres).
        repeat (split; [assumption|]).
        eexists. split; [rewrite Hev, <- !app_assoc; reflexivity|].
        split.
        { constructor; [split; [now left | exact Ek]|].
          constructor; [exact I | now apply Hmono]. }
        split; [constructor; [discriminate|];
                constructor; [discriminate | exact Hno]|].
        destruct r as [e|].
        -- destruct Hres as (s & d & pre & -> & ->).
           exists s, d,
             (ZipWrite src dst
              :: Log INFO (txt "Added file to archive: " ++ dst) :: pre).
           now split.
        -- cbn [app zip_writes filter fst]. rewrite Ek. cbn [negb].
           now f_equal.
      * subst st'. st_simpl.
        destruct Hc as [[Hc _] | [Hc _]]; [discriminate|].
        injection Hc as ->.
        repeat (split; [reflexivity|]).
        exists [ZipWrite src dst]. split; [reflexivity|].
        split; [constructor; [split; [now left | exact Ek] | constructor]|].
        split; [constructor; [discriminate | constructor]|].
        exists src, dst, []. now split.
Qed.

(** The run of [create_archive], in terms of the loop over the files and
    of what follows it. *)
Lemma create_archive_run : forall config m before tr m' out,
  create_archive config m before = (tr, m', out) ->
  (tr = before /\ m' = m
   /\ (out = Raised (KeyError (txt "title"))
       \/ out = Raised (KeyError (txt "version"))))
  \/ (tr = before ++ [MkDTemp (mkdtemp (txt "tt-build-"))] /\ m' = m
      /\ out = Raised (CallFailed (MkDTemp (mkdtemp (txt "tt-build-")))))
  \/ exists st r,
       for_pairs config (mkdtemp (txt "tt-build-"))
                 (walked (walk (input_directory config)))
                 (mkState (before ++ [MkDTemp (mkdtemp (txt "tt-build-"))])
                          [] [] m)
       = (st, r)
       /\ m' = manifest st
       /\ ((exists e, r = Some e /\ out = Raised e /\ tr = events st)
           \/ (r = None
               /\ exists archive arch,
                    tr = events st ++ ZipOpen archive :: arch
                    /\ Forall (archive_phase_event
                                 (mkdtemp (txt "tt-build-")) archive
                                 (files_to_include st)
                                 (files_to_remove_from_archive st)) arch
                    /\ match out with
                       | Returned a =>
                           a = archive
                           /\ exists wa,
                                arch = wa ++ [ZipClose archive;
                                              RmTree (mkdtemp (txt "tt-build-"))]
                                /\ zip_writes wa
                                   = filter
                                       (fun member =>
                                          negb (key_in (fst member)
                                                  (files_to_remove_from_archive
                                                     st)))
                                       (files_to_include st)
                       | Raised e =>
                           exists c pre,
                             e = CallFailed c
                             /\ archive_event c = true
                             /\ ZipOpen archive :: arch = pre ++ [c]
                             /\ Forall (fun ev => forall d, ev <> RmTree d) pre
                       | Exited _ => False
                       end)).
Proof.
  intros config m before tr m' out H. unfold create_archive in H.
  destruct (dict_get (txt "title") m) as [title|];
    [|injection H as <- <- <-; left; auto].
  destruct (dict_get (txt "version") m) as [version|];
    [|injection H as <- <- <-; left; auto].
  cbv zeta in H. right.
  set (tmp := mkdtemp (txt "tt-build-")).
  set (archive_name := format_value title ++ txt " " ++ format_value version
                       ++ txt ".zip") in H.
  set (archive := path_join (output_directory config) archive_name) in H.
  destruct (build config archive_name (mkState before [] [] m))
    as [st9 r9] eqn:Eb.
  unfold build in Eb. cbv zeta in Eb. fold tmp archive in Eb.
  apply and_then_inv in Eb.
  destruct Eb as [(st1 & Ec & Eb) | (e & Ec & ->)];
    destruct (call_inv _ _ _ _ Ec) as [E1 Hc]; clear Ec.
  2:{ left. subst st9. destruct Hc as [[Hc _] | [Hc _]]; [discriminate|].
      injection Hc as ->. injection H as <- <- <-. now repeat split. }
  clear Hc. right. rewrite for_walk_pairs in Eb.
  apply and_then_inv in Eb.
  destruct Eb as [(st & El & Eb) | (e & El & ->)]; subst st1;
    change (emit (MkDTemp tmp) (mkState before [] [] m))
      with (mkState (before ++ [MkDTemp tmp]) [] [] m) in El.
  2:{ exists st9, (Some e). injection H as <- <- <-.
      split; [exact El|]. split; [reflexivity|]. left. now exists e. }
  exists st, None. split; [exact El|].
  (* the archive *)
  apply and_then_inv in Eb.
  destruct Eb as [(st4 & Ec & Eb) | (e & Ec & ->)];
    destruct (call_inv _ _ _ _ Ec) as [E4 Hc]; clear Ec.
  2:{ subst st9. destruct Hc as [[Hc _] | [Hc _]]; [discriminate|].
      injection Hc as ->. injection H as <- <- <-. st_simpl.
      split; [reflexivity|]. right. split; [reflexivity|].
      exists archive, []. split; [reflexivity|]. split; [constructor|].
      exists (ZipOpen archive), []. repeat split. constructor. }
  clear Hc. subst st4.
  apply and_then_inv in Eb.
  destruct Eb as [(st5 & Ew & Eb) | (e & Ew & ->)];
    apply (write_archive_spec tmp archive) in Ew; st_simpl_all;
    destruct Ew as (Hf5 & Hm5 & Hr5 & new & Hev & Hok & Hno & Hres).
  2:{ destruct Hres as (src & dst & pre & -> & ->).
      injection H as <- <- <-.
      split; [now rewrite Hm5|]. right. split; [reflexivity|].
      exists archive, (pre ++ [ZipWrite src dst]).
      split; [now rewrite Hev, <- app_assoc|]. split; [exact Hok|].
      exists (ZipWrite src dst), (ZipOpen archive :: pre).
      repeat split. apply Forall_app in Hno.
      constructor; [discriminate | exact (proj1 Hno)]. }
  apply and_then_inv in Eb.
  destruct Eb as [(st6 & Ec & Eb) | (e & Ec & ->)];
    destruct (call_inv _ _ _ _ Ec) as [E6 Hc]; clear Ec.
  2:{ subst st9. destruct Hc as [[Hc _] | [Hc _]]; [discriminate|].
      injection Hc as ->. injection H as <- <- <-. st_simpl.
      split; [now rewrite Hm5|]. right. split; [reflexivity|].
      exists archive, (new ++ [ZipClose archive]).
      split; [now rewrite Hev, <- !app_assoc|].
      split.
      { apply Forall_app. split; [exact Hok|].
        constructor; [reflexivity | constructor]. }
      exists (ZipClose archive), (ZipOpen archive :: new).
      repeat split. constructor; [discriminate | exact Hno]. }
  clear Hc. subst st6.
  apply and_then_inv in Eb.
  destruct Eb as [(st7 & Ec & Eb) | (e & Ec & ->)];
    destruct (call_inv _ _ _ _ Ec) as [E7 Hc]; clear Ec.
  2:{ subst st9. destruct Hc as [[Hc _] | [Hc _]]; [discriminate|].
      injection Hc as ->. injection H as <- <- <-. st_simpl.
      split; [now rewrite Hm5|]. right. split; [reflexivity|].
      exists archive, (new ++ [ZipClose archive; RmTree tmp]).
      split; [now rewrite Hev, <- !app_assoc|].
      split.
      { apply Forall_app. split; [exact Hok|].
        constructor; [reflexivity|]. constructor; [reflexivity|].
        constructor. }
      exists (RmTree tmp), (ZipOpen archive :: new ++ [ZipClose archive]).
      split; [reflexivity|]. split; [reflexivity|].
      split; [cbn [app]; now rewrite <- app_assoc|].
      constructor; [discriminate|]. apply Forall_app. split; [exact Hno|].
      constructor; [discriminate | constructor]. }
  clear Hc. subst st7. injection Eb as <- <-. injection H as <- <- <-.
  st_simpl. split; [now rewrite Hm5|]. right. split; [reflexivity|].
  exists archive, (new ++ [ZipClose archive; RmTree tmp]).
  split; [now rewrite Hev, <- !app_assoc|].
  split.
  { apply Forall_app. split; [exact Hok|].
    constructor; [reflexivity|]. constructor; [reflexivity|]. constructor. }
  split; [reflexivity|]. exists new. split; [reflexivity | exact Hres].
Qed.

Lemma zip_writes_app : forall a b : list event,
  zip_writes (a ++ b) = zip_writes a ++ zip_writes b.
Proof.
  induction a as [|e a IH]; intros b; [reflexivity|].
  destruct e; cbn [app zip_writes]; now rewrite ?IH.
Qed.

Lemma zip_writes_none : forall l : list event,
  Forall (fun e => archive_event e = false) l -> zip_writes l = [].
Proof.
  induction 1 as [|e l He _ IH]; [reflexivity|].
  destruct e; try discriminate; exact IH.
Qed.

Lemma zip_writes_In : forall (l : list event) src arc,
  In (ZipWrite src arc) l <-> In (src, arc) (zip_writes l).
Proof.
  induction l as [|e l IH]; intros src arc; [reflexivity|].
  destruct e; cbn [zip_writes In]; rewrite <- ?IH;
    try (split; [intros [H | H]; [discriminate | exact H] | now right]).
  split; intros [H | H]; auto; left; congruence.
Qed.

Lemma file_event_not_archive : forall config tmp m file e,
  file_event config tmp m file e -> archive_event e = false.
Proof. intros config tmp m file e H. now destruct e. Qed.

Lemma file_events_not_archive : forall config tmp m l (new : list event),
  Forall (fun e => exists file,
            In file l /\ file_event config tmp m file e) new ->
  Forall (fun e => archive_event e = false) new.
Proof.
  intros config tmp m l new H. eapply Forall_impl; [|exact H].
  intros e (file & _ & He). eapply file_event_not_archive; eauto.
Qed.

Lemma archive_phase_not_file : forall tmp archive files removed e,
  archive_phase_event tmp archive files removed e ->
  (forall p, e <> OpenRead p) /\ (forall p, e <> ReadFile p)
  /\ (forall p t, e <> WriteText p t).
Proof.
  intros tmp archive files removed e H.
  destruct e; try contradiction; repeat split; discriminate.
Qed.

(** X8 (lines 139-205): the members of the archive.  When
    [create_archive] returns, it has written to the archive, in the order
    of the walk, one member for every file that passes the three tests of
    lines 149, 154 and 159, under its path relative to the input
    directory, except the files whose source path is marked for removal;
    a path is marked only if it is the thumbnail named by the manifest,
    joined to the input directory. *)
Theorem archive_members : forall config m before tr m' archive,
  create_archive config m before = (tr, m', Returned archive) ->
  exists new removed,
    tr = before ++ new
    /\ zip_writes new
       = filter (fun member => negb (key_in (fst member) removed))
                (map (staged config (mkdtemp (txt "tt-build-")))
                     (filter (kept config)
                             (walked (walk (input_directory config)))))
    /\ (forall p, In p removed ->
                  exists t,
                    dict_get (txt "thumbnail") m = Some (JStr t)
                    /\ p = path_join (input_directory config) t).
Proof.
  intros config m before tr m' archive H.
  destruct (create_archive_run _ _ _ _ _ _ H)
    as [(_ & _ & [E | E]) | [(_ & _ & E) | (st & r & Hl & _ & Hr)]];
    try discriminate.
  destruct Hr as [(e & _ & E & _) | (-> & a & arch & -> & _ & Hout)];
    [discriminate|].
  destruct Hout as (_ & wa & -> & Hwa).
  destruct (for_pairs_spec _ _ _ _ _ _ Hl)
    as ((new & Hev & Hok) & Hnone & Hrem & _ & _).
  destruct (Hnone eq_refl) as [Hfiles _].
  cbn [events files_to_include files_to_remove_from_archive manifest] in *.
  eexists. exists (files_to_remove_from_archive st).
  split; [rewrite Hev, <- !app_assoc; reflexivity|].
  split.
  - cbn [app zip_writes]. rewrite zip_writes_app.
    rewrite (zip_writes_none new)
      by (eapply file_events_not_archive; exact Hok).
    cbn [app zip_writes]. rewrite zip_writes_app, Hwa.
    cbn [zip_writes]. now rewrite app_nil_r, Hfiles.
  - intros p Hp. destruct (Hrem p Hp) as [[] | Ht]. exact Ht.
Qed.

(** X9 (lines 129-209): the archive and the temporary directory.  When
    [create_archive] returns, the first thing it did was to make the
    temporary directory and the last things were to close the archive
    and to remove that directory.  When it raises, no removal of a
    directory has succeeded: [shutil.rmtree] was not called, unless it is
    the call that failed, so that the temporary directory, if it was
    made, is left behind.  An archive was opened, written or closed only
    if the exception comes from a call on the archive or from the
    removal of the directory; an exception of any other kind (a missing
    key, a thumbnail that is no text, an error in a file of the plugin,
    a call that fails before the archive is opened) leaves no archive.
    Either the manifest has no [title] or no [version] and nothing was
    done at all, or the making of the temporary directory was the first
    call. *)
Theorem archive_and_temporary_directory :
  forall config m before tr m' out,
    create_archive config m before = (tr, m', out) ->
    exists new,
      tr = before ++ new
      /\ match out with
         | Returned archive =>
             exists mid,
               new = MkDTemp (mkdtemp (txt "tt-build-")) :: mid
                     ++ [ZipClose archive; RmTree (mkdtemp (txt "tt-build-"))]
               /\ In (ZipOpen archive) mid
         | Raised e =>
             (forall d, In (RmTree d) new ->
                        e = CallFailed (RmTree d)
                        /\ exists pre, new = pre ++ [RmTree d]
                                       /\ ~ In (RmTree d) pre)
             /\ (forall ev, In ev new -> archive_event ev = true ->
                            exists c pre,
                              e = CallFailed c /\ archive_event c = true
                              /\ new = pre ++ [c])
             /\ ((new = []
                  /\ (e = KeyError (txt "title")
                      \/ e = KeyError (txt "version")))
                 \/ exists mid,
                      new = MkDTemp (mkdtemp (txt "tt-build-")) :: mid)
         | Exited _ => False
         end.
Proof.
  intros config m before tr m' out H.
  destruct (create_archive_run _ _ _ _ _ _ H)
    as [(-> & _ & E) | [(-> & _ & ->) | (st & r & Hl & _ & Hr)]].
  - exists []. split; [now rewrite app_nil_r|].
    destruct E as [-> | ->];
      (split; [intros d []|]); (split; [intros ev []|]); left; auto.
  - eexists. split; [reflexivity|].
    split; [intros d [E | []]; discriminate|].
    split; [intros ev [<- | []]; discriminate|].
    right. now exists [].
  - destruct (for_pairs_spec _ _ _ _ _ _ Hl) as ((new & Hev & Hok) & _).
    cbn [events manifest] in Hev, Hok.
    apply file_events_not_archive in Hok. rewrite Forall_forall in Hok.
    destruct Hr as [(e & _ & -> & ->) | (_ & a & arch & -> & Harch & Hout)].
    + exists (MkDTemp (mkdtemp (txt "tt-build-")) :: new).
      split; [now rewrite Hev, <- app_assoc|].
      split.
      { intros d [E | Hd]; [discriminate|]. apply Hok in Hd. discriminate. }
      split.
      { intros ev [<- | Hd] Ha; [discriminate|]. apply Hok in Hd.
        congruence. }
      right. now exists new.
    + destruct out as [a' | e | code]; [| |contradiction].
      * destruct Hout as (-> & wa & -> & _).
        eexists. split; [rewrite Hev, <- !app_assoc; reflexivity|].
        exists (new ++ ZipOpen a :: wa).
        split; [cbn [app]; now rewrite <- !app_assoc|].
        apply in_or_app. right. now left.
      * destruct Hout as (c & pre & -> & Hc & Epre & Hno).
        exists (MkDTemp (mkdtemp (txt "tt-build-")) :: new ++ pre ++ [c]).
        split; [rewrite Hev, <- Epre, <- !app_assoc; reflexivity|].
        rewrite Forall_forall in Hno.
        assert (Hlast : MkDTemp (mkdtemp (txt "tt-build-"))
                        :: new ++ pre ++ [c]
                        = (MkDTemp (mkdtemp (txt "tt-build-")) :: new ++ pre)
                          ++ [c])
          by (cbn [app]; now rewrite <- !app_assoc).
        split.
        { intros d [E | Hd]; [discriminate|].
          assert (Hpre : ~ In (RmTree d) (new ++ pre)).
          { intros Hp. apply in_app_or in Hp. destruct Hp as [Hp | Hp].
            - apply Hok in Hp. discriminate.
            - now elim (Hno _ Hp d). }
          apply in_app_or in Hd. destruct Hd as [Hd | Hd].
          { apply Hok in Hd. discriminate. }
          apply in_app_or in Hd. destruct Hd as [Hd | [-> | []]].
          { now elim (Hno _ Hd d). }
          split; [reflexivity|]. eexists. split; [exact Hlast|].
          intros [E | Hp]; [discriminate | now elim Hpre]. }
        split.
        { intros ev _ _. exists c. eexists.
          split; [reflexivity|]. split; [exact Hc | exact Hlast]. }
        right. eexists. reflexivity.
Qed.


(** X11 (lines 173-178, 200-203): the thumbnail.  When the input
    directory holds a manifest file that passes the tests, the manifest
    names a thumbnail, and the thumbnail exists, a build that returns has
    written no member from the path of the thumbnail (its name joined to
    the input directory), and the manifest of the caller has lost its
    [thumbnail]. *)
Theorem thumbnail_is_left_out :
  forall config m before tr m' archive thumbnail,
    create_archive config m before = (tr, m', Returned archive) ->
    dict_get (txt "thumbnail") m = Some (JStr thumbnail) ->
    (forall tr0,
        path_exists tr0 (path_join (input_directory config) thumbnail)
        = true) ->
    existsb (kept_manifest config) (walked (walk (input_directory config)))
    = true ->
    exists new,
      tr = before ++ new
      /\ (forall arcname,
            ~ In (ZipWrite (path_join (input_directory config) thumbnail)
                           arcname) new)
      /\ dict_get (txt "thumbnail") m' = None.
Proof.
  intros config m before tr m' archive thumbnail H Ht Hx Hman.
  destruct (create_archive_run _ _ _ _ _ _ H)
    as [(_ & _ & [E | E]) | [(_ & _ & E) | (st & r & Hl & -> & Hr)]];
    try discriminate.
  destruct Hr as [(e & _ & E & _) | (-> & a & arch & -> & _ & Hout)];
    [discriminate|].
  destruct Hout as (_ & wa & -> & Hwa).
  destruct (for_pairs_spec _ _ _ _ _ _ Hl)
    as ((new & Hev & Hok) & Hnone & _ & _ & Hin).
  destruct (Hnone eq_refl) as [_ Hm].
  specialize (Hin eq_refl Hman thumbnail Ht Hx).
  cbn [events manifest] in *.
  apply file_events_not_archive in Hok.
  eexists. split; [rewrite Hev, <- !app_assoc; reflexivity|].
  split.
  - intros arcname Hz. apply zip_writes_In in Hz.
    cbn [app zip_writes] in Hz. rewrite zip_writes_app in Hz.
    rewrite (zip_writes_none new Hok) in Hz.
    cbn [app zip_writes] in Hz.
    rewrite zip_writes_app, Hwa in Hz.
    cbn [zip_writes] in Hz. rewrite app_nil_r in Hz.
    apply filter_In in Hz. destruct Hz as [_ Hz]. cbn [fst] in Hz.
    apply negb_true_iff in Hz.
    assert (key_in (path_join (input_directory config) thumbnail)
                   (files_to_remove_from_archive st) = true)
      by (now apply key_in_In).
    congruence.
  - rewrite Hm, Hman. rewrite dict_get_del. now rewrite str_eqb_refl.
Qed.

Ltac succeeded H st Ec :=
  apply and_then_inv in H;
  let e := fresh "e" in
  let E := fresh "E" in
  destruct H as [(st & Ec & H) | (e & _ & E)]; [|discriminate].

Lemma process_file_writes : forall config tmp dirname filename st st',
  process_file config tmp dirname filename st = (st', None) ->
  kept config (dirname, filename) = true ->
  is_manifest config (dirname, filename) || endswith filename (txt ".json")
  = true ->
  exists new text,
    events st' = events st ++ new
    /\ In (WriteText (path_join tmp (rel_path config (dirname, filename)))
                     text) new
    /\ (if is_manifest config (dirname, filename)
        then text = dumps (JObj (dict_del (txt "thumbnail") (manifest st)))
        else optimize_json (read_binary (path_join dirname filename))
             = Return text).
Proof.
  intros config tmp dirname filename st st' H Hk Hs.
  unfold kept, rel_path in Hk. cbn [fst snd] in Hk.
  apply andb_true_iff in Hk. destruct Hk as [Hk E3].
  apply andb_true_iff in Hk. destruct Hk as [E1 E2].
  apply negb_true_iff in E1, E2, E3.
  unfold process_file in H. cbv zeta in H. rewrite E1, E2, E3 in H.
  unfold is_manifest, rel_path in *. cbn [fst snd] in *.
  set (rel := relpath (path_join dirname filename) (input_directory config))
    in *.
  succeeded H st1 Ed.
  apply (make_temp_dir_step config tmp (dirname, filename)) in Ed.
  destruct Ed as ((new1 & Hev1 & _) & _ & Hm1 & _).
  destruct (str_eqb rel (txt "plugin.manifest")
            && OutputFormat_eqb (output_format config) STORE) eqn:Em.
  - unfold stage_manifest in H. cbv zeta in H.
    succeeded H st2 Er. apply remove_thumbnail_step in Er.
    destruct Er as ((new2 & Hev2 & _) & _ & Hm2 & _).
    succeeded H st3 Ec3. destruct (call_inv _ _ _ _ Ec3) as [-> _].
    succeeded H st4 Ec4. destruct (call_inv _ _ _ _ Ec4) as [-> _].
    st_simpl_all. injection H as <-. st_simpl.
    rewrite Hev2, Hev1, <- !app_assoc. do 2 eexists.
    split; [reflexivity|]. split.
    + do 4 (apply in_or_app; right). left. reflexivity.
    + now rewrite (Hm2 eq_refl), Hm1.
  - cbn [orb] in Hs. rewrite Hs in H.
    unfold stage_json in H. cbv zeta in H.
    succeeded H st2 Ec2. destruct (call_inv _ _ _ _ Ec2) as [-> _].
    succeeded H st3 Ec3. destruct (call_inv _ _ _ _ Ec3) as [-> _].
    succeeded H st4 Ec4. destruct (call_inv _ _ _ _ Ec4) as [-> _].
    destruct (negb (is_utf8 (path_join dirname filename)));
      [discriminate|].
    destruct (optimize_json_log (read_binary (path_join dirname filename)))
      as [lg [text|e]] eqn:Eo; [|discriminate].
    succeeded H st5 Ec5. destruct (call_inv _ _ _ _ Ec5) as [-> _].
    injection H as <-. st_simpl.
    rewrite Hev1, <- !app_assoc. do 2 eexists.
    split; [reflexivity|]. split.
    + do 6 (apply in_or_app; right). left. reflexivity.
    + unfold optimize_json. now rewrite Eo.
Qed.

Lemma for_pairs_writes : forall config tmp l st st' file,
  for_pairs config tmp l st = (st', None) ->
  In file l ->
  kept config file = true ->
  is_manifest config file || endswith (snd file) (txt ".json") = true ->
  exists new text,
    events st' = events st ++ new
    /\ In (WriteText (path_join tmp (rel_path config file)) text) new
    /\ (if is_manifest config file
        then text = dumps (JObj (dict_del (txt "thumbnail") (manifest st)))
        else optimize_json (read_binary (path_join (fst file) (snd file)))
             = Return text).
Proof.
  intros config tmp l. induction l as [|[dirname filename] l IH];
    intros st st' file H Hin Hk Hs; [destruct Hin|].
  cbn [for_pairs fst snd] in H.
  destruct (process_file config tmp dirname filename st)
    as [st1 [e|]] eqn:Ep; [discriminate|].
  destruct Hin as [<- | Hin].
  - destruct (process_file_writes _ _ _ _ _ _ Ep Hk Hs)
      as (new & text & Hev & Hw & Ht).
    destruct (for_pairs_spec _ _ _ _ _ _ H) as ((new' & Hev' & _) & _).
    exists (new ++ new'), text.
    split; [now rewrite Hev', Hev, app_assoc|].
    split; [apply in_or_app; now left | exact Ht].
  - destruct (process_file_step _ _ _ _ _ _ _ Ep)
      as ((new & Hev & _) & Hnone & _).
    destruct (Hnone eq_refl) as [_ Hm].
    destruct (IH _ _ _ H Hin Hk Hs) as (new' & text & Hev' & Hw & Ht).
    exists (new ++ new'), text.
    split; [now rewrite Hev', Hev, app_assoc|].
    split; [apply in_or_app; now right|].
    destruct (is_manifest config file); [|exact Ht].
    rewrite Ht, Hm.
    destruct (kept_manifest config (dirname, filename));
      [now rewrite dict_del_idem | reflexivity].
Qed.

(** X12 (lines 180-194): the texts that stand for the manifest and for
    the JSON files.  When [create_archive] returns, it has written, for
    every file that passes the tests and is the manifest or has the
    extension [.json], a text at the path from which the member of that
    file is taken: the encoding of the manifest without [thumbnail] for
    the manifest, and the text returned by [optimize_json] on the content
    of the file for any other. *)
Theorem staged_files_are_written :
  forall config m before tr m' archive file,
    create_archive config m before = (tr, m', Returned archive) ->
    In file (walked (walk (input_directory config))) ->
    kept config file = true ->
    is_manifest config file || endswith (snd file) (txt ".json") = true ->
    exists new text,
      tr = before ++ new
      /\ In (WriteText (fst (staged config (mkdtemp (txt "tt-build-")) file))
                       text) new
      /\ (if is_manifest config file
          then text = dumps (JObj (dict_del (txt "thumbnail") m))
          else optimize_json (read_binary (path_join (fst file) (snd file)))
               = Return text).
Proof.
  intros config m before tr m' archive file H Hin Hk Hs.
  destruct (create_archive_run _ _ _ _ _ _ H)
    as [(_ & _ & [E | E]) | [(_ & _ & E) | (st & r & Hl & _ & Hr)]];
    try discriminate.
  destruct Hr as [(e & _ & E & _) | (-> & a & arch & -> & _ & _)];
    [discriminate|].
  destruct (for_pairs_writes _ _ _ _ _ _ Hl Hin Hk Hs)
    as (new & text & Hev & Hw & Ht).
  cbn [events manifest] in *.
  eexists. exists text.
  split; [rewrite Hev, <- !app_assoc; reflexivity|].
  split; [|exact Ht].
  unfold staged. rewrite Hs. cbn [fst].
  apply in_or_app. right. apply in_or_app. now left.
Qed.

(* ------------------------------------------------------------------ *)
(** ** [main] *)

Lemma OutputFormat_of_spec : forall value,
  OutputFormat_of value
  = if str_eqb (txt "store") value then Some STORE else None.
Proof. reflexivity. Qed.

Lemma create_archive_no_exit : forall config m before tr m' out code,
  create_archive config m before = (tr, m', out) -> out <> Exited code.
Proof.
  intros config m before tr m' out code H.
  destruct (create_archive_run _ _ _ _ _ _ H)
    as [(_ & _ & [-> | ->]) | [(_ & _ & ->) | (st & r & _ & _ & Hr)]];
    try discriminate.
  destruct Hr as [(e & _ & -> & _) | (_ & a & arch & _ & _ & Hout)];
    [discriminate|].
  destruct out; [discriminate | discriminate | contradiction].
Qed.

(** The two ways [main] goes on after the command line is parsed. *)
Lemma main_parsed : forall tr out,
  main = (tr, out) ->
  (exists code, parse_args = inr code /\ tr = [] /\ out = Exited code)
  \/ (exists args, parse_args = inl args /\ main_with args = (tr, out)).
Proof.
  intros tr out H. unfold main in H. destruct parse_args as [args | code].
  - right. now exists args.
  - left. injection H as <- <-. now exists code.
Qed.

Lemma main_with_cases : forall args,
  (rejected args
   /\ snd (main_with args) = Exited 1%Z
   /\ Forall (fun e => changes_files e = false) (fst (main_with args)))
  \/ (~ rejected args /\ forall code, snd (main_with args) <> Exited code).
Proof.
  intros args. unfold main_with. cbv zeta. rewrite OutputFormat_of_spec.
  change (abspath (args_input_directory args)) with (plugin_dir args).
  change (path_join (plugin_dir args) (txt "plugin.manifest"))
    with (manifest_path args).
  destruct (str_eqb (txt "store") (args_output_format args)) eqn:Ef.
  2:{ left. split; [|split; [reflexivity | repeat constructor]].
      left. apply str_eqb_neq in Ef. congruence. }
  apply str_eqb_eq in Ef.
  destruct (path_exists [] (plugin_dir args)) eqn:Ed; cbn [negb].
  2:{ left. split; [|split; [reflexivity | repeat constructor]].
      right. now left. }
  destruct (path_exists [] (manifest_path args)) eqn:Em; cbn [negb].
  2:{ left. split; [|split; [reflexivity | repeat constructor]].
      right. right. now left. }
  destruct (call_fails [] (OpenRead (manifest_path args))) eqn:Eo.
  { right. split; [|discriminate].
    intros [H | [H | [H | (H & _)]]]; congruence. }
  destruct (call_fails [OpenRead (manifest_path args)]
                       (ReadFile (manifest_path args))) eqn:Er.
  { right. split; [|discriminate].
    intros [H | [H | [H | (_ & H & _)]]]; congruence. }
  assert (Hrej : forall v,
             loads (read_text (manifest_path args)) = Some v ->
             is_object v = false -> rejected args).
  { intros v Hv Ho. right. right. right.
    split; [exact Eo|]. split; [exact Er|]. now exists v. }
  assert (Hnot : (forall v,
                     loads (read_text (manifest_path args)) = Some v ->
                     is_object v = true) ->
                 ~ rejected args).
  { intros Hall [H | [H | [H | (_ & _ & v & Hv & Ho)]]]; try congruence.
    rewrite (Hall v Hv) in Ho. discriminate. }
  destruct (loads (read_text (manifest_path args))) as [v|] eqn:El.
  2:{ right. split; [apply Hnot; intros v; discriminate | discriminate]. }
  destruct v as [| | | | | |m];
    try (left; split; [eapply Hrej; reflexivity|];
         split; [reflexivity | repeat constructor]).
  right. split; [apply Hnot; intros v Hv; now injection Hv as <-|].
  intros code.
  destruct (negb (path_exists _ _) && call_fails _ _); [discriminate|].
  destruct (dict_get (txt "title") m); [|discriminate].
  destruct (dict_get (txt "version") m); [|discriminate].
  destruct (create_archive _ _ _) as [[tr m'] out] eqn:Ec.
  destruct out as [a | e | code0]; cbn [snd];
    [discriminate | discriminate |].
  now elim (create_archive_no_exit _ _ _ _ _ _ code0 Ec).
Qed.

(** X13 (lines 235-259): when [main] exits.  [main] exits exactly when
    the parser of the command line leaves the program, and then with the
    status of the parser and before anything is logged or done, or when
    the options are parsed and the output format is not [store], the
    input directory does not exist, it holds no manifest file, or the
    manifest file is read and holds a JSON value that is not an object,
    and then with status 1 and without having made or written anything.
    A manifest file that cannot be opened or read or is not JSON, a
    manifest without [title] or [version], and a failure of the build end
    [main] with the exception, not with an exit. *)
Theorem main_exits_when_rejected :
  (forall code,
      snd main = Exited code
      <-> parse_args = inr code
          \/ exists args,
               parse_args = inl args /\ code = 1%Z /\ rejected args)
  /\ (forall code, parse_args = inr code -> main = ([], Exited code))
  /\ (forall args,
        parse_args = inl args -> rejected args ->
        Forall (fun e => changes_files e = false) (fst main)).
Proof.
  unfold main. destruct parse_args as [args | code0].
  - destruct (main_with_cases args) as [(Hr & He & Hf) | (Hn & Hne)].
    + split; [|split; [discriminate|]].
      * intros code. rewrite He. split.
        -- intros E. injection E as <-. right. now exists args.
        -- intros [E | (args' & E & -> & _)]; [discriminate | reflexivity].
      * intros args' E _. exact Hf.
    + split; [|split; [discriminate|]].
      * intros code. split.
        -- intros E. now elim (Hne code).
        -- intros [E | (args' & E & _ & Hr)]; [discriminate|].
           injection E as <-. now elim Hn.
      * intros args' E Hr. injection E as <-. now elim Hn.
  - split; [|split; [|discriminate]].
    + intros code. cbn [snd]. split.
      * intros E. injection E as <-. now left.
      * intros [E | (args & E & _)]; [now injection E as <- | discriminate].
    + intros code E. now injection E as <-.
Qed.

Lemma staged_snd : forall config tmp file,
  snd (staged config tmp file) = rel_path config file.
Proof.
  intros config tmp file. unfold staged.
  now destruct (is_manifest config file || endswith (snd file) (txt ".json")).
Qed.

Lemma not_archive_event_In : forall (l : list event) src arc,
  Forall (fun e => archive_event e = false) l ->
  ~ In (ZipWrite src arc) l.
Proof.
  intros l src arc H Hin. rewrite Forall_forall in H.
  specialize (H _ Hin). discriminate.
Qed.

(** Where a member of the archive comes from. *)
Lemma create_archive_member : forall config m before tr m' out src arc,
  create_archive config m before = (tr, m', out) ->
  Forall (fun e => archive_event e = false) before ->
  In (ZipWrite src arc) tr ->
  exists file,
    In file (walked (walk (input_directory config)))
    /\ kept config file = true
    /\ staged config (mkdtemp (txt "tt-build-")) file = (src, arc)
    /\ (is_manifest config file || endswith (snd file) (txt ".json") = true ->
        exists text,
          In (WriteText src text) tr
          /\ (if is_manifest config file
              then text = dumps (JObj (dict_del (txt "thumbnail") m))
              else optimize_json
                     (read_binary (path_join (fst file) (snd file)))
                   = Return text)).
Proof.
  intros config m before tr m' out src arc H Hb Hin.
  destruct (create_archive_run _ _ _ _ _ _ H)
    as [(-> & _ & _) | [(-> & _ & _) | (st & r & Hl & _ & Hr)]].
  - now elim (not_archive_event_In before src arc Hb).
  - apply in_app_or in Hin. destruct Hin as [Hin | [Hin | []]];
      [now elim (not_archive_event_In before src arc Hb) | discriminate].
  - destruct (for_pairs_spec _ _ _ _ _ _ Hl)
      as ((new & Hev & Hok) & Hnone & _).
    cbn [events files_to_include manifest] in Hev, Hok, Hnone.
    apply file_events_not_archive in Hok.
    assert (Hpre : ~ In (ZipWrite src arc) (events st)).
    { rewrite Hev. intros Hz.
      apply in_app_or in Hz. destruct Hz as [Hz | Hz];
        [|now elim (not_archive_event_In new src arc Hok)].
      apply in_app_or in Hz. destruct Hz as [Hz | [Hz | []]];
        [now elim (not_archive_event_In before src arc Hb) | discriminate]. }
    destruct Hr as [(e & _ & _ & ->) | (-> & a & arch & -> & Harch & _)];
      [now elim Hpre|].
    destruct (Hnone eq_refl) as [Hfiles _]. cbn [app] in Hfiles.
    apply in_app_or in Hin. destruct Hin as [Hin | Hin]; [now elim Hpre|].
    destruct Hin as [Hin | Hin]; [discriminate|].
    rewrite Forall_forall in Harch. apply Harch in Hin.
    destruct Hin as [Hin _].
    rewrite Hfiles in Hin. apply in_map_iff in Hin.
    destruct Hin as (file & Hst & Hfile).
    apply filter_In in Hfile. destruct Hfile as [Hfile Hk].
    exists file. split; [exact Hfile|]. split; [exact Hk|].
    split; [exact Hst|].
    intros Hs.
    destruct (for_pairs_writes _ _ _ _ _ _ Hl Hfile Hk Hs)
      as (new' & text & Hev' & Hw & Ht).
    cbn [events manifest] in Hev', Ht.
    exists text. split; [|exact Ht].
    apply in_or_app. left. rewrite Hev'. apply in_or_app. right.
    unfold staged in Hst. rewrite Hs in Hst. injection Hst as <- _.
    exact Hw.
Qed.

(** What [main] did before and after the build, for a member written to
    the archive. *)
Lemma main_build : forall tr out src arc,
  main = (tr, out) ->
  In (ZipWrite src arc) tr ->
  exists args m before tr' m' out',
    parse_args = inl args
    /\ loads (read_text (manifest_path args)) = Some (JObj m)
    /\ create_archive (config_of args) m before = (tr', m', out')
    /\ Forall (fun e => archive_event e = false) before
    /\ In (ZipWrite src arc) tr'
    /\ (forall e, In e tr' -> In e tr).
Proof.
  intros tr out src arc H Hin.
  destruct (main_parsed _ _ H) as [(code & _ & -> & _) | (args & Ea & Hw)];
    [destruct Hin|].
  clear H. rename Hw into H. exists args. unfold main_with in H.
  cbv zeta in H. rewrite OutputFormat_of_spec in H.
  change (abspath (args_input_directory args)) with (plugin_dir args) in H.
  change (path_join (plugin_dir args) (txt "plugin.manifest"))
    with (manifest_path args) in H.
  assert (Hno : forall l : list event,
             Forall (fun e => archive_event e = false) l ->
             (l, out) = (tr, out) -> False).
  { intros l Hl E. injection E as <-.
    now elim (not_archive_event_In l src arc Hl). }
  destruct (str_eqb (txt "store") (args_output_format args));
    [|injection H as <- <-; exfalso; eapply Hno; [|reflexivity];
      repeat constructor].
  destruct (negb (path_exists [] (plugin_dir args)));
    [injection H as <- <-; exfalso; eapply Hno; [|reflexivity];
     repeat constructor|].
  destruct (negb (path_exists [] (manifest_path args)));
    [injection H as <- <-; exfalso; eapply Hno; [|reflexivity];
     repeat constructor|].
  destruct (call_fails [] (OpenRead (manifest_path args)));
    [injection H as <- <-; exfalso; eapply Hno; [|reflexivity];
     repeat constructor|].
  destruct (call_fails [OpenRead (manifest_path args)]
                       (ReadFile (manifest_path args)));
    [injection H as <- <-; exfalso; eapply Hno; [|reflexivity];
     repeat constructor|].
  destruct (loads (read_text (manifest_path args))) as [v|] eqn:El;
    [|injection H as <- <-; exfalso; eapply Hno; [|reflexivity];
      repeat constructor].
  destruct v as [| | | | | |m];
    try (injection H as <- <-; exfalso; eapply Hno; [|reflexivity];
         repeat constructor).
  set (tr0 := if negb (path_exists _ _) then _ else _) in H.
  assert (H0 : Forall (fun e => archive_event e = false) tr0).
  { subst tr0. destruct (negb (path_exists _ _)); repeat constructor. }
  clearbody tr0.
  destruct (negb (path_exists _ _) && call_fails _ _);
    [injection H as <- <-; exfalso; eapply Hno; [exact H0 | reflexivity]|].
  destruct (dict_get (txt "title") m) as [title|];
    [|injection H as <- <-; exfalso; eapply Hno; [exact H0 | reflexivity]].
  destruct (dict_get (txt "version") m) as [version|];
    [|injection H as <- <-; exfalso; eapply Hno; [exact H0 | reflexivity]].
  destruct (create_archive _ m _) as [[tr' m'] out'] eqn:Ec.
  exists m. eexists. exists tr', m', out'.
  split; [exact Ea|]. split; [reflexivity|]. split; [exact Ec|].
  split; [apply Forall_app; split; [exact H0 | repeat constructor]|].
  destruct out' as [a | e | code]; injection H as <- <-.
  - split; [|intros e He; apply in_or_app; now left].
    apply in_app_or in Hin. destruct Hin as [Hin | [Hin | []]];
      [exact Hin | discriminate].
  - split; [exact Hin | auto].
  - split; [exact Hin | auto].
Qed.

Lemma existsb_false : forall (A : Type) (p : A -> bool) l,
  existsb p l = false -> Forall (fun x => p x = false) l.
Proof.
  intros A p l H. induction l as [|x l IH]; [constructor|].
  cbn [existsb] in H. apply orb_false_iff in H. destruct H as [H1 H2].
  constructor; [exact H1 | now apply IH].
Qed.

(** X14 (lines 26, 35-37, 149-161, 235, 266-270): what [main] never puts
    in the archive.  Every member written in a run of [main], whether
    the run ends well or not, is a file of the walk of the input
    directory of the parsed options, under its relative path; its name
    does not end with [.py], [.md] or [.sh], and no part of its relative
    path starts with a dot or an underscore or is [Redundancy]. *)
Theorem main_leaves_ignored_files_out : forall tr out src arc,
  main = (tr, out) ->
  In (ZipWrite src arc) tr ->
  exists args dirname filename,
    parse_args = inl args
    /\ In (dirname, filename) (walked (walk (plugin_dir args)))
    /\ arc = relpath (path_join dirname filename) (plugin_dir args)
    /\ endswith filename (txt ".py") = false
    /\ endswith filename (txt ".md") = false
    /\ endswith filename (txt ".sh") = false
    /\ Forall (fun part =>
                 prefix_of (txt ".") part = false
                 /\ prefix_of (txt "_") part = false
                 /\ part <> txt "Redundancy")
              (str_split os_sep arc).
Proof.
  intros tr out src arc H Hin.
  destruct (main_build _ _ _ _ H Hin)
    as (args & m & before & tr' & m' & out' & Ea & _ & Hc & Hb & Hin' & _).
  destruct (create_archive_member _ _ _ _ _ _ _ _ Hc Hb Hin')
    as ([dirname filename] & Hfile & Hk & Hst & _).
  exists args, dirname, filename. split; [exact Ea|].
  assert (Harc : arc = rel_path (config_of args) (dirname, filename))
    by (rewrite <- staged_snd with (tmp := mkdtemp (txt "tt-build-"));
        now rewrite Hst).
  split; [exact Hfile|]. split; [exact Harc|].
  unfold kept in Hk. rewrite <- Harc in Hk. cbn [snd] in Hk.
  apply andb_true_iff in Hk. destruct Hk as [Hk E3].
  apply andb_true_iff in Hk. destruct Hk as [E1 E2].
  apply negb_true_iff in E1, E2, E3.
  unfold has_ignored_extension in E1.
  change (ignored_extensions (config_of args))
    with [txt ".py"; txt ".md"; txt ".sh"] in E1.
  cbn [existsb] in E1.
  apply orb_false_iff in E1. destruct E1 as [Epy E1].
  apply orb_false_iff in E1. destruct E1 as [Emd E1].
  apply orb_false_iff in E1. destruct E1 as [Esh _].
  split; [exact Epy|]. split; [exact Emd|]. split; [exact Esh|].
  unfold is_ignored_item in E2.
  change (exclude_ignored_items (config_of args)) with true in E2.
  cbn [andb] in E2.
  apply orb_false_iff in E2. destruct E2 as [_ E2].
  apply existsb_false in E2.
  unfold in_ignored_directory in E3.
  change (ignored_directories (config_of args))
    with [txt "Redundancy"] in E3.
  cbn [existsb] in E3. rewrite orb_false_r in E3.
  rewrite Forall_forall in *. intros part Hp.
  specialize (E2 part Hp). apply orb_false_iff in E2.
  destruct E2 as [Edot Eund].
  split; [exact Edot|]. split; [exact Eund|].
  intros ->. apply key_in_In in Hp. congruence.
Qed.

Section ManifestMember.
Hypothesis floats : float_roundtrip.

(** X15 (lines 171-183, 235, 255-259): the manifest in the archive.  In
    a run of [main], whether it ends well or not, a member written under
    the name [plugin.manifest] is taken from a file in which the run has
    written the encoding of the manifest it had read at the path given
    by the parsed options, without [thumbnail].  That text decodes to the
    manifest read with [thumbnail] taken out: every other key has the
    value read (where Python reads back the floats it writes). *)
Theorem main_writes_the_manifest_it_read : forall tr out src,
  main = (tr, out) ->
  In (ZipWrite src (txt "plugin.manifest")) tr ->
  exists (args : Args) (m : dict) (text : str),
    parse_args = inl args
    /\ loads (read_text (manifest_path args)) = Some (JObj m)
    /\ In (WriteText src text) tr
    /\ text = dumps (JObj (dict_del (txt "thumbnail") m))
    /\ loads text = Some (JObj (dict_del (txt "thumbnail") m))
    /\ forall k,
         dict_get k (dict_del (txt "thumbnail") m)
         = if str_eqb (txt "thumbnail") k then None else dict_get k m.
Proof.
  intros tr out src H Hin.
  destruct (main_build _ _ _ _ H Hin)
    as (args & m & before & tr' & m' & out' & Ea & Hl & Hc & Hb & Hin'
        & Hsub).
  destruct (create_archive_member _ _ _ _ _ _ _ _ Hc Hb Hin')
    as (file & Hfile & Hk & Hst & Hw).
  assert (Hman : is_manifest (config_of args) file = true).
  { unfold is_manifest.
    rewrite <- staged_snd with (tmp := mkdtemp (txt "tt-build-")), Hst.
    reflexivity. }
  rewrite Hman in Hw. destruct (Hw eq_refl) as (text & Hwt & ->).
  exists args, m. eexists. split; [exact Ea|]. split; [exact Hl|].
  split; [apply Hsub; exact Hwt|]. split; [reflexivity|].
  split; [|intros k; apply dict_get_del].
  apply (loads_dumps floats).
  pose proof (loads_wf _ _ Hl) as Hwf.
  inversion Hwf as [| | | | | |d Hnd Hvals]; subst.
  destruct (dict_del_wf (txt "thumbnail") m (conj Hnd Hvals)) as [Hnd' Hv'].
  now constructor.
Qed.

End ManifestMember.


(* ------------------------------------------------------------------ *)
(** ** When a build fails and when it succeeds *)

Lemma call_result : forall e st,
  call e st = (emit e st, None)
  \/ call e st = (emit e st, Some (CallFailed e)).
Proof. intros e st. unfold call. destruct (call_fails _ _); auto. Qed.

Ltac step_call :=
  match goal with
  | |- context [and_then (call ?e ?st) _] =>
      let E := fresh "E" in
      destruct (call_result e st) as [E | E]; rewrite E; cbn [and_then];
      [|do 2 eexists; reflexivity]
  end.

Lemma process_file_raises : forall config tmp dirname filename st e,
  kept config (dirname, filename) = true ->
  is_optimized config (dirname, filename) = true ->
  optimize_json (read_binary (path_join dirname filename)) = Raise e ->
  exists st' e',
    process_file config tmp dirname filename st = (st', Some e').
Proof.
  intros config tmp dirname filename st e Hk Ho He.
  unfold kept, rel_path in Hk. cbn [fst snd] in Hk.
  apply andb_true_iff in Hk. destruct Hk as [Hk E3].
  apply andb_true_iff in Hk. destruct Hk as [E1 E2].
  apply negb_true_iff in E1, E2, E3.
  unfold is_optimized, is_manifest, rel_path in Ho. cbn [fst snd] in Ho.
  apply andb_true_iff in Ho. destruct Ho as [Em Ej].
  apply negb_true_iff in Em.
  unfold process_file. cbv zeta. rewrite E1, E2, E3.
  destruct (make_temp_dir _ st) as [st1 [e1|]]; cbn [and_then];
    [do 2 eexists; reflexivity|].
  rewrite Em, Ej. unfold stage_json. cbv zeta.
  do 3 step_call.
  destruct (negb (is_utf8 _)); [do 2 eexists; reflexivity|].
  unfold optimize_json in He.
  destruct (optimize_json_log (read_binary (path_join dirname filename)))
    as [lg r]. cbn [snd] in He. subst r. do 2 eexists. reflexivity.
Qed.

Lemma for_pairs_raises : forall config tmp l file e,
  In file l ->
  kept config file = true ->
  is_optimized config file = true ->
  optimize_json (read_binary (path_join (fst file) (snd file))) = Raise e ->
  forall st, exists st' e', for_pairs config tmp l st = (st', Some e').
Proof.
  intros config tmp l file e Hin Hk Ho He.
  induction l as [|[dirname filename] l IH]; intros st; [destruct Hin|].
  cbn [for_pairs fst snd]. destruct Hin as [<- | Hin].
  - cbn [fst snd] in He.
    destruct (process_file_raises config tmp _ _ st e Hk Ho He)
      as (st' & e' & E).
    rewrite E. now exists st', e'.
  - destruct (process_file config tmp dirname filename st) as [st1 [e1|]].
    + now exists st1, e1.
    + apply (IH Hin).
Qed.

(** X16 (lines 186-199): one file is enough to fail the build.  If
    [optimize_json] raises on the content of a file that passes the tests
    and is handed to it, [create_archive] raises, whatever the other
    files are. *)
Theorem bad_json_file_fails_the_build : forall config m before file e,
  In file (walked (walk (input_directory config))) ->
  kept config file = true ->
  is_optimized config file = true ->
  optimize_json (read_binary (path_join (fst file) (snd file))) = Raise e ->
  exists tr m' e', create_archive config m before = (tr, m', Raised e').
Proof.
  intros config m before file e Hin Hk Ho He. unfold create_archive.
  destruct (dict_get (txt "title") m); [|do 3 eexists; reflexivity].
  destruct (dict_get (txt "version") m); [|do 3 eexists; reflexivity].
  cbv zeta. unfold build. cbv zeta.
  destruct (call_result (MkDTemp (mkdtemp (txt "tt-build-")))
                        (mkState before [] [] m)) as [E | E];
    rewrite E; cbn [and_then]; [|do 3 eexists; reflexivity].
  rewrite for_walk_pairs.
  destruct (for_pairs_raises config (mkdtemp (txt "tt-build-")) _ file e
              Hin Hk Ho He
              (emit (MkDTemp (mkdtemp (txt "tt-build-")))
                    (mkState before [] [] m)))
    as (st' & e' & E').
  rewrite E'. cbn [and_then]. do 3 eexists. reflexivity.
Qed.

Lemma dict_get_None_key_in : forall k (d : dict),
  dict_get k d = None -> key_in k (keys d) = false.
Proof.
  intros k d. induction d as [|[k' v] r IH]; intros H; [reflexivity|].
  cbn [dict_get] in H. unfold key_in, keys. cbn [map existsb fst].
  destruct (str_eqb k k'); [discriminate|]. now apply IH.
Qed.

Lemma remove_thumbnail_returns : forall config st,
  (forall v, dict_get (txt "thumbnail") (manifest st) = Some v ->
             exists t, v = JStr t) ->
  exists st', remove_thumbnail config st = (st', None).
Proof.
  intros config st Ht. unfold remove_thumbnail.
  destruct (key_in (txt "thumbnail") (keys (manifest st))) eqn:Ek;
    [|eexists; reflexivity].
  destruct (dict_get (txt "thumbnail") (manifest st)) as [v|] eqn:Eg.
  - destruct (Ht v eq_refl) as [t ->]. eexists. reflexivity.
  - apply dict_get_None_key_in in Eg. congruence.
Qed.

Section NoFailure.
Hypothesis calls : no_call_fails.

Lemma call_succeeds : forall e st, call e st = (emit e st, None).
Proof. intros e st. unfold call. now rewrite calls. Qed.

Lemma process_file_returns : forall config tmp dirname filename st,
  (forall v, dict_get (txt "thumbnail") (manifest st) = Some v ->
             exists t, v = JStr t) ->
  (kept config (dirname, filename) = true ->
   is_optimized config (dirname, filename) = true ->
   is_utf8 (path_join dirname filename) = true
   /\ exists text,
        optimize_json (read_binary (path_join dirname filename))
        = Return text) ->
  exists st', process_file config tmp dirname filename st = (st', None).
Proof.
  intros config tmp dirname filename st Ht Ho.
  unfold kept, is_optimized, is_manifest, rel_path in Ho.
  cbn [fst snd] in Ho.
  unfold process_file. cbv zeta.
  destruct (has_ignored_extension config filename); [eexists; reflexivity|].
  destruct (is_ignored_item config filename _); [eexists; reflexivity|].
  destruct (in_ignored_directory config _); [eexists; reflexivity|].
  cbn [negb andb] in Ho.
  assert (Hd : exists st1,
             make_temp_dir
               (path_dirname
                  (path_join tmp
                     (relpath (path_join dirname filename)
                              (input_directory config)))) st
             = (st1, None)
             /\ manifest st1 = manifest st).
  { unfold make_temp_dir. destruct (path_exists _ _).
    - now exists st.
    - rewrite call_succeeds. cbn [and_then]. eexists. split; reflexivity. }
  destruct Hd as (st1 & -> & Hm1). cbn [and_then].
  destruct (str_eqb _ (txt "plugin.manifest")
            && OutputFormat_eqb (output_format config) STORE).
  - unfold stage_manifest. cbv zeta.
    destruct (remove_thumbnail_returns config
                (emit (Log INFO (txt "Optimizing plugin.manifest file: "
                                 ++ path_join dirname filename)) st1))
      as [st2 E].
    { st_simpl. now rewrite Hm1. }
    rewrite E. cbn [and_then]. repeat (rewrite call_succeeds; cbn [and_then]).
    eexists. reflexivity.
  - destruct (endswith filename (txt ".json")); [|eexists; reflexivity].
    destruct (Ho eq_refl eq_refl) as (Hu & text & E).
    unfold stage_json. cbv zeta.
    repeat (rewrite call_succeeds; cbn [and_then]). rewrite Hu. cbn [negb].
    unfold optimize_json in E.
    destruct (optimize_json_log (read_binary (path_join dirname filename)))
      as [lg r]. cbn [snd] in E. subst r.
    rewrite call_succeeds. cbn [and_then]. eexists. reflexivity.
Qed.

Lemma for_pairs_returns : forall config tmp l st,
  (forall v, dict_get (txt "thumbnail") (manifest st) = Some v ->
             exists t, v = JStr t) ->
  (forall file,
      In file l ->
      kept config file = true ->
      is_optimized config file = true ->
      is_utf8 (path_join (fst file) (snd file)) = true
      /\ exists text,
           optimize_json (read_binary (path_join (fst file) (snd file)))
           = Return text) ->
  exists st', for_pairs config tmp l st = (st', None).
Proof.
  intros config tmp l. induction l as [|[dirname filename] l IH];
    intros st Ht Ho; [eexists; reflexivity|].
  cbn [for_pairs fst snd].
  destruct (process_file_returns config tmp dirname filename st Ht)
    as [st1 E].
  { intros Hk Hopt. apply (Ho (dirname, filename)); [now left | |];
      assumption. }
  rewrite E. apply IH.
  - destruct (process_file_step _ _ _ _ _ _ _ E) as (_ & Hnone & _).
    destruct (Hnone eq_refl) as [_ Hm]. rewrite Hm.
    destruct (kept_manifest config (dirname, filename)); [|exact Ht].
    intros v Hv. rewrite dict_get_del, str_eqb_refl in Hv. discriminate.
  - intros file Hin. apply Ho. now right.
Qed.

Lemma write_archive_returns : forall files st,
  exists st', write_archive files st = (st', None).
Proof.
  induction files as [|[src dst] files IH]; intros st;
    [eexists; reflexivity|].
  cbn [write_archive]. destruct (key_in src _); [apply IH|].
  rewrite call_succeeds. cbn [and_then]. apply IH.
Qed.

(** X17 (lines 129-211): when a build succeeds.  If no call on the file
    system or on the archive fails, the manifest has a [title] and a
    [version], its [thumbnail], if any, is a text, and every file that
    passes the tests and is handed to [optimize_json] decodes as UTF-8
    and makes [optimize_json] return a text, then [create_archive]
    returns, and the path it returns is the title, a space, the version
    and [.zip], joined to the output directory. *)
Theorem build_succeeds : forall config m before title version,
  dict_get (txt "title") m = Some title ->
  dict_get (txt "version") m = Some version ->
  (forall v, dict_get (txt "thumbnail") m = Some v -> exists t, v = JStr t) ->
  (forall file,
      In file (walked (walk (input_directory config))) ->
      kept config file = true ->
      is_optimized config file = true ->
      is_utf8 (path_join (fst file) (snd file)) = true
      /\ exists text,
           optimize_json (read_binary (path_join (fst file) (snd file)))
           = Return text) ->
  exists tr m',
    create_archive config m before
    = (tr, m',
       Returned (path_join (output_directory config)
                           (format_value title ++ txt " "
                            ++ format_value version ++ txt ".zip"))).
Proof.
  intros config m before title version Htitle Hversion Ht Ho.
  unfold create_archive. rewrite Htitle, Hversion. cbv zeta.
  unfold build. cbv zeta. rewrite call_succeeds. cbn [and_then].
  rewrite for_walk_pairs.
  destruct (for_pairs_returns config (mkdtemp (txt "tt-build-"))
              (walked (walk (input_directory config)))
              (emit (MkDTemp (mkdtemp (txt "tt-build-")))
                    (mkState before [] [] m)) Ht Ho)
    as [st' E].
  rewrite E. cbn [and_then]. rewrite call_succeeds. cbn [and_then].
  match goal with
  | |- context [write_archive ?files ?st] =>
      destruct (write_archive_returns files st) as [st2 Ew]
  end.
  rewrite Ew. cbn [and_then]. repeat (rewrite call_succeeds; cbn [and_then]).
  do 2 eexists. reflexivity.
Qed.

End NoFailure.

End Build.
(* ------------------------------------------------------------------ *)
(** ** Runs on documents

    The documents below hold no float: the runs are the same in every
    float model. *)

Section Documents.
Context {FM : PyFloat}.

Lemma run_empty_dict :
  find_balance false 0 0 (cleaned_text (txt "{}")) = None
  /\ optimize_json (txt "{}") = Return (txt "{}").
Proof. split; vm_compute; reflexivity. Qed.

Lemma run_escaped_quote_array :
  find_balance false 0 0 (cleaned_text (txt "[{'a':'\''}]")) = None
  /\ optimize_json (txt "[{'a':'\''}]") = Return (txt "[{'a': '\''}]").
Proof. split; vm_compute; reflexivity. Qed.

Lemma run_empty_str :
  loads (truncated_text (txt "''")) = Some (JStr [])
  /\ optimize_json (txt "''") = Return (txt "''").
Proof. split; vm_compute; reflexivity. Qed.

Lemma run_two_members :
  optimize_json (txt "[{'a':1,'b':2}]") = Return (txt "[{'a': 1, 'b': 2}]").
Proof. vm_compute; reflexivity. Qed.

Lemma run_semicolon_in_string :
  loads (txt "[{'a':'x;y'}]")
  = Some (JArr [JObj [(txt "a", JStr (txt "x;y"))]])
  /\ loads (truncated_text (txt "[{'a':'x;y'}]"))
     = Some (JArr [JObj [(txt "a", JStr (txt "x,y"))]])
  /\ optimize_json (txt "[{'a':'x;y'}]") = Return (txt "[{'a': 'x,y'}]")
  /\ loads (txt "[{'a': 'x,y'}]")
     = Some (JArr [JObj [(txt "a", JStr (txt "x,y"))]]).
Proof. repeat split; vm_compute; reflexivity. Qed.

Lemma run_true_after_key :
  loads (txt "[{'a': true}]") = Some (JArr [JObj [(txt "a", JBool true)]])
  /\ optimize_json (txt "[{'a': true}]") = Return (txt "[{'a': 'true'}]")
  /\ loads (txt "[{'a': 'true'}]")
     = Some (JArr [JObj [(txt "a", JStr (txt "true"))]]).
Proof. repeat split; vm_compute; reflexivity. Qed.

End Documents.

#[local] Existing Instance one_float.

Lemma one_float_roundtrip : float_roundtrip.
Proof.
  intros f rest Hr.
  change (scan_once 1 (48 :: 46 :: 48 :: rest) = Parsed (JFloat f) rest).
  rewrite scan_once_digit by reflexivity.
  unfold match_number.
  change (match_integer (48 :: 46 :: 48 :: rest))
    with (Some ([48], 46 :: 48 :: rest)).
  cbv iota. unfold match_fraction. change ((46 =? 46) && is_digit 48) with true.
  cbv iota.
  pose proof (span_digits_app [] rest (Forall_nil _)
                (delimited_stops rest Hr)) as Hs.
  cbn [app] in Hs. rewrite Hs.
  rewrite (match_exponent_none rest Hr). now destruct f.
Qed.

(* ------------------------------------------------------------------ *)
(** ** The claims on concrete documents *)

(** C1 on a list of three objects, the second of which holds
    [privileged] (the quoter has made a string of its value). *)
Lemma privileged_aborts_run_witness :
  let f := txt "[{'a':1},{'id':'x','privileged':true},{'b':2}]" in
  let objs : list dict :=
    [[(txt "a", JInt 1)];
     [(txt "id", JStr (txt "x")); (txt "privileged", JStr (txt "true"))];
     [(txt "b", JInt 2)]] in
  loads (truncated_text f) = Some (JArr (map JObj objs))
  /\ existsb has_privileged objs = true
  /\ exists before o after plugin_id message,
       objs = before ++ o :: after
       /\ forallb (fun b => negb (has_privileged b)) before = true
       /\ has_privileged o = true
       /\ plugin_id
          = match dict_get (txt "id") o with
            | Some v => v
            | None => JStr (txt "unknown id")
            end
       /\ message
          = [Text (txt "Privileged tag detected in plugin ");
             Value plugin_id;
             Text (txt ". This tag is deprecated and no longer considered secure.Please replace it with 'require privileges': true.")]
       /\ In (Value plugin_id) message
       /\ optimize_json_log f
          = (fst (process_list (map JObj before))
             ++ [LogDebug [Text (txt "analysing ID: "); Value plugin_id]],
             Raise (Exception message))
       /\ optimize_json f = Raise (Exception message)
       /\ privileged_message (plugin_id_of o) = message.
Proof.
  intros f objs.
  assert (H1 : loads (truncated_text f) = Some (JArr (map JObj objs)))
    by (vm_compute; reflexivity).
  assert (H2 : existsb has_privileged objs = true)
    by (vm_compute; reflexivity).
  exact (conj H1 (conj H2 (privileged_aborts_run f objs H1 H2))).
Defined.

(** C2 on an object with [strict lua], [scripts] and a [mute lua] that is
    [False]. *)
Lemma process_object_effect_witness :
  let o : dict :=
    [(txt "id", JStr (txt "z")); (txt "strict lua", JBool true);
     (txt "scripts", JArr [JStr (txt "a.lua")]);
     (txt "mute lua", JBool false)] in
  has_privileged o = false
  /\ exists lg o',
       process_object (JObj o) = (lg, Return (JObj o'))
       /\ dict_get (txt "strict lua") o' = None
       /\ dict_get (txt "mute lua") o'
          = (if key_in (txt "script") (keys o)
                || key_in (txt "scripts") (keys o)
             then Some (JBool true)
             else dict_get (txt "mute lua") o)
       /\ forall k, k <> txt "strict lua" -> k <> txt "mute lua" ->
                    dict_get k o' = dict_get k o.
Proof.
  intros o.
  assert (H : has_privileged o = false) by (vm_compute; reflexivity).
  exact (conj H (process_object_effect o H)).
Defined.

(** C3 on two objects: [strict lua] goes, [mute lua] comes last. *)
Lemma output_keeps_count_and_order_witness :
  let f := txt "[{'id':'y','strict lua':true},{'id':'z','scripts':['a.lua']}]" in
  let objs : list dict :=
    [[(txt "id", JStr (txt "y")); (txt "strict lua", JStr (txt "true"))];
     [(txt "id", JStr (txt "z")); (txt "scripts", JArr [JStr (txt "a.lua")])]] in
  let out := txt "[{'id': 'y'}, {'id': 'z', 'scripts': ['a.lua'], 'mute lua': true}]" in
  loads (truncated_text f) = Some (JArr (map JObj objs))
  /\ optimize_json f = Return out
  /\ exists objs' : list dict,
       out = dumps (JArr (map JObj objs'))
       /\ length objs' = length objs
       /\ (forall i o,
             nth_error objs i = Some o ->
             exists o',
               nth_error objs' i = Some o'
               /\ snd (process_object (JObj o)) = Return (JObj o')
               /\ keys o' = keys_after o)
       /\ (float_roundtrip -> loads out = Some (JArr (map JObj objs'))).
Proof.
  intros f objs out.
  assert (H1 : loads (truncated_text f) = Some (JArr (map JObj objs)))
    by (vm_compute; reflexivity).
  assert (H2 : optimize_json f = Return out) by (vm_compute; reflexivity).
  exact (conj H1 (conj H2 (output_keeps_count_and_order f objs out H1 H2))).
Defined.

(** C5 as the specification states it fails on the code: in the text [{}]
    and in the text [[{'a':'\''}]] (with ' for the double quote) the
    depth never returns to zero, and the run returns a text. *)
Lemma unbalanced_counterexample :
  (forall i, ~ returns_to_zero (cleaned_text (txt "{}")) i)
  /\ optimize_json (txt "{}") = Return (txt "{}")
  /\ (forall i, ~ returns_to_zero (cleaned_text (txt "[{'a':'\''}]")) i)
  /\ optimize_json (txt "[{'a':'\''}]") = Return (txt "[{'a': '\''}]").
Proof.
  split; [apply find_balance_never; apply run_empty_dict|].
  split; [apply run_empty_dict|].
  split; [apply find_balance_never; apply run_escaped_quote_array|].
  apply run_escaped_quote_array.
Qed.

(** The amended C5 on the text [{}]. *)
Lemma unbalanced_text_is_decoded_whole_witness :
  let f := txt "{}" in
  (forall i, ~ returns_to_zero (cleaned_text f) i)
  /\ truncated_text f = cleaned_text f
  /\ (loads (cleaned_text f) = None ->
      optimize_json_log f = ([], Raise JSONDecodeError))
  /\ (forall data,
        loads (cleaned_text f) = Some data ->
        optimize_json_log f
        = match postprocess data with
          | (lg, Return data') => (lg, Return (dumps data'))
          | (lg, Raise e) => (lg, Raise e)
          end).
Proof.
  intros f.
  assert (H : forall i, ~ returns_to_zero (cleaned_text f) i)
    by (apply find_balance_never; vm_compute; reflexivity).
  exact (conj H (unbalanced_text_is_decoded_whole f H)).
Defined.

(** C8 as the specification states it fails on the code: the text
    returned for a compact document has a space after the colon and after
    the comma. *)
Lemma compact_output_counterexample :
  optimize_json (txt "[{'a':1,'b':2}]") = Return (txt "[{'a': 1, 'b': 2}]")
  /\ contains (txt ": ") (txt "[{'a': 1, 'b': 2}]") = true
  /\ contains (txt ", ") (txt "[{'a': 1, 'b': 2}]") = true
  /\ contains (txt " ") (txt "[{'a':1,'b':2}]") = false.
Proof.
  split; [apply run_two_members|]. repeat split; vm_compute; reflexivity.
Qed.

(** The amended C8 on that document. *)
Lemma output_layout_witness :
  let f := txt "[{'a':1,'b':2}]" in
  let objs : list dict := [[(txt "a", JInt 1); (txt "b", JInt 2)]] in
  let out := txt "[{'a': 1, 'b': 2}]" in
  loads (truncated_text f) = Some (JArr (map JObj objs))
  /\ optimize_json f = Return out
  /\ out
     = [c_lbracket]
       ++ join (txt ", ")
            (map (fun o : dict =>
                    [c_lbrace]
                    ++ join (txt ", ")
                         (map (fun kv =>
                                 encode_basestring (fst kv) ++ txt ": "
                                 ++ dumps (snd kv)) o)
                    ++ [c_rbrace])
                 (map processed objs))
       ++ [c_rbracket]
  /\ (forall s,
        Forall (fun c => 32 <= c /\ c <> c_quote /\ c <> c_backslash) s ->
        encode_basestring s = [c_quote] ++ s ++ [c_quote]).
Proof.
  intros f objs out.
  assert (H1 : loads (truncated_text f) = Some (JArr (map JObj objs)))
    by (vm_compute; reflexivity).
  assert (H2 : optimize_json f = Return out) by (vm_compute; reflexivity).
  exact (conj H1 (conj H2 (output_layout f objs out H1 H2))).
Defined.



(** C10 as the specification states it fails on the code: the empty
    string and the empty object are no lists of objects, and the run
    returns them encoded. *)
Lemma non_object_list_counterexample :
  (loads (truncated_text (txt "''")) = Some (JStr [])
   /\ is_object_list (JStr []) = false
   /\ optimize_json (txt "''") = Return (txt "''"))
  /\ (loads (truncated_text (txt "{}")) = Some (JObj [])
      /\ is_object_list (JObj []) = false
      /\ optimize_json (txt "{}") = Return (txt "{}")).
Proof. repeat split; vm_compute; reflexivity. Qed.

(** The amended C10 on a list with a number in it. *)
Lemma non_object_list_raises_witness :
  let f := txt "[{'a':1}, 5]" in
  let v := JArr [JObj [(txt "a", JInt 1)]; JInt 5] in
  loads (truncated_text f) = Some v
  /\ is_object_list v = false
  /\ is_empty_iterable v = false
  /\ exists e, optimize_json f = Raise e
               /\ (e = AttributeError \/ e = TypeError
                   \/ exists m, e = Exception m).
Proof.
  intros f v.
  assert (H1 : loads (truncated_text f) = Some v) by (vm_compute; reflexivity).
  assert (H2 : is_object_list v = false) by reflexivity.
  assert (H3 : is_empty_iterable v = false) by reflexivity.
  exact (conj H1 (conj H2 (conj H3 (non_object_list_raises f v H1 H2 H3)))).
Defined.

(* ------------------------------------------------------------------ *)
(** ** The further properties on concrete inputs *)

#[local] Existing Instance demo_host.

(** X1 on a file of two lines, the first of which ends in a comment. *)
Lemma cleaned_text_line_by_line_witness :
  let a := txt "[{'a': 1}, // first" in
  let b := txt "{'b': 2}]" in
  ~ In c_lf a
  /\ cleaned_text (a ++ c_lf :: b) = clean_line (a ++ [c_lf]) ++ cleaned_text b
  /\ (a <> [] -> cleaned_text a = clean_line a).
Proof.
  intros a b.
  assert (H : ~ In c_lf a).
  { intros H. vm_compute in H.
    repeat (destruct H as [H | H]; [discriminate H|]). exact H. }
  exact (conj H (cleaned_text_line_by_line a b H)).
Defined.

(** X6 on an object with [strict lua] and [scripts]. *)
Lemma processed_object_is_stable_witness :
  let arr_obj :=
    JObj [(txt "id", JStr (txt "z"));
          (txt "strict lua", JBool true);
          (txt "scripts", JArr [JStr (txt "a.lua")])] in
  let out :=
    JObj [(txt "id", JStr (txt "z"));
          (txt "scripts", JArr [JStr (txt "a.lua")]);
          (txt "mute lua", JBool true)] in
  process_object arr_obj = (fst (process_object arr_obj), Return out)
  /\ exists lg', process_object out = (lg', Return out).
Proof.
  intros arr_obj out.
  assert (H : process_object arr_obj
              = (fst (process_object arr_obj), Return out))
    by (vm_compute; reflexivity).
  exact (conj H (processed_object_is_stable arr_obj _ out H)).
Defined.

(** X7 on a file with one object, followed by text that the truncation
    drops. *)
Lemma output_invariants_witness :
  let f := txt "[{'id':'z','strict lua':1,'scripts':['a.lua']}] rest" in
  let out := txt "[{'id': 'z', 'scripts': ['a.lua'], 'mute lua': true}]" in
  optimize_json f = Return out
  /\ exists v : json,
       out = dumps v
       /\ wf_json v
       /\ (float_roundtrip -> loads out = Some v)
       /\ match v with
          | JArr l =>
              Forall (fun x =>
                        exists o : dict,
                          x = JObj o
                          /\ key_in (txt "privileged") (keys o) = false
                          /\ key_in (txt "strict lua") (keys o) = false
                          /\ (key_in (txt "script") (keys o)
                              || key_in (txt "scripts") (keys o) = true ->
                              dict_get (txt "mute lua") o
                              = Some (JBool true)))
                     l
          | _ => is_empty_iterable v = true
          end.
Proof.
  intros f out.
  assert (H : optimize_json f = Return out) by (vm_compute; reflexivity).
  exact (conj H (output_invariants f out H)).
Defined.

(** X8 on the example directory. *)
Lemma archive_members_witness :
  create_archive demo_config demo_manifest []
  = (demo_trace, demo_manifest_after, Returned demo_archive)
  /\ exists new removed,
       demo_trace = [] ++ new
       /\ zip_writes new
          = filter (fun member => negb (key_in (fst member) removed))
                   (map (staged demo_config (mkdtemp (txt "tt-build-")))
                        (filter (kept demo_config)
                                (walked (walk (input_directory demo_config)))))
       /\ (forall p, In p removed ->
                     exists t,
                       dict_get (txt "thumbnail") demo_manifest
                       = Some (JStr t)
                       /\ p = path_join (input_directory demo_config) t).
Proof.
  assert (H : create_archive demo_config demo_manifest []
              = (demo_trace, demo_manifest_after, Returned demo_archive))
    by (vm_compute; reflexivity).
  exact (conj H (archive_members demo_config demo_manifest [] _ _ _ H)).
Defined.

(** X9 on the example directory when the archive takes one member only:
    the build raises on the second [zf.write], with the archive open and
    the temporary directory left behind. *)
Lemma archive_and_temporary_directory_witness :
  let failed :=
    CallFailed (ZipWrite (txt "/tmp/tt-build-0/a.json") (txt "a.json")) in
  create_archive (OS := full_disk_host) demo_config demo_manifest []
  = (fst (fst failed_build), snd (fst failed_build), Raised failed)
  /\ exists new,
       fst (fst failed_build) = [] ++ new
       /\ (forall d, In (RmTree d) new ->
                     failed = CallFailed (RmTree d)
                     /\ exists pre, new = pre ++ [RmTree d]
                                    /\ ~ In (RmTree d) pre)
       /\ (forall ev, In ev new -> archive_event ev = true ->
                      exists c pre,
                        failed = CallFailed c /\ archive_event c = true
                        /\ new = pre ++ [c])
       /\ ((new = []
            /\ (failed = KeyError (txt "title")
                \/ failed = KeyError (txt "version")))
           \/ exists mid,
                new = MkDTemp (mkdtemp (Host := full_disk_host)
                                       (txt "tt-build-")) :: mid).
Proof.
  intros failed.
  assert (H : create_archive (OS := full_disk_host) demo_config
                             demo_manifest []
              = (fst (fst failed_build), snd (fst failed_build),
                 Raised failed))
    by (vm_compute; reflexivity).
  exact (conj H (archive_and_temporary_directory (OS := full_disk_host)
                   demo_config demo_manifest [] _ _ _ H)).
Defined.


(** X11 on the example directory: [thumb.png] is no member. *)
Lemma thumbnail_is_left_out_witness :
  create_archive demo_config demo_manifest []
  = (demo_trace, demo_manifest_after, Returned demo_archive)
  /\ dict_get (txt "thumbnail") demo_manifest = Some (JStr (txt "thumb.png"))
  /\ (forall tr0,
         path_exists tr0 (path_join (input_directory demo_config)
                                    (txt "thumb.png"))
         = true)
  /\ existsb (kept_manifest demo_config)
             (walked (walk (input_directory demo_config)))
     = true
  /\ exists new,
       demo_trace = [] ++ new
       /\ (forall arcname,
             ~ In (ZipWrite (path_join (input_directory demo_config)
                                       (txt "thumb.png"))
                            arcname) new)
       /\ dict_get (txt "thumbnail") demo_manifest_after = None.
Proof.
  assert (H : create_archive demo_config demo_manifest []
              = (demo_trace, demo_manifest_after, Returned demo_archive))
    by (vm_compute; reflexivity).
  assert (H1 : dict_get (txt "thumbnail") demo_manifest
               = Some (JStr (txt "thumb.png")))
    by reflexivity.
  assert (H2 : forall tr0,
             path_exists tr0 (path_join (input_directory demo_config)
                                        (txt "thumb.png"))
             = true)
    by (intros tr0; reflexivity).
  assert (H3 : existsb (kept_manifest demo_config)
                       (walked (walk (input_directory demo_config)))
               = true)
    by (vm_compute; reflexivity).
  exact (conj H (conj H1 (conj H2 (conj H3
           (thumbnail_is_left_out demo_config demo_manifest [] _ _ _
                                  (txt "thumb.png") H H1 H2 H3))))).
Defined.

(** X12 on the file [a.json] of the example directory. *)
Lemma staged_files_are_written_witness :
  let file := (txt "/p", txt "a.json") in
  create_archive demo_config demo_manifest []
  = (demo_trace, demo_manifest_after, Returned demo_archive)
  /\ In file (walked (walk (input_directory demo_config)))
  /\ kept demo_config file = true
  /\ is_manifest demo_config file || endswith (snd file) (txt ".json") = true
  /\ exists new text,
       demo_trace = [] ++ new
       /\ In (WriteText
                (fst (staged demo_config (mkdtemp (txt "tt-build-")) file))
                text) new
       /\ (if is_manifest demo_config file
           then text
                = dumps (JObj (dict_del (txt "thumbnail") demo_manifest))
           else optimize_json (read_binary (path_join (fst file) (snd file)))
                = Return text).
Proof.
  intros file.
  assert (H : create_archive demo_config demo_manifest []
              = (demo_trace, demo_manifest_after, Returned demo_archive))
    by (vm_compute; reflexivity).
  assert (H1 : In file (walked (walk (input_directory demo_config))))
    by (right; left; reflexivity).
  assert (H2 : kept demo_config file = true) by (vm_compute; reflexivity).
  assert (H3 : is_manifest demo_config file
               || endswith (snd file) (txt ".json") = true)
    by (vm_compute; reflexivity).
  exact (conj H (conj H1 (conj H2 (conj H3
           (staged_files_are_written demo_config demo_manifest [] _ _ _
                                     file H H1 H2 H3))))).
Defined.

(** X14 on the run of [main] on the example directory, for the member
    [img/x.png]. *)
Lemma main_leaves_ignored_files_out_witness :
  let src := txt "/p/img/x.png" in
  let arc := txt "img/x.png" in
  main = (fst demo_main, snd demo_main)
  /\ In (ZipWrite src arc) (fst demo_main)
  /\ exists args dirname filename,
       parse_args = inl args
       /\ In (dirname, filename) (walked (walk (plugin_dir args)))
       /\ arc = relpath (path_join dirname filename) (plugin_dir args)
       /\ endswith filename (txt ".py") = false
       /\ endswith filename (txt ".md") = false
       /\ endswith filename (txt ".sh") = false
       /\ Forall (fun part =>
                    prefix_of (txt ".") part = false
                    /\ prefix_of (txt "_") part = false
                    /\ part <> txt "Redundancy")
                 (str_split os_sep arc).
Proof.
  intros src arc.
  assert (H : main = (fst demo_main, snd demo_main))
    by (vm_compute; reflexivity).
  assert (H1 : In (ZipWrite src arc) (fst demo_main))
    by (vm_compute; repeat (first [left; reflexivity | right])).
  exact (conj H (conj H1
           (main_leaves_ignored_files_out _ _ src arc H H1))).
Defined.

(** X15 on the run of [main] on the example directory. *)
Lemma main_writes_the_manifest_it_read_witness :
  let src := txt "/tmp/tt-build-0/plugin.manifest" in
  float_roundtrip
  /\ main = (fst demo_main, snd demo_main)
  /\ In (ZipWrite src (txt "plugin.manifest")) (fst demo_main)
  /\ exists (args : Args) (m : dict) (text : str),
       parse_args = inl args
       /\ loads (read_text (manifest_path args)) = Some (JObj m)
       /\ In (WriteText src text) (fst demo_main)
       /\ text = dumps (JObj (dict_del (txt "thumbnail") m))
       /\ loads text = Some (JObj (dict_del (txt "thumbnail") m))
       /\ forall k,
            dict_get k (dict_del (txt "thumbnail") m)
            = if str_eqb (txt "thumbnail") k then None else dict_get k m.
Proof.
  intros src.
  assert (H : main = (fst demo_main, snd demo_main))
    by (vm_compute; reflexivity).
  assert (H1 : In (ZipWrite src (txt "plugin.manifest")) (fst demo_main))
    by (vm_compute; repeat (first [left; reflexivity | right])).
  exact (conj one_float_roundtrip (conj H (conj H1
           (main_writes_the_manifest_it_read one_float_roundtrip
              _ _ src H H1)))).
Defined.

(** X16 on the example directory, where the file [a.json] is no JSON. *)
Lemma bad_json_file_fails_the_build_witness :
  let file := (txt "/p", txt "a.json") in
  In file (walked (walk (Host := broken_host) (input_directory demo_config)))
  /\ kept (OS := broken_host) demo_config file = true
  /\ is_optimized (OS := broken_host) demo_config file = true
  /\ optimize_json
       (read_binary (Host := broken_host)
          (path_join (Host := broken_host) (fst file) (snd file)))
     = Raise JSONDecodeError
  /\ exists tr m' e',
       create_archive (OS := broken_host) demo_config demo_manifest []
       = (tr, m', Raised e').
Proof.
  intros file.
  assert (H1 : In file (walked (walk (Host := broken_host)
                                     (input_directory demo_config))))
    by (right; left; reflexivity).
  assert (H2 : kept (OS := broken_host) demo_config file = true)
    by (vm_compute; reflexivity).
  assert (H3 : is_optimized (OS := broken_host) demo_config file = true)
    by (vm_compute; reflexivity).
  assert (H4 : optimize_json
                 (read_binary (Host := broken_host)
                    (path_join (Host := broken_host) (fst file) (snd file)))
               = Raise JSONDecodeError)
    by (vm_compute; reflexivity).
  exact (conj H1 (conj H2 (conj H3 (conj H4
           (bad_json_file_fails_the_build (OS := broken_host) demo_config
              demo_manifest [] file JSONDecodeError H1 H2 H3 H4))))).
Defined.

(** X17 on the example directory, where no call fails. *)
Lemma build_succeeds_witness :
  let title := JStr (txt "Demo") in
  let version := JStr (txt "1.0") in
  no_call_fails
  /\ dict_get (txt "title") demo_manifest = Some title
  /\ dict_get (txt "version") demo_manifest = Some version
  /\ (forall v, dict_get (txt "thumbnail") demo_manifest = Some v ->
                exists t, v = JStr t)
  /\ (forall file,
         In file (walked (walk (input_directory demo_config))) ->
         kept demo_config file = true ->
         is_optimized demo_config file = true ->
         is_utf8 (path_join (fst file) (snd file)) = true
         /\ exists text,
              optimize_json (read_binary (path_join (fst file) (snd file)))
              = Return text)
  /\ exists tr m',
       create_archive demo_config demo_manifest []
       = (tr, m',
          Returned (path_join (output_directory demo_config)
                              (format_value title ++ txt " "
                               ++ format_value version ++ txt ".zip"))).
Proof.
  intros title version.
  assert (H0 : no_call_fails) by (intros tr e; reflexivity).
  assert (H1 : dict_get (txt "title") demo_manifest = Some title)
    by reflexivity.
  assert (H2 : dict_get (txt "version") demo_manifest = Some version)
    by reflexivity.
  assert (H3 : forall v, dict_get (txt "thumbnail") demo_manifest = Some v ->
                         exists t, v = JStr t).
  { intros v Hv. vm_compute in Hv. injection Hv as <-. eexists. reflexivity. }
  assert (H4 : forall file,
             In file (walked (walk (input_directory demo_config))) ->
             kept demo_config file = true ->
             is_optimized demo_config file = true ->
             is_utf8 (path_join (fst file) (snd file)) = true
             /\ exists text,
                  optimize_json (read_binary (path_join (fst file) (snd file)))
                  = Return text).
  { intros file Hin Hk Ho.
    repeat (destruct Hin as [<- | Hin];
            [first [ vm_compute in Hk; discriminate Hk
                   | vm_compute in Ho; discriminate Ho
                   | split; [reflexivity | eexists; vm_compute; reflexivity] ]|]).
    destruct Hin. }
  exact (conj H0 (conj H1 (conj H2 (conj H3 (conj H4
           (build_succeeds H0 demo_config demo_manifest [] title version
                           H1 H2 H3 H4)))))).
Defined.
